(* ===== verification/_CoqProject ===== *)
-Q . S2P
Prelude.v
GoRuntime.v
Domain.v
Database.v
Repository.v
Sha256.v
Service.v
Spec.v
Machine.v
Rely.v
Workload.v
Scheduling.v
RepositoryCorrect.v
ServiceCorrect.v
Concurrency.v
Scenario.v
Safety.v
Progress.v
Sequential.v
Spans.v
Reference.v
Idempotency.v
History.v
Walks.v
Strconv.v
GoTime.v
Float64.v
GoDuration.v
Json.v
Web.v
Mux.v
Handlers.v
Router.v
Config.v
Net.v
Startup.v
Lifecycle.v
LifecycleLogic.v
LifecycleCorrect.v
Routes.v
Debug.v
Logic.v
Http.v
HttpCorrect.v
HttpConcurrent.v
HttpProgress.v
MainCorrect.v
Stopping.v
Site.v
SiteCorrect.v
Counters.v
Schema.v
SchemaCorrect.v
Testdb.v
Metrics.v
