(* ===== verification/Prelude.v ===== *)
(** * Wallet transfer service: a verification development

    The program (Go, under [src/]) is an HTTP service that moves money between
    wallets kept in Postgres.  A transfer request carries an idempotency key;
    the service answers a repeated key with the transfer made for it, keeps a
    double-entry ledger, and locks the two wallets in a fixed order.  This
    development models the program from [main] and its environment variables
    over the HTTP request to the SQL statement as executable definitions, and
    proves what the parts promise.

    ** The parts, and where they are

    Base.
    - [Prelude]: libraries, shared tactics, int64 arithmetic with wrap-around,
      the byte order of strings, finite-map rewriting.
    - [GoRuntime]: Go error values ([errors.Is], [errors.As], wrapping), and
      effectful Go code as programs ([proc]) over a signature of operations,
      with panics, deferred closures, and early returns.

    The service.
    - [Domain] (internal/domain): wallets, transfers, ledger entries, the state
      machine, the error sentinels.
    - [Database] (migrations/*.sql and the queries of
      internal/repository/postgres): the four tables as finite maps, their
      constraints, and for each SQL statement what it reads, writes, violates
      and locks.
    - [Repository] (internal/repository, internal/repository/postgres): the
      operations of database/sql ([svcE]), the repository interfaces as records,
      their implementations ([WalletRepo], [TransferRepo], [LedgerRepo],
      [IdempotencyRepo]) and [RunInTx].
    - [Sha256] (crypto/sha256, encoding/hex): the request digest, in full.
    - [Service] (internal/service): [Create], [executeTransfer],
      [replayIfExists], the history with its limits, the wallet service.
    - [Spans] (internal/tracing, and the span of internal/service/transfer.go):
      [Tracer] and [Create] with the calls on its span, run to a log of them.

    How it runs.
    - [Machine]: the operations over a shared database, for any number of
      requests at once: private writes of open transactions, row locks and
      pending index entries, waiting, aborted transactions, the connection pool,
      and a fault that can strike at any operation and leave a COMMIT in doubt.
    - [Workload]: the class of what can run on it, a family of programs with a
      postcondition for each; the states their interleavings reach
      ([reachable]).  [Scheduling]: for any workload, no circular wait, and
      bounded programs finish.
    - [Concurrency]: the five service requests ([api], [serve]) as a workload;
      [HttpConcurrent]: HTTP requests, through the whole handler, as another;
      [Walks]: service requests and clients that follow a history's cursors as a
      third; [Spans]: calls of [Create] and the logs of their spans as a fourth.

    The HTTP side.
    - [Strconv], [GoTime], [Json]: the conversions the handlers use of strconv,
      time and encoding/json, with what reading and writing have to do with each
      other.
    - [Web] (net/http): requests on a heap (a middleware copies the struct, the
      router writes to the copy), the response, the status recorders, handlers
      as service programs that also change this state.
    - [Mux] (net/url, http.ServeMux): percent decoding, queries, clean paths,
      patterns, 301, 404 and 405.
    - [Handlers] (internal/handler/errors.go, transfer.go, wallet.go) and
      [Router] (internal/handler/middleware.go, router.go,
      internal/metrics/middleware.go, and the handler tree of
      cmd/server/main.go).
    - [Routes]: the route table, and that the patterns given to the mux are it;
      [Debug] (internal/handler/debug.go): the same for the admin mux.

    The process.
    - [Float64], [GoDuration]: time.ParseDuration, whose fractions go through
      binary64, and Duration.String.
    - [Config] (internal/config): [Load] over the environment.
    - [Net] (net, and isLoopbackAddr of cmd/server/main.go): splitting and
      parsing addresses.
    - [Startup] (internal/tracing, internal/db, cmd/server/main.go): [Setup],
      [OpenWithPool], [Migrate], [run] and [main] as programs over the operations
      of the process.
    - [Lifecycle] runs them: the goroutine of main, the goroutine of each
      listener, the channel of its error, and from outside the signal,
      connections, failing listeners and the deadline, in any order.
    - [Site]: that process with the requests it accepts, [Lifecycle]'s events
      and [Machine]'s steps in one: a request arrives when the listener takes
      it, its handler works through the pool the process has opened, its
      response ends it, and everything stops when main has returned.
    - [Metrics] (internal/metrics/metrics.go): the collectors and the [init] that
      registers them, over a registry with the documented laws.

    Around it.
    - [Schema] (migrations/*.sql): the statements of the migration files as data,
      the catalog they build and take down, and INSERT and UPDATE defined for any
      catalog by its constraints.
    - [Testdb] (internal/testdb): the database the integration tests share.

    ** What is proved

    - [Spec] states what the service promises: a transfer is one indivisible
      change of the tables ([transfer_effect]), creating a wallet is another,
      and nothing else ever happens ([atomic_step]); the invariant [db_inv] and
      the order [grows] are properties of that specification.
    - [Rely] has the rules ([wp]) for one request among others that take steps
      of the specification; [RepositoryCorrect] proves the repositories from
      them, and [ServiceCorrect] the service from the rules of the
      repositories.
    - [Safety]: under every schedule and every fault, each step is a step of the
      specification; one key makes one transfer; replies are durable; money is
      conserved; balances agree with the ledger; entries come in pairs; conflicts
      are real; no request panics or leaves a transaction open.
      Answers are well typed.
    - [Progress]: no deadlock with any pool size, and every schedule ends.
    - [Sequential]: what one request alone answers and changes, case by case:
      processed, overdraft, replay, conflict, missing wallet, overflow, invalid;
      and [RunInTx] for any body.  [Reference] puts the cases together: [Create]
      is equal to a function of the tables.
    - [Idempotency]: what an equal digest means, and that ids with a bar are
      confused.
    - [History]: pages and the walk over all pages, and exactly which rows it
      misses when creation times are equal.  [Walks]: what a walk gets while transfers are
      made: no duplicates, nothing uncommitted, and, without ties, everything
      that was there when it started.
    - [Spans]: tracing changes no answer and no row ([erases], a relation of
      programs that differ in their span only); every answered call leaves
      exactly one span, and its error is on it just when its transaction failed.
    - [Logic] is the interface between running service programs and the HTTP
      layer, with three instances: whatever the environment answers, one request
      alone on the database, and ([HttpConcurrent]) one among others.  [Http]
      proves for any [Logic] that the listener answers as [dispatch] and
      [render] say; [HttpCorrect] has the properties: refinement of the service requests, an answer to every
      request, nothing internal in it, one access line and one count per
      request, only API paths (a lemma), round trips of request bodies and cursors, and
      POST /transfers from the request bytes to the tables.
    - [HttpConcurrent]: for any HTTP traffic, the tables take steps of the
      specification, and one key gives one body, byte for byte; [HttpProgress]:
      every request of it can be run to its response.
    - [SiteCorrect] has the theorems about the program as one: from the first
      line of [main] to the end of the process, under any traffic and any
      failure, the tables follow the specification, also when the process goes
      with requests in flight; a graceful exit has answered every request; and
      the requests can always be drained when the pool is larger than what the
      migration driver keeps of it, after which a signal can end the process with
      status 0 ([Stopping]: what main does from its select on); with one
      connection, which the driver keeps, a request waits for good.
    - [Counters]: the transfer counters and the responses.  The requests are run
      with a trace of their increments, in lockstep with the real ones, so that
      at any moment of [Site]'s runs the two can be compared.
    - [SchemaCorrect]: [Database] enforces exactly what the migrations declare;
      up and down restore any database; what the schema guarantees without the
      service, and what it does not.
    - [Testdb]: the tests open and migrate one pool once, and start from empty
      tables after a reset.
    - [Config]: a configuration that is not well formed is refused with the name
      of its first offending variable, and every valid one can be written down
      and read back.  [Net]: which addresses count as loopback.
    - [LifecycleLogic] has the rules for the main goroutine among the others,
      [LifecycleCorrect] proves [run] from them, [MainCorrect] has the
      properties: connections are served only with the database ready, a
      signal ends the process, what the exit status says; and two ways to
      stop in which the shutdown is not what its comments say.
    - [Scenario] has concrete runs, evaluated; the witnesses of the theorems use
      them.

    ** Choices

    Integers are Go's int64 and Postgres' BIGINT as [Z], with the wrap-around
    of Go's arithmetic written out ([wrap64]); a [Time] is in microseconds, as a
    TIMESTAMPTZ holds it.  The database is READ COMMITTED.  Programs are finite
    trees, so there is no fuel in the service: [Progress.max_ops] (22) bounds
    the operations of a service request and is proved, as are
    [HttpProgress.max_http_ops] (27, with the clock and the ids of the
    middleware) and [MainCorrect.max_main_ops] (30, from start to exit).  The
    readers of JSON, UTF-8 and durations recurse with the length of the text as
    fuel; [Json] and [GoDuration] prove that more changes nothing.
    [History.walk] takes the number of pages as fuel; the theorem on it says how
    much is enough.  [Walks.follow] answers the cursor to go on from when its
    pages are used up, so its bound is a choice of the client.

    ** What is a parameter, and what is not modelled

    [Handlers.externals] has the parameters: UUID texts, the texts of Postgres
    errors, of JSON decoder errors and of stack traces, and the Location and
    body of a redirect; [Config] has the quoting of strconv.Quote in error
    texts; [Debug.admin_handlers] has the handlers of net/http/pprof and of the
    metrics exposition.  No theorem assumes anything about them.  The Prometheus
    registry is a class ([Metrics.Registry]) with the laws client_golang
    documents for Register, and an instance that has them.  In [Startup]
    the driver, the migration tool and the OpenTelemetry SDK answer each call
    with success or any error; how many connections of the pool the driver of
    the migration tool keeps is a parameter of its answer
    ([Lifecycle.dec_kept]), and [Site.handler_pool] is what it leaves.
    A text parameter Postgres does not take (with NUL or invalid UTF-8) is one
    of the failures of the driver a statement can meet.

    Not modelled: the spans and the handler otelhttp puts around the tree, and
    how the SDK batches and exports the spans it is given; the exposition of the
    metrics and the durations of transfers, which the program observes and never reads;
    the calls of the start, which do not watch the context of the signal, and the
    closing of the pool are taken to return (in [Site] a connection in use may
    go on, none is given out), and flushing the spans to end at its own deadline;
    the read timeouts of the servers; log lines other than the access line, the
    panic and 5xx lines and the WARN of the admin listener, where [Lifecycle]
    keeps the level and the message only; how the migration tool keeps its
    version, and the effect of the indexes, which change no answer; tests that
    call [Testdb] in parallel; a body whose transmission fails half-way; the
    header fields the server itself adds to a response. *)

From stdpp Require Export base tactics option list strings pretty gmap fin_maps sorting.
From stdpp Require Export relations.
From Stdlib Require Export ZArith Lia.

#[global] Open Scope Z_scope.
#[global] Open Scope list_scope.

Create HintDb wallet.
Create Rewrite HintDb wallet_rw.

(** ** Tactics shared by the development *)

(** Split every conjunction and existential of the context. *)
Ltac destruct_ands :=
  repeat match goal with
         | H : _ /\ _ |- _ => destruct H
         | H : exists _, _ |- _ => destruct H
         end.

(** Case analysis on the scrutinee of a match of the goal or the context,
    with the equation kept. *)
Ltac case_scrutinee :=
  match goal with
  | |- context [match ?x with _ => _ end] => destruct x eqn:?
  | H : context [match ?x with _ => _ end] |- _ => destruct x eqn:?
  end.

Ltac solve_cases := repeat (case_scrutinee; simplify_eq/=; eauto with wallet; try congruence).

(** ** Machine integers: Go's int64 and Postgres' BIGINT *)

Definition int64_min : Z := - 2 ^ 63.
Definition int64_max : Z := 2 ^ 63 - 1.
Definition wrap64 (z : Z) : Z := (z + 2 ^ 63) mod 2 ^ 64 - 2 ^ 63.
Definition in_int64 (z : Z) : Prop := int64_min <= z <= int64_max.

#[global] Instance in_int64_dec z : Decision (in_int64 z).
Proof. unfold in_int64. apply _. Defined.

Lemma wrap64_in_int64 z : in_int64 (wrap64 z).
Proof.
  unfold in_int64, wrap64, int64_min, int64_max.
  pose proof (Z.mod_pos_bound (z + 2 ^ 63) (2 ^ 64)). lia.
Qed.

Lemma wrap64_id z : in_int64 z -> wrap64 z = z.
Proof.
  unfold in_int64, wrap64, int64_min, int64_max. intros.
  rewrite Z.mod_small; lia.
Qed.

(** The sum of two non-negative int64 values that does not fit wraps to a
    negative number: never to a wrong non-negative one. *)
Lemma wrap64_add_overflow a b :
  0 <= a <= int64_max -> 0 <= b <= int64_max -> int64_max < a + b ->
  wrap64 (a + b) = a + b - 2 ^ 64 /\ wrap64 (a + b) < 0.
Proof.
  unfold wrap64, int64_max. intros.
  replace (a + b + 2 ^ 63) with (a + b - 2 ^ 63 + 1 * 2 ^ 64) by lia.
  rewrite Z.mod_add by lia. rewrite Z.mod_small; lia.
Qed.

(** ** Checking a bounded range of integers by evaluation *)

Lemma below_elem (k : nat) z : 0 <= z < Z.of_nat k -> z ∈ Z.of_nat <$> seq 0 k.
Proof.
  intros Hz. apply list_elem_of_fmap. exists (Z.to_nat z). rewrite elem_of_seq. split; lia.
Qed.

Lemma forall_below (P : Z -> bool) (k : nat) :
  forallb P (Z.of_nat <$> seq 0 k) = true -> forall z, 0 <= z < Z.of_nat k -> P z = true.
Proof.
  intros H z Hz. rewrite forallb_forall in H. apply H. rewrite <- list_elem_of_In.
  by apply below_elem.
Qed.

(** Split a byte into its eight bits. *)
Ltac each_byte c := destruct c; repeat match goal with b : bool |- _ => destruct b end.

(** ** Strings, in byte order *)

Lemma string_ltb_total a b : String.ltb a b = false -> a <> b -> String.ltb b a = true.
Proof.
  unfold String.ltb. intros H Hne. rewrite String.compare_antisym.
  destruct (String.compare a b) eqn:E; simpl; try done.
  by apply String.compare_eq_iff in E.
Qed.

Lemma string_ltb_irrefl a : String.ltb a a = false.
Proof.
  unfold String.ltb. pose proof (String.compare_antisym a a). by destruct (String.compare a a).
Qed.

Lemma string_ltb_trans a b c :
  String.ltb a b = true -> String.ltb b c = true -> String.ltb a c = true.
Proof.
  unfold String.ltb. revert b c. induction a as [|x a IH]; intros [|y b] [|z c]; simpl; try done.
  unfold Ascii.compare.
  destruct (N.compare_spec (Ascii.N_of_ascii x) (Ascii.N_of_ascii y)) as [Hxy|Hxy|]; [rewrite Hxy| |done];
  destruct (N.compare_spec (Ascii.N_of_ascii y) (Ascii.N_of_ascii z)) as [Hyz|Hyz|];
    try done.
  - apply IH.
  - by rewrite <- Hyz, (proj2 (N.compare_lt_iff _ _) Hxy).
  - by rewrite (proj2 (N.compare_lt_iff _ _) (N.lt_trans _ _ _ Hxy Hyz)).
Qed.

(** ** Lists *)

(** One value for each index. *)
Lemma list_choice {A} (n : nat) (R : nat -> A -> Prop) :
  (forall i, (i < n)%nat -> exists x, R i x) ->
  exists l, length l = n /\ forall i x, l !! i = Some x -> R i x.
Proof.
  induction n as [|n IH]; intros H; [by exists []|].
  destruct IH as (l & Hl & HR); [auto with lia|]. destruct (H n ltac:(lia)) as [x Hx].
  exists (l ++ [x]). rewrite length_app, Hl. split; [simpl; lia|].
  intros i y [Hi|[Hi Hy]]%lookup_app_Some; [auto|].
  apply list_lookup_singleton_Some in Hy as [Hy ->]. by replace i with n by lia.
Qed.

(** ** Finite maps *)

Section maps.
Context {K A : Type} `{Countable K}.
Implicit Types m : gmap K A.

Lemma insert_union_singleton_first m i x : {[i := x]} ∪ m = <[i := x]> m.
Proof. symmetry. apply insert_union_singleton_l. Qed.

Lemma insert_union_first m1 m2 i x : <[i := x]> m1 ∪ m2 = <[i := x]> (m1 ∪ m2).
Proof. symmetry. apply insert_union_l. Qed.

Lemma union_empty_first m : ∅ ∪ m = m.
Proof. apply (left_id_L ∅ (∪)). Qed.

Lemma union_assoc_first m1 m2 m3 : (m1 ∪ m2) ∪ m3 = m1 ∪ (m2 ∪ m3).
Proof. symmetry. apply (assoc_L (∪)). Qed.
End maps.

#[export] Hint Rewrite @insert_union_singleton_first @insert_union_first @union_empty_first
  @union_assoc_first : wallet_rw.
