(* ===== verification/GoRuntime.v ===== *)
(** * The Go run time the service relies on

    Go error values with wrapping ([errors.Is], [errors.As], [fmt.Errorf]),
    the [(T, error)] results of Go functions, and effectful Go code as
    programs over a signature of operations, with panics. *)

From S2P Require Import Prelude.

(** ** Error values

    An error made by a package-level [errors.New] is a pointer: it is equal
    only to itself, so it carries the name of its variable.  An error made on
    the spot ([ErrText]) is equal to no variable.  [ErrWrap] is what
    [fmt.Errorf] makes with one [%w] verb, [ErrWrapV] with a [%w] and a later
    [%v].  [ErrPg] is a [*pgconn.PgError] with its SQLSTATE code and the name
    of the constraint, [ErrDriver] any other failure of the driver (lost
    connection, cancelled context). *)
Inductive error : Type :=
| ErrVar (name text : string)
| ErrText (text : string)
| ErrWrap (pre : string) (inner : error)
| ErrWrapV (inner : error) (sep : string) (other : error)
| ErrPg (code constraint : string)
| ErrDriver (text : string).

#[global] Instance error_eq_dec : EqDecision error.
Proof. solve_decision. Defined.

(** [errors.Unwrap]: one layer. *)
Definition unwrap (e : error) : option error :=
  match e with
  | ErrWrap _ inner => Some inner
  | ErrWrapV inner _ _ => Some inner
  | _ => None
  end.

(** [err == target] for a package-level target. *)
Definition same_error (e target : error) : bool :=
  match e, target with
  | ErrVar n _, ErrVar n' _ => bool_decide (n = n')
  | _, _ => false
  end.

(** [errors.Is(e, target)]: some error of the chain is the target. *)
Fixpoint errors_Is (e target : error) : bool :=
  same_error e target ||
  match e with
  | ErrWrap _ inner => errors_Is inner target
  | ErrWrapV inner _ _ => errors_Is inner target
  | _ => false
  end.

(** [errors.As(e, &pgErr)]: the SQLSTATE code of the first [PgError]. *)
Fixpoint errors_As_PgError (e : error) : option string :=
  match e with
  | ErrPg code _ => Some code
  | ErrWrap _ inner => errors_As_PgError inner
  | ErrWrapV inner _ _ => errors_As_PgError inner
  | _ => None
  end.

Lemma errors_Is_wrap pre e t : errors_Is (ErrWrap pre e) t = errors_Is e t.
Proof. done. Qed.
Lemma errors_Is_wrapv e s o t : errors_Is (ErrWrapV e s o) t = errors_Is e t.
Proof. done. Qed.
Lemma errors_Is_var_refl n t : errors_Is (ErrVar n t) (ErrVar n t) = true.
Proof. simpl. by rewrite bool_decide_eq_true_2. Qed.
#[export] Hint Rewrite errors_Is_wrap errors_Is_wrapv errors_Is_var_refl : wallet_rw.

(** ** Results of functions that return a value and an error *)

Inductive result (A : Type) : Type :=
| Ok (a : A)
| Err (e : error).
Arguments Ok {A} a.
Arguments Err {A} e.

Definition result_map {A B} (f : A -> B) (r : result A) : result B :=
  match r with Ok a => Ok (f a) | Err e => Err e end.

(** [fmt.Errorf(pre + "%w", err)] on the error branch. *)
Definition wrap_err {A} (pre : string) (r : result A) : result A :=
  match r with Ok a => Ok a | Err e => Err (ErrWrap pre e) end.

(** ** Effectful programs

    A Go function body is a program over the operations [E] of its
    environment: it returns, panics, or performs an operation and goes on
    with the answer.  There are no loops over the database in the service, so
    every program is a finite tree. *)
Inductive proc (E : Type -> Type) (A : Type) : Type :=
| Ret (a : A)
| Panic (v : string)
| Vis {X : Type} (o : E X) (k : X -> proc E A).
Arguments Ret {E A} a.
Arguments Panic {E A} v.
Arguments Vis {E A X} o k.

(** What a function call ended with, as a deferred [recover] sees it. *)
Inductive outcome (A : Type) : Type :=
| Returned (a : A)
| Panicked (v : string).
Arguments Returned {A} a.
Arguments Panicked {A} v.

Section proc.
Context {E : Type -> Type}.

Fixpoint proc_bind {A B} (f : A -> proc E B) (p : proc E A) : proc E B :=
  match p with
  | Ret a => f a
  | Panic v => Panic v
  | Vis o k => Vis o (fun x => proc_bind f (k x))
  end.

(** A deferred closure that runs on both exits. *)
Fixpoint proc_finally {E A B} (h : outcome A -> proc E B) (p : proc E A) : proc E B :=
  match p with
  | Ret a => h (Returned a)
  | Panic v => h (Panicked v)
  | Vis o k => Vis o (fun x => proc_finally h (k x))
  end.

Definition perform {X} (o : E X) : proc E X := Vis o Ret.

(** The early return [if err != nil { return nil, err }]. *)
Definition try_bind {A B} (f : A -> proc E (result B)) (p : proc E (result A))
  : proc E (result B) :=
  proc_bind (fun r => match r with Ok a => f a | Err e => Ret (Err e) end) p.

(** [proc_le n p]: no execution of [p] performs more than [n] operations. *)
Fixpoint proc_le {A} (n : nat) (p : proc E A) {struct p} : Prop :=
  match p with
  | Ret _ | Panic _ => True
  | Vis o k => match n with O => False | S n' => forall x, proc_le n' (k x) end
  end.
End proc.

(** ** Programs with a bounded number of operations *)

Lemma proc_le_mono {E A} (p : proc E A) n m : (n <= m)%nat -> proc_le n p -> proc_le m p.
Proof.
  revert n m. induction p as [a|v|X o k IH]; simpl; intros n m Hle H; [done..|].
  destruct n as [|n]; [done|]. destruct m as [|m]; [lia|]. intros x. eapply IH; [|done]. lia.
Qed.

Lemma proc_le_bind {E A B} (f : A -> proc E B) (p : proc E A) n m :
  proc_le n p -> (forall a, proc_le m (f a)) -> proc_le (n + m) (proc_bind f p).
Proof.
  intros Hp Hf. revert n Hp. induction p as [a|v|X o k IH]; simpl; intros n Hp; [|done|].
  - eapply proc_le_mono; [|done]. lia.
  - destruct n as [|n]; [done|]. simpl. auto.
Qed.

Lemma proc_le_try {E A B} (f : A -> proc E (result B)) (p : proc E (result A)) n m :
  proc_le n p -> (forall a, proc_le m (f a)) -> proc_le (n + m) (try_bind f p).
Proof. intros Hp Hf. apply proc_le_bind; [done|]. intros [a|e]; simpl; auto. Qed.

Lemma proc_le_finally {E A B} (h : outcome A -> proc E B) (p : proc E A) n m :
  proc_le n p -> (forall a, proc_le m (h a)) -> proc_le (n + m) (proc_finally h p).
Proof.
  intros Hp Hf. revert n Hp. induction p as [a|v|X o k IH]; simpl; intros n Hp.
  - eapply proc_le_mono; [|done]. lia.
  - eapply proc_le_mono; [|done]. lia.
  - destruct n as [|n]; [done|]. simpl. auto.
Qed.

Declare Scope go_scope.
Notation "x ← m ; k" := (proc_bind (fun x => k) m)
  (at level 20, m at level 100, k at level 200, only parsing) : go_scope.
Notation "' p ← m ; k" := (proc_bind (fun r => match r with p => k end) m)
  (at level 20, p pattern, m at level 100, k at level 200, only parsing) : go_scope.
Notation "x ←? m ; k" := (try_bind (fun x => k) m)
  (at level 20, m at level 100, k at level 200, only parsing) : go_scope.
Delimit Scope go_scope with go.
