(* ===== verification/Domain.v ===== *)
(** * internal/domain: entities, the transfer state machine, error sentinels *)

From S2P Require Import Prelude GoRuntime.

(** A [uuid.UUID] is 16 bytes; read as one big-endian number, the byte-wise
    order of Postgres is the order of the numbers. *)
Abbreviation UUID := N.

(** A [time.Time] read from a TIMESTAMPTZ column: microseconds since the Unix
    epoch.  The zero [time.Time] is year 1. *)
Abbreviation Time := Z.
Definition time_zero : Time := -62135596800000000.

(** ** wallet.go *)

Record Wallet : Type := mkWallet {
  Wallet_ID : string;
  Wallet_Balance : Z;
  Wallet_CreatedAt : Time;
  Wallet_UpdatedAt : Time
}.

#[global] Instance Wallet_eq_dec : EqDecision Wallet.
Proof. solve_decision. Defined.

(** ** transfer.go *)

(** [type TransferState string] with its three constants. *)
Definition TransferState : Type := string.
Definition StatePending : TransferState := "PENDING".
Definition StateProcessed : TransferState := "PROCESSED".
Definition StateFailed : TransferState := "FAILED".

#[global] Instance TransferState_eq_dec : EqDecision TransferState := String.eq_dec.

Definition Valid (s : TransferState) : bool :=
  if decide (s = StatePending) then true
  else if decide (s = StateProcessed) then true
  else if decide (s = StateFailed) then true
  else false.

Definition CanTransitionTo (s next : TransferState) : bool :=
  bool_decide (s = StatePending)
  && (bool_decide (next = StateProcessed) || bool_decide (next = StateFailed)).

Record Transfer : Type := mkTransfer {
  Transfer_ID : UUID;
  Transfer_FromWalletID : string;
  Transfer_ToWalletID : string;
  Transfer_Amount : Z;
  Transfer_State : TransferState;
  Transfer_FailureReason : string;
  Transfer_CreatedAt : Time;
  Transfer_UpdatedAt : Time
}.

#[global] Instance Transfer_eq_dec : EqDecision Transfer.
Proof. solve_decision. Defined.

(** ** ledger.go *)

Definition EntryType : Type := string.
Definition EntryDebit : EntryType := "DEBIT".
Definition EntryCredit : EntryType := "CREDIT".

#[global] Instance EntryType_eq_dec : EqDecision EntryType := String.eq_dec.

Record LedgerEntry : Type := mkLedgerEntry {
  Ledger_ID : Z;
  Ledger_TransferID : UUID;
  Ledger_WalletID : string;
  Ledger_Type : EntryType;
  Ledger_Amount : Z;
  Ledger_CreatedAt : Time
}.

#[global] Instance LedgerEntry_eq_dec : EqDecision LedgerEntry.
Proof. solve_decision. Defined.

(** ** errors.go *)

Definition ErrWalletNotFound : error :=
  ErrVar "domain.ErrWalletNotFound" "wallet not found".
Definition ErrInsufficientFunds : error :=
  ErrVar "domain.ErrInsufficientFunds" "insufficient funds".
Definition ErrSameWallet : error :=
  ErrVar "domain.ErrSameWallet" "from and to wallet must differ".
Definition ErrInvalidAmount : error :=
  ErrVar "domain.ErrInvalidAmount" "amount must be positive".
Definition ErrInvalidIdempotencyKey : error :=
  ErrVar "domain.ErrInvalidIdempotencyKey" "idempotency key is required".
Definition ErrIdempotencyConflict : error :=
  ErrVar "domain.ErrIdempotencyConflict" "idempotency key reused with different request body".
Definition ErrInvalidStateTransition : error :=
  ErrVar "domain.ErrInvalidStateTransition" "invalid transfer state transition".

(** ** The state machine *)

(** The moves [CanTransitionTo] allows, as a step relation. *)
Inductive transition : TransferState -> TransferState -> Prop :=
| pending_processed : transition StatePending StateProcessed
| pending_failed : transition StatePending StateFailed.

Definition terminal (s : TransferState) : bool :=
  Valid s && negb (CanTransitionTo s StateProcessed) && negb (CanTransitionTo s StateFailed).

Lemma CanTransitionTo_spec s next : CanTransitionTo s next = true <-> transition s next.
Proof.
  unfold CanTransitionTo. rewrite andb_true_iff, orb_true_iff, !bool_decide_eq_true. split.
  - intros [-> [-> | ->]]; constructor.
  - destruct 1; auto.
Qed.

Lemma Valid_spec s :
  Valid s = true <-> s = StatePending \/ s = StateProcessed \/ s = StateFailed.
Proof. unfold Valid. repeat case_decide; split; intros; destruct_or?; auto; congruence. Qed.

Lemma transition_valid s next :
  transition s next -> Valid s = true /\ Valid next = true /\ terminal next = true.
Proof. by destruct 1. Qed.

Lemma terminal_no_transition s next : terminal s = true -> ~ transition s next.
Proof.
  unfold terminal. rewrite !andb_true_iff, !negb_true_iff. intros [[_ H1] H2] H.
  destruct H; [by vm_compute in H1 | by vm_compute in H2].
Qed.

(** PENDING is the only entry, PROCESSED and FAILED are sinks: any chain of
    allowed moves has at most one step. *)
Lemma transition_path s s' :
  rtc transition s s' -> s' = s \/ (s = StatePending /\ terminal s' = true).
Proof.
  destruct 1 as [|s s1 s' H1 H2]; [by left|]. right.
  split; [by destruct H1|]. apply transition_valid in H1 as (_ & _ & Ht).
  destruct H2 as [|s1 s2 s' H3 _]; [done|]. by destruct (terminal_no_transition s1 s2).
Qed.

(** The transfer state machine.  [CanTransitionTo] allows exactly the two
    moves from PENDING to PROCESSED and from PENDING to FAILED; both ends are
    valid states; a chain of allowed moves makes at most one step, and after
    it no move is left. *)
Lemma transfer_state_machine :
  (forall s next, CanTransitionTo s next = true <->
     s = StatePending /\ (next = StateProcessed \/ next = StateFailed)) /\
  (forall s next, CanTransitionTo s next = true -> Valid s = true /\ Valid next = true /\
     forall next', CanTransitionTo next next' = false) /\
  (forall s s', rtc (fun a b => CanTransitionTo a b = true) s s' ->
     s' = s \/ CanTransitionTo s s' = true).
Proof.
  split_and!.
  - intros s next. rewrite CanTransitionTo_spec. split; [destruct 1; auto|].
    intros [-> [-> | ->]]; constructor.
  - intros s next H. apply CanTransitionTo_spec, transition_valid in H as (Hs & Hn & Ht).
    split_and!; [done..|]. intros next'. apply not_true_iff_false. rewrite CanTransitionTo_spec.
    by apply terminal_no_transition.
  - intros s s' H. destruct H as [s|s s1 s' H1 H2]; [by left|right].
    destruct H2 as [s1|s1 s2 s' H2 _]; [done|]. exfalso.
    apply CanTransitionTo_spec in H1, H2. apply transition_valid in H1 as (_ & _ & Ht).
    by apply (terminal_no_transition s1 s2).
Qed.
