(* ===== verification/Database.v ===== *)
(** * migrations/*.sql: tables, constraints, and the SQL statements

    The four tables of [migrations/0001_init.up.sql] as finite maps keyed by
    their primary keys, the constraints of the schema, and the meaning of each
    SQL statement that [internal/repository/postgres] issues: what it reads,
    which rows it writes, which constraint it violates, which rows it locks.

    A statement does not return the new tables but the rows it writes, so
    that the same definition serves an open transaction (whose writes stay
    private until COMMIT) and a single statement outside a transaction. *)

From S2P Require Import Prelude GoRuntime Domain.

(** ** Rows and tables *)

Record TransferRow : Type := mkTransferRow {
  tr_id : UUID;
  tr_from_wallet_id : string;
  tr_to_wallet_id : string;
  tr_amount : Z;
  tr_state : string;
  tr_failure_reason : option string;
  tr_created_at : Time;
  tr_updated_at : Time
}.

Record IdemRow : Type := mkIdemRow {
  ir_key : string;
  ir_request_hash : string;
  ir_transfer_id : UUID;
  ir_created_at : Time
}.

#[global] Instance TransferRow_eq_dec : EqDecision TransferRow.
Proof. solve_decision. Defined.
#[global] Instance IdemRow_eq_dec : EqDecision IdemRow.
Proof. solve_decision. Defined.

Record tables : Type := mkTables {
  wallets : gmap string Wallet;
  transfers : gmap UUID TransferRow;
  ledger_entries : gmap Z LedgerEntry;
  idempotency_records : gmap string IdemRow
}.

#[global] Instance tables_eq_dec : EqDecision tables.
Proof. solve_decision. Defined.

#[global] Instance tables_empty : Empty tables := mkTables ∅ ∅ ∅ ∅.

(** Rows of the left tables replace rows of the right ones. *)
#[global] Instance tables_union : Union tables := fun d t =>
  mkTables (wallets d ∪ wallets t) (transfers d ∪ transfers t)
    (ledger_entries d ∪ ledger_entries t)
    (idempotency_records d ∪ idempotency_records t).

Definition put_wallet (w : Wallet) : tables := mkTables {[Wallet_ID w := w]} ∅ ∅ ∅.
Definition put_transfer (r : TransferRow) : tables := mkTables ∅ {[tr_id r := r]} ∅ ∅.
Definition put_ledger (e : LedgerEntry) : tables := mkTables ∅ ∅ {[Ledger_ID e := e]} ∅.
Definition put_idem (r : IdemRow) : tables := mkTables ∅ ∅ ∅ {[ir_key r := r]}.

(** ** Constraints *)

Definition pgUniqueViolation : string := "23505".
Definition pgForeignKeyViolation : string := "23503".
Definition pgCheckViolation : string := "23514".
Definition pgInvalidLimit : string := "2201W".
Definition pgInFailedTransaction : string := "25P02".

(** [balance BIGINT NOT NULL CHECK (balance >= 0)] *)
Definition wallets_check (w : Wallet) : bool := bool_decide (0 <= Wallet_Balance w).

(** [CHECK (amount > 0)], [CHECK (state IN (...))],
    [CHECK (from_wallet_id <> to_wallet_id)] *)
Definition transfers_check (r : TransferRow) : bool :=
  bool_decide (0 < tr_amount r)
  && (bool_decide (tr_state r = "PENDING")
      || bool_decide (tr_state r = "PROCESSED")
      || bool_decide (tr_state r = "FAILED"))
  && bool_decide (tr_from_wallet_id r <> tr_to_wallet_id r).

(** [REFERENCES wallets(id)], twice *)
Definition transfers_fk (t : tables) (r : TransferRow) : bool :=
  bool_decide (is_Some (wallets t !! tr_from_wallet_id r))
  && bool_decide (is_Some (wallets t !! tr_to_wallet_id r)).

(** [CHECK (type IN ('DEBIT','CREDIT'))], [CHECK (amount > 0)] *)
Definition ledger_check (e : LedgerEntry) : bool :=
  (bool_decide (Ledger_Type e = "DEBIT") || bool_decide (Ledger_Type e = "CREDIT"))
  && bool_decide (0 < Ledger_Amount e).

(** [BIGSERIAL PRIMARY KEY] and [UNIQUE (transfer_id, type)] *)
Definition same_side (u : UUID) (ty : string) (e : LedgerEntry) : Prop :=
  Ledger_TransferID e = u /\ Ledger_Type e = ty.

#[global] Instance same_side_dec u ty e : Decision (same_side u ty e).
Proof. unfold same_side. apply _. Defined.

Definition ledger_unique (t : tables) (e : LedgerEntry) : bool :=
  bool_decide (ledger_entries t !! Ledger_ID e = None)
  && bool_decide (map_Forall (fun _ e' => ~ same_side (Ledger_TransferID e) (Ledger_Type e) e')
                    (ledger_entries t)).

(** [transfer_id REFERENCES transfers(id)], [wallet_id REFERENCES wallets(id)] *)
Definition ledger_fk (t : tables) (e : LedgerEntry) : bool :=
  bool_decide (is_Some (transfers t !! Ledger_TransferID e))
  && bool_decide (is_Some (wallets t !! Ledger_WalletID e)).

(** [transfer_id UUID NOT NULL REFERENCES transfers(id)] *)
Definition idem_fk (t : tables) (r : IdemRow) : bool :=
  bool_decide (is_Some (transfers t !! ir_transfer_id r)).

(** ** Statements

    One constructor per query constant of [internal/repository/postgres],
    indexed by what a successful execution answers: the row (or none), the
    list of rows, the number of rows affected, or the RETURNING columns. *)
Inductive stmt : Type -> Type :=
| SelectWallet (id : string) : stmt (option Wallet)
| SelectWalletForUpdate (id : string) : stmt (option Wallet)
| UpdateWalletBalance (id : string) (balance : Z) : stmt Z
| InsertWallet (id : string) (balance : Z) : stmt (Time * Time)
| SelectTransfer (id : UUID) : stmt (option Transfer)
| InsertTransfer (id : UUID) (from to : string) (amount : Z) (state : string)
  : stmt (Time * Time)
| UpdateTransferState (id : UUID) (state reason : string) : stmt Z
| SelectTransfersByWallet (wallet : string) (before : option Time) (limit : Z)
  : stmt (list Transfer)
| InsertLedgerEntry (transfer : UUID) (wallet type : string) (amount : Z) : stmt (Z * Time)
| SelectLedgerByTransfer (transfer : UUID) : stmt (list LedgerEntry)
| SelectIdempotency (key : string) : stmt (option (string * string * UUID))
| InsertIdempotency (key hash : string) (transfer : UUID) : stmt Z.

(** [NULLIF(s, '')] and [COALESCE(o, '')] *)
Definition nullif_empty (s : string) : option string :=
  if decide (s = EmptyString) then None else Some s.
Definition coalesce_empty (o : option string) : string := default EmptyString o.

(** The SELECT list of the two transfer queries. *)
Definition select_transfer (r : TransferRow) : Transfer :=
  mkTransfer (tr_id r) (tr_from_wallet_id r) (tr_to_wallet_id r) (tr_amount r) (tr_state r)
    (coalesce_empty (tr_failure_reason r)) (tr_created_at r) (tr_updated_at r).

(** [(from_wallet_id = $1 OR to_wallet_id = $1)
      AND ($2::timestamptz IS NULL OR created_at < $2)] *)
Definition history_where (wallet : string) (before : option Time) (t : Transfer) : Prop :=
  (Transfer_FromWalletID t = wallet \/ Transfer_ToWalletID t = wallet)
  /\ match before with None => True | Some b => Transfer_CreatedAt t < b end.

#[global] Instance history_where_dec w b t : Decision (history_where w b t).
Proof. unfold history_where. destruct b; apply _. Defined.

(** [ORDER BY created_at DESC, id DESC] *)
Definition history_order (t1 t2 : Transfer) : Prop :=
  Transfer_CreatedAt t2 < Transfer_CreatedAt t1
  \/ (Transfer_CreatedAt t1 = Transfer_CreatedAt t2 /\ (Transfer_ID t2 <= Transfer_ID t1)%N).

#[global] Instance history_order_dec : RelDecision history_order.
Proof. unfold history_order. intros ??. apply _. Defined.

Definition history_rows (t : tables) (wallet : string) (before : option Time) : list Transfer :=
  merge_sort history_order
    (filter (history_where wallet before) (select_transfer <$> (map_to_list (transfers t)).*2)).

(** [ORDER BY id] *)
Definition ledger_order (e1 e2 : LedgerEntry) : Prop := Ledger_ID e1 <= Ledger_ID e2.

#[global] Instance ledger_order_dec : RelDecision ledger_order.
Proof. unfold ledger_order. intros ??. apply _. Defined.

Definition ledger_rows (t : tables) (u : UUID) : list LedgerEntry :=
  merge_sort ledger_order
    (filter (fun e => Ledger_TransferID e = u) ((map_to_list (ledger_entries t)).*2)).

(** ** What a statement does

    [exec_stmt now nextval s t] answers and gives the rows written, where [t]
    is what the statement sees, [now] the start time of its transaction and
    [nextval] the next value of the ledger's sequence.  A statement that
    violates a constraint writes nothing. *)
Definition sql_check {X} (b : bool) (code constraint : string) (k : result X * tables)
  : result X * tables :=
  if b then k else (Err (ErrPg code constraint), ∅).

Definition exec_update_balance (now : Time) (id : string) (balance : Z) (t : tables)
  : result Z * tables :=
  match wallets t !! id with
  | None => (Ok 0, ∅)
  | Some w =>
      let w' := mkWallet id balance (Wallet_CreatedAt w) now in
      sql_check (wallets_check w') pgCheckViolation "wallets_balance_check"
        (Ok 1, put_wallet w')
  end.

Definition exec_insert_wallet (now : Time) (id : string) (balance : Z) (t : tables)
  : result (Time * Time) * tables :=
  let w := mkWallet id balance now now in
  sql_check (wallets_check w) pgCheckViolation "wallets_balance_check" $
  sql_check (bool_decide (wallets t !! id = None)) pgUniqueViolation "wallets_pkey" $
  (Ok (now, now), put_wallet w).

Definition exec_insert_transfer (now : Time) (r : TransferRow) (t : tables)
  : result (Time * Time) * tables :=
  sql_check (transfers_check r) pgCheckViolation "transfers_check" $
  sql_check (bool_decide (transfers t !! tr_id r = None)) pgUniqueViolation "transfers_pkey" $
  sql_check (transfers_fk t r) pgForeignKeyViolation "transfers_wallet_id_fkey" $
  (Ok (tr_created_at r, tr_updated_at r), put_transfer r).

Definition exec_update_state (now : Time) (id : UUID) (state reason : string) (t : tables)
  : result Z * tables :=
  match transfers t !! id with
  | None => (Ok 0, ∅)
  | Some r =>
      let r' := mkTransferRow id (tr_from_wallet_id r) (tr_to_wallet_id r) (tr_amount r)
                  state (nullif_empty reason) (tr_created_at r) now in
      sql_check (transfers_check r') pgCheckViolation "transfers_state_check"
        (Ok 1, put_transfer r')
  end.

Definition exec_insert_ledger (e : LedgerEntry) (t : tables) : result (Z * Time) * tables :=
  sql_check (ledger_check e) pgCheckViolation "ledger_entries_check" $
  sql_check (ledger_unique t e) pgUniqueViolation "ledger_entries_key" $
  sql_check (ledger_fk t e) pgForeignKeyViolation "ledger_entries_fkey" $
  (Ok (Ledger_ID e, Ledger_CreatedAt e), put_ledger e).

Definition exec_insert_idem (r : IdemRow) (t : tables) : result Z * tables :=
  sql_check (bool_decide (idempotency_records t !! ir_key r = None))
    pgUniqueViolation "idempotency_records_pkey" $
  sql_check (idem_fk t r) pgForeignKeyViolation "idempotency_records_transfer_id_fkey" $
  (Ok 1, put_idem r).

Definition exec_stmt (now : Time) (nextval : Z) {X} (s : stmt X) (t : tables)
  : result X * tables :=
  match s with
  | SelectWallet id | SelectWalletForUpdate id => (Ok (wallets t !! id), ∅)
  | UpdateWalletBalance id balance => exec_update_balance now id balance t
  | InsertWallet id balance => exec_insert_wallet now id balance t
  | SelectTransfer id => (Ok (select_transfer <$> transfers t !! id), ∅)
  | InsertTransfer id from to amount state =>
      exec_insert_transfer now (mkTransferRow id from to amount state None now now) t
  | UpdateTransferState id state reason => exec_update_state now id state reason t
  | SelectTransfersByWallet wallet before limit =>
      sql_check (bool_decide (0 <= limit)) pgInvalidLimit "limit"
        (Ok (take (Z.to_nat limit) (history_rows t wallet before)), ∅)
  | InsertLedgerEntry u wallet ty amount =>
      exec_insert_ledger (mkLedgerEntry nextval u wallet ty amount now) t
  | SelectLedgerByTransfer u => (Ok (ledger_rows t u), ∅)
  | SelectIdempotency key =>
      (Ok ((fun r => (ir_key r, ir_request_hash r, ir_transfer_id r))
             <$> idempotency_records t !! key), ∅)
  | InsertIdempotency key hash u => exec_insert_idem (mkIdemRow key hash u now) t
  end.

(** The DEFAULT of [ledger_entries.id] draws from a sequence, which no
    rollback and no failed INSERT winds back. *)
Definition draws_sequence {X} (s : stmt X) : bool :=
  match s with InsertLedgerEntry _ _ _ _ => true | _ => false end.

(** ** Locks

    What two open transactions cannot hold at once: the row lock on a wallet
    ([FOR UPDATE], UPDATE, or the key-share lock of a foreign-key check; the
    model does not distinguish lock strengths), and a pending entry of a unique index
    (a transfer id, an idempotency key, a ledger id), on which a second
    inserter of the same key waits. *)
Inductive resource : Type :=
| RWallet (id : string)
| RTransfer (id : UUID)
| RKey (key : string)
| RLedger (id : Z).

#[global] Instance resource_eq_dec : EqDecision resource.
Proof. solve_decision. Defined.
#[global] Instance resource_countable : Countable resource.
Proof.
  refine (inj_countable'
    (fun r => match r with
              | RWallet id => inl (inl id) | RTransfer u => inl (inr u)
              | RKey k => inr (inl k) | RLedger i => inr (inr i) end)
    (fun x => match x with
              | inl (inl id) => RWallet id | inl (inr u) => RTransfer u
              | inr (inl k) => RKey k | inr (inr i) => RLedger i end) _).
  by intros [].
Defined.

Definition lock_wallet (t : tables) (id : string) : list resource :=
  match wallets t !! id with Some _ => [RWallet id] | None => [] end.
Definition lock_transfer (t : tables) (u : UUID) : list resource :=
  match transfers t !! u with Some _ => [RTransfer u] | None => [] end.

(** What the statement must own, given what it sees: locks are on rows that
    exist and on index entries it creates. *)
Definition locks_of (nextval : Z) {X} (s : stmt X) (t : tables) : list resource :=
  match s with
  | SelectWalletForUpdate id | UpdateWalletBalance id _ => lock_wallet t id
  | InsertWallet id _ => match wallets t !! id with Some _ => [] | None => [RWallet id] end
  | InsertTransfer u from to _ _ => RTransfer u :: lock_wallet t from ++ lock_wallet t to
  | UpdateTransferState u _ _ => lock_transfer t u
  | InsertLedgerEntry u wallet _ _ =>
      RLedger nextval :: lock_transfer t u ++ lock_wallet t wallet
  | InsertIdempotency key _ u => RKey key :: lock_transfer t u
  | SelectWallet _ | SelectTransfer _ | SelectTransfersByWallet _ _ _
  | SelectLedgerByTransfer _ | SelectIdempotency _ => []
  end.
