(* ===== verification/Repository.v ===== *)
(** * internal/repository and internal/repository/postgres

    The operations of [database/sql] the code performs, the repository
    interfaces, their Postgres implementations, and the transaction manager. *)

From S2P Require Import Prelude GoRuntime Domain Database.
#[local] Open Scope go_scope.

(** ** The environment of the service

    [Executor] is the interface shared by [*sql.DB] and [*sql.Tx]. *)
Inductive Executor : Type :=
| DB
| Tx (id : nat).

Inductive svcE : Type -> Type :=
| BeginTx : svcE (result nat)
| Exec {X : Type} (exec : Executor) (s : stmt X) : svcE (result X)
| CommitTx (tx : nat) : svcE (result unit)
| RollbackTx (tx : nat) : svcE (result unit)
| NewUUID : svcE UUID
| TimeNow : svcE Time
| TransfersTotal_Inc (state : string) : svcE unit
| TransferDuration_Observe (state : string) (elapsed : Z) : svcE unit.

Abbreviation svc := (proc svcE).

Definition ErrNoRows : error := ErrVar "sql.ErrNoRows" "sql: no rows in result set".
Definition ErrTxDone : error :=
  ErrVar "sql.ErrTxDone" "sql: transaction has already been committed or rolled back".

(** [QueryRowContext(...).Scan(...)]: no row is [sql.ErrNoRows]. *)
Definition scan_row {X} (r : result (option X)) : result X :=
  match r with
  | Ok (Some x) => Ok x
  | Ok None => Err ErrNoRows
  | Err err => Err err
  end.

(** ** repository.go *)

Definition ErrNotFound : error := ErrVar "repository.ErrNotFound" "not found".
Definition ErrIdempotencyExists : error :=
  ErrVar "repository.ErrIdempotencyExists" "idempotency key already exists".

Record IdempotencyRecord : Type := mkIdempotencyRecord {
  Idem_Key : string;
  Idem_RequestHash : string;
  Idem_TransferID : UUID
}.

(** The interfaces.  A method that fills in fields of the struct it is given a
    pointer to returns the struct. *)
Record WalletRepository : Type := {
  wallet_Get : Executor -> string -> svc (result Wallet);
  wallet_LockForUpdate : Executor -> string -> svc (result Wallet);
  wallet_UpdateBalance : Executor -> string -> Z -> svc (result unit);
  wallet_Insert : Executor -> Wallet -> svc (result Wallet)
}.

Record TransferRepository : Type := {
  transfer_Get : Executor -> UUID -> svc (result Transfer);
  transfer_Insert : Executor -> Transfer -> svc (result Transfer);
  transfer_UpdateState : Executor -> UUID -> TransferState -> string -> svc (result unit);
  transfer_ListByWallet : Executor -> string -> Z -> option Time -> svc (result (list Transfer))
}.

Record LedgerRepository : Type := {
  ledger_Insert : Executor -> LedgerEntry -> svc (result LedgerEntry);
  ledger_ListByTransfer : Executor -> UUID -> svc (result (list LedgerEntry))
}.

Record IdempotencyRepository : Type := {
  idem_Get : Executor -> string -> svc (result IdempotencyRecord);
  idem_Insert : Executor -> string -> string -> UUID -> svc (result unit)
}.

(** [RunInTx(ctx, fn)], where [fn]'s captured result is its value. *)
Record TxManager : Type := {
  txm_RunInTx : forall A, (Executor -> svc (result A)) -> svc (result A)
}.

(** [res.RowsAffected()] is 0 when the WHERE clause matched nothing. *)
Definition rows_affected (pre : string) (r : result Z) : result unit :=
  match r with
  | Err err => Err (ErrWrap pre err)
  | Ok n => if decide (n = 0) then Err ErrNotFound else Ok tt
  end.

(** ** postgres/wallet.go *)
Module WalletRepo.
Definition scanWallet (row : result Wallet) : result Wallet :=
  match row with
  | Err err =>
      if errors_Is err ErrNoRows then Err ErrNotFound
      else Err (ErrWrap "scan wallet: " err)
  | Ok w => Ok w
  end.

Definition Get (exec : Executor) (id : string) : svc (result Wallet) :=
  row ← perform (Exec exec (SelectWallet id));
  Ret (scanWallet (scan_row row)).

Definition LockForUpdate (exec : Executor) (id : string) : svc (result Wallet) :=
  row ← perform (Exec exec (SelectWalletForUpdate id));
  Ret (scanWallet (scan_row row)).

Definition UpdateBalance (exec : Executor) (id : string) (balance : Z) : svc (result unit) :=
  res ← perform (Exec exec (UpdateWalletBalance id balance));
  Ret (rows_affected "update wallet balance: " res).

Definition Insert (exec : Executor) (w : Wallet) : svc (result Wallet) :=
  row ← perform (Exec exec (InsertWallet (Wallet_ID w) (Wallet_Balance w)));
  match row with
  | Err err => Ret (Err (ErrWrap "insert wallet: " err))
  | Ok (created, updated) =>
      Ret (Ok (mkWallet (Wallet_ID w) (Wallet_Balance w) created updated))
  end.
End WalletRepo.

Definition NewWalletRepo : WalletRepository := {|
  wallet_Get := WalletRepo.Get;
  wallet_LockForUpdate := WalletRepo.LockForUpdate;
  wallet_UpdateBalance := WalletRepo.UpdateBalance;
  wallet_Insert := WalletRepo.Insert
|}.

(** ** postgres/transfer.go *)
Module TransferRepo.
Definition Get (exec : Executor) (id : UUID) : svc (result Transfer) :=
  row ← perform (Exec exec (SelectTransfer id));
  match scan_row row with
  | Err err =>
      if errors_Is err ErrNoRows then Ret (Err ErrNotFound)
      else Ret (Err (ErrWrap "scan transfer: " err))
  | Ok t => Ret (Ok t)
  end.

Definition Insert (exec : Executor) (t : Transfer) : svc (result Transfer) :=
  row ← perform (Exec exec (InsertTransfer (Transfer_ID t) (Transfer_FromWalletID t)
                              (Transfer_ToWalletID t) (Transfer_Amount t) (Transfer_State t)));
  match row with
  | Err err => Ret (Err (ErrWrap "insert transfer: " err))
  | Ok (created, updated) =>
      Ret (Ok (mkTransfer (Transfer_ID t) (Transfer_FromWalletID t) (Transfer_ToWalletID t)
                 (Transfer_Amount t) (Transfer_State t) (Transfer_FailureReason t)
                 created updated))
  end.

Definition UpdateState (exec : Executor) (id : UUID) (state : TransferState)
    (failureReason : string) : svc (result unit) :=
  res ← perform (Exec exec (UpdateTransferState id state failureReason));
  Ret (rows_affected "update transfer state: " res).

Definition ListByWallet (exec : Executor) (walletID : string) (limit : Z)
    (before : option Time) : svc (result (list Transfer)) :=
  rows ← perform (Exec exec (SelectTransfersByWallet walletID before limit));
  Ret (wrap_err "list transfers by wallet: " rows).
End TransferRepo.

Definition NewTransferRepo : TransferRepository := {|
  transfer_Get := TransferRepo.Get;
  transfer_Insert := TransferRepo.Insert;
  transfer_UpdateState := TransferRepo.UpdateState;
  transfer_ListByWallet := TransferRepo.ListByWallet
|}.

(** ** postgres/ledger.go *)
Module LedgerRepo.
Definition Insert (exec : Executor) (e : LedgerEntry) : svc (result LedgerEntry) :=
  row ← perform (Exec exec (InsertLedgerEntry (Ledger_TransferID e) (Ledger_WalletID e)
                              (Ledger_Type e) (Ledger_Amount e)));
  match row with
  | Err err => Ret (Err (ErrWrap "insert ledger entry: " err))
  | Ok (id, created) =>
      Ret (Ok (mkLedgerEntry id (Ledger_TransferID e) (Ledger_WalletID e)
                 (Ledger_Type e) (Ledger_Amount e) created))
  end.

Definition ListByTransfer (exec : Executor) (transferID : UUID)
  : svc (result (list LedgerEntry)) :=
  rows ← perform (Exec exec (SelectLedgerByTransfer transferID));
  Ret (wrap_err "list ledger: " rows).
End LedgerRepo.

Definition NewLedgerRepo : LedgerRepository := {|
  ledger_Insert := LedgerRepo.Insert;
  ledger_ListByTransfer := LedgerRepo.ListByTransfer
|}.

(** ** postgres/idempotency.go *)
Module IdempotencyRepo.
Definition Get (exec : Executor) (key : string) : svc (result IdempotencyRecord) :=
  row ← perform (Exec exec (SelectIdempotency key));
  match scan_row row with
  | Err err =>
      if errors_Is err ErrNoRows then Ret (Err ErrNotFound)
      else Ret (Err (ErrWrap "scan idempotency: " err))
  | Ok (k, hash, id) => Ret (Ok (mkIdempotencyRecord k hash id))
  end.

Definition Insert (exec : Executor) (key hash : string) (transferID : UUID)
  : svc (result unit) :=
  res ← perform (Exec exec (InsertIdempotency key hash transferID));
  match res with
  | Ok _ => Ret (Ok tt)
  | Err err =>
      match errors_As_PgError err with
      | Some code =>
          if decide (code = pgUniqueViolation) then Ret (Err ErrIdempotencyExists)
          else Ret (Err (ErrWrap "insert idempotency: " err))
      | None => Ret (Err (ErrWrap "insert idempotency: " err))
      end
  end.
End IdempotencyRepo.

Definition NewIdempotencyRepo : IdempotencyRepository := {|
  idem_Get := IdempotencyRepo.Get;
  idem_Insert := IdempotencyRepo.Insert
|}.

(** ** postgres/postgres.go *)

(** The deferred closure of [RunInTx]: paths (a), (b) and (c). *)
Definition RunInTx_exit {A} (tx : nat) (out : outcome (result A)) : svc (result A) :=
  match out with
  | Panicked p => _ ← perform (RollbackTx tx); Panic p
  | Returned (Err err) =>
      rb ← perform (RollbackTx tx);
      match rb with
      | Err rbErr =>
          if same_error rbErr ErrTxDone then Ret (Err err)
          else Ret (Err (ErrWrapV err "; rollback: " rbErr))
      | Ok _ => Ret (Err err)
      end
  | Returned (Ok a) =>
      cm ← perform (CommitTx tx);
      match cm with
      | Err cmErr => Ret (Err (ErrWrap "commit: " cmErr))
      | Ok _ => Ret (Ok a)
      end
  end.

Definition RunInTx {A} (fn : Executor -> svc (result A)) : svc (result A) :=
  b ← perform BeginTx;
  match b with
  | Err err => Ret (Err (ErrWrap "begin tx: " err))
  | Ok tx => proc_finally (RunInTx_exit tx) (fn (Tx tx))
  end.

Definition NewTxManager : TxManager := {| txm_RunInTx := @RunInTx |}.
