(* ===== verification/Sha256.v ===== *)
(** * crypto/sha256 and encoding/hex

    The digest that [CreateTransferRequest.hash] takes, in full (FIPS 180-4),
    so that the request hash of the model is the string the service stores.
    Words are 32-bit numbers in [N]. *)

From S2P Require Import Prelude.
#[local] Open Scope N_scope.

Definition word_mod : N := 2 ^ 32.
Definition add32 (a b : N) : N := (a + b) mod word_mod.
Definition rotr (n x : N) : N :=
  N.lor (N.shiftr x n) (N.shiftl x (32 - n) mod word_mod).
Definition not32 (x : N) : N := N.lxor x (word_mod - 1).

Definition Ch (x y z : N) : N := N.lxor (N.land x y) (N.land (not32 x) z).
Definition Maj (x y z : N) : N := N.lxor (N.lxor (N.land x y) (N.land x z)) (N.land y z).
Definition Sigma0 (x : N) : N := N.lxor (N.lxor (rotr 2 x) (rotr 13 x)) (rotr 22 x).
Definition Sigma1 (x : N) : N := N.lxor (N.lxor (rotr 6 x) (rotr 11 x)) (rotr 25 x).
Definition sigma0 (x : N) : N := N.lxor (N.lxor (rotr 7 x) (rotr 18 x)) (N.shiftr x 3).
Definition sigma1 (x : N) : N := N.lxor (N.lxor (rotr 17 x) (rotr 19 x)) (N.shiftr x 10).

(** The constants are the first 32 bits of the fractional parts of the cube
    and square roots of the first primes. *)
Definition primes : list N :=
  Eval vm_compute in
    filter (fun n => forallb (fun d => negb (n mod d =? 0)) (map N.of_nat (seq 2 (N.to_nat n - 2))))
      (map N.of_nat (seq 2 310)).

Fixpoint cube_root (bits : nat) (r n : N) : N :=
  match bits with
  | O => r
  | S b =>
      let r' := r + 2 ^ N.of_nat b in
      cube_root b (if r' ^ 3 <=? n then r' else r) n
  end.

Definition round_constants : list N :=
  Eval vm_compute in map (fun p => cube_root 36 0 (p * 2 ^ 96) mod word_mod) (take 64 primes).

Definition initial_hash : list N :=
  Eval vm_compute in map (fun p => N.sqrt (p * 2 ^ 64) mod word_mod) (take 8 primes).

(** Big-endian encodings. *)
Fixpoint be_bytes (n : nat) (x : N) : list N :=
  match n with
  | O => []
  | S n' => be_bytes n' (x / 256) ++ [x mod 256]
  end.
Definition be_word (bs : list N) : N := fold_left (fun acc b => acc * 256 + b) bs 0.

Fixpoint chunks {A} (fuel n : nat) (l : list A) : list (list A) :=
  match fuel with
  | O => []
  | S fuel' => match l with [] => [] | _ => take n l :: chunks fuel' n (drop n l) end
  end.

(** The message, 0x80, zeros up to 56 modulo 64, and the length in bits. *)
Definition pad (msg : list N) : list N :=
  let len := length msg in
  let zeros := Nat.modulo (55 + 64 - Nat.modulo len 64)%nat 64 in
  msg ++ [0x80] ++ replicate zeros 0 ++ be_bytes 8 (8 * N.of_nat len).

(** The message schedule, latest word first. *)
Fixpoint extend (n : nat) (ws : list N) : list N :=
  match n with
  | O => ws
  | S n' =>
      let w i := nth i ws 0 in
      extend n' (add32 (add32 (sigma1 (w 1%nat)) (w 6%nat))
                   (add32 (sigma0 (w 14%nat)) (w 15%nat)) :: ws)
  end.

Definition schedule (block : list N) : list N :=
  rev (extend 48 (rev (map be_word (chunks 16 4 block)))).

Definition round (h : list N) (kw : N * N) : list N :=
  match h with
  | [a; b; c; d; e; f; g; hh] =>
      let t1 := add32 hh (add32 (Sigma1 e) (add32 (Ch e f g) (add32 kw.1 kw.2))) in
      let t2 := add32 (Sigma0 a) (Maj a b c) in
      [add32 t1 t2; a; b; c; add32 d t1; e; f; g]
  | _ => h
  end.

Definition compress (h : list N) (block : list N) : list N :=
  zip_with add32 h (fold_left round (zip round_constants (schedule block)) h).

Definition string_bytes (s : string) : list N :=
  map Ascii.N_of_ascii (String.list_ascii_of_string s).

Definition Sum256 (s : string) : list N :=
  let msg := pad (string_bytes s) in
  concat (map (be_bytes 4) (fold_left compress (chunks (length msg) 64 msg) initial_hash)).

(** [hex.EncodeToString] *)
Definition hex_digit (n : N) : Ascii.ascii :=
  Ascii.ascii_of_N (if n <? 10 then 48 + n else 87 + n).
Definition EncodeToString (bs : list N) : string :=
  String.string_of_list_ascii (concat (map (fun b => [hex_digit (b / 16); hex_digit (b mod 16)]) bs)).

(** ** The digest string determines the digest *)

Definition is_byte (b : N) : Prop := b < 256.

Lemma be_bytes_bytes n x : Forall is_byte (be_bytes n x).
Proof.
  revert x. induction n as [|n IH]; intros x; simpl; [constructor|].
  apply Forall_app. split; [done|]. repeat constructor. by apply N.mod_lt.
Qed.

Lemma Sum256_bytes s : Forall is_byte (Sum256 s).
Proof.
  unfold Sum256. generalize (fold_left compress
    (chunks (length (pad (string_bytes s))) 64 (pad (string_bytes s))) initial_hash).
  intros h. induction h as [|x h IH]; cbn [map concat]; [constructor|].
  apply Forall_app. split; [apply be_bytes_bytes|done].
Qed.

Lemma hex_digit_inj a b : a < 16 -> b < 16 -> hex_digit a = hex_digit b -> a = b.
Proof.
  intros Ha Hb E. apply (f_equal Ascii.N_of_ascii) in E. unfold hex_digit in E.
  rewrite !Ascii.N_ascii_embedding in E; repeat case_match; lia.
Qed.

Lemma EncodeToString_inj bs bs' :
  Forall is_byte bs -> Forall is_byte bs' -> EncodeToString bs = EncodeToString bs' -> bs = bs'.
Proof.
  intros Hbs Hbs' E. apply (f_equal String.list_ascii_of_string) in E. unfold EncodeToString in E.
  rewrite !String.list_ascii_of_string_of_list_ascii in E.
  revert bs' Hbs' E. induction Hbs as [|b bs Hb Hbs IH]; intros [|b' bs'] Hbs' E; try done.
  cbn [map concat app] in E. injection E as Eh El E. apply Forall_cons in Hbs' as [Hb' Hbs'].
  unfold is_byte in Hb, Hb'. apply hex_digit_inj in Eh, El;
    try (apply N.Div0.div_lt_upper_bound; lia); try (apply N.mod_lt; lia).
  f_equal; [|by apply IH].
  rewrite (N.div_mod b 16), (N.div_mod b' 16) by done. congruence.
Qed.

(** The test vectors of FIPS 180-4. *)
Example sha256_abc :
  EncodeToString (Sum256 "abc")
  = "ba7816bf8f01cfea414140de5dae2223b00361a396177a9cb410ff61f20015ad"%string.
Proof. vm_compute. reflexivity. Qed.

Example sha256_two_blocks :
  EncodeToString (Sum256 "abcdbcdecdefdefgefghfghighijhijkijkljklmklmnlmnomnopnopq")
  = "248d6a61d20638b8e5c026930c3e6039a33ce45964ff2167f6ecedd419db06c1"%string.
Proof. vm_compute. reflexivity. Qed.
