(* ===== verification/Service.v ===== *)
(** * internal/service: transfers, idempotent replay, history, wallets *)

From S2P Require Import Prelude GoRuntime Domain Database Repository Sha256.
#[local] Open Scope go_scope.

(** ** transfer.go *)

Definition DefaultTransferListLimit : Z := 50.
Definition MaxTransferListLimit : Z := 200.

Record CreateTransferRequest : Type := mkCreateTransferRequest {
  IdempotencyKey : string;
  FromWalletID : string;
  ToWalletID : string;
  Amount : Z
}.

#[global] Instance CreateTransferRequest_eq_dec : EqDecision CreateTransferRequest.
Proof. solve_decision. Defined.

Definition ErrWalletIDRequired : error := ErrText "from/to wallet id is required".

Definition Validate (r : CreateTransferRequest) : option error :=
  if decide (IdempotencyKey r = EmptyString) then Some ErrInvalidIdempotencyKey
  else if decide (Amount r <= 0) then Some ErrInvalidAmount
  else if decide (FromWalletID r = EmptyString \/ ToWalletID r = EmptyString) then
    Some ErrWalletIDRequired
  else if decide (FromWalletID r = ToWalletID r) then Some ErrSameWallet
  else None.

(** [fmt.Sprintf("%s|%s|%d", ...)] *)
Definition hash_input (r : CreateTransferRequest) : string :=
  FromWalletID r +:+ "|" +:+ ToWalletID r +:+ "|" +:+ pretty (Amount r).

Definition hash (r : CreateTransferRequest) : string :=
  EncodeToString (Sum256 (hash_input r)).

#[global] Arguments hash : simpl never.
#[global] Opaque hash.

Record TransferService : Type := mkTransferService {
  svc_exec : Executor;
  svc_txm : TxManager;
  svc_wallets : WalletRepository;
  svc_transfers : TransferRepository;
  svc_ledger : LedgerRepository;
  svc_idem : IdempotencyRepository
}.

Definition NewTransferService := mkTransferService.

(** Go compares strings byte by byte. *)
Definition orderedPair (a b : string) : string * string :=
  if String.ltb a b then (a, b) else (b, a).

Definition replayIfExists (s : TransferService) (exec : Executor) (key hash : string)
  : svc (result (option Transfer)) :=
  r ← idem_Get (svc_idem s) exec key;
  match r with
  | Err err => if errors_Is err ErrNotFound then Ret (Ok None) else Ret (Err err)
  | Ok rec =>
      if decide (Idem_RequestHash rec <> hash) then Ret (Err ErrIdempotencyConflict)
      else t ← transfer_Get (svc_transfers s) exec (Idem_TransferID rec);
           Ret (result_map Some t)
  end.

Definition set_state (t : Transfer) (state : TransferState) (reason : string) : Transfer :=
  mkTransfer (Transfer_ID t) (Transfer_FromWalletID t) (Transfer_ToWalletID t)
    (Transfer_Amount t) state reason (Transfer_CreatedAt t) (Transfer_UpdatedAt t).

Definition insufficient_reason : string := "insufficient funds".

Definition executeTransfer (s : TransferService) (exec : Executor)
    (req : CreateTransferRequest) (hash : string) : svc (result Transfer) :=
  let '(firstID, secondID) := orderedPair (FromWalletID req) (ToWalletID req) in
  _ ←? wallet_LockForUpdate (svc_wallets s) exec firstID;
  _ ←? wallet_LockForUpdate (svc_wallets s) exec secondID;
  src ←? wallet_Get (svc_wallets s) exec (FromWalletID req);
  dst ←? wallet_Get (svc_wallets s) exec (ToWalletID req);
  id ← perform NewUUID;
  t ←? transfer_Insert (svc_transfers s) exec
         (mkTransfer id (FromWalletID req) (ToWalletID req) (Amount req) StatePending
            EmptyString time_zero time_zero);
  _ ←? idem_Insert (svc_idem s) exec (IdempotencyKey req) hash (Transfer_ID t);
  if decide (Wallet_Balance src < Amount req) then
    _ ←? transfer_UpdateState (svc_transfers s) exec (Transfer_ID t) StateFailed
           insufficient_reason;
    Ret (Ok (set_state t StateFailed insufficient_reason))
  else
    _ ←? wallet_UpdateBalance (svc_wallets s) exec (Wallet_ID src)
           (wrap64 (Wallet_Balance src - Amount req));
    _ ←? wallet_UpdateBalance (svc_wallets s) exec (Wallet_ID dst)
           (wrap64 (Wallet_Balance dst + Amount req));
    _ ←? ledger_Insert (svc_ledger s) exec
           (mkLedgerEntry 0 (Transfer_ID t) (Wallet_ID src) EntryDebit (Amount req) time_zero);
    _ ←? ledger_Insert (svc_ledger s) exec
           (mkLedgerEntry 0 (Transfer_ID t) (Wallet_ID dst) EntryCredit (Amount req) time_zero);
    _ ←? transfer_UpdateState (svc_transfers s) exec (Transfer_ID t) StateProcessed EmptyString;
    Ret (Ok (set_state t StateProcessed (Transfer_FailureReason t))).

(** The body of [Create] after validation: the value it returns and the
    [resultState] its deferred closure finds. *)
Definition Create_body (s : TransferService) (req : CreateTransferRequest) (hash : string)
  : svc (result (option Transfer) * TransferState) :=
  replay ← replayIfExists s (svc_exec s) (IdempotencyKey req) hash;
  match replay with
  | Err err => Ret (Err err, EmptyString)
  | Ok (Some t) => Ret (Ok (Some t), Transfer_State t)
  | Ok None =>
      tx ← txm_RunInTx (svc_txm s) _ (fun exec => executeTransfer s exec req hash);
      match tx with
      | Err txErr =>
          if errors_Is txErr ErrIdempotencyExists then
            again ← replayIfExists s (svc_exec s) (IdempotencyKey req) hash;
            match again with
            | Ok (Some t) => Ret (again, Transfer_State t)
            | _ => Ret (again, EmptyString)
            end
          else Ret (Err txErr, EmptyString)
      | Ok t => Ret (Ok (Some t), Transfer_State t)
      end
  end.

(** The deferred closure: metrics of the state the caller observes. *)
Definition record_outcome (start : Time) (resultState : TransferState) : svc unit :=
  if decide (resultState = EmptyString) then Ret tt
  else
    _ ← perform (TransfersTotal_Inc resultState);
    now ← perform TimeNow;
    perform (TransferDuration_Observe resultState (now - start)).

Definition Create (s : TransferService) (req : CreateTransferRequest)
  : svc (result (option Transfer)) :=
  start ← perform TimeNow;
  match Validate req with
  | Some err => Ret (Err err)
  | None =>
      'ret ← Create_body s req (hash req);
      _ ← record_outcome start (snd ret);
      Ret (fst ret)
  end.

Definition GetTransfer (s : TransferService) (id : UUID) : svc (result Transfer) :=
  transfer_Get (svc_transfers s) (svc_exec s) id.

(** The page size used for a requested [limit]. *)
Definition clamp_limit (limit : Z) : Z :=
  let limit := if decide (limit <= 0) then DefaultTransferListLimit else limit in
  if decide (MaxTransferListLimit < limit) then MaxTransferListLimit else limit.

(** [next]: the creation time of the last row of a full page. *)
Definition next_cursor (rows : list Transfer) (limit : Z) : option Time :=
  if decide (Z.of_nat (length rows) = limit) then Transfer_CreatedAt <$> last rows else None.

Definition ListTransfersByWallet (s : TransferService) (walletID : string) (limit : Z)
    (before : option Time) : svc (result (list Transfer * option Time)) :=
  if decide (walletID = EmptyString) then Ret (Err ErrWalletNotFound)
  else
    let limit := clamp_limit limit in
    rows ←? transfer_ListByWallet (svc_transfers s) (svc_exec s) walletID limit before;
    Ret (Ok (rows, next_cursor rows limit)).

(** ** wallet.go *)

Record WalletService : Type := mkWalletService {
  wsvc_exec : Executor;
  wsvc_wallets : WalletRepository
}.

Definition NewWalletService := mkWalletService.

Definition WalletService_Get (s : WalletService) (id : string) : svc (result Wallet) :=
  wallet_Get (wsvc_wallets s) (wsvc_exec s) id.

Definition WalletService_Create (s : WalletService) (id : string) (initialBalance : Z)
  : svc (result Wallet) :=
  if decide (id = EmptyString) then Ret (Err ErrWalletNotFound)
  else if decide (initialBalance < 0) then Ret (Err ErrInvalidAmount)
  else wallet_Insert (wsvc_wallets s) (wsvc_exec s)
         (mkWallet id initialBalance time_zero time_zero).

(** ** The production wiring of cmd/server/main.go *)

Definition transferSvc : TransferService :=
  NewTransferService DB NewTxManager NewWalletRepo NewTransferRepo NewLedgerRepo
    NewIdempotencyRepo.
Definition walletSvc : WalletService := NewWalletService DB NewWalletRepo.
