(* ===== verification/Spec.v ===== *)
(** * What the service promises about the database

    The abstract specification: a transfer is one indivisible change of the
    tables ([transfer_effect]), creating a wallet is another, and nothing else
    ever changes what is committed ([atomic_step]).  The invariant [db_inv] of
    the committed tables and the order [grows] in which they evolve are proved
    here for the specification; the concurrent service is proved to take only
    such steps in [Concurrency]. *)

From S2P Require Import Prelude GoRuntime Domain Database Service.

(** ** Sums over the tables *)

(** The effect of a ledger entry on the balance of a wallet. *)
Definition signed_amount (id : string) (e : LedgerEntry) : Z :=
  if decide (Ledger_WalletID e = id) then
    if decide (Ledger_Type e = EntryDebit) then - Ledger_Amount e else Ledger_Amount e
  else 0.

Definition ledger_net (t : tables) (id : string) : Z :=
  map_fold (fun _ e acc => signed_amount id e + acc) 0 (ledger_entries t).

Definition total_balance (t : tables) : Z :=
  map_fold (fun _ w acc => Wallet_Balance w + acc) 0 (wallets t).

Section sums.
Context {K A : Type} `{Countable K} (f : A -> Z).
Implicit Types m : gmap K A.

Definition sum_map m : Z := map_fold (fun _ x acc => f x + acc) 0 m.

Lemma sum_map_insert m i x : m !! i = None -> sum_map (<[i := x]> m) = f x + sum_map m.
Proof. intros. unfold sum_map. rewrite map_fold_insert_L; [done|intros; lia|done]. Qed.

Lemma sum_map_replace m i x y :
  m !! i = Some x -> sum_map (<[i := y]> m) = sum_map m - f x + f y.
Proof.
  intros Hi. rewrite <- (insert_delete_eq m i y). rewrite sum_map_insert by apply lookup_delete_eq.
  rewrite <- (insert_id m i x Hi) at 2. rewrite <- (insert_delete_eq m i x).
  rewrite sum_map_insert by apply lookup_delete_eq. lia.
Qed.
End sums.

Lemma total_balance_insert t t' id w :
  wallets t' = <[id := w]> (wallets t) -> wallets t !! id = None ->
  total_balance t' = total_balance t + Wallet_Balance w.
Proof.
  intros Ht' Hid. unfold total_balance. rewrite Ht'.
  pose proof (sum_map_insert Wallet_Balance (wallets t) id w Hid) as Hs.
  unfold sum_map in Hs. lia.
Qed.

(** ** One transfer, indivisibly *)

Record transfer_inputs : Type := mkTransferInputs {
  in_req : CreateTransferRequest;   (** the request *)
  in_uuid : UUID;                   (** the transfer's new id *)
  in_now : Time;                    (** start time of the transaction *)
  in_debit : Z;                     (** ledger id of the DEBIT entry *)
  in_credit : Z                     (** ledger id of the CREDIT entry *)
}.

Section effect.
Variable x : transfer_inputs.
Let req := in_req x.

(** The row of the transfer in a given state. *)
Definition transfer_row (state : TransferState) (reason : option string) : TransferRow :=
  mkTransferRow (in_uuid x) (FromWalletID req) (ToWalletID req) (Amount req) state reason
    (in_now x) (in_now x).

Definition idem_row : IdemRow :=
  mkIdemRow (IdempotencyKey req) (hash req) (in_uuid x) (in_now x).

Definition debit_entry : LedgerEntry :=
  mkLedgerEntry (in_debit x) (in_uuid x) (FromWalletID req) EntryDebit (Amount req) (in_now x).
Definition credit_entry : LedgerEntry :=
  mkLedgerEntry (in_credit x) (in_uuid x) (ToWalletID req) EntryCredit (Amount req) (in_now x).

Definition set_balance (id : string) (w : Wallet) (balance : Z) : Wallet :=
  mkWallet id balance (Wallet_CreatedAt w) (in_now x).

Definition failed_effect (t : tables) : tables :=
  mkTables (wallets t)
    (<[in_uuid x := transfer_row StateFailed (Some insufficient_reason)]> (transfers t))
    (ledger_entries t)
    (<[IdempotencyKey req := idem_row]> (idempotency_records t)).

Definition processed_effect (src dst : Wallet) (t : tables) : tables :=
  mkTables
    (<[ToWalletID req := set_balance (ToWalletID req) dst (Wallet_Balance dst + Amount req)]>
       (<[FromWalletID req :=
            set_balance (FromWalletID req) src (Wallet_Balance src - Amount req)]> (wallets t)))
    (<[in_uuid x := transfer_row StateProcessed None]> (transfers t))
    (<[in_credit x := credit_entry]> (<[in_debit x := debit_entry]> (ledger_entries t)))
    (<[IdempotencyKey req := idem_row]> (idempotency_records t)).

(** When the transfer can take place, and what it does. *)
Record transfer_ready (src dst : Wallet) (t : tables) : Prop := {
  ready_src : wallets t !! FromWalletID req = Some src;
  ready_dst : wallets t !! ToWalletID req = Some dst;
  ready_distinct : FromWalletID req <> ToWalletID req;
  ready_amount : 0 < Amount req <= int64_max;
  ready_uuid : transfers t !! in_uuid x = None;
  ready_key : idempotency_records t !! IdempotencyKey req = None
}.

Record transfer_funded (src dst : Wallet) (t : tables) : Prop := {
  funded_src : Amount req <= Wallet_Balance src;
  funded_dst : Wallet_Balance dst + Amount req <= int64_max;
  funded_debit : ledger_entries t !! in_debit x = None;
  funded_credit : ledger_entries t !! in_credit x = None;
  funded_ids : in_debit x <> in_credit x
}.
End effect.

(** The specification machine: the only changes of the committed tables. *)
Inductive atomic_step : tables -> tables -> Prop :=
| atomic_none t : atomic_step t t
| atomic_wallet t id balance now :
    wallets t !! id = None -> 0 <= balance <= int64_max ->
    atomic_step t (put_wallet (mkWallet id balance now now) ∪ t)
| atomic_failed t x src dst :
    transfer_ready x src dst t -> Wallet_Balance src < Amount (in_req x) ->
    atomic_step t (failed_effect x t)
| atomic_processed t x src dst :
    transfer_ready x src dst t -> transfer_funded x src dst t ->
    atomic_step t (processed_effect x src dst t).

(** ** The invariant of the committed tables *)

Record wallet_ok (id : string) (w : Wallet) : Prop := {
  wallet_ok_id : Wallet_ID w = id;
  wallet_ok_balance : 0 <= Wallet_Balance w <= int64_max
}.

(** No committed transfer is PENDING; FAILED ones carry the reason. *)
Definition settled (r : TransferRow) : Prop :=
  (tr_state r = StateProcessed /\ tr_failure_reason r = None)
  \/ (tr_state r = StateFailed /\ tr_failure_reason r = Some insufficient_reason).

Record transfer_ok (t : tables) (u : UUID) (r : TransferRow) : Prop := {
  transfer_ok_id : tr_id r = u;
  transfer_ok_amount : 0 < tr_amount r <= int64_max;
  transfer_ok_distinct : tr_from_wallet_id r <> tr_to_wallet_id r;
  transfer_ok_from : is_Some (wallets t !! tr_from_wallet_id r);
  transfer_ok_to : is_Some (wallets t !! tr_to_wallet_id r);
  transfer_ok_settled : settled r;
  transfer_ok_key : exists k i, idempotency_records t !! k = Some i /\ ir_transfer_id i = u;
  transfer_ok_ledger : tr_state r = StateProcessed ->
    (exists i e, ledger_entries t !! i = Some e /\ same_side u EntryDebit e) /\
    (exists i e, ledger_entries t !! i = Some e /\ same_side u EntryCredit e)
}.

(** A ledger entry is one side of a PROCESSED transfer. *)
Definition side_of (r : TransferRow) (e : LedgerEntry) : Prop :=
  (Ledger_Type e = EntryDebit /\ Ledger_WalletID e = tr_from_wallet_id r)
  \/ (Ledger_Type e = EntryCredit /\ Ledger_WalletID e = tr_to_wallet_id r).

Record entry_ok (t : tables) (i : Z) (e : LedgerEntry) : Prop := {
  entry_ok_id : Ledger_ID e = i;
  entry_ok_transfer : exists r, transfers t !! Ledger_TransferID e = Some r
    /\ tr_state r = StateProcessed /\ Ledger_Amount e = tr_amount r /\ side_of r e;
  entry_ok_unique : forall j e', ledger_entries t !! j = Some e' ->
    same_side (Ledger_TransferID e) (Ledger_Type e) e' -> j = i
}.

(** The digest of the parameters a transfer row was made for. *)
Definition row_hash (r : TransferRow) : string :=
  hash (mkCreateTransferRequest EmptyString (tr_from_wallet_id r) (tr_to_wallet_id r)
          (tr_amount r)).

(** A key leads to one transfer, made for the recorded digest. *)
Record idem_ok (t : tables) (k : string) (i : IdemRow) : Prop := {
  idem_ok_key : ir_key i = k;
  idem_ok_transfer : exists r, transfers t !! ir_transfer_id i = Some r
    /\ ir_request_hash i = row_hash r;
  idem_ok_unique : forall k' i', idempotency_records t !! k' = Some i' ->
    ir_transfer_id i' = ir_transfer_id i -> k' = k
}.

Record db_inv (t : tables) : Prop := {
  inv_wallets : forall id w, wallets t !! id = Some w -> wallet_ok id w;
  inv_transfers : forall u r, transfers t !! u = Some r -> transfer_ok t u r;
  inv_ledger : forall i e, ledger_entries t !! i = Some e -> entry_ok t i e;
  inv_idem : forall k i, idempotency_records t !! k = Some i -> idem_ok t k i
}.

(** ** How the committed tables evolve

    Rows of transfers, ledger and idempotency records are never changed or
    removed; wallets are never removed, and a wallet's balance moves exactly
    with its ledger. *)
Record grows (t t' : tables) : Prop := {
  grows_wallets : forall id w, wallets t !! id = Some w ->
    exists w', wallets t' !! id = Some w'
      /\ Wallet_CreatedAt w' = Wallet_CreatedAt w
      /\ Wallet_Balance w' - ledger_net t' id = Wallet_Balance w - ledger_net t id;
  grows_transfers : transfers t ⊆ transfers t';
  grows_ledger : ledger_entries t ⊆ ledger_entries t';
  grows_idem : idempotency_records t ⊆ idempotency_records t'
}.

(** ** Facts about the specification *)

Lemma wallets_put_wallet w t : wallets (put_wallet w ∪ t) = <[Wallet_ID w := w]> (wallets t).
Proof. simpl. by rewrite insert_union_singleton_first. Qed.
Lemma transfers_put_wallet w t : transfers (put_wallet w ∪ t) = transfers t.
Proof. simpl. by rewrite union_empty_first. Qed.
Lemma ledger_put_wallet w t : ledger_entries (put_wallet w ∪ t) = ledger_entries t.
Proof. simpl. by rewrite union_empty_first. Qed.
Lemma idem_put_wallet w t : idempotency_records (put_wallet w ∪ t) = idempotency_records t.
Proof. simpl. by rewrite union_empty_first. Qed.

Lemma ledger_net_same t t' id :
  ledger_entries t' = ledger_entries t -> ledger_net t' id = ledger_net t id.
Proof. intros E. unfold ledger_net. by rewrite E. Qed.

(** The two entries of a transfer move the net of its wallets by its amount. *)
Lemma ledger_net_processed x src dst t id :
  transfer_funded x src dst t ->
  ledger_net (processed_effect x src dst t) id
  = signed_amount id (credit_entry x) + (signed_amount id (debit_entry x) + ledger_net t id).
Proof.
  intros Hf. unfold ledger_net. simpl.
  pose proof (sum_map_insert (K:=Z) (signed_amount id)) as Hs. unfold sum_map in Hs.
  rewrite Hs, Hs; [done| |].
  - by apply Hf.
  - rewrite lookup_insert_ne; [by apply Hf|]. by apply Hf.
Qed.

#[export] Instance grows_refl : Reflexive grows.
Proof. split; try done. eauto. Qed.

#[export] Instance grows_trans : Transitive grows.
Proof.
  intros t1 t2 t3 H1 H2. split.
  - intros id w Hw.
    destruct (grows_wallets _ _ H1 id w Hw) as (w2 & Hw2 & Hc2 & Hb2).
    destruct (grows_wallets _ _ H2 id w2 Hw2) as (w3 & Hw3 & Hc3 & Hb3).
    exists w3. split_and!; [done|congruence|lia].
  - etrans; [apply H1|apply H2].
  - etrans; [apply H1|apply H2].
  - etrans; [apply H1|apply H2].
Qed.

Lemma atomic_step_grows t t' : atomic_step t t' -> grows t t'.
Proof.
  destruct 1 as [t|t id balance now Hid Hb|t x src dst Hr Hlt|t x src dst Hr Hf].
  - reflexivity.
  - split.
    + intros id' w Hw. exists w.
      rewrite wallets_put_wallet. simpl. rewrite lookup_insert_ne by congruence.
      erewrite ledger_net_same by apply ledger_put_wallet. done.
    + by rewrite transfers_put_wallet.
    + by rewrite ledger_put_wallet.
    + by rewrite idem_put_wallet.
  - destruct Hr. split; simpl; try by (apply insert_subseteq).
    + intros id w Hw. exists w. by erewrite (ledger_net_same t).
    + done.
  - split.
    + intros id w Hw. rewrite (ledger_net_processed x src dst t id Hf).
      unfold signed_amount. simpl. destruct Hr as [Hs Hd Hne _ _ _].
      destruct (decide (ToWalletID (in_req x) = id)) as [<-|];
        [|destruct (decide (FromWalletID (in_req x) = id)) as [<-|]];
        simplify_map_eq; eexists; (split; [done|]); simpl; split; try done; lia.
    + simpl. apply insert_subseteq. apply Hr.
    + simpl. destruct Hf. etrans; apply insert_subseteq; [done|].
      by rewrite lookup_insert_ne.
    + simpl. apply insert_subseteq. apply Hr.
Qed.

Lemma rtc_atomic_grows t t' : rtc atomic_step t t' -> grows t t'.
Proof. induction 1; [reflexivity|etrans; [by apply atomic_step_grows|done]]. Qed.

(** ** The invariant is preserved *)

Lemma transfer_ok_grows t t' u r : grows t t' -> transfer_ok t u r -> transfer_ok t' u r.
Proof.
  intros Hg []. destruct Hg as [Hw Ht Hl Hi].
  assert (forall id, is_Some (wallets t !! id) -> is_Some (wallets t' !! id)) as Hdom.
  { intros id [w E]. destruct (Hw id w E) as (w' & ? & _). eauto. }
  split; auto.
  - destruct transfer_ok_key0 as (k & i & Hk & Hu).
    exists k, i. split; [by eapply lookup_weaken|done].
  - intros HP. destruct (transfer_ok_ledger0 HP) as [(i & e & ? & ?) (j & e' & ? & ?)].
    split; [exists i, e|exists j, e']; (split; [by eapply lookup_weaken|done]).
Qed.

(** What a step that adds no ledger entry and no idempotency record needs. *)
Lemma entry_ok_same_ledger t t' i e :
  grows t t' -> ledger_entries t' = ledger_entries t -> entry_ok t i e -> entry_ok t' i e.
Proof.
  intros Hg El []. split; auto.
  - destruct entry_ok_transfer0 as (r & Hr & ?). exists r.
    split; [|done]. eapply lookup_weaken; [done|apply Hg].
  - by rewrite El.
Qed.

Lemma idem_ok_same_idem t t' k i :
  grows t t' -> idempotency_records t' = idempotency_records t -> idem_ok t k i -> idem_ok t' k i.
Proof.
  intros Hg Ei []. split; auto.
  - destruct idem_ok_transfer0 as (r & Hr & Hh). exists r. split; [|done].
    eapply lookup_weaken; [done|apply Hg].
  - by rewrite Ei.
Qed.

Lemma db_inv_wallet t id balance now :
  wallets t !! id = None -> 0 <= balance <= int64_max -> db_inv t ->
  db_inv (put_wallet (mkWallet id balance now now) ∪ t).
Proof.
  intros Hid Hb [HW HT HL HI].
  assert (grows t (put_wallet (mkWallet id balance now now) ∪ t)) as Hg
    by (by apply atomic_step_grows, atomic_wallet).
  split.
  - intros id' w. rewrite wallets_put_wallet, lookup_insert_Some. simpl.
    intros [[<- <-]|[_ Hw]]; [by split|by apply HW].
  - intros u r. rewrite transfers_put_wallet. intros Hr. eapply transfer_ok_grows; eauto.
  - intros i e. rewrite ledger_put_wallet. intros He.
    eapply entry_ok_same_ledger; eauto. apply ledger_put_wallet.
  - intros k i. rewrite idem_put_wallet. intros Hi.
    eapply idem_ok_same_idem; eauto. apply idem_put_wallet.
Qed.

(** The idempotency record of a new transfer. *)
Lemma idem_ok_new t t' x r' :
  db_inv t -> transfers t !! in_uuid x = None ->
  transfers t' = <[in_uuid x := r']> (transfers t) -> row_hash r' = hash (in_req x) ->
  idempotency_records t' = <[IdempotencyKey (in_req x) := idem_row x]> (idempotency_records t) ->
  idempotency_records t !! IdempotencyKey (in_req x) = None ->
  forall k i, idempotency_records t' !! k = Some i -> idem_ok t' k i.
Proof.
  intros [_ _ _ HI] Hu Et Eh Ei Hk k i Hi.
  assert (forall k i, idempotency_records t !! k = Some i -> ir_transfer_id i <> in_uuid x) as Hfresh.
  { intros k0 i0 H0 E. destruct (idem_ok_transfer _ _ _ (HI _ _ H0)) as (? & ? & _). congruence. }
  rewrite Ei, lookup_insert_Some in Hi. destruct Hi as [[<- <-]|[Hne Hi]].
  - split; [done| |].
    + exists r'. rewrite Et. simpl. by rewrite lookup_insert_eq.
    + intros k' i'. rewrite Ei, lookup_insert_Some. intros [[<- <-]|[_ Hi']] E; [done|].
      by destruct (Hfresh _ _ Hi').
  - destruct (HI _ _ Hi). split; [done| |].
    + rewrite Et. rewrite lookup_insert_ne; [done|].
      intros E. by destruct (Hfresh _ _ Hi).
    + intros k' i'. rewrite Ei, lookup_insert_Some. intros [[<- <-]|[_ Hi']] E; [|eauto].
      by destruct (Hfresh _ _ Hi).
Qed.

Lemma db_inv_failed t x src dst :
  transfer_ready x src dst t -> db_inv t -> Wallet_Balance src < Amount (in_req x) ->
  db_inv (failed_effect x t).
Proof.
  intros Hr Hinv Hlt.
  assert (grows t (failed_effect x t)) as Hg by (by eapply atomic_step_grows, atomic_failed).
  pose proof Hinv as [HW HT HL HI]. destruct Hr as [Hs Hd Hne Ha Hu Hk]. split.
  - intros id w. simpl. apply HW.
  - intros u r Hr. simpl in Hr. rewrite lookup_insert_Some in Hr.
    destruct Hr as [[<- <-]|[Hne' Hr]]; [|eapply transfer_ok_grows; eauto].
    split; simpl; eauto.
    + by right.
    + eexists _, _. by rewrite lookup_insert_eq.
    + intros E. by vm_compute in E.
  - intros i e He. eapply entry_ok_same_ledger; eauto.
  - eapply idem_ok_new; eauto.
Qed.

Lemma db_inv_processed t x src dst :
  transfer_ready x src dst t -> transfer_funded x src dst t -> db_inv t ->
  db_inv (processed_effect x src dst t).
Proof.
  intros Hr Hf Hinv.
  assert (grows t (processed_effect x src dst t)) as Hg
    by (by eapply atomic_step_grows, atomic_processed).
  pose proof Hinv as [HW HT HL HI]. destruct Hr as [Hs Hd Hne Ha Hu Hk].
  destruct Hf as [Hfs Hfd Hdeb Hcred Hids].
  assert (forall i e, ledger_entries t !! i = Some e -> Ledger_TransferID e <> in_uuid x) as Hfresh.
  { intros i e He E. destruct (entry_ok_transfer _ _ _ (HL _ _ He)) as (r & ? & _). congruence. }
  pose proof (wallet_ok_balance _ _ (HW _ _ Hs)). pose proof (wallet_ok_balance _ _ (HW _ _ Hd)).
  split.
  - intros id w. simpl. rewrite !lookup_insert_Some.
    intros [[<- <-]|[_ [[<- <-]|[_ Hw]]]]; [split; simpl; [done|lia]..|by apply HW].
  - intros u r Hr. simpl in Hr. rewrite lookup_insert_Some in Hr.
    destruct Hr as [[<- <-]|[Hne' Hr]]; [|eapply transfer_ok_grows; eauto].
    split; simpl; eauto.
    + rewrite lookup_insert_ne, lookup_insert_eq by congruence. eauto.
    + rewrite lookup_insert_eq. eauto.
    + by left.
    + eexists _, _. by rewrite lookup_insert_eq.
    + intros _. split.
      * exists (in_debit x), (debit_entry x).
        rewrite lookup_insert_ne, lookup_insert_eq by congruence. done.
      * exists (in_credit x), (credit_entry x). by rewrite lookup_insert_eq.
  - intros i e He. simpl in He. rewrite !lookup_insert_Some in He.
    destruct He as [[<- <-]|[Hi1 [[<- <-]|[Hi2 He]]]].
    + split; simpl; [done| |].
      * eexists. rewrite lookup_insert_eq. split_and!; [done..|]. by right.
      * intros j e'. rewrite !lookup_insert_Some. intros [[<- <-]|[? [[<- <-]|[? He']]]] [E1 E2];
          [done|by vm_compute in E2|by destruct (Hfresh _ _ He')].
    + split; simpl; [done| |].
      * eexists. rewrite lookup_insert_eq. split_and!; [done..|]. by left.
      * intros j e'. rewrite !lookup_insert_Some. intros [[<- <-]|[? [[<- <-]|[? He']]]] [E1 E2];
          [by vm_compute in E2|done|by destruct (Hfresh _ _ He')].
    + destruct (HL _ _ He) as [Hid (r & Hr & Hrest) Huniq]. split; [done| |].
      * exists r. simpl. rewrite lookup_insert_ne; [done|]. intros E. by destruct (Hfresh _ _ He).
      * intros j e'. simpl. rewrite !lookup_insert_Some.
        intros [[<- <-]|[? [[<- <-]|[? He']]]] [E1 E2]; simpl in *;
          [by destruct (Hfresh _ _ He)..|]. by eapply Huniq.
  - eapply idem_ok_new; eauto.
Qed.

Lemma db_inv_empty : db_inv ∅.
Proof. by split; intros ??; simpl; rewrite lookup_empty. Qed.

#[export] Hint Resolve db_inv_wallet db_inv_failed db_inv_processed db_inv_empty : wallet.
