(* ===== verification/Machine.v ===== *)
(** * Running the service: transactions, locks, the connection pool

    The semantics of the operations of [Repository.svcE] over a shared
    database, for any number of requests running at once:

    - an open transaction keeps its writes private; its statements see its own
      writes over what is committed at that moment (READ COMMITTED);
    - it holds row locks and pending index entries until it ends, and a
      statement that needs one held by another transaction waits;
    - a statement that fails aborts its transaction: later statements are
      refused and COMMIT rolls back;
    - every operation that talks to the database can fail, and when the
      connection breaks during COMMIT (or during a single statement outside a
      transaction) the change may or may not have happened;
    - at most [pool] connections are in use (0 means no bound), and a statement
      outside the request's own transaction needs one of its own.

    Running one request alone is the special case of one thread. *)

From S2P Require Import Prelude GoRuntime Domain Database Repository.

(** What the outside world decides at a step. *)
Inductive fault : Type :=
| Broken (text : string)   (** the driver reports an error *)
| TxFinished.              (** the context was cancelled and the transaction is gone *)

Definition fault_error (f : fault) : error :=
  match f with Broken text => ErrDriver text | TxFinished => ErrTxDone end.

Record choice : Type := mkChoice {
  ch_fault : option fault;  (** does the database fail *)
  ch_applied : bool;        (** if so, had the change already been made *)
  ch_now : Time;            (** the clock *)
  ch_uuid : UUID            (** what the random generator gives *)
}.

Record txn : Type := mkTxn {
  tx_id : nat;
  tx_now : Time;
  tx_writes : tables;
  tx_locks : gset resource;
  tx_aborted : bool
}.

Record shared : Type := mkShared {
  sh_db : tables;              (** what is committed *)
  sh_seq : Z;                  (** the next ledger id *)
  sh_next_tx : nat;
  sh_metrics : gmap string nat (** wallet_transfers_total, by state *)
}.

Definition set_db (S : shared) (t : tables) : shared :=
  mkShared t (sh_seq S) (sh_next_tx S) (sh_metrics S).

Definition next_seq {X} (s : stmt X) (S : shared) : shared :=
  if draws_sequence s then mkShared (sh_db S) (sh_seq S + 1) (sh_next_tx S) (sh_metrics S)
  else S.

Definition count_transfer (state : string) (S : shared) : shared :=
  mkShared (sh_db S) (sh_seq S) (sh_next_tx S)
    (partial_alter (fun n => Some (default 0%nat n + 1)%nat) state (sh_metrics S)).

(** The transaction an executor denotes. *)
Definition live_tx (tx : nat) (T : option txn) : option txn :=
  match T with
  | Some t => if decide (tx_id t = tx) then Some t else None
  | None => None
  end.

Definition tx_view (S : shared) (t : txn) : tables := tx_writes t ∪ sh_db S.

Definition abort (t : txn) : txn :=
  mkTxn (tx_id t) (tx_now t) (tx_writes t) (tx_locks t) true.

(** ** One operation of a thread, when nothing makes it wait *)

Definition do_begin (ch : choice) (S : shared) (T : option txn)
  : result nat * shared * option txn :=
  match T, ch_fault ch with
  | Some _, _ => (Err (ErrDriver "the request already has a transaction"), S, T)
  | None, Some f => (Err (fault_error f), S, None)
  | None, None =>
      (Ok (sh_next_tx S),
       mkShared (sh_db S) (sh_seq S) (sh_next_tx S + 1)%nat (sh_metrics S),
       Some (mkTxn (sh_next_tx S) (ch_now ch) ∅ ∅ false))
  end.

(** A statement outside any transaction commits by itself. *)
Definition do_autocommit (ch : choice) {X} (s : stmt X) (S : shared) : result X * shared :=
  let '(r, d) := exec_stmt (ch_now ch) (sh_seq S) s (sh_db S) in
  match ch_fault ch with
  | None => (r, next_seq s (set_db S (d ∪ sh_db S)))
  | Some f =>
      (Err (fault_error f), if ch_applied ch then next_seq s (set_db S (d ∪ sh_db S)) else S)
  end.

Definition do_tx_stmt (ch : choice) {X} (s : stmt X) (S : shared) (t : txn)
  : result X * shared * option txn :=
  if tx_aborted t then (Err (ErrPg pgInFailedTransaction EmptyString), S, Some t)
  else
    match ch_fault ch with
    | Some f => (Err (fault_error f), S, Some (abort t))
    | None =>
        let '(r, d) := exec_stmt (tx_now t) (sh_seq S) s (tx_view S t) in
        (r, next_seq s S,
         Some (match r with
               | Ok _ => mkTxn (tx_id t) (tx_now t) (d ∪ tx_writes t)
                           (list_to_set (locks_of (sh_seq S) s (tx_view S t)) ∪ tx_locks t) false
               | Err _ => abort t
               end))
    end.

Definition do_commit (ch : choice) (S : shared) (t : txn) : result unit * shared :=
  let committed := set_db S (tx_view S t) in
  if tx_aborted t then (Err (ErrDriver "commit unexpectedly resulted in rollback"), S)
  else match ch_fault ch with
       | Some f => (Err (fault_error f), if ch_applied ch then committed else S)
       | None => (Ok tt, committed)
       end.

Definition do_rollback (ch : choice) : result unit :=
  match ch_fault ch with Some f => Err (fault_error f) | None => Ok tt end.

Definition local_exec (ch : choice) {X} (o : svcE X) (S : shared) (T : option txn)
  : X * shared * option txn :=
  match o with
  | BeginTx => do_begin ch S T
  | Exec DB s => (do_autocommit ch s S, T)
  | Exec (Tx tx) s =>
      match live_tx tx T with
      | Some t => do_tx_stmt ch s S t
      | None => (Err ErrTxDone, S, T)
      end
  | CommitTx tx =>
      match live_tx tx T with
      | Some t => (do_commit ch S t, None)
      | None => (Err ErrTxDone, S, T)
      end
  | RollbackTx tx =>
      match live_tx tx T with
      | Some t => (do_rollback ch, S, None)
      | None => (Err ErrTxDone, S, T)
      end
  | NewUUID => (ch_uuid ch, S, T)
  | TimeNow => (ch_now ch, S, T)
  | TransfersTotal_Inc state => (tt, count_transfer state S, T)
  | TransferDuration_Observe _ _ => (tt, S, T)
  end.

(** ** Waiting *)

Record busy : Type := mkBusy {
  busy_locks : gset resource;  (** held by the other transactions *)
  busy_conns : nat             (** connections in use by the others *)
}.

Definition txn_locks (T : option txn) : gset resource :=
  match T with Some t => tx_locks t | None => ∅ end.
Definition txn_conns (T : option txn) : nat := match T with Some _ => 1%nat | None => 0%nat end.

Definition conn_free (pool : nat) (B : busy) (T : option txn) : bool :=
  bool_decide (pool = 0%nat) || bool_decide (busy_conns B + txn_conns T < pool)%nat.

Definition locks_free (B : busy) (ls : list resource) : bool :=
  bool_decide (Forall (fun r => r ∉ busy_locks B) ls).

(** A failure ends a wait too. *)
Definition enabled (pool : nat) (B : busy) (ch : choice) {X} (o : svcE X) (S : shared)
    (T : option txn) : bool :=
  match o, ch_fault ch with
  | BeginTx, None => conn_free pool B T
  | Exec DB s, None => conn_free pool B T && locks_free B (locks_of (sh_seq S) s (sh_db S))
  | Exec (Tx tx) s, None =>
      match live_tx tx T with
      | Some t => tx_aborted t || locks_free B (locks_of (sh_seq S) s (tx_view S t))
      | None => true
      end
  | _, _ => true
  end.

(** ** Threads *)

Record config (A : Type) : Type := mkConfig {
  cf_shared : shared;
  cf_threads : list (svc A * option txn)
}.
Arguments mkConfig {A}.
Arguments cf_shared {A}.
Arguments cf_threads {A}.

Fixpoint busy_of (Ts : list (option txn)) : busy :=
  match Ts with
  | [] => mkBusy ∅ 0
  | T :: Ts' =>
      let B := busy_of Ts' in
      mkBusy (txn_locks T ∪ busy_locks B) (txn_conns T + busy_conns B)
  end.

(** What the threads other than [i] hold. *)
Definition others {A} (i : nat) (c : config A) : busy :=
  busy_of (<[i := None]> (snd <$> cf_threads c)).

Definition lookup_thread {A} (c : config A) (i : nat) : option (svc A * option txn) :=
  cf_threads c !! i.
Definition set_thread {A} (i : nat) (pT : svc A * option txn) (c : config A)
  : list (svc A * option txn) := <[i := pT]> (cf_threads c).

(** One step of thread [i]; [None] when it is finished or has to wait. *)
Definition step {A} (pool : nat) (i : nat) (ch : choice) (c : config A) : option (config A) :=
  match lookup_thread c i with
  | Some (Vis o k, T) =>
      if enabled pool (others i c) ch o (cf_shared c) T then
        let '(x, S', T') := local_exec ch o (cf_shared c) T in
        Some (mkConfig S' (set_thread i (k x, T') c))
      else None
  | _ => None
  end.

Definition steps {A} (pool : nat) (c c' : config A) : Prop :=
  exists i ch, step pool i ch c = Some c'.

(** A schedule: who moves, and what the world decides. *)
Fixpoint run_schedule {A} (pool : nat) (sched : list (nat * choice)) (c : config A)
  : option (config A) :=
  match sched with
  | [] => Some c
  | (i, ch) :: rest => c' ← step pool i ch c; run_schedule pool rest c'
  end.

Definition finished {A} (c : config A) : bool :=
  forallb (fun pT => match fst pT with Vis _ _ => false | _ => true end) (cf_threads c).

(** ** One request alone

    [run cs p S T]: the whole program, with the world's decisions in order. *)
Fixpoint run (cs : nat -> choice) {A} (p : svc A) (S : shared) (T : option txn)
  : outcome A * shared * option txn :=
  match p with
  | Ret a => (Returned a, S, T)
  | Panic v => (Panicked v, S, T)
  | Vis o k =>
      let '(x, S', T') := local_exec (cs 0%nat) o S T in
      run (fun n => cs (Datatypes.S n)) (k x) S' T'
  end.
