(* ===== verification/Rely.v ===== *)
(** * Reasoning about one request among others

    A request is verified alone, against what the other requests may do to
    the committed tables between two of its steps ([rely]): they take steps of
    the specification and leave alone everything the request has locked.  In
    return each of its own steps is a step of the specification that leaves
    alone everything it has not locked ([guarantee]).  [wp] is the weakest
    precondition of a program under this discipline, defined by recursion on
    the program; its rules below are what the proofs about the service use. *)

From S2P Require Import Prelude GoRuntime Domain Database Repository Service Spec Machine.

(** The rows behind a lock are the same. *)
Definition agree (r : resource) (t t' : tables) : Prop :=
  match r with
  | RWallet id => forall w, wallets t !! id = Some w -> wallets t' !! id = Some w
  | RTransfer u => transfers t' !! u = transfers t !! u
  | RKey k => idempotency_records t' !! k = idempotency_records t !! k
  | RLedger i => ledger_entries t' !! i = ledger_entries t !! i
  end.

Record rely (L : gset resource) (t t' : tables) : Prop := {
  rely_inv : db_inv t';
  rely_grows : grows t t';
  rely_agree : forall r, r ∈ L -> agree r t t'
}.

Record guarantee (L : gset resource) (t t' : tables) : Prop := {
  guar_step : atomic_step t t';
  guar_agree : forall r, r ∉ L -> agree r t t'
}.

(** ** Lock order

    Wallets in the byte order of their ids, then the new transfer id, then the
    idempotency key.  A request may wait for a resource only if it is above
    everything the request holds.  A new ledger id comes from a sequence, so
    nobody else can hold it. *)
Definition before (r1 r2 : resource) : Prop :=
  match r1, r2 with
  | RWallet a, RWallet b => String.ltb a b = true
  | RWallet _, (RTransfer _ | RKey _) => True
  | RTransfer _, RKey _ => True
  | _, _ => False
  end.

Definition may_request (seq : Z) (H : gset resource) (r : resource) : Prop :=
  r ∈ H \/ r = RLedger seq \/ (forall h, h ∈ H -> before h r).

(** Where an operation may be performed: no second connection and no second
    transaction while one is open, and locks in order. *)
Definition orderly {X} (o : svcE X) (S : shared) (T : option txn) : Prop :=
  match o with
  | BeginTx | Exec DB _ => T = None
  | Exec (Tx tx) s =>
      match live_tx tx T with
      | Some t => tx_aborted t = true \/
          Forall (may_request (sh_seq S) (tx_locks t)) (locks_of (sh_seq S) s (tx_view S t))
      | None => True
      end
  | _ => True
  end.

Section wp.
Context {A : Type}.
Implicit Types Q : A -> tables -> option txn -> Prop.

Fixpoint wp (p : svc A) (C : tables) (T : option txn) (Q : A -> tables -> option txn -> Prop)
  : Prop :=
  match p with
  | Ret a => forall C', rely (txn_locks T) C C' -> Q a C' T
  | Panic _ => forall C', rely (txn_locks T) C C' -> False
  | Vis o k => forall S ch, rely (txn_locks T) C (sh_db S) ->
      orderly o S T /\
      let '(x, S', T') := local_exec ch o S T in
      guarantee (txn_locks T) (sh_db S) (sh_db S') /\ wp (k x) (sh_db S') T' Q
  end.
End wp.

(** ** Rely and guarantee *)

Lemma agree_refl r t : agree r t t.
Proof. destruct r; simpl; auto. Qed.

Lemma agree_trans r t1 t2 t3 : agree r t1 t2 -> agree r t2 t3 -> agree r t1 t3.
Proof. destruct r; simpl; [auto|congruence..]. Qed.

Lemma rely_refl L t : db_inv t -> rely L t t.
Proof. split; [done|reflexivity|auto using agree_refl]. Qed.

#[export] Instance rely_trans L : Transitive (rely L).
Proof.
  intros t1 t2 t3 [] []. split; [done|by etrans|]. intros r Hr. eapply agree_trans; eauto.
Qed.

Lemma rely_after L t t' : rely L t t' -> rely L t' t'.
Proof. intros []. by apply rely_refl. Qed.

Lemma rely_weaken L L' t t' : L' ⊆ L -> rely L t t' -> rely L' t t'.
Proof. intros HL []. split; auto. Qed.

Lemma atomic_step_inv t t' : atomic_step t t' -> db_inv t -> db_inv t'.
Proof. destruct 1; eauto with wallet. Qed.

Lemma guarantee_none L t : guarantee L t t.
Proof. split; [constructor|auto using agree_refl]. Qed.

(** One thread's guarantee is the rely of a thread with disjoint locks. *)
Lemma guarantee_rely L L' t t' :
  db_inv t -> guarantee L t t' -> L ## L' -> rely L' t t'.
Proof.
  intros Hi [Hs Ha] HL. split.
  - by eapply atomic_step_inv.
  - by apply atomic_step_grows.
  - intros r Hr. apply Ha. set_solver.
Qed.

(** What the two outcomes of a transfer touch. *)
Definition transfer_locks (x : transfer_inputs) : list resource :=
  [RKey (IdempotencyKey (in_req x)); RTransfer (in_uuid x)].
Definition movement_locks (x : transfer_inputs) : list resource :=
  [RWallet (FromWalletID (in_req x)); RWallet (ToWalletID (in_req x));
   RLedger (in_debit x); RLedger (in_credit x)].

Lemma failed_effect_agree x t r : r ∉ transfer_locks x -> agree r t (failed_effect x t).
Proof.
  intros Hr. destruct r; simpl; [done| | |done]; rewrite lookup_insert_ne; try done;
    intros <-; apply Hr; unfold transfer_locks; set_solver.
Qed.

Lemma processed_effect_agree x src dst t r :
  r ∉ transfer_locks x ++ movement_locks x -> agree r t (processed_effect x src dst t).
Proof.
  intros Hr. destruct r; simpl; [intros w Hw| | |];
    rewrite ?lookup_insert_ne; try done; intros <-; apply Hr;
    unfold transfer_locks, movement_locks; set_solver.
Qed.

#[export] Hint Resolve rely_refl rely_after guarantee_none agree_refl : wallet.

(** ** Rules of [wp] *)

Lemma wp_stable {A} (p : svc A) C C' T Q :
  wp p C T Q -> rely (txn_locks T) C C' -> wp p C' T Q.
Proof.
  destruct p as [a|v|X o k]; simpl; intros H HR.
  - intros C'' HR'. apply H. by etrans.
  - intros C'' HR'. eapply H. by etrans.
  - intros S ch HR'. apply H. by etrans.
Qed.

(** The others may move first. *)
Lemma wp_rely {A} (p : svc A) C T Q :
  (forall C', rely (txn_locks T) C C' -> wp p C' T Q) -> wp p C T Q.
Proof.
  destruct p as [a|v|X o k]; simpl; intros H.
  - intros C' HR. eapply H; eauto with wallet.
  - intros C' HR. eapply (H C'); eauto with wallet.
  - intros S ch HR. eapply H; eauto with wallet.
Qed.

Lemma wp_ret {A} (a : A) C T (Q : A -> tables -> option txn -> Prop) :
  (forall C', rely (txn_locks T) C C' -> Q a C' T) -> wp (Ret a) C T Q.
Proof. done. Qed.

Lemma wp_mono {A} (p : svc A) C T (Q Q' : A -> tables -> option txn -> Prop) :
  (forall a C T, Q a C T -> Q' a C T) -> wp p C T Q -> wp p C T Q'.
Proof.
  intros HQ. revert C T. induction p as [a|v|X o k IH]; simpl; intros C T H; [auto|done|].
  intros S ch HR. destruct (H S ch HR) as [Ho H']. split; [done|].
  destruct (local_exec ch o S T) as [[x S'] T']. destruct H'. eauto.
Qed.

(** A postcondition holds from the end of the program on. *)
Lemma wp_close {A} (p : svc A) C T (Q : A -> tables -> option txn -> Prop) :
  wp p C T Q -> wp p C T (fun a C T => forall C', rely (txn_locks T) C C' -> Q a C' T).
Proof.
  revert C T. induction p as [a|v|X o k IH]; simpl; intros C T H; [|done|].
  - intros C' HR C'' HR'. apply H. by etrans.
  - intros S ch HR. destruct (H S ch HR) as [Ho H']. split; [done|].
    destruct (local_exec ch o S T) as [[x S'] T']. destruct H'. eauto.
Qed.

(** The tables at the end are well formed. *)
Lemma wp_settled {A} (p : svc A) C T (Q : A -> tables -> option txn -> Prop) :
  wp p C T Q -> wp p C T (fun a C T => db_inv C /\ Q a C T).
Proof.
  revert C T. induction p as [a|v|X o k IH]; simpl; intros C T H; [|done|].
  - intros C' HR. split; [apply HR|auto].
  - intros S ch HR. destruct (H S ch HR) as [Ho H']. split; [done|].
    destruct (local_exec ch o S T) as [[x S'] T']. destruct H'. eauto.
Qed.

(** They grow from where the program starts. *)
Lemma wp_grows {A} (p : svc A) C T (Q : A -> tables -> option txn -> Prop) :
  wp p C T Q -> wp p C T (fun a C' T' => grows C C' /\ Q a C' T').
Proof.
  revert C T. induction p as [a|v|X o k IH]; simpl; intros C T H; [|done|].
  - intros C' HR. split; [apply HR|auto].
  - intros S ch HR. destruct (H S ch HR) as [Ho H']. split; [done|].
    destruct (local_exec ch o S T) as [[x S'] T']. destruct H' as [Hg Hw]. split; [done|].
    eapply wp_mono; [|apply IH, Hw]. intros a C2 T2 [Hg2 ?]. split; [|done].
    etrans; [apply HR|]. etrans; [apply atomic_step_grows, Hg|done].
Qed.

Lemma wp_bind {A B} (f : A -> svc B) (p : svc A) C T Q :
  wp p C T (fun a C' T' => wp (f a) C' T' Q) -> wp (proc_bind f p) C T Q.
Proof.
  revert C T. induction p as [a|v|X o k IH]; simpl; intros C T H.
  - by apply wp_rely.
  - done.
  - intros S ch HR. destruct (H S ch HR) as [Ho H']. split; [done|].
    destruct (local_exec ch o S T) as [[x S'] T']. destruct H'. eauto.
Qed.

Lemma wp_finally {A B} (h : outcome A -> svc B) (p : svc A) C T Q :
  wp p C T (fun a C' T' => wp (h (Returned a)) C' T' Q) -> wp (proc_finally h p) C T Q.
Proof.
  revert C T. induction p as [a|v|X o k IH]; simpl; intros C T H.
  - by apply wp_rely.
  - apply wp_rely. intros C' HR. by destruct (H C' HR).
  - intros S ch HR. destruct (H S ch HR) as [Ho H']. split; [done|].
    destruct (local_exec ch o S T) as [[x S'] T']. destruct H'. eauto.
Qed.

Lemma wp_try_bind {A B} (f : A -> svc (result B)) (p : svc (result A)) C T Q :
  wp p C T (fun r C' T' =>
    match r with Ok a => wp (f a) C' T' Q | Err e => Q (Err e) C' T' end) ->
  wp (try_bind f p) C T Q.
Proof.
  intros H. apply wp_bind. unfold try_bind. revert H.
  revert C T. induction p as [a|v|X o k IH]; simpl; intros C T H.
  - intros C' HR. destruct a as [a|e]; [by apply H|]. simpl. intros C'' HR'.
    apply H. by etrans.
  - done.
  - intros S ch HR. destruct (H S ch HR) as [Ho H']. split; [done|].
    destruct (local_exec ch o S T) as [[x S'] T']. destruct H'. eauto.
Qed.

#[global] Arguments wp : simpl never.

(** ** Rules for the operations *)

Lemma live_tx_self t : live_tx (tx_id t) (Some t) = Some t.
Proof. simpl. by rewrite decide_True. Qed.

Lemma wp_NewUUID {A} (k : UUID -> svc A) C T Q :
  (forall u, wp (k u) C T Q) -> wp (Vis NewUUID k) C T Q.
Proof. intros H S ch HR. split; [done|]. split; [apply guarantee_none|]. by eapply wp_stable. Qed.

Lemma wp_TimeNow {A} (k : Time -> svc A) C T Q :
  (forall now, wp (k now) C T Q) -> wp (Vis TimeNow k) C T Q.
Proof. intros H S ch HR. split; [done|]. split; [apply guarantee_none|]. by eapply wp_stable. Qed.

Lemma wp_TransfersTotal_Inc {A} state (k : unit -> svc A) C T Q :
  wp (k tt) C T Q -> wp (Vis (TransfersTotal_Inc state) k) C T Q.
Proof. intros H S ch HR. split; [done|]. split; [apply guarantee_none|]. by eapply wp_stable. Qed.

Lemma wp_TransferDuration_Observe {A} state d (k : unit -> svc A) C T Q :
  wp (k tt) C T Q -> wp (Vis (TransferDuration_Observe state d) k) C T Q.
Proof. intros H S ch HR. split; [done|]. split; [apply guarantee_none|]. by eapply wp_stable. Qed.

Lemma wp_BeginTx {A} (k : result nat -> svc A) C Q :
  (forall f, wp (k (Err (fault_error f))) C None Q) ->
  (forall n now, wp (k (Ok n)) C (Some (mkTxn n now ∅ ∅ false)) Q) ->
  wp (Vis BeginTx k) C None Q.
Proof.
  intros Hf Hok S ch HR. split; [done|]. unfold local_exec, do_begin. destruct (ch_fault ch) as [f|]; simpl.
  - split; [apply guarantee_none|]. by eapply wp_stable.
  - split; [apply guarantee_none|]. eapply wp_stable; [apply Hok|]. done.
Qed.

(** A successful statement of a transaction: what it wrote and locked. *)
Record tx_next (t : txn) (d : tables) (ls : list resource) (t' : txn) : Prop := {
  next_id : tx_id t' = tx_id t;
  next_now : tx_now t' = tx_now t;
  next_live : tx_aborted t' = false;
  next_writes : tx_writes t' = d ∪ tx_writes t;
  next_locks : forall r, r ∈ tx_locks t' <-> r ∈ ls \/ r ∈ tx_locks t
}.

(** The statement sees its transaction's writes over what is committed.  Its
    failure, by a fault or a violated constraint, aborts the transaction. *)
Lemma wp_tx_stmt {A X} (s : stmt X) (k : result X -> svc A) t C Q :
  tx_aborted t = false ->
  (forall f C', wp (k (Err (fault_error f))) C' (Some (abort t)) Q) ->
  (forall C' seq, rely (tx_locks t) C C' ->
     Forall (may_request seq (tx_locks t)) (locks_of seq s (tx_writes t ∪ C')) /\
     let '(r, d) := exec_stmt (tx_now t) seq s (tx_writes t ∪ C') in
     match r with
     | Err e => forall t', tx_id t' = tx_id t -> wp (k (Err e)) C' (Some t') Q
     | Ok x => forall t', tx_next t d (locks_of seq s (tx_writes t ∪ C')) t' ->
                 wp (k (Ok x)) C' (Some t') Q
     end) ->
  wp (Vis (Exec (Tx (tx_id t)) s) k) C (Some t) Q.
Proof.
  intros Ht Hf Hok S ch HR. destruct (Hok (sh_db S) (sh_seq S) HR) as [Ho Hok'].
  unfold orderly, local_exec. rewrite live_tx_self. split; [by right|].
  unfold do_tx_stmt. rewrite Ht. destruct (ch_fault ch) as [f|].
  - split; [apply guarantee_none|]. auto.
  - unfold tx_view. destruct (exec_stmt _ _ _ _) as [r d].
    assert (sh_db (next_seq s S) = sh_db S) as -> by (unfold next_seq; by destruct draws_sequence).
    split; [apply guarantee_none|]. destruct r as [x|e]; apply Hok'; [|done].
    split; simpl; [done..|]. intros r. by rewrite elem_of_union, elem_of_list_to_set.
Qed.

Lemma wp_RollbackTx {A} (k : result unit -> svc A) t C Q :
  (forall r, (r = Ok tt \/ exists f, r = Err (fault_error f)) -> wp (k r) C None Q) ->
  wp (Vis (RollbackTx (tx_id t)) k) C (Some t) Q.
Proof.
  intros H S ch HR. split; [done|]. unfold local_exec. rewrite live_tx_self.
  split; [apply guarantee_none|]. eapply wp_stable; [apply H|].
  - unfold do_rollback. destruct (ch_fault ch); eauto.
  - eapply rely_weaken; [|done]. set_solver.
Qed.

(** COMMIT publishes the writes; a broken COMMIT may or may not have. *)
Lemma wp_CommitTx {A} (k : result unit -> svc A) t C Q :
  tx_aborted t = false ->
  (forall C', rely (tx_locks t) C C' -> guarantee (tx_locks t) C' (tx_writes t ∪ C')) ->
  (forall f C', wp (k (Err (fault_error f))) C' None Q) ->
  (forall C', rely (tx_locks t) C C' -> wp (k (Ok tt)) (tx_writes t ∪ C') None Q) ->
  wp (Vis (CommitTx (tx_id t)) k) C (Some t) Q.
Proof.
  intros Ht Hg Hf Hok S ch HR. split; [done|]. unfold local_exec. rewrite live_tx_self.
  unfold do_commit. rewrite Ht. unfold tx_view.
  destruct (ch_fault ch) as [f|]; [destruct (ch_applied ch)|]; simpl; auto using guarantee_none.
Qed.

(** A query outside a transaction reads what is committed. *)
Lemma wp_db_query {A X} (s : stmt X) (k : result X -> svc A) C Q :
  draws_sequence s = false ->
  (forall now seq t, snd (exec_stmt now seq s t) = ∅) ->
  (forall f C', wp (k (Err (fault_error f))) C' None Q) ->
  (forall C' now seq, rely ∅ C C' -> wp (k (fst (exec_stmt now seq s C'))) C' None Q) ->
  wp (Vis (Exec DB s) k) C None Q.
Proof.
  intros Hd Hw Hf Hok S ch HR. split; [done|]. unfold local_exec, do_autocommit.
  specialize (Hok (sh_db S) (ch_now ch) (sh_seq S) HR).
  specialize (Hw (ch_now ch) (sh_seq S) (sh_db S)).
  destruct (exec_stmt _ _ _ _) as [r d]. simpl in *. subst d.
  assert (∅ ∪ sh_db S = sh_db S) as E.
  { destruct (sh_db S). unfold union, tables_union. simpl. by rewrite !union_empty_first. }
  unfold next_seq. rewrite Hd, E.
  destruct (ch_fault ch); [destruct (ch_applied ch)|]; simpl; auto using guarantee_none.
Qed.

(** ** Rows kept by a lock *)

Lemma rely_wallet L t t' id w :
  rely L t t' -> RWallet id ∈ L -> wallets t !! id = Some w -> wallets t' !! id = Some w.
Proof. intros [_ _ Ha] HL. by apply (Ha _ HL). Qed.

Lemma rely_transfer L t t' u :
  rely L t t' -> RTransfer u ∈ L -> transfers t' !! u = transfers t !! u.
Proof. intros [_ _ Ha] HL. by apply (Ha _ HL). Qed.

Lemma rely_key L t t' k :
  rely L t t' -> RKey k ∈ L -> idempotency_records t' !! k = idempotency_records t !! k.
Proof. intros [_ _ Ha] HL. by apply (Ha _ HL). Qed.

Lemma rely_ledger L t t' i :
  rely L t t' -> RLedger i ∈ L -> ledger_entries t' !! i = ledger_entries t !! i.
Proof. intros [_ _ Ha] HL. by apply (Ha _ HL). Qed.
