(* ===== verification/Workload.v ===== *)
(** * Any requests at once

    What runs on the database is a [Workload]: programs for requests, and for
    each the specification it meets among others ([wl_spec]).  The service
    requests are one ([Concurrency.api_workload]); the HTTP requests of the
    public listener are another ([HttpConcurrent.http_workload]).  Here, for
    any workload: the states its requests reach interleaved, the invariant of
    those states, and that every step of every schedule is a step of the
    specification ([Spec.atomic_step]) on the committed tables. *)

From S2P Require Import Prelude GoRuntime Domain Database Repository Service Spec Machine Rely.
#[local] Open Scope go_scope.

Class Workload (Req Reply : Type) : Type := {
  wl_prog : Req -> svc Reply;
  wl_ok : Req -> tables -> Prop;  (** what is known when a request comes in *)
  wl_post : Req -> Reply -> tables -> option txn -> Prop;  (** what a reply promises *)
  wl_spec : forall a C, wl_ok a C -> wp (wl_prog a) C None (wl_post a);
  wl_closed : forall a r C T, wl_post a r C T -> T = None
}.

(** The committed tables. *)
Definition committed {A} (c : config A) : tables := sh_db (cf_shared c).

(** The answer of request [i], once it has one. *)
Definition answered {A} (c : config A) (i : nat) (r : A) : Prop :=
  exists T, cf_threads c !! i = Some (Ret r, T).

(** ** What an operation does to the locks of its thread and to the sequence *)

Lemma elem_of_busy_locks Ts r :
  r ∈ busy_locks (busy_of Ts) <-> exists j T, Ts !! j = Some T /\ r ∈ txn_locks T.
Proof.
  induction Ts as [|T Ts IH]; simpl.
  - split; [set_solver|]. intros (j & T & Hj & _). by rewrite lookup_nil in Hj.
  - rewrite elem_of_union, IH. split.
    + intros [Hr|(j & T' & Hj & Hr)]; [by exists 0%nat, T|by exists (S j), T'].
    + intros ([|j] & T' & Hj & Hr); simplify_eq/=; eauto.
Qed.

Lemma elem_of_others {A} i (c : config A) r :
  r ∈ busy_locks (others i c) <->
  exists j pT, j <> i /\ cf_threads c !! j = Some pT /\ r ∈ txn_locks pT.2.
Proof.
  unfold others. rewrite elem_of_busy_locks. split.
  - intros (j & T & Hj & Hr). apply list_lookup_insert_Some in Hj as [(<- & <- & _)|[Hne Hj]].
    + simpl in Hr. set_solver.
    + rewrite list_lookup_fmap in Hj. apply fmap_Some in Hj as (pT & Hj & ->).
      exists j, pT. auto.
  - intros (j & pT & Hne & Hj & Hr). exists j, pT.2. split; [|done].
    rewrite list_lookup_insert_ne by done. by rewrite list_lookup_fmap, Hj.
Qed.

Lemma live_tx_Some tx T t : live_tx tx T = Some t -> T = Some t /\ tx_id t = tx.
Proof. destruct T; simpl; [|done]. case_decide; [|done]. by intros [= ->]. Qed.

Lemma local_exec_locks pool B ch {X} (o : svcE X) S T x S' T' :
  local_exec ch o S T = (x, S', T') -> enabled pool B ch o S T = true ->
  forall r, r ∈ txn_locks T' -> r ∈ txn_locks T \/ r ∉ busy_locks B.
Proof.
  intros E He r Hr. unfold enabled in He.
  destruct o as [|X exec s|tx|tx| | | |]; simpl in E; simplify_eq/=; auto.
  - unfold do_begin in E. destruct T, (ch_fault ch); simplify_eq/=; auto.
  - destruct exec as [|tx]; [simplify_eq; auto|].
    destruct (live_tx tx T) as [t|] eqn:Ht; [|simplify_eq; auto].
    apply live_tx_Some in Ht as [-> <-].
    unfold do_tx_stmt in E. destruct (tx_aborted t) eqn:Hab; [simplify_eq; auto|].
    destruct (ch_fault ch); [simplify_eq; auto|].
    destruct (exec_stmt _ _ _ _) as [res d]. injection E as <- <- <-.
    cbn [orb] in He.
    apply bool_decide_eq_true in He. rewrite Forall_forall in He.
    destruct res; simpl in Hr; [|auto]. apply elem_of_union in Hr as [Hr|Hr]; [|auto].
    right. apply He. by apply elem_of_list_to_set in Hr.
  - destruct (live_tx tx T); simplify_eq/=; [set_solver|auto].
  - destruct (live_tx tx T); simplify_eq/=; [set_solver|auto].
Qed.

Lemma next_seq_le {X} (s : stmt X) S : sh_seq S <= sh_seq (next_seq s S).
Proof. unfold next_seq. destruct draws_sequence; simpl; lia. Qed.

Lemma locks_of_ledger seq {X} (s : stmt X) t i :
  RLedger i ∈ locks_of seq s t -> i = seq /\ draws_sequence s = true.
Proof.
  destruct s; simpl; unfold lock_wallet, lock_transfer; repeat case_match; intros Hi;
    rewrite ?elem_of_cons, ?elem_of_app, ?elem_of_cons, ?elem_of_nil in Hi;
    repeat match goal with H : _ \/ _ |- _ => destruct H end; simplify_eq; try done; auto.
Qed.

Lemma local_exec_seq ch {X} (o : svcE X) S T x S' T' :
  local_exec ch o S T = (x, S', T') ->
  (forall i, RLedger i ∈ txn_locks T -> i < sh_seq S) ->
  sh_seq S <= sh_seq S' /\ forall i, RLedger i ∈ txn_locks T' -> i < sh_seq S'.
Proof.
  intros E HT. destruct o as [|X exec s|tx|tx| | | |]; simpl in E; simplify_eq/=; auto with lia.
  - unfold do_begin in E. destruct T, (ch_fault ch); simplify_eq/=; (split; [lia|set_solver]).
  - destruct exec as [|tx].
    + unfold do_autocommit in E. destruct (exec_stmt _ _ _ _) as [res d].
      assert (sh_seq S <= sh_seq S') as Hle.
      { pose proof (next_seq_le s (set_db S (d ∪ sh_db S))). simpl in *.
        destruct (ch_fault ch); [destruct (ch_applied ch)|]; simplify_eq; lia. }
      split; [done|]. simplify_eq. intros i Hi. specialize (HT i Hi). lia.
    + destruct (live_tx tx T) as [t|] eqn:Ht; [|simplify_eq; auto with lia].
      apply live_tx_Some in Ht as [-> <-].
      unfold do_tx_stmt in E. destruct (tx_aborted t); [simplify_eq; auto with lia|].
      destruct (ch_fault ch); [simplify_eq; auto with lia|].
      destruct (exec_stmt _ _ _ _) as [res d]. injection E as <- <- <-.
      pose proof (next_seq_le s S). split; [done|]. intros i.
      destruct res; simpl; [|intros Hi; specialize (HT i Hi); lia].
      rewrite elem_of_union, elem_of_list_to_set. intros [Hi|Hi]; [|specialize (HT i Hi); lia].
      apply locks_of_ledger in Hi as [-> Hd]. unfold next_seq. rewrite Hd. simpl. lia.
  - destruct (live_tx tx T) as [t|]; [|simplify_eq; auto with lia].
    unfold do_commit in E. destruct (tx_aborted t), (ch_fault ch), (ch_applied ch);
      simplify_eq/=; (split; [lia|set_solver]).
  - destruct (live_tx tx T); simplify_eq/=; (split; [lia|set_solver]).
Qed.

Lemma step_inv {A} pool i ch (c c' : config A) :
  step pool i ch c = Some c' ->
  exists X (o : svcE X) k T x S' T',
    cf_threads c !! i = Some (Vis o k, T) /\
    enabled pool (others i c) ch o (cf_shared c) T = true /\
    local_exec ch o (cf_shared c) T = (x, S', T') /\
    c' = mkConfig S' (<[i := (k x, T')]> (cf_threads c)).
Proof.
  unfold step, lookup_thread. intros Hs. destruct (cf_threads c !! i) as [[[a|v|X o k] T]|] eqn:Hi; try done.
  destruct (enabled _ _ _ _ _ _) eqn:He; [|done].
  destruct (local_exec ch o (cf_shared c) T) as [[x S'] T'] eqn:Hx.
  injection Hs as <-. exists X, o, k, T, x, S', T'. auto.
Qed.

Section workload.
Context {Req Reply : Type} {WL : Workload Req Reply}.

(** All requests start together on a given database. *)
Definition start (t : tables) (seq : Z) (reqs : list Req) : config Reply :=
  mkConfig (mkShared t seq 0 ∅) ((fun a => (wl_prog a, None)) <$> reqs).

Definition reachable (pool : nat) (t : tables) (seq : Z) (reqs : list Req) (c : config Reply)
  : Prop := rtc (steps pool) (start t seq reqs) c.

(** ** The invariant of a running configuration *)

Record thread_ok (C : tables) (seq : Z) (a : Req) (pT : svc Reply * option txn) : Prop := {
  thread_wp : wp pT.1 C pT.2 (wl_post a);
  thread_seq : forall i, RLedger i ∈ txn_locks pT.2 -> i < seq
}.

Record conf_ok (reqs : list Req) (c : config Reply) : Prop := {
  conf_inv : db_inv (committed c);
  conf_threads : Forall2 (thread_ok (committed c) (sh_seq (cf_shared c))) reqs (cf_threads c);
  conf_disjoint : forall i j pT pT', i <> j ->
    cf_threads c !! i = Some pT -> cf_threads c !! j = Some pT' ->
    txn_locks pT.2 ## txn_locks pT'.2
}.

(** ** One step of a configuration *)

Lemma thread_ok_stable C C' seq seq' L a pT :
  db_inv C -> guarantee L C C' -> L ## txn_locks pT.2 -> seq <= seq' ->
  thread_ok C seq a pT -> thread_ok C' seq' a pT.
Proof.
  intros Hi Hg HL Hle [Hw Hs]. split.
  - eapply wp_stable; [done|]. by eapply guarantee_rely.
  - intros n Hn. specialize (Hs n Hn). lia.
Qed.

(** Every step of every request is a step of the specification, and keeps the
    configuration well formed. *)
Lemma step_conf_ok pool reqs i ch c c' :
  conf_ok reqs c -> step pool i ch c = Some c' ->
  atomic_step (committed c) (committed c') /\ conf_ok reqs c'.
Proof.
  intros [Hinv Hthr Hdis] Hs.
  destruct (step_inv _ _ _ _ _ Hs) as (X & o & k & T & x & S' & T' & Hi & He & Hx & ->).
  destruct (Forall2_lookup_r _ _ _ _ _ Hthr Hi) as (a & Ha & [Hw Hq]). simpl in Hw, Hq.
  destruct (Hw (cf_shared c) ch (rely_refl _ _ Hinv)) as [_ H]. rewrite Hx in H.
  destruct H as [Hg Hw'].
  assert (atomic_step (committed c) (sh_db S')) as Hstep by apply Hg.
  destruct (local_exec_seq _ _ _ _ _ _ _ Hx Hq) as [Hle Hq'].
  split; [done|]. split; simpl.
  - by eapply atomic_step_inv.
  - apply Forall2_same_length_lookup. split; [rewrite length_insert; by eapply Forall2_length|].
    intros j a' pT Ha' Hj. apply list_lookup_insert_Some in Hj as [(<- & <- & _)|[Hne Hj]].
    + simplify_eq. by split.
    + pose proof (Forall2_lookup_lr _ _ _ _ _ _ Hthr Ha' Hj).
      eapply thread_ok_stable; [done|exact Hg| |done|done].
      by apply (Hdis i j (Vis o k, T) pT).
  - assert (forall j pT, i <> j -> cf_threads c !! j = Some pT -> txn_locks T' ## txn_locks pT.2)
      as Hd.
    { intros j pT Hne Hj r Hr Hr'.
      destruct (local_exec_locks _ _ _ _ _ _ _ _ _ Hx He r Hr) as [Ht|Hb].
      - pose proof (Hdis i j (Vis o k, T) pT Hne Hi Hj) as Hd. simpl in Hd. set_solver.
      - apply Hb, elem_of_others. eauto. }
    intros j j' pT pT' Hne Hj Hj'.
    apply list_lookup_insert_Some in Hj as [(<- & <- & _)|[Hn Hj]];
      apply list_lookup_insert_Some in Hj' as [(<- & <- & _)|[Hn' Hj']]; simpl.
    + done.
    + by eapply Hd.
    + symmetry. by eapply Hd.
    + exact (Hdis j j' pT pT' Hne Hj Hj').
Qed.

Lemma start_conf_ok t seq reqs :
  db_inv t -> Forall (fun a => wl_ok a t) reqs -> conf_ok reqs (start t seq reqs).
Proof.
  intros Hi Hr. split; simpl; [done| |].
  - apply Forall2_fmap_r, Forall2_same_length_lookup. split; [done|].
    intros i a b Ha Hb. simplify_eq. split; simpl; [|set_solver].
    apply wl_spec. by eapply (Forall_lookup_1 (fun a => wl_ok a t)).
  - intros i j pT pT' _ Hi' _. rewrite list_lookup_fmap in Hi'.
    apply fmap_Some in Hi' as (a & _ & ->). set_solver.
Qed.

(** Another request comes in. *)
Definition enter (a : Req) (c : config Reply) : config Reply :=
  mkConfig (cf_shared c) (cf_threads c ++ [(wl_prog a, None)]).

Lemma enter_conf_ok reqs a c : conf_ok reqs c -> wl_ok a (committed c) ->
  conf_ok (reqs ++ [a]) (enter a c).
Proof.
  intros [Hinv Hthr Hdis] Ha. split; [done| |].
  - apply Forall2_app; [done|]. constructor; [|done]. split; simpl; [by apply wl_spec|set_solver].
  - assert (forall i pT, cf_threads (enter a c) !! i = Some pT ->
      cf_threads c !! i = Some pT \/ txn_locks pT.2 = ∅) as Hcase.
    { intros i pT Hi. apply lookup_app_Some in Hi as [Hi|[_ Hi]]; [by left|right].
      by apply list_lookup_singleton_Some in Hi as [_ <-]. }
    intros i j pT pT' Hne Hi Hj.
    destruct (Hcase _ _ Hi) as [Hi'|Hi']; [|rewrite Hi'; set_solver].
    destruct (Hcase _ _ Hj) as [Hj'|Hj']; [|rewrite Hj'; set_solver]. by apply (Hdis i j pT pT').
Qed.

Lemma reachable_conf_ok pool t seq reqs c :
  db_inv t -> Forall (fun a => wl_ok a t) reqs -> reachable pool t seq reqs c -> conf_ok reqs c.
Proof.
  intros Hi Hr Hc. pose proof (start_conf_ok t seq reqs Hi Hr) as H. revert H.
  unfold reachable in Hc. induction Hc as [c|c1 c2 c3 [i [ch Hs]] _ IH]; [done|].
  intros H. apply IH. by eapply step_conf_ok.
Qed.

Lemma steps_atomic pool reqs c c' :
  conf_ok reqs c -> rtc (steps pool) c c' -> rtc atomic_step (committed c) (committed c').
Proof.
  intros Hok Hc. revert Hok. induction Hc as [c|c1 c2 c3 [i [ch Hs]] _ IH]; [done|].
  intros H'. destruct (step_conf_ok _ _ _ _ _ _ H' Hs) as [Hs1 H2].
  eapply rtc_l; [done|auto].
Qed.

Lemma steps_grows pool reqs c c' :
  conf_ok reqs c -> rtc (steps pool) c c' -> grows (committed c) (committed c').
Proof.
  intros Hok Hc. apply rtc_atomic_grows. by eapply steps_atomic.
Qed.

(** An answer keeps being true, and leaves no transaction behind. *)
Lemma answered_post reqs c i r :
  conf_ok reqs c -> answered c i r ->
  exists a, reqs !! i = Some a /\ wl_post a r (committed c) None /\
    cf_threads c !! i = Some (Ret r, None).
Proof.
  intros [Hi Hthr _] [T HT]. destruct (Forall2_lookup_r _ _ _ _ _ Hthr HT) as (a & Ha & [Hw _]).
  assert (wl_post a r (committed c) T) as Hp by (apply Hw; auto with wallet).
  exists a. by rewrite <- (wl_closed _ _ _ _ Hp).
Qed.

(** A finished request has an answer. *)
Lemma finished_answered reqs c i :
  conf_ok reqs c -> finished c = true -> (i < length reqs)%nat -> exists r, answered c i r.
Proof.
  intros [Hi Hthr _] Hf Hlt.
  destruct (lookup_lt_is_Some_2 reqs i Hlt) as [a Ha].
  destruct (Forall2_lookup_l _ _ _ _ _ Hthr Ha) as ([p T] & HT & [Hw _]). simpl in Hw.
  unfold finished in Hf. rewrite forallb_forall in Hf.
  pose proof (Hf _ (proj1 (list_elem_of_In _ _) (list_elem_of_lookup_2 _ _ _ HT))) as Hp.
  destruct p as [r|v|X o k]; [by exists r, T| |done].
  by destruct (Hw _ (rely_refl _ _ Hi)).
Qed.

Lemma run_schedule_app {A} pool s1 s2 (c : config A) :
  run_schedule pool (s1 ++ s2) c = run_schedule pool s1 c ≫= run_schedule pool s2.
Proof.
  revert c. induction s1 as [|[i ch] s1 IH]; intros c; [done|]. simpl.
  destruct (step pool i ch c); [apply IH|done].
Qed.

(** ** Reachable states are the ends of schedules *)

Lemma reachable_schedule pool t seq reqs c :
  reachable pool t seq reqs c <-> exists sched, run_schedule pool sched (start t seq reqs) = Some c.
Proof.
  unfold reachable. generalize (start t seq reqs). intros c0. split.
  - induction 1 as [c|c1 c2 c3 [i [ch Hs]] _ [sched IH]]; [by exists []|].
    exists ((i, ch) :: sched). simpl. by rewrite Hs.
  - intros [sched Hs]. revert c0 Hs. induction sched as [|[i ch] sched IH]; simpl; intros c0 Hs.
    + by simplify_eq.
    + destruct (step pool i ch c0) as [c1|] eqn:Hc; [|done].
      eapply rtc_l; [by exists i, ch|by apply IH].
Qed.

End workload.
