(* ===== verification/Scheduling.v ===== *)
(** * No deadlock, and every schedule ends

    Requests wait for row locks, index entries and pool connections.  For any
    [Workload]: the lock order of [Rely.before] makes a circular wait
    impossible, and no request needs a second connection while it holds one; so
    some request can always go on.  When each program performs a bounded number
    of operations, every schedule ends. *)

From S2P Require Import Prelude GoRuntime Domain Database Repository Spec Machine Rely Workload.
#[local] Open Scope go_scope.

(** ** The lock order has no cycles *)

Lemma before_irrefl r : ~ before r r.
Proof. destruct r; simpl; [by rewrite string_ltb_irrefl|tauto..]. Qed.

#[export] Instance before_trans : Transitive before.
Proof.
  intros [a|u|k|i] [b|v|l|j] [c|w|m|n]; simpl; try tauto. apply string_ltb_trans.
Qed.

#[export] Instance before_dec r1 r2 : Decision (before r1 r2).
Proof. destruct r1, r2; simpl; apply _. Defined.

(** Some lock of a non-empty set is above none of the others. *)
Lemma top_lock (L : gset resource) :
  L <> ∅ -> exists r, r ∈ L /\ forall r', r' ∈ L -> ~ before r r'.
Proof.
  intros HL. destruct (minimal_exists_elem_of_L (flip before) L HL) as (r & Hr & Hmin).
  exists r. split; [done|]. intros r' Hr' Hb. pose proof (Hmin r' Hr' Hb) as Hb'.
  apply (before_irrefl r). by etrans.
Qed.

(** ** Waiting *)

(** The locks held by all the transactions of a configuration. *)
Definition held {A} (c : config A) : gset resource :=
  busy_locks (busy_of (snd <$> cf_threads c)).

Lemma elem_of_held {A} (c : config A) r :
  r ∈ held c <-> exists j pT, cf_threads c !! j = Some pT /\ r ∈ txn_locks pT.2.
Proof.
  unfold held. rewrite elem_of_busy_locks. split.
  - intros (j & T & Hj & Hr). rewrite list_lookup_fmap in Hj.
    apply fmap_Some in Hj as (pT & Hj & ->). eauto.
  - intros (j & pT & Hj & Hr). exists j, pT.2. by rewrite list_lookup_fmap, Hj.
Qed.

(** A request that has a step to make, but no step without a fault. *)
Definition waiting {A} (pool : nat) (ch : choice) (c : config A) (i : nat) : Prop :=
  step pool i ch c = None.

Lemma waiting_disabled {A} pool ch (c : config A) i X (o : svcE X) k T :
  waiting pool ch c i -> cf_threads c !! i = Some (Vis o k, T) ->
  enabled pool (others i c) ch o (cf_shared c) T = false.
Proof.
  unfold waiting, step, lookup_thread. intros Hw Hi. rewrite Hi in Hw.
  destruct (enabled _ _ _ _ _ _); [|done].
  by destruct (local_exec ch o (cf_shared c) T) as [[? ?] ?].
Qed.

Lemma locks_free_false B ls :
  locks_free B ls = false -> exists r, r ∈ ls /\ r ∈ busy_locks B.
Proof.
  unfold locks_free. rewrite bool_decide_eq_false. intros H.
  apply not_Forall_Exists in H; [|apply _]. apply Exists_exists in H as (r & Hr & Hb).
  exists r. split; [done|]. by apply dec_stable.
Qed.

Lemma no_txn_conns Ts :
  Forall (fun T => T = None) Ts -> busy_of Ts = mkBusy ∅ 0.
Proof. induction 1 as [|T Ts -> _ IH]; [done|]. simpl. rewrite IH. simpl. f_equal. Qed.

Section no_deadlock.
Context {Req Reply : Type} {WL : Workload Req Reply}.
Variables (pool : nat) (reqs : list Req) (c : config Reply) (ch : choice).
Hypothesis Hok : conf_ok reqs c.
Hypothesis Hcalm : ch_fault ch = None.

(** What is known of the next operation of an unfinished request. *)
Lemma thread_orderly i X (o : svcE X) k T :
  cf_threads c !! i = Some (Vis o k, T) -> orderly o (cf_shared c) T.
Proof.
  intros Hi. destruct Hok as [Hinv Hthr _].
  destruct (Forall2_lookup_r _ _ _ _ _ Hthr Hi) as (a & _ & [Hw _]). simpl in Hw.
  by destruct (Hw (cf_shared c) ch (rely_refl _ _ Hinv)).
Qed.

(** Only a request that still runs has a transaction. *)
Lemma open_unfinished i p t :
  cf_threads c !! i = Some (p, Some t) -> exists X (o : svcE X) k, p = Vis o k.
Proof.
  intros Hi. destruct Hok as [Hinv Hthr _].
  destruct (Forall2_lookup_r _ _ _ _ _ Hthr Hi) as (a & _ & [Hw _]). simpl in Hw.
  destruct p as [r|v|X o k]; [| |by eauto].
  - by pose proof (wl_closed _ _ _ _ (Hw (committed c) (rely_refl _ _ Hinv))).
  - by destruct (Hw (committed c) (rely_refl _ _ Hinv)).
Qed.

(** A request that waits with an open transaction waits for a lock that
    another transaction holds and that is above all its own. *)
Lemma waiting_above i p t :
  cf_threads c !! i = Some (p, Some t) -> waiting pool ch c i ->
  exists r, r ∈ held c /\ forall r', r' ∈ tx_locks t -> before r' r.
Proof.
  intros Hi Hw. destruct (open_unfinished i p t Hi) as (X & o & k & ->).
  pose proof (waiting_disabled _ _ _ _ _ _ _ _ Hw Hi) as He.
  pose proof (thread_orderly _ _ _ _ _ Hi) as Ho.
  unfold enabled in He. rewrite Hcalm in He.
  destruct o as [|X [|tx] s|tx|tx| | | |]; simpl in Ho; try done.
  simpl in He. case_decide as Hid; [|done].
  apply orb_false_elim in He as [Hab He]. destruct Ho as [Ho|Ho]; [congruence|].
  apply locks_free_false in He as (r & Hr & Hb). rewrite Forall_forall in Ho.
  apply elem_of_others in Hb as (j & pT & Hj & Hjt & Hrj).
  exists r. split; [apply elem_of_held; eauto|].
  destruct Hok as [_ Hthr Hdis]. destruct (Ho r Hr) as [Hown|[->|Habove]]; [| |done].
  - exfalso. apply (Hdis i j (Vis (Exec (Tx tx) s) k, Some t) pT (not_eq_sym Hj) Hi Hjt r);
      done.
  - destruct (Forall2_lookup_r _ _ _ _ _ Hthr Hjt) as (a & _ & [_ Hq]).
    specialize (Hq _ Hrj). lia.
Qed.

Lemma all_waiting_no_txn :
  (forall i, waiting pool ch c i) -> Forall (fun pT => pT.2 = None) (cf_threads c).
Proof.
  intros Hw. apply Forall_lookup. intros i [p [t|]] Hi; [|done]. exfalso.
  destruct (waiting_above i p t Hi (Hw i)) as (r0 & Hr0 & _).
  destruct (top_lock (held c)) as (r & Hr & Htop); [set_solver|].
  apply elem_of_held in Hr as (j & [q [u|]] & Hj & Hrj); [|set_solver].
  destruct (waiting_above j q u Hj (Hw j)) as (r1 & Hr1 & Habove).
  by apply (Htop r1 Hr1), Habove.
Qed.

(** Without transactions nothing is held, so nobody waits. *)
Lemma no_txn_moves i X (o : svcE X) k :
  Forall (fun pT => pT.2 = None) (cf_threads c) ->
  cf_threads c !! i = Some (Vis o k, None) -> ~ waiting pool ch c i.
Proof.
  intros Hno Hi Hw. pose proof (waiting_disabled _ _ _ _ _ _ _ _ Hw Hi) as He.
  assert (others i c = mkBusy ∅ 0) as Ho.
  { apply no_txn_conns, Forall_insert; [|done].
    apply Forall_fmap. by eapply Forall_impl. }
  unfold enabled in He. rewrite Hcalm, Ho in He.
  assert (conn_free pool (mkBusy ∅ 0) None = true) as Hc.
  { unfold conn_free. simpl. destruct pool; [done|]. rewrite orb_true_iff. right.
    apply bool_decide_eq_true. lia. }
  assert (forall ls, locks_free (mkBusy ∅ 0) ls = true) as Hl.
  { intros ls. apply bool_decide_eq_true, Forall_forall. set_solver. }
  destruct o as [|X [|tx] s|tx|tx| | | |]; rewrite ?Hc, ?Hl in He; done.
Qed.

Lemma unfinished_thread :
  finished c = false -> exists i X (o : svcE X) k T, cf_threads c !! i = Some (Vis o k, T).
Proof.
  unfold finished. intros Hf. apply not_true_iff_false in Hf.
  rewrite <- Is_true_true, forallb_True in Hf.
  apply not_Forall_Exists in Hf; [|apply _]. apply Exists_exists in Hf as ([p T] & Hin & Hp).
  apply list_elem_of_lookup in Hin as [i Hi]. destruct p as [a|v|X o k]; [by destruct Hp..|].
  exists i, X, o, k, T. done.
Qed.

Lemma can_step : finished c = false -> exists i c', step pool i ch c = Some c'.
Proof.
  intros Hf. destruct (unfinished_thread Hf) as (i0 & X & o & k & T & Hi0).
  assert (~ forall i, i ∈ seq 0 (length (cf_threads c)) -> step pool i ch c = None) as Hn.
  { intros Hall. assert (forall i, waiting pool ch c i) as Hw.
    { intros i. unfold waiting. destruct (decide (i < length (cf_threads c))%nat).
      - apply Hall, elem_of_seq. lia.
      - unfold step, lookup_thread. by rewrite lookup_ge_None_2 by lia. }
    pose proof (all_waiting_no_txn Hw) as Hno.
    assert (T = None) as -> by (by pose proof (Forall_lookup_1 _ _ _ _ Hno Hi0)).
    by eapply no_txn_moves. }
  rewrite <- Forall_forall in Hn. apply not_Forall_Exists in Hn; [|intros i; unfold Decision].
  - apply Exists_exists in Hn as (i & _ & Hi).
    destruct (step pool i ch c) as [c'|] eqn:E; [eauto|done].
  - destruct (step pool i ch c); [by right|by left].
Qed.
End no_deadlock.

(** ** Schedules *)

(** What the threads can still do: one bound per thread. *)
Definition budget_ok {A} (ns : list nat) (c : config A) : Prop :=
  Forall2 (fun n pT => proc_le n pT.1) ns (cf_threads c).

Lemma step_budget {A} pool i ch (c c' : config A) ns :
  budget_ok ns c -> step pool i ch c = Some c' ->
  exists ns', budget_ok ns' c' /\ S (sum_list ns') = sum_list ns.
Proof.
  intros Hns Hs. destruct (step_inv _ _ _ _ _ Hs) as (X & o & k & T & x & S' & T' & Hi & _ & _ & ->).
  destruct (Forall2_lookup_r _ _ _ _ _ Hns Hi) as (n & Hn & Hle). simpl in Hle.
  destruct n as [|n]; [done|]. exists (<[i := n]> ns). split.
  - unfold budget_ok, set_thread. simpl. apply Forall2_insert; [done|apply Hle].
  - rewrite <- (take_drop_middle ns i (S n) Hn) at 2.
    rewrite insert_take_drop by (by eapply lookup_lt_Some).
    rewrite !sum_list_with_app. simpl. lia.
Qed.

Lemma run_schedule_budget {A} pool sched (c c' : config A) ns :
  budget_ok ns c -> run_schedule pool sched c = Some c' ->
  exists ns', budget_ok ns' c' /\ (length sched + sum_list ns' = sum_list ns)%nat.
Proof.
  revert c ns. induction sched as [|[i ch] sched IH]; simpl; intros c ns Hns Hs.
  - simplify_eq. by exists ns.
  - destruct (step pool i ch c) as [c1|] eqn:Hstep; [|done].
    destruct (step_budget _ _ _ _ _ _ Hns Hstep) as (ns1 & Hns1 & Hsum).
    destruct (IH _ _ Hns1 Hs) as (ns2 & Hns2 & Hsum2). exists ns2. split; [done|lia].
Qed.

Lemma sum_list_replicate n m : sum_list (replicate n m) = (n * m)%nat.
Proof. induction n; simpl; lia. Qed.

Section bounded.
Context {Req Reply : Type} {WL : Workload Req Reply} (ops : nat).
Hypothesis Hops : forall a, proc_le ops (wl_prog a).

Lemma start_budget t seq reqs : budget_ok (replicate (length reqs) ops) (start t seq reqs).
Proof.
  unfold budget_ok, start. simpl. apply Forall2_fmap_r, Forall2_same_length_lookup.
  split; [apply length_replicate|]. intros i n a Hn Ha.
  apply lookup_replicate in Hn as [-> _]. apply Hops.
Qed.

(** A scheduler without faults that keeps going finishes every request. *)
Lemma calm_run pool reqs c ns (ch : choice) :
  conf_ok reqs c -> budget_ok ns c -> ch_fault ch = None ->
  exists sched c', Forall (fun s => snd s = ch) sched /\
    run_schedule pool sched c = Some c' /\ finished c' = true.
Proof.
  intros Hok Hns Hch. remember (sum_list ns) as n eqn:Hn. revert c ns Hok Hns Hn.
  induction n as [n IH] using lt_wf_ind. intros c ns Hok Hns ->.
  destruct (finished c) eqn:Hf; [by exists [], c|].
  destruct (can_step pool reqs c ch Hok Hch Hf) as (i & c1 & Hs).
  destruct (step_budget _ _ _ _ _ _ Hns Hs) as (ns1 & Hns1 & Hsum).
  destruct (step_conf_ok _ _ _ _ _ _ Hok Hs) as [_ Hok1].
  destruct (IH (sum_list ns1) ltac:(lia) c1 ns1 Hok1 Hns1 eq_refl) as (sched & c' & Hall & Hr & Hf').
  exists ((i, ch) :: sched), c'. split; [by constructor|]. simpl. by rewrite Hs.
Qed.

(** No schedule is longer than the operations of all requests. *)
Lemma run_bounded pool t seq reqs sched c :
  run_schedule pool sched (start t seq reqs) = Some c ->
  (length sched <= length reqs * ops)%nat.
Proof.
  intros Hs. destruct (run_schedule_budget _ _ _ _ _ (start_budget t seq reqs) Hs)
    as (ns & _ & Hsum). rewrite sum_list_replicate in Hsum. lia.
Qed.

(** From every reachable state a scheduler can finish every request. *)
Lemma run_finishes pool t seq reqs c ch :
  db_inv t -> Forall (fun a => wl_ok a t) reqs -> reachable pool t seq reqs c -> ch_fault ch = None ->
  exists sched c', Forall (fun s => snd s = ch) sched /\
    run_schedule pool sched c = Some c' /\ finished c' = true.
Proof.
  intros Hi Hr Hc Hch. pose proof (reachable_conf_ok _ _ _ _ _ Hi Hr Hc) as Hok.
  apply reachable_schedule in Hc as [sched Hs].
  destruct (run_schedule_budget _ _ _ _ _ (start_budget t seq reqs) Hs) as (ns & Hns & _).
  by eapply calm_run.
Qed.
End bounded.
