(* ===== verification/RepositoryCorrect.v ===== *)
(** * The Postgres repositories inside a transaction

    What each repository method of [Repository] does when it is called on the
    request's open transaction, as rules of [Rely.wp] for a call whose error
    is returned to the caller ([x ←? call; rest]).  The service is verified
    from these rules and does not look into the repositories again. *)

From S2P Require Import Prelude GoRuntime Domain Database Repository Service Spec Machine Rely.

(** What the transaction sees, as insertions into the committed tables. *)
Ltac view_simpl := cbn; autorewrite with wallet_rw.
Ltac view_simpl_in H := cbn in H; autorewrite with wallet_rw in H.

(** The two errors that tell the service's caller something about the key. *)
Definition signals (e : error) : bool :=
  errors_Is e ErrIdempotencyExists || errors_Is e ErrIdempotencyConflict.

Section tx_calls.
Context {B : Type} (n : nat) (Q : result B -> tables -> option txn -> Prop).

(** Every failing call leaves the transaction open and returns an error
    that is not mistaken for a lost idempotency race or a conflict. *)
Definition tx_fails : Prop := forall e C t,
  tx_id t = n -> signals e = false -> Q (Err e) C (Some t).

Context (HQ : tx_fails).
Variables (t : txn) (C : tables).
Hypotheses (Hn : tx_id t = n) (Hlive : tx_aborted t = false).

Lemma tx_err e C' t' :
  tx_id t' = n -> signals e = false ->
  wp (Ret (Err e)) C' (Some t') Q.
Proof. intros Ht He C'' _. by apply HQ. Qed.

Ltac fault_case := intros [text|] C'; by apply tx_err.

(** *** Wallets *)

Lemma wp_lock_wallet id (f : Wallet -> svc (result B)) :
  (forall h, h ∈ tx_locks t -> before h (RWallet id)) ->
  (forall C' t' w, rely (tx_locks t) C C' -> tx_next t ∅ [RWallet id] t' ->
     wallets (tx_writes t ∪ C') !! id = Some w -> wp (f w) C' (Some t') Q) ->
  wp (try_bind f (WalletRepo.LockForUpdate (Tx n) id)) C (Some t) Q.
Proof.
  intros Hord H. rewrite <- Hn. apply wp_tx_stmt; [done|fault_case|].
  intros C' seq HR. cbn [exec_stmt locks_of]. unfold lock_wallet.
  destruct (wallets _ !! id) as [w|] eqn:Hw; cbn.
  - split; [constructor; [by do 2 right|constructor]|]. intros t' Ht'. by eapply H.
  - split; [constructor|]. intros t' Ht'. apply tx_err; [|done].
    by rewrite (next_id _ _ _ _ Ht').
Qed.

Lemma wp_get_wallet id (f : Wallet -> svc (result B)) :
  (forall C' t' w, rely (tx_locks t) C C' -> tx_next t ∅ [] t' ->
     wallets (tx_writes t ∪ C') !! id = Some w -> wp (f w) C' (Some t') Q) ->
  wp (try_bind f (WalletRepo.Get (Tx n) id)) C (Some t) Q.
Proof.
  intros H. rewrite <- Hn. apply wp_tx_stmt; [done|fault_case|].
  intros C' seq HR. cbn [exec_stmt locks_of]. split; [constructor|]. intros t' Ht'.
  destruct (wallets _ !! id) as [w|] eqn:Hw; cbn; [by eapply H|].
  apply tx_err; [|done]. by rewrite (next_id _ _ _ _ Ht').
Qed.

(** Re-locking rows that are held takes nothing new. *)
Lemma held_locks seq ls :
  Forall (fun r => r ∈ tx_locks t) ls -> Forall (may_request seq (tx_locks t)) ls.
Proof. intros H. eapply Forall_impl; [exact H|]. by left. Qed.

Lemma held_wallet C' id :
  RWallet id ∈ tx_locks t -> Forall (fun r => r ∈ tx_locks t) (lock_wallet C' id).
Proof. intros H. unfold lock_wallet. case_match; by repeat constructor. Qed.

Lemma held_transfer C' u :
  RTransfer u ∈ tx_locks t -> Forall (fun r => r ∈ tx_locks t) (lock_transfer C' u).
Proof. intros H. unfold lock_transfer. case_match; by repeat constructor. Qed.

Lemma tx_next_held d new ls t' :
  Forall (fun r => r ∈ tx_locks t) ls -> tx_next t d (new ++ ls) t' -> tx_next t d new t'.
Proof.
  intros Hls []. split; auto. intros r. rewrite next_locks, elem_of_app.
  rewrite Forall_forall in Hls. naive_solver.
Qed.

Lemma wp_update_balance id balance (f : unit -> svc (result B)) :
  RWallet id ∈ tx_locks t ->
  (forall C' t' w, rely (tx_locks t) C C' ->
     wallets (tx_writes t ∪ C') !! id = Some w -> 0 <= balance ->
     tx_next t (put_wallet (mkWallet id balance (Wallet_CreatedAt w) (tx_now t))) [] t' ->
     wp (f tt) C' (Some t') Q) ->
  wp (try_bind f (WalletRepo.UpdateBalance (Tx n) id balance)) C (Some t) Q.
Proof.
  intros Hheld H. rewrite <- Hn. apply wp_tx_stmt; [done|fault_case|].
  intros C' seq HR. cbn [exec_stmt locks_of]. split; [by apply held_locks, held_wallet|].
  unfold exec_update_balance. destruct (wallets _ !! id) as [w|] eqn:Hw.
  - unfold sql_check, wallets_check. cbn [Wallet_Balance]. case_bool_decide as Hb.
    + intros t' Ht'. eapply H; [done..|]. eapply tx_next_held; [by apply held_wallet|done].
    + intros t' Ht'. apply tx_err; [congruence|done].
  - intros t' Ht'. apply tx_err; [|done]. by rewrite (next_id _ _ _ _ Ht').
Qed.

(** *** Transfers *)

Lemma wp_insert_transfer tr (f : Transfer -> svc (result B)) :
  (forall h, h ∈ tx_locks t -> before h (RTransfer (Transfer_ID tr))) ->
  RWallet (Transfer_FromWalletID tr) ∈ tx_locks t ->
  RWallet (Transfer_ToWalletID tr) ∈ tx_locks t ->
  (forall C' t', rely (tx_locks t) C C' ->
     transfers (tx_writes t ∪ C') !! Transfer_ID tr = None ->
     tx_next t (put_transfer (mkTransferRow (Transfer_ID tr) (Transfer_FromWalletID tr)
                  (Transfer_ToWalletID tr) (Transfer_Amount tr) (Transfer_State tr) None
                  (tx_now t) (tx_now t))) [RTransfer (Transfer_ID tr)] t' ->
     wp (f (mkTransfer (Transfer_ID tr) (Transfer_FromWalletID tr) (Transfer_ToWalletID tr)
              (Transfer_Amount tr) (Transfer_State tr) (Transfer_FailureReason tr)
              (tx_now t) (tx_now t))) C' (Some t') Q) ->
  wp (try_bind f (TransferRepo.Insert (Tx n) tr)) C (Some t) Q.
Proof.
  intros Hord Hfrom Hto H. rewrite <- Hn. apply wp_tx_stmt; [done|fault_case|].
  intros C' seq HR. cbn [exec_stmt locks_of].
  assert (Forall (fun r => r ∈ tx_locks t)
    (lock_wallet (tx_writes t ∪ C') (Transfer_FromWalletID tr)
     ++ lock_wallet (tx_writes t ∪ C') (Transfer_ToWalletID tr))) as Hheld
    by (apply Forall_app; split; by apply held_wallet).
  split; [constructor; [by do 2 right|by apply held_locks]|].
  unfold exec_insert_transfer, sql_check. cbn [tr_id].
  destruct (transfers_check _); [|by intros t' Ht'; apply tx_err; [congruence|]].
  case_bool_decide as Hu; [|by intros t' Ht'; apply tx_err; [congruence|]].
  destruct (transfers_fk _ _); [|by intros t' Ht'; apply tx_err; [congruence|]].
  intros t' Ht'. apply H; [done|done|]. by apply (tx_next_held _ [_]) in Ht'.
Qed.

Lemma wp_update_state u state reason (f : unit -> svc (result B)) :
  RTransfer u ∈ tx_locks t ->
  (forall C' t' r, rely (tx_locks t) C C' ->
     transfers (tx_writes t ∪ C') !! u = Some r ->
     tx_next t (put_transfer (mkTransferRow u (tr_from_wallet_id r) (tr_to_wallet_id r)
                  (tr_amount r) state (nullif_empty reason) (tr_created_at r) (tx_now t)))
       [] t' ->
     wp (f tt) C' (Some t') Q) ->
  wp (try_bind f (TransferRepo.UpdateState (Tx n) u state reason)) C (Some t) Q.
Proof.
  intros Hheld H. rewrite <- Hn. apply wp_tx_stmt; [done|fault_case|].
  intros C' seq HR. cbn [exec_stmt locks_of]. split; [by apply held_locks, held_transfer|].
  unfold exec_update_state. destruct (transfers _ !! u) as [r|] eqn:Hr.
  - unfold sql_check. destruct (transfers_check _).
    + intros t' Ht'. eapply H; [done..|]. eapply tx_next_held; [by apply held_transfer|done].
    + intros t' Ht'. apply tx_err; [congruence|done].
  - intros t' Ht'. apply tx_err; [|done]. by rewrite (next_id _ _ _ _ Ht').
Qed.

(** *** Ledger *)

Lemma wp_insert_ledger e (f : LedgerEntry -> svc (result B)) :
  RTransfer (Ledger_TransferID e) ∈ tx_locks t -> RWallet (Ledger_WalletID e) ∈ tx_locks t ->
  (forall C' t' i, rely (tx_locks t) C C' ->
     ledger_entries (tx_writes t ∪ C') !! i = None ->
     tx_next t (put_ledger (mkLedgerEntry i (Ledger_TransferID e) (Ledger_WalletID e)
                  (Ledger_Type e) (Ledger_Amount e) (tx_now t))) [RLedger i] t' ->
     wp (f (mkLedgerEntry i (Ledger_TransferID e) (Ledger_WalletID e)
              (Ledger_Type e) (Ledger_Amount e) (tx_now t))) C' (Some t') Q) ->
  wp (try_bind f (LedgerRepo.Insert (Tx n) e)) C (Some t) Q.
Proof.
  intros Hu Hw H. rewrite <- Hn. apply wp_tx_stmt; [done|fault_case|].
  intros C' seq HR. cbn [exec_stmt locks_of].
  assert (Forall (fun r => r ∈ tx_locks t)
    (lock_transfer (tx_writes t ∪ C') (Ledger_TransferID e)
     ++ lock_wallet (tx_writes t ∪ C') (Ledger_WalletID e))) as Hheld
    by (apply Forall_app; split; [by apply held_transfer|by apply held_wallet]).
  split; [constructor; [by right; left|by apply held_locks]|].
  unfold exec_insert_ledger, sql_check, ledger_unique. cbn [Ledger_ID].
  destruct (ledger_check _); [|by intros t' Ht'; apply tx_err; [congruence|]].
  case_bool_decide as Hi; [|by intros t' Ht'; apply tx_err; [congruence|]]. cbn [andb].
  case_bool_decide; [|by intros t' Ht'; apply tx_err; [congruence|]].
  destruct (ledger_fk _ _); [|by intros t' Ht'; apply tx_err; [congruence|]].
  intros t' Ht'. eapply H; [done|done|]. by apply (tx_next_held _ [_]) in Ht'.
Qed.

(** *** Idempotency records: the one error with a meaning of its own *)

Lemma wp_insert_idem key hash u (f : unit -> svc (result B)) :
  (forall h, h ∈ tx_locks t -> before h (RKey key)) -> RTransfer u ∈ tx_locks t ->
  (forall C' t', rely (tx_locks t) C C' ->
     idempotency_records (tx_writes t ∪ C') !! key = None ->
     tx_next t (put_idem (mkIdemRow key hash u (tx_now t))) [RKey key] t' ->
     wp (f tt) C' (Some t') Q) ->
  (forall C' t' i, rely (tx_locks t) C C' -> tx_id t' = n ->
     idempotency_records (tx_writes t ∪ C') !! key = Some i ->
     wp (Ret (Err ErrIdempotencyExists)) C' (Some t') Q) ->
  wp (try_bind f (IdempotencyRepo.Insert (Tx n) key hash u)) C (Some t) Q.
Proof.
  intros Hord Hu H Hdup. rewrite <- Hn. apply wp_tx_stmt; [done| |].
  { intros [text|] C'; by apply tx_err. }
  intros C' seq HR. cbn [exec_stmt locks_of].
  split; [constructor; [by do 2 right|by apply held_locks, held_transfer]|].
  unfold exec_insert_idem, sql_check. cbn [ir_key]. case_bool_decide as Hk.
  - destruct (idem_fk _ _); [|by intros t' Ht'; apply tx_err; [congruence|]].
    intros t' Ht'. apply H; [done|done|].
    apply (tx_next_held _ [_]) in Ht'; [done|by apply held_transfer].
  - intros t' Ht'. apply not_eq_None_Some in Hk as [i Hi].
    eapply Hdup; [done|congruence|done].
Qed.
End tx_calls.
