(* ===== verification/ServiceCorrect.v ===== *)
(** * The transfer service, verified against its specification

    [executeTransfer] builds, in its private writes, exactly the change that
    [Spec.transfer_effect]s prescribe, holds locks on everything the change
    depends on, and so commits one step of the specification whatever other
    requests do meanwhile.  [Create] only ever answers with a committed
    transfer. *)

From S2P Require Import Prelude GoRuntime Domain Database Repository Service Spec Machine Rely.
From S2P Require Import RepositoryCorrect.

(** ** The state of a transaction along the body *)

Record tx_at (n : nat) (now : Time) (t : txn) (W : tables) (L : list resource) : Prop := {
  at_id : tx_id t = n;
  at_now : tx_now t = now;
  at_live : tx_aborted t = false;
  at_writes : tx_writes t = W;
  at_locks : forall r, r ∈ tx_locks t <-> r ∈ L
}.

Arguments at_id {n now t W L}.
Arguments at_now {n now t W L}.
Arguments at_live {n now t W L}.
Arguments at_writes {n now t W L}.
Arguments at_locks {n now t W L}.

Lemma tables_union_empty (t : tables) : ∅ ∪ t = t.
Proof. destruct t. unfold union, tables_union. simpl. by rewrite !union_empty_first. Qed.

Lemma tables_union_assoc (a b c : tables) : (a ∪ b) ∪ c = a ∪ (b ∪ c).
Proof. unfold union, tables_union. simpl. by rewrite !union_assoc_first. Qed.

Lemma tables_ext (a b : tables) :
  wallets a = wallets b -> transfers a = transfers b ->
  ledger_entries a = ledger_entries b -> idempotency_records a = idempotency_records b -> a = b.
Proof. destruct a, b; simpl; congruence. Qed.

Lemma tx_at_next n now t W L d ls t' :
  tx_at n now t W L -> tx_next t d ls t' -> tx_at n now t' (d ∪ W) (ls ++ L).
Proof.
  intros Ha Hn. split.
  - rewrite (next_id _ _ _ _ Hn). apply Ha.
  - rewrite (next_now _ _ _ _ Hn). apply Ha.
  - apply Hn.
  - rewrite (next_writes _ _ _ _ Hn). by rewrite (at_writes Ha).
  - intros r. by rewrite (next_locks _ _ _ _ Hn), elem_of_app, (at_locks Ha).
Qed.

Lemma tx_at_read n now t W L ls t' :
  tx_at n now t W L -> tx_next t ∅ ls t' -> tx_at n now t' W (ls ++ L).
Proof. intros Ha Hn. rewrite <- (tables_union_empty W). by eapply tx_at_next. Qed.

(** Membership of the locks held, as a list. *)
Ltac held Ha := apply (proj2 (at_locks Ha _)); set_solver.
Ltac in_order Ha :=
  let h := fresh "h" in let Hh := fresh "Hh" in
  intros h Hh; apply (proj1 (at_locks Ha _)) in Hh;
  repeat (apply elem_of_cons in Hh as [->|Hh]; [by simpl|]); by apply elem_of_nil in Hh.

(** ** What a successful reply means

    The transfer is committed exactly as it was answered, under the request's
    key and digest. *)
Record reply_ok (req : CreateTransferRequest) (tr : Transfer) (C : tables) : Prop := mkReplyOk {
  reply_row : transfers C !! Transfer_ID tr <> None;
  reply_transfer : select_transfer <$> transfers C !! Transfer_ID tr = Some tr;
  reply_key : exists i, idempotency_records C !! IdempotencyKey req = Some i
    /\ ir_transfer_id i = Transfer_ID tr /\ ir_request_hash i = hash req
}.

Lemma reply_ok_grows req tr C C' : grows C C' -> reply_ok req tr C -> reply_ok req tr C'.
Proof.
  intros Hg [Hr Ht (i & Hi & ?)].
  destruct (transfers C !! Transfer_ID tr) as [r|] eqn:E; [|done].
  assert (transfers C' !! Transfer_ID tr = Some r) as E'
    by (eapply lookup_weaken; [done|apply Hg]).
  split; [congruence|by rewrite E'|].
  exists i. split; [|done]. eapply lookup_weaken; [done|apply Hg].
Qed.

(** The reply of a transfer that has just been committed. *)
Lemma reply_ok_effect x r tr C :
  transfers C !! in_uuid x = Some r -> select_transfer r = tr -> tr_id r = in_uuid x ->
  idempotency_records C !! IdempotencyKey (in_req x) = Some (idem_row x) ->
  reply_ok (in_req x) tr C.
Proof.
  intros Hr <- Hid Hi. split; simpl; rewrite ?Hid, ?Hr; [done|done|]. by exists (idem_row x).
Qed.

Section execute.
Variables (req : CreateTransferRequest) (n : nat) (now : Time).
Hypothesis Hvalid : Validate req = None.
Hypothesis Hamount : in_int64 (Amount req).

Let from := FromWalletID req.
Let to := ToWalletID req.
Let key := IdempotencyKey req.

Lemma valid_request : 0 < Amount req <= int64_max /\ from <> to.
Proof.
  revert Hvalid Hamount. unfold Validate, in_int64. intros Hv [_ Ha].
  repeat (case_decide; [done|]). split; [lia|done].
Qed.

(** What the body leaves behind, by its result. *)
Definition body_post (r : result Transfer) (C : tables) (T : option txn) : Prop :=
  exists t, T = Some t /\ tx_id t = n /\
  match r with
  | Err e => errors_Is e ErrIdempotencyConflict = false /\
      (errors_Is e ErrIdempotencyExists = true -> is_Some (idempotency_records C !! key))
  | Ok tr => tx_aborted t = false /\
      guarantee (tx_locks t) C (tx_writes t ∪ C) /\ reply_ok req tr (tx_writes t ∪ C)
  end.

Lemma body_fails : tx_fails n body_post.
Proof.
  intros e C t Ht He. apply orb_false_iff in He as [He1 He2].
  exists t. split_and!; [done..|congruence].
Qed.

(** *** The private writes, step by step *)

Definition pending_row (u : UUID) : TransferRow :=
  mkTransferRow u from to (Amount req) StatePending None now now.
Definition W_pending (u : UUID) : tables := put_transfer (pending_row u) ∪ ∅.
Definition W_claimed (u : UUID) : tables :=
  put_idem (mkIdemRow key (hash req) u now) ∪ W_pending u.
Definition W_failed (u : UUID) : tables :=
  put_transfer (mkTransferRow u from to (Amount req) StateFailed
                  (Some insufficient_reason) now now) ∪ W_claimed u.
Definition W_moved (u : UUID) (src dst : Wallet) : tables :=
  put_wallet (mkWallet to (Wallet_Balance dst + Amount req) (Wallet_CreatedAt dst) now) ∪
  (put_wallet (mkWallet from (Wallet_Balance src - Amount req) (Wallet_CreatedAt src) now) ∪
   W_claimed u).
Definition W_booked (u : UUID) (src dst : Wallet) (i j : Z) : tables :=
  put_ledger (mkLedgerEntry j u to EntryCredit (Amount req) now) ∪
  (put_ledger (mkLedgerEntry i u from EntryDebit (Amount req) now) ∪ W_moved u src dst).
Definition W_processed (u : UUID) (src dst : Wallet) (i j : Z) : tables :=
  put_transfer (mkTransferRow u from to (Amount req) StateProcessed None now now) ∪
  W_booked u src dst i j.

Lemma W_failed_effect u C i j :
  W_failed u ∪ C = failed_effect (mkTransferInputs req u now i j) C.
Proof.
  apply tables_ext; view_simpl; by rewrite ?insert_insert_eq.
Qed.

Lemma W_processed_effect u src dst C i j :
  W_processed u src dst i j ∪ C
  = processed_effect (mkTransferInputs req u now i j) src dst C.
Proof.
  apply tables_ext; view_simpl; by rewrite ?insert_insert_eq.
Qed.

(** *** The statements of the body *)

Let Q := body_post.

(** Use a rule of [RepositoryCorrect] on the transaction at hand. *)
Tactic Notation "call" uconstr(rule) :=
  eapply rule; [apply body_fails|by eapply at_id|by eapply at_live|..].

(** *** With both wallets locked *)

Record holding (t : txn) (C W : tables) (L : list resource) (src dst : Wallet) : Prop := {
  hold_at : tx_at n now t W (L ++ [RWallet from; RWallet to]);
  hold_inv : db_inv C;
  hold_src : wallets C !! from = Some src;
  hold_dst : wallets C !! to = Some dst
}.

Lemma holding_rely t C C' W L src dst :
  holding t C W L src dst -> rely (tx_locks t) C C' -> holding t C' W L src dst.
Proof.
  intros [Ha Hi Hs Hd] HR. split; [done|apply HR| |]; (eapply rely_wallet; [done| |done]);
    held Ha.
Qed.

Lemma holding_next t C W L src dst d ls t' :
  holding t C W L src dst -> tx_next t d ls t' -> holding t' C (d ∪ W) (ls ++ L) src dst.
Proof.
  intros [] Hn. split; [|done..]. rewrite <- app_assoc. by eapply tx_at_next.
Qed.

Lemma holding_read t C W L src dst t' :
  holding t C W L src dst -> tx_next t ∅ [] t' -> holding t' C W L src dst.
Proof. intros [] Hn. split; [|done..]. by apply (tx_at_read _ _ t _ _ []). Qed.

Lemma wp_lock_both (f : svc (result Transfer)) t C :
  tx_at n now t ∅ [] ->
  (forall C' t' src dst, holding t' C' ∅ [] src dst -> wp f C' (Some t') Q) ->
  wp (let '(firstID, secondID) := orderedPair from to in
      try_bind (fun _ => try_bind (fun _ => f) (WalletRepo.LockForUpdate (Tx n) secondID))
        (WalletRepo.LockForUpdate (Tx n) firstID)) C (Some t) Q.
Proof.
  intros Ht H. destruct valid_request as [_ Hne].
  unfold orderedPair. destruct (String.ltb from to) eqn:Hlt;
    [|apply string_ltb_total in Hlt; [|done]].
  all: call wp_lock_wallet; [in_order Ht|]; intros C1 t1 w1 HR1 Hn1 Hw1.
  all: rewrite (at_writes Ht), tables_union_empty in Hw1.
  all: eapply tx_at_read in Hn1; [|exact Ht].
  all: call wp_lock_wallet; [in_order Hn1|]; intros C2 t2 w2 HR2 Hn2 Hw2.
  all: rewrite (at_writes Hn1), tables_union_empty in Hw2.
  all: eapply tx_at_read in Hn2; [|exact Hn1].
  all: eapply rely_wallet in Hw1; [|exact HR2|held Hn1].
  all: eapply H; split; [|apply HR2|done|done].
  all: destruct Hn2 as [? ? ? ? Hl]; split; [done..|]; intros r; rewrite Hl; set_solver.
Qed.

Lemma wp_read_both (f : Wallet -> Wallet -> svc (result Transfer)) t C src dst :
  holding t C ∅ [] src dst ->
  (forall C' t', holding t' C' ∅ [] src dst -> wp (f src dst) C' (Some t') Q) ->
  wp (try_bind (fun src => try_bind (fun dst => f src dst) (WalletRepo.Get (Tx n) to))
        (WalletRepo.Get (Tx n) from)) C (Some t) Q.
Proof.
  intros Ht H. pose proof (hold_at _ _ _ _ _ _ Ht) as Ha.
  call wp_get_wallet. intros C1 t1 w1 HR1 Hn1 Hw1.
  rewrite (at_writes Ha), tables_union_empty in Hw1.
  eapply holding_rely in Ht; [|exact HR1].
  eapply holding_read in Hn1; [|exact Ht]. clear Ht Ha. rename Hn1 into Ht.
  pose proof (hold_at _ _ _ _ _ _ Ht) as Ha. assert (w1 = src) as -> by (destruct Ht; congruence).
  call wp_get_wallet. intros C2 t2 w2 HR2 Hn2 Hw2.
  rewrite (at_writes Ha), tables_union_empty in Hw2.
  eapply holding_rely in Ht; [|exact HR2].
  eapply holding_read in Hn2; [|exact Ht].
  assert (w2 = dst) as -> by (destruct Ht; congruence). by apply H.
Qed.

(** *** With the transfer id and the key claimed *)

Record claimed (u : UUID) (t : txn) (C W : tables) (L : list resource) (src dst : Wallet)
  : Prop := {
  claim_hold : holding t C W (L ++ [RKey key; RTransfer u]) src dst;
  claim_uuid : transfers C !! u = None;
  claim_key : idempotency_records C !! key = None
}.

Lemma claimed_rely u t C C' W L src dst :
  claimed u t C W L src dst -> rely (tx_locks t) C C' -> claimed u t C' W L src dst.
Proof.
  intros [Hh Hu Hk] HR. pose proof (hold_at _ _ _ _ _ _ Hh) as Ha. split.
  - by eapply holding_rely.
  - rewrite (rely_transfer _ _ _ u HR); [done|]. held Ha.
  - rewrite (rely_key _ _ _ key HR); [done|]. held Ha.
Qed.

Lemma claimed_next u t C W L src dst d ls t' :
  claimed u t C W L src dst -> tx_next t d ls t' -> claimed u t' C (d ∪ W) (ls ++ L) src dst.
Proof. intros [] Hn. split; [|done..]. rewrite <- app_assoc. by eapply holding_next. Qed.

(** The transfer as [executeTransfer] holds it after the INSERT. *)
Definition pending_transfer (u : UUID) : Transfer :=
  mkTransfer u from to (Amount req) StatePending EmptyString now now.

Lemma wp_claim (f : Transfer -> svc (result Transfer)) t C src dst :
  holding t C ∅ [] src dst ->
  (forall C' t' u, claimed u t' C' (W_claimed u) [] src dst ->
     wp (f (pending_transfer u)) C' (Some t') Q) ->
  wp (proc_bind (fun id =>
        try_bind (fun tr => try_bind (fun _ => f tr)
            (IdempotencyRepo.Insert (Tx n) key (hash req) (Transfer_ID tr)))
          (TransferRepo.Insert (Tx n)
             (mkTransfer id from to (Amount req) StatePending EmptyString time_zero time_zero)))
        (perform NewUUID)) C (Some t) Q.
Proof.
  intros Ht H. apply wp_NewUUID. intros u.
  pose proof (hold_at _ _ _ _ _ _ Ht) as Ha.
  call wp_insert_transfer; [in_order Ha|held Ha..|]. cbn [Transfer_ID Transfer_FromWalletID Transfer_ToWalletID
    Transfer_Amount Transfer_State Transfer_FailureReason].
  intros C1 t1 HR1 Hu Hn1. rewrite (at_writes Ha), tables_union_empty in Hu.
  rewrite (at_now Ha) in Hn1 |- *.
  eapply holding_rely in Ht; [|exact HR1]. eapply holding_next in Hn1; [|exact Ht].
  clear Ht Ha. rename Hn1 into Ht. pose proof (hold_at _ _ _ _ _ _ Ht) as Ha.
  call wp_insert_idem; [in_order Ha|held Ha|..].
  - intros C2 t2 HR2 Hk Hn2. rewrite (at_writes Ha) in Hk. view_simpl_in Hk.
    rewrite (at_now Ha) in Hn2.
    assert (transfers C2 !! u = None) as Hu2.
    { rewrite (rely_transfer _ _ _ u HR2); [done|]. held Ha. }
    eapply holding_rely in Ht; [|exact HR2]. eapply holding_next in Hn2; [|exact Ht].
    apply H. split; [|done|done]. exact Hn2.
  - intros C2 t2 i HR2 Ht2 Hi. rewrite (at_writes Ha) in Hi. view_simpl_in Hi.
    apply wp_ret. intros C3 HR3. exists t2. split_and!; [done..|]. intros _. exists i.
    eapply lookup_weaken; [done|apply HR3].
Qed.

(** *** Insufficient funds *)

Lemma wp_fail t C u src dst :
  claimed u t C (W_claimed u) [] src dst -> Wallet_Balance src < Amount req ->
  wp (try_bind (fun _ => Ret (Ok (set_state (pending_transfer u) StateFailed
                                    insufficient_reason)))
        (TransferRepo.UpdateState (Tx n) u StateFailed insufficient_reason)) C (Some t) Q.
Proof.
  intros Ht Hlt. pose proof (hold_at _ _ _ _ _ _ (claim_hold _ _ _ _ _ _ _ Ht)) as Ha.
  call wp_update_state; [held Ha|]. intros C1 t1 r HR1 Hr Hn1.
  rewrite (at_writes Ha) in Hr. view_simpl_in Hr. rewrite lookup_insert_eq in Hr.
  injection Hr as <-. rewrite (at_now Ha) in Hn1.
  eapply claimed_rely in Ht; [|exact HR1]. eapply claimed_next in Hn1; [|exact Ht].
  clear Ht Ha. apply wp_ret. intros C2 HR2.
  eapply claimed_rely in Hn1; [|exact HR2]. clear HR1 HR2.
  destruct Hn1 as [[Ha Hinv Hs Hd] Hu Hk]. destruct valid_request as [Hamt Hne].
  assert (tx_writes t1 = W_failed u) as HW by apply (at_writes Ha).
  exists t1. split; [done|]. split; [apply Ha|]. split; [apply Ha|]. rewrite HW.
  rewrite (W_failed_effect u C2 0 0). set (x := mkTransferInputs req u now 0 0).
  assert (transfer_ready x src dst C2) as Hready by (split; try done; apply Hamt).
  split.
  - split; [by eapply atomic_failed|]. intros r Hr. apply failed_effect_agree.
    intros Hin. apply Hr, (proj2 (at_locks Ha _)). unfold transfer_locks in Hin. set_solver.
  - by eapply (reply_ok_effect x); simpl; rewrite ?lookup_insert_eq.
Qed.

(** *** Moving the money *)

Lemma claimed_wallets u t C W L src dst :
  claimed u t C W L src dst ->
  Wallet_ID src = from /\ Wallet_ID dst = to /\
  0 <= Wallet_Balance src <= int64_max /\ 0 <= Wallet_Balance dst <= int64_max.
Proof.
  intros [[_ Hi Hs Hd] _ _].
  pose proof (inv_wallets _ Hi _ _ Hs) as []. pose proof (inv_wallets _ Hi _ _ Hd) as []. done.
Qed.

(** The second UPDATE rejects an overflowing credit. *)
Lemma credit_fits b : 0 <= b <= int64_max -> 0 <= wrap64 (b + Amount req) ->
  wrap64 (b + Amount req) = b + Amount req /\ b + Amount req <= int64_max.
Proof.
  intros Hb H. destruct valid_request as [Ha _].
  destruct (decide (b + Amount req <= int64_max)) as [Hle|Hgt].
  - split; [|done]. apply wrap64_id. unfold in_int64, int64_min. lia.
  - pose proof (wrap64_add_overflow b (Amount req)). lia.
Qed.

Lemma debit_fits b : 0 <= b <= int64_max -> Amount req <= b ->
  wrap64 (b - Amount req) = b - Amount req.
Proof.
  intros Hb H. destruct valid_request as [Ha _].
  apply wrap64_id. unfold in_int64, int64_min. lia.
Qed.

Lemma wp_move (f : svc (result Transfer)) t C u src dst :
  claimed u t C (W_claimed u) [] src dst -> Amount req <= Wallet_Balance src ->
  (forall C' t', claimed u t' C' (W_moved u src dst) [] src dst ->
     Wallet_Balance dst + Amount req <= int64_max -> wp f C' (Some t') Q) ->
  wp (try_bind (fun _ => try_bind (fun _ => f)
        (WalletRepo.UpdateBalance (Tx n) (Wallet_ID dst)
           (wrap64 (Wallet_Balance dst + Amount req))))
        (WalletRepo.UpdateBalance (Tx n) (Wallet_ID src)
           (wrap64 (Wallet_Balance src - Amount req)))) C (Some t) Q.
Proof.
  intros Ht Hle H. destruct valid_request as [Hamt Hne].
  destruct (claimed_wallets _ _ _ _ _ _ _ Ht) as (-> & -> & Hbs & Hbd).
  rewrite debit_fits by done.
  pose proof (hold_at _ _ _ _ _ _ (claim_hold _ _ _ _ _ _ _ Ht)) as Ha.
  call wp_update_balance; [held Ha|]. intros C1 t1 w HR1 Hw _ Hn1.
  eapply claimed_rely in Ht; [|exact HR1].
  rewrite (at_writes Ha) in Hw. view_simpl_in Hw. rewrite (at_now Ha) in Hn1.
  assert (w = src) as -> by (destruct Ht as [[] _ _]; congruence).
  eapply claimed_next in Hn1; [|exact Ht]. clear Ht Ha Hw. rename Hn1 into Ht.
  pose proof (hold_at _ _ _ _ _ _ (claim_hold _ _ _ _ _ _ _ Ht)) as Ha.
  call wp_update_balance; [held Ha|]. intros C2 t2 w HR2 Hw Hb Hn2.
  eapply claimed_rely in Ht; [|exact HR2].
  rewrite (at_writes Ha) in Hw. view_simpl_in Hw.
  rewrite lookup_insert_ne in Hw by congruence. rewrite (at_now Ha) in Hn2.
  assert (w = dst) as -> by (destruct Ht as [[] _ _]; congruence).
  destruct (credit_fits _ Hbd Hb) as [Hwrap Hfit]. rewrite Hwrap in Hn2.
  eapply claimed_next in Hn2; [|exact Ht]. by apply H.
Qed.

(** *** The double entry *)

Record booked (u : UUID) (i j : Z) (t : txn) (C W : tables) (L : list resource)
  (src dst : Wallet) : Prop := {
  book_claim : claimed u t C W (L ++ [RLedger j; RLedger i]) src dst;
  book_debit : ledger_entries C !! i = None;
  book_credit : ledger_entries C !! j = None
}.

Lemma claimed_locks u t C W L src dst r :
  claimed u t C W L src dst -> r ∈ L -> r ∈ tx_locks t.
Proof. intros [[Ha _ _ _] _ _] Hr. apply (proj2 (at_locks Ha _)). set_solver. Qed.

Lemma booked_rely u i j t C C' W L src dst :
  booked u i j t C W L src dst -> rely (tx_locks t) C C' -> booked u i j t C' W L src dst.
Proof.
  intros [Hc Hi Hj] HR. split; [by eapply claimed_rely|..].
  - rewrite (rely_ledger _ _ _ i HR); [done|]. eapply claimed_locks; [done|set_solver].
  - rewrite (rely_ledger _ _ _ j HR); [done|]. eapply claimed_locks; [done|set_solver].
Qed.

Lemma wp_book (f : svc (result Transfer)) t C u src dst :
  claimed u t C (W_moved u src dst) [] src dst ->
  (forall C' t' i j, i <> j -> booked u i j t' C' (W_booked u src dst i j) [] src dst ->
     wp f C' (Some t') Q) ->
  wp (try_bind (fun _ => try_bind (fun _ => f)
        (LedgerRepo.Insert (Tx n)
           (mkLedgerEntry 0 u (Wallet_ID dst) EntryCredit (Amount req) time_zero)))
        (LedgerRepo.Insert (Tx n)
           (mkLedgerEntry 0 u (Wallet_ID src) EntryDebit (Amount req) time_zero)))
     C (Some t) Q.
Proof.
  intros Ht H. destruct (claimed_wallets _ _ _ _ _ _ _ Ht) as (-> & -> & _ & _).
  pose proof (hold_at _ _ _ _ _ _ (claim_hold _ _ _ _ _ _ _ Ht)) as Ha.
  call wp_insert_ledger; [held Ha..|]. intros C1 t1 i HR1 Hi Hn1.
  rewrite (at_writes Ha) in Hi. view_simpl_in Hi. rewrite (at_now Ha) in Hn1.
  eapply claimed_rely in Ht; [|exact HR1]. eapply claimed_next in Hn1; [|exact Ht].
  clear Ht Ha. rename Hn1 into Ht.
  pose proof (hold_at _ _ _ _ _ _ (claim_hold _ _ _ _ _ _ _ Ht)) as Ha.
  call wp_insert_ledger; [held Ha..|]. intros C2 t2 j HR2 Hj Hn2.
  rewrite (at_writes Ha) in Hj. view_simpl_in Hj. apply lookup_insert_None in Hj as [Hj Hij].
  rewrite (at_now Ha) in Hn2.
  assert (ledger_entries C2 !! i = None) as Hi2.
  { rewrite (rely_ledger _ _ _ i HR2); [done|]. eapply claimed_locks; [done|set_solver]. }
  eapply claimed_rely in Ht; [|exact HR2]. eapply claimed_next in Hn2; [|exact Ht].
  by eapply H.
Qed.

Lemma wp_finish t C u i j src dst :
  booked u i j t C (W_booked u src dst i j) [] src dst -> i <> j ->
  Amount req <= Wallet_Balance src -> Wallet_Balance dst + Amount req <= int64_max ->
  wp (try_bind (fun _ => Ret (Ok (set_state (pending_transfer u) StateProcessed EmptyString)))
        (TransferRepo.UpdateState (Tx n) u StateProcessed EmptyString)) C (Some t) Q.
Proof.
  intros Ht Hij Hle Hfit.
  pose proof (hold_at _ _ _ _ _ _ (claim_hold _ _ _ _ _ _ _ (book_claim _ _ _ _ _ _ _ _ _ Ht)))
    as Ha.
  call wp_update_state; [held Ha|]. intros C1 t1 r HR1 Hr Hn1.
  rewrite (at_writes Ha) in Hr. view_simpl_in Hr. rewrite lookup_insert_eq in Hr.
  injection Hr as <-. rewrite (at_now Ha) in Hn1.
  eapply booked_rely in Ht; [|exact HR1].
  assert (booked u i j t1 C1 (W_processed u src dst i j) [] src dst) as Hb
    by (destruct Ht; split; [by eapply claimed_next|done..]).
  clear Ht Ha Hn1. apply wp_ret. intros C2 HR2.
  eapply booked_rely in Hb; [|exact HR2]. clear HR1 HR2.
  destruct Hb as [[[Ha Hinv Hs Hd] Hu Hk] Hi Hj]. destruct valid_request as [Hamt Hne].
  exists t1. split; [done|]. split; [apply Ha|]. split; [apply Ha|].
  rewrite (at_writes Ha), W_processed_effect. set (x := mkTransferInputs req u now i j).
  split.
  - split; [apply atomic_processed; split; try done; apply Hamt|].
    intros r Hr. apply processed_effect_agree. intros Hin. apply Hr, (proj2 (at_locks Ha _)).
    unfold transfer_locks, movement_locks in Hin. set_solver.
  - by eapply (reply_ok_effect x); simpl; rewrite ?lookup_insert_eq.
Qed.

(** ** The body as a whole *)

Lemma wp_executeTransfer t C :
  tx_at n now t ∅ [] ->
  wp (executeTransfer transferSvc (Tx n) req (hash req)) C (Some t) Q.
Proof.
  intros Ht. unfold executeTransfer. apply wp_lock_both; [done|].
  clear Ht. intros C1 t1 src dst H1. eapply wp_read_both; [done|].
  intros C2 t2 H2. eapply wp_claim; [done|]. intros C3 t3 u H3.
  case_decide as Hlt; [by eapply wp_fail|]. apply Z.nlt_ge in Hlt.
  eapply wp_move; [done|done|]. intros C4 t4 H4 Hfit. eapply wp_book; [done|].
  intros C5 t5 i j Hij H5. by eapply wp_finish.
Qed.
End execute.

(** ** RunInTx around the body *)

Section create.
Variable req : CreateTransferRequest.
Let key := IdempotencyKey req.

Definition key_taken (C : tables) : Prop := is_Some (idempotency_records C !! key).

Lemma key_taken_grows C C' : grows C C' -> key_taken C -> key_taken C'.
Proof. intros Hg [i Hi]. exists i. eapply lookup_weaken; [done|apply Hg]. Qed.

(** The result of the transaction: nothing is left open. *)
Definition tx_post (r : result Transfer) (C : tables) (T : option txn) : Prop :=
  T = None /\
  match r with
  | Err e => errors_Is e ErrIdempotencyConflict = false /\
      (errors_Is e ErrIdempotencyExists = true -> key_taken C)
  | Ok tr => reply_ok req tr C
  end.

Lemma tx_post_plain e C : signals e = false -> wp (Ret (Err e)) C None tx_post.
Proof.
  intros He C' _. apply orb_false_iff in He as [He1 He2]. split_and!; [done..|congruence].
Qed.

Lemma wp_RunInTx_exit n r C T :
  db_inv C -> (forall C', rely (txn_locks T) C C' -> body_post req n r C' T) ->
  wp (RunInTx_exit n (Returned r)) C T tx_post.
Proof.
  intros Hinv H. destruct (H C) as (t & -> & <- & Hr); [auto with wallet|].
  destruct r as [tr|e].
  - apply wp_CommitTx; [apply Hr| | |].
    + intros C' HR. destruct (H C' HR) as (t' & [= <-] & _ & Ht'). apply Ht'.
    + intros [text|] C'; by apply tx_post_plain.
    + intros C' HR. destruct (H C' HR) as (t' & [= <-] & _ & _ & _ & Hreply).
      intros C'' HR'. split; [done|]. eapply reply_ok_grows; [apply HR'|done].
  - apply wp_RollbackTx. intros rb Hrb.
    assert (forall e', errors_Is e' ErrIdempotencyExists = errors_Is e ErrIdempotencyExists ->
      errors_Is e' ErrIdempotencyConflict = errors_Is e ErrIdempotencyConflict ->
      wp (Ret (Err e')) C None tx_post) as Hdone.
    { intros e' E1 E2 C' HR. split; [done|]. rewrite E1, E2. split; [apply Hr|].
      intros Hx. eapply key_taken_grows; [apply HR|]. by apply Hr. }
    destruct Hrb as [->|[[text|] ->]]; simpl; by apply Hdone.
Qed.

Lemma wp_RunInTx C :
  Validate req = None -> in_int64 (Amount req) ->
  wp (RunInTx (fun exec => executeTransfer transferSvc exec req (hash req))) C None tx_post.
Proof.
  intros Hv Ha. apply wp_BeginTx.
  - intros [text|]; by apply tx_post_plain.
  - intros n now. apply wp_rely. intros C1 HR1. apply wp_finally.
    eapply wp_mono; [|apply wp_close, (wp_executeTransfer req n now Hv Ha);
      split; [done..|set_solver]].
    intros r C2 T H. apply wp_rely. intros C3 HR3. apply wp_RunInTx_exit; [apply HR3|].
    intros C4 HR4. apply H. by etrans.
Qed.

(** ** Replay *)

Definition replay_post (taken : Prop) (r : result (option Transfer)) (C : tables)
    (T : option txn) : Prop :=
  T = None /\
  match r with
  | Ok None => ~ taken
  | Ok (Some tr) => reply_ok req tr C
  | Err e => errors_Is e ErrIdempotencyConflict = true -> exists i,
      idempotency_records C !! key = Some i /\ ir_request_hash i <> hash req
  end.

Lemma replay_plain taken e C :
  signals e = false -> wp (Ret (Err e)) C None (replay_post taken).
Proof.
  intros He C' _. apply orb_false_iff in He as [_ He2]. split; [done|congruence].
Qed.

Lemma wp_replay (taken : Prop) C :
  (taken -> key_taken C) ->
  wp (replayIfExists transferSvc DB key (hash req)) C None (replay_post taken).
Proof.
  intros Htaken. apply wp_db_query; [done|done| |].
  { intros [text|] C'; by apply replay_plain. }
  intros C1 now seq HR1. cbn [exec_stmt fst].
  destruct (idempotency_records C1 !! key) as [i|] eqn:Hi; cbn.
  - case_decide as Hh.
    + intros C2 HR2. split; [done|]. intros _. exists i. split; [|done].
      eapply lookup_weaken; [done|apply HR2].
    + destruct (idem_ok_transfer _ _ _ (inv_idem _ (rely_inv _ _ _ HR1) _ _ Hi))
        as (r & Hr & _).
      apply wp_db_query; [done|done| |].
      { intros [text|] C'; by apply replay_plain. }
      intros C2 now2 seq2 HR2. cbn [exec_stmt fst].
      assert (transfers C2 !! ir_transfer_id i = Some r) as Hr2
        by (eapply lookup_weaken; [done|apply HR2]).
      rewrite Hr2. cbn. intros C3 HR3. split; [done|].
      eapply reply_ok_grows; [apply HR3|].
      assert (tr_id r = ir_transfer_id i) as Hid
        by apply (transfer_ok_id _ _ _ (inv_transfers _ (rely_inv _ _ _ HR2) _ _ Hr2)).
      split; simpl; rewrite ?Hid, ?Hr2; [done|done|].
      exists i. split; [|done]. eapply lookup_weaken; [done|apply HR2].
  - intros C2 HR2. split; [done|]. intros Ht.
    destruct (key_taken_grows _ _ (rely_grows _ _ _ HR1) (Htaken Ht)) as [? ?].
    unfold key in *. congruence.
Qed.

(** ** Create *)

(** What [Create] answers: a committed transfer, or an error; never neither. *)
Definition create_post (r : result (option Transfer)) (C : tables) (T : option txn) : Prop :=
  T = None /\
  match r with
  | Ok None => False
  | Ok (Some tr) => reply_ok req tr C
  | Err e => errors_Is e ErrIdempotencyConflict = true -> exists i,
      idempotency_records C !! key = Some i /\ ir_request_hash i <> hash req
  end.

Lemma create_post_stable r C C' T :
  create_post r C T -> grows C C' -> create_post r C' T.
Proof.
  intros [HT H] Hg. split; [done|]. destruct r as [[tr|]|e]; [|done|].
  - by eapply reply_ok_grows.
  - intros He. destruct (H He) as (i & Hi & ?). exists i. split; [|done].
    eapply lookup_weaken; [done|apply Hg].
Qed.

Definition create_body_post (x : result (option Transfer) * TransferState) (C : tables)
    (T : option txn) : Prop := create_post x.1 C T.

Lemma wp_create_ret r C state :
  create_post r C None ->
  wp (Ret (r, state)) C None create_body_post.
Proof. intros H C' HR. simpl. eapply create_post_stable; [done|apply HR]. Qed.

Lemma wp_Create_body C :
  Validate req = None -> in_int64 (Amount req) ->
  wp (Create_body transferSvc req (hash req)) C None create_body_post.
Proof.
  intros Hv Ha. apply wp_bind.
  eapply wp_mono; [|apply (wp_replay False); done].
  intros r C1 T [-> H]. destruct r as [[tr|]|e]; try by apply wp_create_ret.
  apply wp_bind. eapply wp_mono; [|by apply wp_RunInTx].
  intros tx C2 T [-> Htx]. destruct tx as [tr|e]; [by apply wp_create_ret|].
  destruct Htx as [Hc He]. destruct (errors_Is e ErrIdempotencyExists).
  - apply wp_bind. eapply wp_mono; [|apply (wp_replay True); auto].
    intros r C3 T [-> Hr]. destruct r as [[tr|]|e']; by apply wp_create_ret.
  - apply wp_create_ret. split; [done|]. congruence.
Qed.

Lemma wp_record_outcome start state C (Q : unit -> tables -> option txn -> Prop) :
  (forall C', rely ∅ C C' -> Q tt C' None) -> wp (record_outcome start state) C None Q.
Proof.
  intros H. unfold record_outcome. case_decide; [done|].
  apply wp_TransfersTotal_Inc, wp_TimeNow. intros now.
  by apply wp_TransferDuration_Observe.
Qed.

(** An error of validation is no conflict. *)
Lemma invalid_post err C : Validate req = Some err -> create_post (Err err) C None.
Proof. unfold Validate. intros Hv. split; [done|]. repeat case_decide; by simplify_eq. Qed.

Lemma wp_Create C :
  in_int64 (Amount req) -> wp (Create transferSvc req) C None create_post.
Proof.
  intros Ha. apply wp_TimeNow. intros start.
  destruct (Validate req) as [err|] eqn:Hv.
  - intros C' _. by apply invalid_post.
  - apply wp_bind. eapply wp_mono; [|by apply wp_close, wp_Create_body].
    intros [r state] C1 T H. apply wp_rely. intros C2 HR2.
    destruct (H C2 HR2) as [-> H2]. apply wp_bind, wp_record_outcome.
    intros C3 HR3. apply wp_ret. intros C4 HR4. apply H. by do 2 (etrans; [done|]).
Qed.
End create.
