(* ===== verification/Concurrency.v ===== *)
(** * The requests of the service

    The five requests of the API as programs, what each reply promises about
    the committed tables, and that each request meets its promise among any
    others: the workload whose interleavings [Safety] and [Progress] are
    about. *)

From S2P Require Import Prelude GoRuntime Domain Database Repository Service Spec Machine Rely.
From S2P Require Import Workload RepositoryCorrect ServiceCorrect.
#[local] Open Scope go_scope.

(** ** The requests of the API *)

Inductive api : Type :=
| CreateTransfer (req : CreateTransferRequest)
| ReadTransfer (id : UUID)
| ListTransfers (wallet : string) (limit : Z) (before : option Time)
| ReadWallet (id : string)
| CreateWallet (id : string) (balance : Z).

Inductive reply : Type :=
| TransferCreated (r : result (option Transfer))
| TransferRead (r : result Transfer)
| TransfersListed (r : result (list Transfer * option Time))
| WalletReplied (r : result Wallet).

Definition serve (a : api) : svc reply :=
  match a with
  | CreateTransfer req => r ← Create transferSvc req; Ret (TransferCreated r)
  | ReadTransfer id => r ← GetTransfer transferSvc id; Ret (TransferRead r)
  | ListTransfers w limit before =>
      r ← ListTransfersByWallet transferSvc w limit before; Ret (TransfersListed r)
  | ReadWallet id => r ← WalletService_Get walletSvc id; Ret (WalletReplied r)
  | CreateWallet id balance =>
      r ← WalletService_Create walletSvc id balance; Ret (WalletReplied r)
  end.

(** Amounts and balances arrive as int64. *)
Definition api_ok (a : api) : Prop :=
  match a with
  | CreateTransfer req => in_int64 (Amount req)
  | CreateWallet _ balance => in_int64 balance
  | _ => True
  end.

(** The transfer is committed as it is shown. *)
Definition shows_transfer (C : tables) (tr : Transfer) : Prop :=
  select_transfer <$> transfers C !! Transfer_ID tr = Some tr.

(** The wallet exists, and was shown with a balance it can have. *)
Definition shows_wallet (C : tables) (id : string) (w : Wallet) : Prop :=
  wallet_ok id w /\ exists w', wallets C !! id = Some w' /\ Wallet_CreatedAt w' = Wallet_CreatedAt w.

(** What a reply promises about the committed tables. *)
Definition reply_post (a : api) (r : reply) (C : tables) (T : option txn) : Prop :=
  T = None /\
  match a, r with
  | CreateTransfer req, TransferCreated r => create_post req r C None
  | ReadTransfer id, TransferRead r =>
      match r with Ok tr => Transfer_ID tr = id /\ shows_transfer C tr | Err _ => True end
  | ListTransfers w _ _, TransfersListed r =>
      match r with
      | Ok (trs, _) => Forall (fun tr => shows_transfer C tr /\
          (Transfer_FromWalletID tr = w \/ Transfer_ToWalletID tr = w)) trs
      | Err _ => True
      end
  | ReadWallet id, WalletReplied r | CreateWallet id _, WalletReplied r =>
      match r with Ok w => shows_wallet C id w | Err _ => True end
  | _, _ => False
  end.

(** ** Each request meets its specification *)

Lemma wp_insert_wallet {A} id balance (k : result (Time * Time) -> svc A) C Q :
  0 <= balance <= int64_max ->
  (forall e C', wp (k (Err e)) C' None Q) ->
  (forall C' now, wallets C' !! id = Some (mkWallet id balance now now) ->
     wp (k (Ok (now, now))) C' None Q) ->
  wp (Vis (Exec DB (InsertWallet id balance)) k) C None Q.
Proof.
  intros Hb Herr Hok S ch HR. split; [done|]. unfold local_exec, do_autocommit.
  cbn [exec_stmt]. unfold exec_insert_wallet, sql_check, wallets_check.
  cbn [Wallet_Balance]. rewrite bool_decide_eq_true_2 by lia.
  unfold next_seq. cbn [draws_sequence].
  case_bool_decide as Hid.
  - assert (guarantee ∅ (sh_db S) (put_wallet (mkWallet id balance (ch_now ch) (ch_now ch)) ∪ sh_db S))
      as Hg.
    { split; [by apply atomic_wallet|]. intros r _.
      destruct r as [id'|u|k'|i]; simpl; rewrite ?union_empty_first; try done.
      intros w Hw. rewrite insert_union_singleton_first, lookup_insert_ne; [done|congruence]. }
    destruct (ch_fault ch); [destruct (ch_applied ch)|]; simpl; auto using guarantee_none.
    split; [done|]. apply Hok. simpl.
    by rewrite insert_union_singleton_first, lookup_insert_eq.
  - assert (∅ ∪ sh_db S = sh_db S) as -> by apply tables_union_empty.
    destruct (ch_fault ch); [destruct (ch_applied ch)|]; simpl; auto using guarantee_none.
Qed.

Lemma shows_transfer_grows C C' tr : grows C C' -> shows_transfer C tr -> shows_transfer C' tr.
Proof.
  unfold shows_transfer. intros Hg H. apply fmap_Some in H as (r & Hr & ->). apply fmap_Some.
  exists r. split; [|done]. eapply lookup_weaken; [done|apply Hg].
Qed.

Lemma shows_wallet_grows C C' id w : grows C C' -> shows_wallet C id w -> shows_wallet C' id w.
Proof.
  intros Hg [Hok (w' & Hw' & Hc)]. split; [done|].
  destruct (grows_wallets _ _ Hg _ _ Hw') as (w2 & Hw2 & Hc2 & _). exists w2. by rewrite Hc2.
Qed.

Lemma shows_wallet_read C id w : db_inv C -> wallets C !! id = Some w -> shows_wallet C id w.
Proof. intros Hi Hw. split; [by apply (inv_wallets _ Hi)|eauto]. Qed.

Lemma elem_of_history t w b tr :
  tr ∈ history_rows t w b <->
  history_where w b tr /\ exists u r, transfers t !! u = Some r /\ tr = select_transfer r.
Proof.
  unfold history_rows. rewrite merge_sort_Permutation, list_elem_of_filter, list_elem_of_fmap.
  apply and_iff_compat_l. split.
  - intros (r & -> & Hr). apply list_elem_of_fmap in Hr as ([u r'] & -> & Hr).
    apply elem_of_map_to_list in Hr. eauto.
  - intros (u & r & Hr & ->). exists r. split; [done|]. apply list_elem_of_fmap.
    exists (u, r). split; [done|]. by apply elem_of_map_to_list.
Qed.

Lemma shows_history C w b tr :
  db_inv C -> tr ∈ history_rows C w b ->
  shows_transfer C tr /\ (Transfer_FromWalletID tr = w \/ Transfer_ToWalletID tr = w).
Proof.
  intros Hi Htr. apply elem_of_history in Htr as ([Hw _] & u & r & Hr & ->). split; [|done].
  unfold shows_transfer. simpl. rewrite (transfer_ok_id _ _ _ (inv_transfers _ Hi _ _ Hr)).
  by rewrite Hr.
Qed.

Lemma wp_read_transfer C id : wp (serve (ReadTransfer id)) C None (reply_post (ReadTransfer id)).
Proof.
  apply wp_db_query; [done|done|by intros [] C'|]. intros C1 now seq HR1. cbn [exec_stmt fst].
  destruct (transfers C1 !! id) as [r|] eqn:Hr; simpl; [|done].
  assert (Transfer_ID (select_transfer r) = id) as Hid
    by (apply (transfer_ok_id C1), (inv_transfers _ (rely_inv _ _ _ HR1)), Hr).
  intros C2 HR2. split; [done|]. split; [done|].
  eapply shows_transfer_grows; [apply HR2|]. unfold shows_transfer. by rewrite Hid, Hr.
Qed.

Lemma wp_list_transfers C w limit before :
  wp (serve (ListTransfers w limit before)) C None (reply_post (ListTransfers w limit before)).
Proof.
  cbn [serve]. unfold ListTransfersByWallet. case_decide; [done|].
  apply wp_db_query; [done| |by intros [] C'|].
  - intros now seq t. simpl. unfold sql_check. by case_bool_decide.
  - intros C1 now seq HR1. simpl. unfold sql_check. case_bool_decide; [|done]. simpl.
    intros C2 HR2. split; [done|]. simpl. apply Forall_forall. intros tr Htr.
    assert (tr ∈ history_rows C1 w before) as Hin by (apply elem_of_take in Htr as (n & Hn & _); by eapply list_elem_of_lookup_2).
    destruct (shows_history _ _ _ _ (rely_inv _ _ _ HR1) Hin) as [Hs ?]. split; [|done].
    eapply shows_transfer_grows; [apply HR2|done].
Qed.

Lemma wp_read_wallet C id : wp (serve (ReadWallet id)) C None (reply_post (ReadWallet id)).
Proof.
  apply wp_db_query; [done|done|by intros [] C'|]. intros C1 now seq HR1. cbn [exec_stmt fst].
  destruct (wallets C1 !! id) as [w|] eqn:Hw; simpl; [|done].
  intros C2 HR2. split; [done|]. eapply shows_wallet_grows; [apply HR2|].
  apply shows_wallet_read; [apply HR1|done].
Qed.

Lemma wp_create_wallet C id balance :
  in_int64 balance ->
  wp (serve (CreateWallet id balance)) C None (reply_post (CreateWallet id balance)).
Proof.
  intros Ha. cbn [serve]. unfold WalletService_Create.
  case_decide; [done|]. case_decide as Hb; [done|]. unfold in_int64 in Ha.
  apply wp_insert_wallet; [simpl; lia|done|].
  intros C1 now Hw. simpl. intros C2 HR2. split; [done|].
  eapply shows_wallet_grows; [apply HR2|]. split; [|eauto]. split; simpl; [done|lia].
Qed.

Lemma wp_serve a C : api_ok a -> wp (serve a) C None (reply_post a).
Proof.
  intros Ha. destruct a as [req|id|w limit before|id|id balance];
    [|apply wp_read_transfer|apply wp_list_transfers|apply wp_read_wallet|by apply wp_create_wallet].
  apply wp_bind. eapply wp_mono; [|by apply wp_close, wp_Create].
  intros r C1 T H. apply wp_ret. intros C2 HR. destruct (H C2 HR) as [-> Hr]. done.
Qed.

#[export] Instance api_workload : Workload api reply := {|
  wl_prog := serve;
  wl_ok a _ := api_ok a;
  wl_post := reply_post;
  wl_spec a C := wp_serve a C;
  wl_closed a r C T H := proj1 H
|}.
