(* ===== verification/Scenario.v ===== *)
(** * Concrete runs

    A small bank and schedules on it, evaluated: two requests with one
    idempotency key racing for the same wallets, an overdraft, a retry after a
    COMMIT whose answer was lost.  The theorems' witnesses use them. *)

From S2P Require Import Prelude GoRuntime Domain Database Repository Service Spec Machine Rely.
From S2P Require Import RepositoryCorrect ServiceCorrect Workload Concurrency.

Definition alice : string := "alice".
Definition bob : string := "bob".

Definition bank : tables :=
  put_wallet (mkWallet bob 50 2 2) ∪ (put_wallet (mkWallet alice 100 1 1) ∪ ∅).

Lemma bank_ok : db_inv bank.
Proof.
  unfold bank. eapply atomic_step_inv; [apply atomic_wallet; [by vm_compute|unfold int64_max; lia]|].
  eapply atomic_step_inv; [apply atomic_wallet; [by vm_compute|unfold int64_max; lia]|].
  apply db_inv_empty.
Qed.

Definition pay (key : string) (amount : Z) : CreateTransferRequest :=
  mkCreateTransferRequest key alice bob amount.

(** A world without faults: time and fresh ids from the step number. *)
Definition calm (n : N) : choice := mkChoice None false (10 + Z.of_N n) (100 + n)%N.
Definition broken (applied : bool) : choice := mkChoice (Some (Broken "conn reset")) applied 0 0%N.

(** The state a schedule leads to. *)
Definition after {Req Reply} {WL : Workload Req Reply} (pool : nat) (sched : list (nat * choice))
    (reqs : list Req) : config Reply :=
  default (start bank 1 reqs) (run_schedule pool sched (start bank 1 reqs)).

Definition moves (i : nat) (from : N) (n : nat) : list (nat * choice) :=
  (fun k => (i, calm (from + N.of_nat k))) <$> seq 0 n.

Lemma after_reachable {Req Reply} {WL : Workload Req Reply} pool sched (reqs : list Req) :
  (match run_schedule pool sched (start bank 1 reqs) with Some _ => true | None => false end) = true ->
  reachable pool bank 1 reqs (after pool sched reqs).
Proof.
  unfold after. intros H. apply reachable_schedule. exists sched.
  by destruct (run_schedule _ _ _).
Qed.

(** ** A race *)

(** Two requests with the same key: the second waits for the first one's row
    lock, then finds the key taken, rolls back, and replays. *)
Definition race : list api := [CreateTransfer (pay "k1" 30); CreateTransfer (pay "k1" 30)].

Definition race_begin : list (nat * choice) := moves 0 0 5 ++ moves 1 20 3.
Definition race_first : list (nat * choice) := race_begin ++ moves 0 40 14.
Definition race_whole : list (nat * choice) := race_first ++ moves 1 60 13.

Definition race_transfer : Transfer :=
  mkTransfer 142 alice bob 30 StateProcessed EmptyString 12 12.

Lemma race_ok : Forall api_ok race.
Proof. repeat constructor; done. Qed.

(** The second request waits while the first holds alice's row. *)
Example race_waits :
  bool_decide (is_Some (step 2 1 (calm 30) (after 2 race_begin race)
                        ≫= fun c => Some tt)) = false.
Proof. by vm_compute. Qed.

Lemma race_begin_reachable : reachable 2 bank 1 race (after 2 race_begin race).
Proof. by apply after_reachable; vm_compute. Qed.

Lemma race_first_reachable : reachable 2 bank 1 race (after 2 race_first race).
Proof. by apply after_reachable; vm_compute. Qed.

Lemma race_reachable : reachable 2 bank 1 race (after 2 race_whole race).
Proof. by apply after_reachable; vm_compute. Qed.

Lemma race_answer i :
  (i < 2)%nat ->
  answered (after 2 race_whole race) i (TransferCreated (Ok (Some race_transfer))).
Proof. intros Hi. exists None. destruct i as [|[|i]]; [by vm_compute..|lia]. Qed.

Example race_balances :
  (Wallet_Balance <$> wallets (committed (after 2 race_whole race))
   = {[alice := 70; bob := 80]})%stdpp.
Proof. by vm_compute. Qed.

(** ** A retry after a COMMIT whose answer was lost

    The first request's COMMIT is applied but reported as failed; the second,
    with the same key, finds the committed transfer. *)
Definition retry_schedule : list (nat * choice) :=
  moves 0 0 15 ++ [(0%nat, broken true)] ++ moves 1 40 6.

Lemma retry_reachable : reachable 1 bank 1 race (after 1 retry_schedule race).
Proof. by apply after_reachable; vm_compute. Qed.

Example retry_replays :
  answered (after 1 retry_schedule race) 1 (TransferCreated (Ok (Some
    (mkTransfer 107 alice bob 30 StateProcessed EmptyString 12 12)))).
Proof. exists None. by vm_compute. Qed.

(** ** One key, two amounts *)
Definition clash : list api := [CreateTransfer (pay "k1" 30); CreateTransfer (pay "k1" 31)].
Definition clash_schedule : list (nat * choice) := moves 0 0 19 ++ moves 1 40 2.

Lemma clash_ok : Forall api_ok clash.
Proof. repeat constructor; done. Qed.

Lemma clash_reachable : reachable 1 bank 1 clash (after 1 clash_schedule clash).
Proof. by apply after_reachable; vm_compute. Qed.

Lemma clash_answer :
  answered (after 1 clash_schedule clash) 1 (TransferCreated (Err ErrIdempotencyConflict)).
Proof. exists None. by vm_compute. Qed.

(** ** A transfer, then its history *)
Definition look : list api := [CreateTransfer (pay "k1" 30); ReadTransfer 107; ListTransfers alice 0 None].
Definition look_schedule : list (nat * choice) := moves 0 0 19 ++ moves 1 40 1 ++ moves 2 50 1.
Definition look_transfer : Transfer :=
  mkTransfer 107 alice bob 30 StateProcessed EmptyString 12 12.

Lemma look_ok : Forall api_ok look.
Proof. repeat constructor; done. Qed.

Lemma look_reachable : reachable 1 bank 1 look (after 1 look_schedule look).
Proof. by apply after_reachable; vm_compute. Qed.

Lemma look_answers :
  answered (after 1 look_schedule look) 1 (TransferRead (Ok look_transfer)) /\
  answered (after 1 look_schedule look) 2 (TransfersListed (Ok ([look_transfer], None))).
Proof. split; exists None; by vm_compute. Qed.
