(* ===== verification/Safety.v ===== *)
(** * What concurrent requests can rely on

    The invariant, exactly-once transfers, durable replies, conservation of
    money and double-entry bookkeeping, in every state any number of
    concurrent requests can reach, whatever the schedule and the faults. *)

From S2P Require Import Prelude GoRuntime Domain Database Repository Service Spec Machine Rely.
From S2P Require Import RepositoryCorrect ServiceCorrect Workload Concurrency Scenario.

(** ** Facts about the specification machine *)

(** A transfer moves money, it makes none. *)
Lemma total_balance_processed x src dst t :
  transfer_ready x src dst t -> total_balance (processed_effect x src dst t) = total_balance t.
Proof.
  intros [Hs Hd Hne _ _ _]. unfold total_balance. simpl.
  pose proof (sum_map_replace (K:=string) Wallet_Balance) as Hsum. unfold sum_map in Hsum.
  rewrite (Hsum _ _ dst) by (by rewrite lookup_insert_ne). rewrite (Hsum _ _ src) by done.
  simpl. lia.
Qed.

Lemma atomic_step_total t t' :
  atomic_step t t' -> dom (wallets t') = dom (wallets t) -> total_balance t' = total_balance t.
Proof.
  destruct 1 as [t|t id balance now Hid Hb|t x src dst Hr Hlt|t x src dst Hr Hf]; intros Hdom.
  - done.
  - exfalso. rewrite wallets_put_wallet, dom_insert_L in Hdom. simpl in Hdom.
    apply not_elem_of_dom in Hid. set_solver.
  - done.
  - by apply total_balance_processed.
Qed.

Lemma grows_dom t t' : grows t t' -> dom (wallets t) ⊆ dom (wallets t').
Proof.
  intros Hg id Hid. apply elem_of_dom in Hid as [w Hw]. apply elem_of_dom.
  destruct (grows_wallets _ _ Hg _ _ Hw) as (w' & Hw' & _). eauto.
Qed.

Lemma rtc_atomic_total t t' :
  rtc atomic_step t t' -> dom (wallets t') = dom (wallets t) -> total_balance t' = total_balance t.
Proof.
  induction 1 as [t|t1 t2 t3 H1 H2 IH]; intros Hdom; [done|].
  pose proof (grows_dom _ _ (atomic_step_grows _ _ H1)).
  pose proof (grows_dom _ _ (rtc_atomic_grows _ _ H2)).
  assert (dom (wallets t2) = dom (wallets t1)) as Hd by (apply (anti_symm (⊆)); set_solver).
  rewrite IH by congruence. by apply atomic_step_total.
Qed.

(** ** The ledger of one transfer *)

Definition entries_of (t : tables) (u : UUID) (ty : EntryType) (e : LedgerEntry) : Prop :=
  ledger_entries t !! Ledger_ID e = Some e /\ same_side u ty e.

Lemma entries_unique t u ty e e' :
  db_inv t -> entries_of t u ty e -> entries_of t u ty e' -> e = e'.
Proof.
  intros Hi [He [<- <-]] [He' Hs]. pose proof (inv_ledger _ Hi _ _ He) as Hok.
  pose proof (entry_ok_unique _ _ _ Hok _ _ He' Hs) as Hid. congruence.
Qed.

Lemma entry_of_transfer t u r e ty :
  db_inv t -> transfers t !! u = Some r -> entries_of t u ty e ->
  tr_state r = StateProcessed /\ Ledger_Amount e = tr_amount r /\ side_of r e.
Proof.
  intros Hi Hr [He Hs]. pose proof (inv_ledger _ Hi _ _ He) as Hok.
  destruct (entry_ok_transfer _ _ _ Hok) as (r' & Hr' & Hst & Ha & Hside).
  pose proof (proj1 Hs) as Hu. rewrite Hu in Hr'. by simplify_eq.
Qed.

Lemma one_entry t u ty :
  db_inv t -> (exists i e, ledger_entries t !! i = Some e /\ same_side u ty e) ->
  exists! e, entries_of t u ty e.
Proof.
  intros Hi (i & e & He & Hs). exists e.
  assert (entries_of t u ty e) as Hin.
  { split; [|done]. by rewrite (entry_ok_id _ _ _ (inv_ledger _ Hi _ _ He)). }
  split; [done|]. intros e' He'. by eapply entries_unique.
Qed.

Lemma entry_wallet t u r ty e :
  db_inv t -> transfers t !! u = Some r -> entries_of t u ty e ->
  (ty = EntryDebit -> Ledger_WalletID e = tr_from_wallet_id r) /\
  (ty = EntryCredit -> Ledger_WalletID e = tr_to_wallet_id r) /\
  Ledger_Amount e = tr_amount r.
Proof.
  intros Hi Hr He. destruct (entry_of_transfer _ _ _ _ _ Hi Hr He) as (_ & Ha & Hside).
  destruct He as [_ [_ Hty]].
  destruct Hside as [[Ht Hw]|[Ht Hw]]; split_and!; try done; intros ->;
    unfold EntryDebit, EntryCredit in *; congruence.
Qed.

Lemma transfer_entries t u r :
  db_inv t -> transfers t !! u = Some r ->
  (tr_state r = StateProcessed /\
   (exists! e, entries_of t u EntryDebit e) /\ (exists! e, entries_of t u EntryCredit e) /\
   (forall e, entries_of t u EntryDebit e ->
      Ledger_WalletID e = tr_from_wallet_id r /\ Ledger_Amount e = tr_amount r) /\
   (forall e, entries_of t u EntryCredit e ->
      Ledger_WalletID e = tr_to_wallet_id r /\ Ledger_Amount e = tr_amount r))
  \/ (tr_state r = StateFailed /\
      forall i e, ledger_entries t !! i = Some e -> Ledger_TransferID e <> u).
Proof.
  intros Hdb Hr. pose proof (inv_transfers _ Hdb _ _ Hr) as Hok.
  destruct (transfer_ok_settled _ _ _ Hok) as [[Hst _]|[Hst _]]; [left|right]; (split; [done|]).
  - destruct (transfer_ok_ledger _ _ _ Hok Hst) as [Hd Hc].
    split_and!; [by apply one_entry..| |]; intros e He;
      destruct (entry_wallet _ _ _ _ _ Hdb Hr He) as (Hf & Ht & ?); auto.
  - intros i e He Hu. pose proof (inv_ledger _ Hdb _ _ He) as Hoke.
    destruct (entry_ok_transfer _ _ _ Hoke) as (r' & Hr' & Hst' & _).
    rewrite Hu in Hr'. simplify_eq. rewrite Hst in Hst'. done.
Qed.

(** ** What an answer can be *)

Record typed_transfer (tr : Transfer) : Prop := mkTypedTransfer {
  typed_state : Valid (Transfer_State tr) = true /\ Transfer_State tr <> StatePending;
  typed_amount : 1 <= Transfer_Amount tr <= int64_max;
  typed_wallets : Transfer_FromWalletID tr <> Transfer_ToWalletID tr;
  typed_reason : Transfer_FailureReason tr = EmptyString <-> Transfer_State tr = StateProcessed
}.

Definition typed_reply (r : reply) : Prop :=
  match r with
  | TransferCreated (Ok (Some tr)) | TransferRead (Ok tr) => typed_transfer tr
  | TransferCreated (Ok None) => False
  | TransfersListed (Ok (trs, _)) => Forall typed_transfer trs
  | WalletReplied (Ok w) => 0 <= Wallet_Balance w <= int64_max
  | _ => True
  end.

Lemma shows_typed t tr : db_inv t -> shows_transfer t tr -> typed_transfer tr.
Proof.
  intros Hdb H. apply fmap_Some in H as (r & Hr & E).
  destruct (inv_transfers _ Hdb _ _ Hr) as [_ Ha Hd _ _ Hs _ _].
  rewrite E. by split; cbn; [|lia|done|]; destruct Hs as [[E1 E2]|[E1 E2]]; rewrite ?E1, ?E2.
Qed.

(** ** The theorems *)

Section theorems.
Variables (pool : nat) (t : tables) (seq : Z) (reqs : list api).
Hypothesis Hinv : db_inv t.
Hypothesis Hreqs : Forall api_ok reqs.

Lemma reach_ok c : reachable pool t seq reqs c -> conf_ok reqs c.
Proof. by apply reachable_conf_ok. Qed.

(** What a finished request leaves behind. *)
Lemma answered_ok c i r :
  reachable pool t seq reqs c -> answered c i r ->
  exists a, reqs !! i = Some a /\ reply_post a r (committed c) None /\
    cf_threads c !! i = Some (Ret r, None).
Proof. intros Hc. apply (answered_post (WL:=api_workload)). by apply reach_ok. Qed.

Lemma transfer_answer_ok c c' i req tr :
  reachable pool t seq reqs c -> reqs !! i = Some (CreateTransfer req) ->
  answered c i (TransferCreated (Ok (Some tr))) -> rtc (steps pool) c c' ->
  reply_ok req tr (committed c').
Proof.
  intros Hc Hi Ha Hcc. destruct (answered_ok _ _ _ Hc Ha) as (a & Ha' & Hpost & _).
  simplify_eq/=. destruct Hpost as [_ [_ Hp]]. eapply reply_ok_grows; [|done]. eapply steps_grows; [by apply reach_ok|done].
Qed.

Lemma same_key_replies c c' i j req req' tr tr' :
  reachable pool t seq reqs c -> rtc (steps pool) c c' ->
  reqs !! i = Some (CreateTransfer req) -> reqs !! j = Some (CreateTransfer req') ->
  IdempotencyKey req = IdempotencyKey req' ->
  answered c i (TransferCreated (Ok (Some tr))) ->
  answered c' j (TransferCreated (Ok (Some tr'))) ->
  tr = tr' /\ hash req = hash req'.
Proof.
  intros Hc Hcc Hi Hj Hkey Ha Ha'.
  destruct (transfer_answer_ok _ _ _ _ _ Hc Hi Ha Hcc) as [_ Ht (k & Hk & Hu & Hh)].
  assert (reachable pool t seq reqs c') as Hc' by (unfold reachable in *; by etrans).
  destruct (transfer_answer_ok _ _ _ _ _ Hc' Hj Ha' (rtc_refl _ _))
    as [_ Ht' (k' & Hk' & Hu' & Hh')].
  rewrite <- Hkey in Hk'. split; congruence.
Qed.

(** Refinement.  Every step of every request, in every reachable state,
    changes the committed tables by one step of the specification: nothing,
    a new wallet, a FAILED transfer, or a whole PROCESSED transfer (both
    balances, both ledger entries, the transfer row and the idempotency
    record together). *)
Lemma steps_refine_specification c i ch c' :
  reachable pool t seq reqs c -> step pool i ch c = Some c' ->
  atomic_step (committed c) (committed c').
Proof. intros Hc Hs. by eapply step_conf_ok; [apply reach_ok|]. Qed.

(** The invariant.  In every reachable state the committed tables are
    well formed: balances are int64 values that are never negative, no
    transfer is PENDING, every PROCESSED transfer has its two ledger
    entries, every idempotency record names a transfer made for its digest. *)
Lemma reachable_invariant c : reachable pool t seq reqs c -> db_inv (committed c).
Proof. intros Hc. by apply reach_ok. Qed.

(** C9: replies are durable.  Once a transfer request is answered with a
    transfer, that transfer is committed exactly as answered, under the
    request's key and digest, in every later state. *)
Theorem replies_durable c c' i req tr :
  reachable pool t seq reqs c -> reqs !! i = Some (CreateTransfer req) ->
  answered c i (TransferCreated (Ok (Some tr))) -> rtc (steps pool) c c' ->
  reply_ok req tr (committed c').
Proof. apply transfer_answer_ok. Qed.

(** Exactly once.  Two requests with the same idempotency key that are
    both answered with a transfer, now or later, get the identical transfer,
    and asked for parameters with the same digest. *)
Lemma same_key_same_transfer c c' i j req req' tr tr' :
  reachable pool t seq reqs c -> rtc (steps pool) c c' ->
  reqs !! i = Some (CreateTransfer req) -> reqs !! j = Some (CreateTransfer req') ->
  IdempotencyKey req = IdempotencyKey req' ->
  answered c i (TransferCreated (Ok (Some tr))) ->
  answered c' j (TransferCreated (Ok (Some tr'))) ->
  tr = tr' /\ hash req = hash req'.
Proof. apply same_key_replies. Qed.

(** C10: every answer is well typed.  Whatever interleavings led to it, an
    answered transfer is in one of the two final states of the domain, with an
    amount from 1 to the largest int64 between two different wallets and a
    failure reason exactly when it is FAILED; an answered wallet has a balance
    from 0 to the largest int64; and a transfer request is never answered with
    neither a transfer nor an error. *)
Theorem replies_typed c i r :
  reachable pool t seq reqs c -> answered c i r -> typed_reply r.
Proof.
  intros Hc Ha. pose proof (conf_inv _ _ (reach_ok _ Hc)) as Hdb.
  destruct (answered_ok _ _ _ Hc Ha) as (a & _ & [_ Hp] & _).
  destruct a, r as [[[tr|]|]|[tr|]|[[trs cur]|]|[w|]]; try done; cbn [typed_reply] in *.
  - destruct Hp as [_ [_ Hs _]]. by apply (shows_typed _ _ Hdb).
  - by destruct Hp as [_ Hp].
  - apply (shows_typed _ _ Hdb), Hp.
  - eapply Forall_impl; [exact Hp|]. intros tr [Hs _]. by apply (shows_typed _ _ Hdb).
  - destruct Hp as [[_ Hb] _]. lia.
  - destruct Hp as [[_ Hb] _]. lia.
Qed.

(** Conflicts are real.  A request is told that its key was used with
    other parameters only when the key is committed with another digest. *)
Lemma conflict_only_on_mismatch c i req e :
  reachable pool t seq reqs c -> reqs !! i = Some (CreateTransfer req) ->
  answered c i (TransferCreated (Err e)) -> errors_Is e ErrIdempotencyConflict = true ->
  exists r, idempotency_records (committed c) !! IdempotencyKey req = Some r
    /\ ir_request_hash r <> hash req.
Proof.
  intros Hc Hi Ha. destruct (answered_ok _ _ _ Hc Ha) as (a & Ha' & Hpost & _).
  simplify_eq/=. destruct Hpost as [_ [_ Hp]]. done.
Qed.

(** Reads show committed data.  A transfer that GET answers, and each
    row of a history page, is committed exactly as shown (and stays so); a
    history page only has transfers of the wallet asked for. *)
Lemma reads_committed c i r :
  reachable pool t seq reqs c -> answered c i r ->
  (forall id tr, reqs !! i = Some (ReadTransfer id) -> r = TransferRead (Ok tr) ->
     Transfer_ID tr = id /\ shows_transfer (committed c) tr) /\
  (forall w limit b trs cursor tr, reqs !! i = Some (ListTransfers w limit b) ->
     r = TransfersListed (Ok (trs, cursor)) -> tr ∈ trs ->
     shows_transfer (committed c) tr /\
     (Transfer_FromWalletID tr = w \/ Transfer_ToWalletID tr = w)).
Proof.
  intros Hc Ha. destruct (answered_ok _ _ _ Hc Ha) as (a & Ha' & Hpost & _). split.
  - intros id tr Hi ->. simplify_eq. apply Hpost.
  - intros w limit b trs cursor tr Hi -> Htr. simplify_eq. destruct Hpost as [_ Hall].
    simpl in Hall. rewrite Forall_forall in Hall. auto.
Qed.

(** A finished request ended with an answer: it never panicked, holds no
    transaction, and a transfer request without an error has a transfer
    (the service never returns nil, nil). *)
Lemma finished_requests_answered c i p T :
  reachable pool t seq reqs c -> cf_threads c !! i = Some (p, T) ->
  (forall X (o : svcE X) k, p <> Vis o k) ->
  exists r, p = Ret r /\ T = None /\ r <> TransferCreated (Ok None).
Proof.
  intros Hc Hi Hp. destruct (reach_ok _ Hc) as [Hdb Hthr _].
  destruct (Forall2_lookup_r _ _ _ _ _ Hthr Hi) as (a & _ & [Hw _]). simpl in Hw.
  destruct p as [r|v|X o k]; [| |by destruct (Hp X o k)].
  - exists r. destruct (Hw _ (rely_refl _ _ Hdb)) as [-> Hpost]. split_and!; [done..|].
    intros ->. destruct a; [by destruct Hpost|done..].
  - by destruct (Hw _ (rely_refl _ _ Hdb)).
Qed.

(** Nothing is lost or rewritten.  From one reachable state to a later
    one transfers, ledger entries and idempotency records are only added,
    wallets are never removed, and each wallet's balance moves exactly by
    the net of its new ledger entries. *)
Lemma history_append_only c c' :
  reachable pool t seq reqs c -> rtc (steps pool) c c' -> grows (committed c) (committed c').
Proof. intros Hc. by apply (steps_grows pool reqs), reach_ok. Qed.

(** C8: conservation.  As long as no wallet is created the sum of all
    balances stays what it was. *)
Theorem money_conserved c c' :
  reachable pool t seq reqs c -> rtc (steps pool) c c' ->
  dom (wallets (committed c')) = dom (wallets (committed c)) ->
  total_balance (committed c') = total_balance (committed c).
Proof. intros Hc Hcc. apply rtc_atomic_total. by eapply steps_atomic; [apply reach_ok|]. Qed.

(** C7: balance and ledger agree, and no wallet is ever overdrawn or
    overflows: in every reachable state a wallet's balance is its first
    balance plus its credits minus its debits since, within 0 and the
    largest int64. *)
Theorem balance_matches_ledger c id w :
  reachable pool t seq reqs c -> wallets t !! id = Some w ->
  exists w', wallets (committed c) !! id = Some w' /\ 0 <= Wallet_Balance w' <= int64_max /\
    Wallet_Balance w'
    = Wallet_Balance w + (ledger_net (committed c) id - ledger_net t id).
Proof.
  intros Hc Hw. pose proof (start_conf_ok t seq reqs Hinv Hreqs) as H0.
  destruct (grows_wallets _ _ (steps_grows _ _ _ _ H0 Hc) _ _ Hw) as (w' & Hw' & _ & Hb).
  exists w'. destruct (inv_wallets _ (conf_inv _ _ (reach_ok _ Hc)) _ _ Hw') as [_ Hr].
  change (committed (start t seq reqs)) with t in Hb.
  split_and!; [done|apply Hr|apply Hr|lia].
Qed.

(** C6: double entry.  In every reachable state a PROCESSED transfer has
    exactly one DEBIT entry, on its source wallet, and exactly one CREDIT
    entry, on its destination, both for its amount; any other committed
    transfer is FAILED and has no entry. *)
Theorem double_entry c u r :
  reachable pool t seq reqs c -> transfers (committed c) !! u = Some r ->
  (tr_state r = StateProcessed /\
   (exists! e, entries_of (committed c) u EntryDebit e) /\
   (exists! e, entries_of (committed c) u EntryCredit e) /\
   (forall e, entries_of (committed c) u EntryDebit e ->
      Ledger_WalletID e = tr_from_wallet_id r /\ Ledger_Amount e = tr_amount r) /\
   (forall e, entries_of (committed c) u EntryCredit e ->
      Ledger_WalletID e = tr_to_wallet_id r /\ Ledger_Amount e = tr_amount r))
  \/ (tr_state r = StateFailed /\
      forall i e, ledger_entries (committed c) !! i = Some e -> Ledger_TransferID e <> u).
Proof.
  intros Hc Hr. pose proof (conf_inv _ _ (reach_ok _ Hc)) as Hdb.
  by apply transfer_entries.
Qed.
End theorems.

(** ** Witnesses: the theorems at concrete runs *)

(** The race's first request commits at its sixteenth step. *)
Definition race_commit : config reply := after 2 (race_begin ++ moves 0 40 10) race.

Lemma race_commit_reachable : reachable 2 bank 1 race race_commit.
Proof. by apply after_reachable; vm_compute. Qed.

Lemma race_commit_moves :
  match step 2 0 (calm 50) race_commit with Some _ => true | None => false end = true.
Proof. by vm_compute. Qed.

Lemma steps_refine_specification_witness :
  exists c', step 2 0 (calm 50) race_commit = Some c' /\
    atomic_step (committed race_commit) (committed c').
Proof.
  destruct (step 2 0 (calm 50) race_commit) as [c'|] eqn:E.
  - exists c'. split; [first [exact E|exact eq_refl]|].
    exact (steps_refine_specification 2 bank 1 race bank_ok race_ok race_commit 0 (calm 50) c'
             race_commit_reachable E).
  - pose proof race_commit_moves as H. rewrite E in H. discriminate H.
Defined.

Lemma reachable_invariant_witness : db_inv (committed (after 2 race_whole race)).
Proof. exact (reachable_invariant 2 bank 1 race bank_ok race_ok _ race_reachable). Defined.

Lemma replies_durable_witness :
  reply_ok (pay "k1" 30) race_transfer (committed (after 2 race_whole race)).
Proof.
  exact (replies_durable 2 bank 1 race bank_ok race_ok _ _ 1 _ _ race_reachable eq_refl
           (race_answer 1 ltac:(lia)) (rtc_refl _ _)).
Defined.

Lemma same_key_same_transfer_witness :
  race_transfer = race_transfer /\ hash (pay "k1" 30) = hash (pay "k1" 30).
Proof.
  exact (same_key_same_transfer 2 bank 1 race bank_ok race_ok _ _ 0 1 _ _ _ _ race_reachable
           (rtc_refl _ _) eq_refl eq_refl eq_refl (race_answer 0 ltac:(lia))
           (race_answer 1 ltac:(lia))).
Defined.

Lemma conflict_only_on_mismatch_witness :
  exists r, idempotency_records (committed (after 1 clash_schedule clash)) !! "k1" = Some r
    /\ ir_request_hash r <> hash (pay "k1" 31).
Proof.
  exact (conflict_only_on_mismatch 1 bank 1 clash bank_ok clash_ok _ 1 (pay "k1" 31) _
           clash_reachable eq_refl clash_answer eq_refl).
Defined.

Lemma reads_committed_witness :
  shows_transfer (committed (after 1 look_schedule look)) look_transfer.
Proof.
  apply (proj1 (reads_committed 1 bank 1 look bank_ok look_ok _ 1 _ look_reachable
                  (proj1 look_answers)) 107%N look_transfer eq_refl eq_refl).
Defined.

Lemma finished_requests_answered_witness :
  exists r, cf_threads (after 2 race_whole race) !! 1%nat = Some (Ret r, None) /\
    r <> TransferCreated (Ok None).
Proof.
  destruct (race_answer 1 ltac:(lia)) as [T HT].
  destruct (finished_requests_answered 2 bank 1 race bank_ok race_ok _ 1 _ T race_reachable HT
              ltac:(intros X o k; discriminate)) as (r & Hr & HN & Hne).
  exists r. split; [|exact Hne]. rewrite <- Hr, <- HN. exact HT.
Defined.

Lemma history_append_only_witness :
  grows (committed (start bank 1 race)) (committed (after 2 race_whole race)).
Proof.
  exact (history_append_only 2 bank 1 race bank_ok race_ok _ _ (rtc_refl _ _) race_reachable).
Defined.

Lemma money_conserved_witness : total_balance (committed (after 2 race_whole race)) = 150.
Proof.
  rewrite (money_conserved 2 bank 1 race bank_ok race_ok _ _ (rtc_refl _ _) race_reachable
             ltac:(by vm_compute)).
  by vm_compute.
Defined.

Lemma balance_matches_ledger_witness :
  exists w', wallets (committed (after 2 race_whole race)) !! alice = Some w' /\
    Wallet_Balance w' = 100 + (ledger_net (committed (after 2 race_whole race)) alice - 0).
Proof.
  destruct (balance_matches_ledger 2 bank 1 race bank_ok race_ok _ alice (mkWallet alice 100 1 1)
              race_reachable ltac:(by vm_compute)) as (w' & Hw' & _ & Hb).
  exists w'. split; [exact Hw'|exact Hb].
Defined.

Lemma double_entry_witness :
  exists! e, entries_of (committed (after 2 race_whole race)) 142 EntryDebit e.
Proof.
  destruct (double_entry 2 bank 1 race bank_ok race_ok _ 142%N
              (mkTransferRow 142 alice bob 30 StateProcessed None 12 12) race_reachable
              ltac:(by vm_compute)) as [(_ & H & _)|(H & _)]; [exact H|discriminate H].
Defined.

Lemma replies_typed_witness : typed_transfer race_transfer.
Proof.
  exact (replies_typed 2 bank 1 race bank_ok race_ok _ 1 _ race_reachable (race_answer 1 ltac:(lia))).
Defined.
