(* ===== verification/Progress.v ===== *)
(** * No deadlock, and every schedule ends: the service

    The five requests of the service under [Scheduling]: wallets are locked in
    byte order, which [orderedPair] enforces, then the transfer id, then the
    idempotency key; each request performs at most [max_ops] operations. *)

From S2P Require Import Prelude GoRuntime Domain Database Repository Service Spec Machine Rely.
From S2P Require Import Workload Scheduling RepositoryCorrect ServiceCorrect Concurrency Scenario.
#[local] Open Scope go_scope.

(** ** Every request performs a bounded number of operations *)

(** The repository methods and [perform]: one operation, then a result. *)
Ltac one_op :=
  lazy beta delta [transferSvc walletSvc NewTransferService NewWalletService svc_exec svc_txm
    svc_wallets svc_transfers svc_ledger svc_idem wsvc_exec wsvc_wallets
    wallet_Get wallet_LockForUpdate wallet_UpdateBalance wallet_Insert
    transfer_Get transfer_Insert transfer_UpdateState transfer_ListByWallet
    ledger_Insert ledger_ListByTransfer idem_Get idem_Insert
    NewWalletRepo NewTransferRepo NewLedgerRepo NewIdempotencyRepo
    WalletRepo.Get WalletRepo.LockForUpdate WalletRepo.UpdateBalance WalletRepo.Insert
    TransferRepo.Get TransferRepo.Insert TransferRepo.UpdateState TransferRepo.ListByWallet
    LedgerRepo.Insert LedgerRepo.ListByTransfer IdempotencyRepo.Get IdempotencyRepo.Insert] iota;
  cbn [proc_le proc_bind perform]; repeat first [progress intros | done | case_match].

(** A sequence of such calls. *)
Ltac count_ops :=
  repeat first
    [ apply (proc_le_try _ _ 1); [solve [one_op]|intros ?]
    | apply (proc_le_bind _ _ 1); [solve [one_op]|intros ?]
    | case_decide
    | done ].

Lemma replay_le exec key h : proc_le 2 (replayIfExists transferSvc exec key h).
Proof.
  apply (proc_le_bind _ _ 1); [one_op|]. intros [rec|err]; [|by case_match].
  case_decide; [done|]. one_op.
Qed.

Lemma execute_le exec req h : proc_le 12 (executeTransfer transferSvc exec req h).
Proof. unfold executeTransfer. destruct (orderedPair _ _) as [a b]. count_ops. Qed.

Lemma RunInTx_le {A} (fn : Executor -> svc (result A)) n :
  (forall exec, proc_le n (fn exec)) -> proc_le (n + 2) (RunInTx fn).
Proof.
  intros Hfn. replace (n + 2)%nat with (1 + (n + 1))%nat by lia.
  apply proc_le_bind; [one_op|]. intros [tx|e]; [|done].
  apply proc_le_finally; [done|]. intros [[a|e]|v]; unfold RunInTx_exit; one_op.
Qed.

Lemma Create_le req : proc_le 22 (Create transferSvc req).
Proof.
  apply (proc_le_bind _ _ 1); [one_op|]. intros start. destruct (Validate req); [done|].
  apply (proc_le_bind _ _ 18).
  - apply (proc_le_bind _ _ 2); [apply replay_le|]. intros [[t|]|e]; [done| |done].
    apply (proc_le_bind _ _ 14); [apply (RunInTx_le _ 12); intros; apply execute_le|].
    intros [t|e]; [done|]. case_match; [|done].
    apply (proc_le_bind _ _ 2); [apply replay_le|]. by intros [[t|]|e'].
  - intros [r state]. apply (proc_le_bind _ _ 3); [|done].
    unfold record_outcome. case_decide; [done|]. cbn. done.
Qed.

(** The most operations a request performs. *)
Definition max_ops : nat := 22.

Lemma GetTransfer_le id : proc_le 1 (GetTransfer transferSvc id).
Proof. unfold GetTransfer. one_op. Qed.

Lemma ListTransfersByWallet_le w limit before :
  proc_le 1 (ListTransfersByWallet transferSvc w limit before).
Proof.
  unfold ListTransfersByWallet. case_decide; [done|]. apply (proc_le_try _ _ 1 0); [one_op|done].
Qed.

Lemma WalletService_Get_le id : proc_le 1 (WalletService_Get walletSvc id).
Proof. unfold WalletService_Get. one_op. Qed.

Lemma WalletService_Create_le id balance : proc_le 1 (WalletService_Create walletSvc id balance).
Proof. unfold WalletService_Create. do 2 (case_decide; [done|]). one_op. Qed.

Lemma serve_le a : proc_le max_ops (serve a).
Proof.
  destruct a; cbn [serve].
  - apply (proc_le_bind _ _ 22); [apply Create_le|done].
  - apply (proc_le_bind _ _ 1); [apply GetTransfer_le|done].
  - apply (proc_le_bind _ _ 1); [apply ListTransfersByWallet_le|done].
  - apply (proc_le_bind _ _ 1); [apply WalletService_Get_le|done].
  - apply (proc_le_bind _ _ 1); [apply WalletService_Create_le|done].
Qed.

(** ** The theorems *)

(** No deadlock.  In every state that any number of concurrent requests
    can reach, with any pool size, if some request is unfinished then some
    request can make its next step at once, without a fault of the database. *)
Lemma no_deadlock pool t seq reqs c ch :
  db_inv t -> Forall api_ok reqs -> reachable pool t seq reqs c -> ch_fault ch = None ->
  finished c = false -> exists i c', step pool i ch c = Some c'.
Proof.
  intros Hi Hr Hc Hch Hf. eapply can_step; [|done..]. by eapply reachable_conf_ok.
Qed.

(** C12: every schedule ends: [n] requests make at most [22 * n] steps,
    whatever the order, the faults and the answers of the database. *)
Theorem schedules_bounded pool t seq reqs sched c :
  run_schedule pool sched (start t seq reqs) = Some c ->
  (length sched <= length reqs * max_ops)%nat.
Proof.
  apply (run_bounded (WL:=api_workload) max_ops serve_le).
Qed.

(** From every reachable state the requests can all be run to their
    answers, without any fault. *)
Lemma all_requests_finish pool t seq reqs c ch :
  db_inv t -> Forall api_ok reqs -> reachable pool t seq reqs c -> ch_fault ch = None ->
  exists sched c', Forall (fun s => snd s = ch) sched /\
    run_schedule pool sched c = Some c' /\ finished c' = true.
Proof.
  apply (run_finishes (WL:=api_workload) max_ops serve_le).
Qed.

(** ** Witnesses *)

(** The second request waits for the first: the first can move. *)
Lemma no_deadlock_witness :
  exists i c', step 2 i (calm 30) (after 2 race_begin race) = Some c'.
Proof.
  exact (no_deadlock 2 bank 1 race _ (calm 30) bank_ok race_ok race_begin_reachable eq_refl
           ltac:(by vm_compute)).
Defined.

Lemma race_runs :
  match run_schedule 2 race_whole (start bank 1 race) with Some _ => true | None => false end
  = true.
Proof. by vm_compute. Qed.

Lemma schedules_bounded_witness : (length race_whole <= 44)%nat.
Proof.
  destruct (run_schedule 2 race_whole (start bank 1 race)) as [c|] eqn:E.
  - exact (schedules_bounded 2 bank 1 race race_whole c E).
  - pose proof race_runs as H. rewrite E in H. discriminate H.
Defined.

Lemma all_requests_finish_witness :
  exists sched c', Forall (fun s => snd s = calm 30) sched /\
    run_schedule 2 sched (after 2 race_begin race) = Some c' /\ finished c' = true.
Proof.
  exact (all_requests_finish 2 bank 1 race _ (calm 30) bank_ok race_ok race_begin_reachable
           eq_refl).
Defined.
