(* ===== verification/Sequential.v ===== *)
(** * One request alone, without faults

    What [Create] answers and does to the tables when nothing else runs and
    the database does not fail, case by case: a processed transfer, a failed
    one for lack of funds, a replay, a conflict, a missing wallet, an
    overflowing balance, an invalid request.  The cases are exhaustive. *)

From S2P Require Import Prelude GoRuntime Domain Database Repository Service Spec Machine Rely.
From S2P Require Import RepositoryCorrect ServiceCorrect Workload Concurrency Scenario.

(** ** Symbolic execution

    [ends p S T P]: run alone from [S] and [T], with any decisions of the
    world that satisfy [ok], the program ends as [P] says. *)
Section ends.
Variable ok : choice -> Prop.
Hypothesis ok_calm : forall ch, ok ch -> ch_fault ch = None.

Definition ends {A} (p : svc A) (S : shared) (T : option txn)
    (P : outcome A -> shared -> option txn -> Prop) : Prop :=
  forall cs, (forall k, ok (cs k)) -> let '(r, S', T') := run cs p S T in P r S' T'.

Lemma ends_vis {A X} (o : svcE X) (k : X -> svc A) S T P :
  (forall ch, ok ch -> let '(x, S', T') := local_exec ch o S T in ends (k x) S' T' P) ->
  ends (Vis o k) S T P.
Proof.
  intros H cs Hcs. simpl. specialize (H (cs 0%nat) (Hcs 0%nat)).
  destruct (local_exec _ _ _ _) as [[x S'] T']. by apply H.
Qed.

Lemma run_finally {A B} (h : outcome A -> svc B) (p : svc A) cs S T :
  let '(r, S', T') := run cs p S T in
  exists n, run cs (proc_finally h p) S T = run (fun k => cs (n + k)%nat) (h r) S' T'.
Proof.
  revert cs S T. induction p as [a|v|X o k IH]; simpl; intros cs S T; [by exists 0%nat..|].
  destruct (local_exec _ _ _ _) as [[x S'] T'].
  specialize (IH x (fun n => cs (Datatypes.S n)) S' T').
  destruct (run _ _ _ _) as [[r S''] T'']. destruct IH as [n IH].
  exists (Datatypes.S n). by rewrite IH.
Qed.

Lemma ends_finally {A B} (h : outcome A -> svc B) (p : svc A) S T P :
  ends p S T (fun r S' T' => ends (h r) S' T' P) -> ends (proc_finally h p) S T P.
Proof.
  intros H cs Hcs. pose proof (run_finally h p cs S T) as Hrun. specialize (H cs Hcs).
  destruct (run cs p S T) as [[r S'] T']. destruct Hrun as [n ->]. by apply H.
Qed.

Lemma proc_bind_finally {A B} (f : A -> svc B) (p : svc A) cs S T :
  run cs (proc_bind f p) S T
  = run cs (proc_finally (fun r => match r with Returned a => f a | Panicked v => Panic v end) p)
      S T.
Proof.
  revert cs S T. induction p as [a|v|X o k IH]; simpl; intros cs S T; [done..|].
  destruct (local_exec _ _ _ _) as [[x S'] T']. apply IH.
Qed.

Lemma ends_bind {A B} (f : A -> svc B) (p : svc A) S T P :
  ends p S T (fun r S' T' =>
    match r with Returned a => ends (f a) S' T' P | Panicked v => P (Panicked v) S' T' end) ->
  ends (proc_bind f p) S T P.
Proof.
  intros H cs Hcs. rewrite proc_bind_finally. revert cs Hcs.
  apply ends_finally. intros cs Hcs. specialize (H cs Hcs).
  destruct (run cs p S T) as [[[a|v] S'] T']; [done|]. intros cs' _. done.
Qed.

Lemma ends_ret {A} (a : A) S T (P : outcome A -> shared -> option txn -> Prop) :
  P (Returned a) S T -> ends (Ret a) S T P.
Proof. intros H cs _. done. Qed.

Lemma ends_mono {A} (p : svc A) S T (P P' : outcome A -> shared -> option txn -> Prop) :
  ends p S T P -> (forall r S' T', P r S' T' -> P' r S' T') -> ends p S T P'.
Proof.
  intros H HP cs Hcs. specialize (H cs Hcs). destruct (run _ _ _ _) as [[r S'] T']. auto.
Qed.

(** Outside a transaction. *)
Lemma ends_query {A X} (s : stmt X) (k : result X -> svc A) S P x :
  draws_sequence s = false -> (forall now, exec_stmt now (sh_seq S) s (sh_db S) = (x, ∅)) ->
  ends (k x) S None P -> ends (Vis (Exec DB s) k) S None P.
Proof.
  intros Hd Hx H. apply ends_vis. intros ch Hch. simpl. unfold do_autocommit, next_seq.
  rewrite Hx, Hd, (ok_calm ch Hch), tables_union_empty. by destruct S.
Qed.

(** Inside one: the private writes grow, the committed tables stay. *)
Definition open (n : nat) (now : Time) (W : tables) (L : gset resource) : option txn :=
  Some (mkTxn n now W L false).

Lemma ends_stmt {A X} (s : stmt X) (k : result X -> svc A) S n now W L P x d :
  exec_stmt now (sh_seq S) s (W ∪ sh_db S) = (Ok x, d) ->
  (forall L', ends (k (Ok x)) (next_seq s S) (open n now (d ∪ W) L') P) ->
  ends (Vis (Exec (Tx n) s) k) S (open n now W L) P.
Proof.
  intros Hx H. apply ends_vis. intros ch Hch. cbn. rewrite decide_True by done.
  unfold do_tx_stmt, tx_view. cbn. rewrite (ok_calm ch Hch), Hx. apply H.
Qed.

Lemma ends_stmt_err {A X} (s : stmt X) (k : result X -> svc A) S n now W L P e d :
  exec_stmt now (sh_seq S) s (W ∪ sh_db S) = (Err e, d) ->
  ends (k (Err e)) (next_seq s S) (Some (mkTxn n now W L true)) P ->
  ends (Vis (Exec (Tx n) s) k) S (open n now W L) P.
Proof.
  intros Hx H. apply ends_vis. intros ch Hch. cbn. rewrite decide_True by done.
  unfold do_tx_stmt, tx_view. cbn. by rewrite (ok_calm ch Hch), Hx.
Qed.
End ends.

(** ** Rows that satisfy the CHECK constraints *)

Lemma transfers_check_ok r :
  0 < tr_amount r -> Valid (tr_state r) = true -> tr_from_wallet_id r <> tr_to_wallet_id r ->
  transfers_check r = true.
Proof.
  intros Ha Hst Hne. unfold transfers_check. rewrite !andb_true_iff, !orb_true_iff.
  rewrite !bool_decide_eq_true. split_and!; [done| |done].
  apply Valid_spec in Hst. naive_solver.
Qed.

Lemma ledger_check_ok e :
  0 < Ledger_Amount e -> Ledger_Type e = EntryDebit \/ Ledger_Type e = EntryCredit ->
  ledger_check e = true.
Proof.
  intros Ha Hty. unfold ledger_check. by rewrite andb_true_iff, orb_true_iff, !bool_decide_eq_true.
Qed.

(** ** The repository methods on an open transaction *)
Section calls.
Context (ok : choice -> Prop) (ok_calm : forall ch, ok ch -> ch_fault ch = None).
Context {B : Type} (P : outcome (result B) -> shared -> option txn -> Prop).
Variables (S : shared) (n : nat) (now : Time) (W : tables) (L : gset resource).
#[local] Abbreviation view := (W ∪ sh_db S).

Lemma ends_get_wallet id w (f : Wallet -> svc (result B)) :
  wallets view !! id = Some w ->
  (forall L', ends ok (f w) S (open n now W L') P) ->
  ends ok (try_bind f (WalletRepo.Get (Tx n) id)) S (open n now W L) P.
Proof.
  intros Hw H. eapply ends_stmt; [done|by cbn [exec_stmt]; rewrite Hw|]. intros L'.
  rewrite tables_union_empty. apply H.
Qed.

Lemma ends_lock_wallet id w (f : Wallet -> svc (result B)) :
  wallets view !! id = Some w ->
  (forall L', ends ok (f w) S (open n now W L') P) ->
  ends ok (try_bind f (WalletRepo.LockForUpdate (Tx n) id)) S (open n now W L) P.
Proof.
  intros Hw H. eapply ends_stmt; [done|by cbn [exec_stmt]; rewrite Hw|]. intros L'.
  rewrite tables_union_empty. apply H.
Qed.

Lemma ends_lock_missing id (f : Wallet -> svc (result B)) :
  wallets view !! id = None ->
  (forall L', P (Returned (Err ErrNotFound)) S (open n now W L')) ->
  ends ok (try_bind f (WalletRepo.LockForUpdate (Tx n) id)) S (open n now W L) P.
Proof.
  intros Hw H. eapply ends_stmt; [done|by cbn [exec_stmt]; rewrite Hw|]. intros L'.
  rewrite tables_union_empty. apply ends_ret, H.
Qed.

Lemma ends_update_balance id w balance (f : unit -> svc (result B)) :
  wallets view !! id = Some w -> 0 <= balance ->
  (forall L', ends ok (f tt) S
     (open n now (put_wallet (mkWallet id balance (Wallet_CreatedAt w) now) ∪ W) L') P) ->
  ends ok (try_bind f (WalletRepo.UpdateBalance (Tx n) id balance)) S (open n now W L) P.
Proof.
  intros Hw Hb H. eapply ends_stmt; [done| |].
  - cbn [exec_stmt]; unfold exec_update_balance, sql_check, wallets_check. rewrite Hw. cbn [Wallet_Balance].
    by rewrite bool_decide_eq_true_2.
  - exact H.
Qed.

Lemma ends_update_negative id w balance (f : unit -> svc (result B)) :
  wallets view !! id = Some w -> balance < 0 ->
  P (Returned (Err (ErrWrap "update wallet balance: "
                      (ErrPg pgCheckViolation "wallets_balance_check"))))
    S (Some (mkTxn n now W L true)) ->
  ends ok (try_bind f (WalletRepo.UpdateBalance (Tx n) id balance)) S (open n now W L) P.
Proof.
  intros Hw Hb H. eapply ends_stmt_err; [done| |].
  - cbn [exec_stmt]; unfold exec_update_balance, sql_check, wallets_check. rewrite Hw. cbn [Wallet_Balance].
  rewrite bool_decide_eq_false_2 by lia. done.
  - apply ends_ret, H.
Qed.

Lemma ends_insert_transfer tr (f : Transfer -> svc (result B)) :
  transfers view !! Transfer_ID tr = None -> 0 < Transfer_Amount tr ->
  Transfer_State tr = StatePending ->
  Transfer_FromWalletID tr <> Transfer_ToWalletID tr ->
  is_Some (wallets view !! Transfer_FromWalletID tr) ->
  is_Some (wallets view !! Transfer_ToWalletID tr) ->
  (forall L', ends ok (f (mkTransfer (Transfer_ID tr) (Transfer_FromWalletID tr)
       (Transfer_ToWalletID tr) (Transfer_Amount tr) (Transfer_State tr)
       (Transfer_FailureReason tr) now now)) S
     (open n now (put_transfer (mkTransferRow (Transfer_ID tr) (Transfer_FromWalletID tr)
        (Transfer_ToWalletID tr) (Transfer_Amount tr) (Transfer_State tr) None now now) ∪ W) L') P) ->
  ends ok (try_bind f (TransferRepo.Insert (Tx n) tr)) S (open n now W L) P.
Proof.
  intros Hu Ha Hst Hne Hf Ht H. eapply ends_stmt; [done| |].
  - cbn [exec_stmt]. unfold exec_insert_transfer, sql_check, transfers_fk.
    rewrite transfers_check_ok by (simpl; rewrite ?Hst; done).
    cbn [tr_id tr_from_wallet_id tr_to_wallet_id]. by rewrite !bool_decide_eq_true_2.
  - exact H.
Qed.

Lemma ends_insert_idem key hash u (f : unit -> svc (result B)) :
  idempotency_records view !! key = None -> is_Some (transfers view !! u) ->
  (forall L', ends ok (f tt) S (open n now (put_idem (mkIdemRow key hash u now) ∪ W) L') P) ->
  ends ok (try_bind f (IdempotencyRepo.Insert (Tx n) key hash u)) S (open n now W L) P.
Proof.
  intros Hk Hu H. eapply ends_stmt; [done| |].
  - cbn [exec_stmt]; unfold exec_insert_idem, sql_check, idem_fk. cbn [ir_key ir_transfer_id].
    by rewrite !bool_decide_eq_true_2.
  - exact H.
Qed.

Lemma ends_update_state u r state reason (f : unit -> svc (result B)) :
  transfers view !! u = Some r -> 0 < tr_amount r ->
  state = StateProcessed \/ state = StateFailed ->
  tr_from_wallet_id r <> tr_to_wallet_id r ->
  (forall L', ends ok (f tt) S
     (open n now (put_transfer (mkTransferRow u (tr_from_wallet_id r) (tr_to_wallet_id r)
        (tr_amount r) state (nullif_empty reason) (tr_created_at r) now) ∪ W) L') P) ->
  ends ok (try_bind f (TransferRepo.UpdateState (Tx n) u state reason)) S (open n now W L) P.
Proof.
  intros Hu Ha Hst Hne H. eapply ends_stmt; [done| |].
  - cbn [exec_stmt]. unfold exec_update_state, sql_check. rewrite Hu.
    by rewrite transfers_check_ok by (simpl; destruct Hst as [-> | ->]; done).
  - exact H.
Qed.

Lemma ends_insert_ledger u w ty amount (f : LedgerEntry -> svc (result B)) :
  ledger_entries view !! sh_seq S = None -> 0 < amount ->
  ty = EntryDebit \/ ty = EntryCredit ->
  map_Forall (fun _ e => ~ same_side u ty e) (ledger_entries view) ->
  is_Some (transfers view !! u) -> is_Some (wallets view !! w) ->
  (forall L', ends ok (f (mkLedgerEntry (sh_seq S) u w ty amount now))
     (mkShared (sh_db S) (sh_seq S + 1) (sh_next_tx S) (sh_metrics S))
     (open n now (put_ledger (mkLedgerEntry (sh_seq S) u w ty amount now) ∪ W) L') P) ->
  ends ok (try_bind f (LedgerRepo.Insert (Tx n) (mkLedgerEntry 0 u w ty amount time_zero))) S
    (open n now W L) P.
Proof.
  intros Hi Ha Hty Hu Ht Hw H. eapply ends_stmt; [done| |].
  - cbn [exec_stmt]. unfold exec_insert_ledger, sql_check, ledger_unique, ledger_fk.
    rewrite ledger_check_ok by done.
    cbn [Ledger_ID Ledger_TransferID Ledger_WalletID Ledger_Type].
    by rewrite !bool_decide_eq_true_2.
  - exact H.
Qed.
End calls.

(** ** The cases of a transfer *)

(** The world of a run without faults: new ids are unused, and the ledger's
    sequence is above every id it has given out. *)
Record fresh_world (S : shared) (cs : nat -> choice) : Prop := {
  world_calm : forall k, ch_fault (cs k) = None;
  world_uuid : forall k, transfers (sh_db S) !! ch_uuid (cs k) = None;
  world_seq : forall i, sh_seq S <= i -> ledger_entries (sh_db S) !! i = None
}.

Section alone.
Variables (S : shared) (req : CreateTransferRequest).
Let db := sh_db S.
Let from := FromWalletID req.
Let to := ToWalletID req.
Let seq := sh_seq S.
Hypotheses (Hinv : db_inv db) (Hvalid : Validate req = None) (Hamt : in_int64 (Amount req)).

Definition usable (ch : choice) : Prop :=
  ch_fault ch = None /\ transfers db !! ch_uuid ch = None.

Lemma usable_calm ch : usable ch -> ch_fault ch = None.
Proof. by intros []. Qed.

Tactic Notation "seq_call" uconstr(rule) := eapply rule; [exact usable_calm|..].

Section body.
Variables (n : nat) (now : Time) (P : outcome (result Transfer) -> shared -> option txn -> Prop).

Let body := executeTransfer transferSvc (Tx n) req (hash req).

Lemma ends_lock_both src dst (f : svc (result Transfer)) L :
  wallets db !! from = Some src -> wallets db !! to = Some dst ->
  (forall L', ends usable f S (open n now ∅ L') P) ->
  ends usable
    (let '(firstID, secondID) := orderedPair from to in
     try_bind (fun _ => try_bind (fun _ => f) (WalletRepo.LockForUpdate (Tx n) secondID))
       (WalletRepo.LockForUpdate (Tx n) firstID)) S (open n now ∅ L) P.
Proof.
  intros Hs Hd H. unfold orderedPair. destruct (String.ltb from to).
  all: seq_call ends_lock_wallet; [by rewrite tables_union_empty|]; intros L1.
  all: seq_call ends_lock_wallet; [by rewrite tables_union_empty|done].
Qed.

Lemma ends_read_both src dst (f : Wallet -> Wallet -> svc (result Transfer)) L :
  wallets db !! from = Some src -> wallets db !! to = Some dst ->
  (forall L', ends usable (f src dst) S (open n now ∅ L') P) ->
  ends usable
    (try_bind (fun src => try_bind (fun dst => f src dst) (WalletRepo.Get (Tx n) to))
      (WalletRepo.Get (Tx n) from)) S (open n now ∅ L) P.
Proof.
  intros Hs Hd H. seq_call ends_get_wallet; [by rewrite tables_union_empty|]. intros L1.
  seq_call ends_get_wallet; [by rewrite tables_union_empty|done].
Qed.

Lemma ends_claim src dst (f : Transfer -> svc (result Transfer)) L :
  wallets db !! from = Some src -> wallets db !! to = Some dst ->
  idempotency_records db !! IdempotencyKey req = None ->
  (forall L' u, transfers db !! u = None ->
     ends usable (f (pending_transfer req now u)) S (open n now (W_claimed req now u) L') P) ->
  ends usable
    (proc_bind (fun id =>
      try_bind (fun tr => try_bind (fun _ => f tr)
          (IdempotencyRepo.Insert (Tx n) (IdempotencyKey req) (hash req) (Transfer_ID tr)))
        (TransferRepo.Insert (Tx n)
           (mkTransfer id from to (Amount req) StatePending EmptyString time_zero time_zero)))
      (perform NewUUID)) S (open n now ∅ L) P.
Proof.
  intros Hs Hd Hk H. destruct (valid_request _ Hvalid Hamt) as [Ha Hne].
  apply ends_vis. intros ch [_ Hu]. cbn [local_exec proc_bind]. set (u := ch_uuid ch) in *.
  seq_call ends_insert_transfer; rewrite ?tables_union_empty; simpl; eauto; [lia|]. intros L1.
  seq_call ends_insert_idem.
  - by view_simpl.
  - view_simpl. rewrite lookup_insert_eq. eauto.
  - intros L2. by apply H.
Qed.

Lemma ends_fail u src L :
  wallets db !! from = Some src ->
  (forall L', P (Returned (Ok (set_state (pending_transfer req now u) StateFailed
                                  insufficient_reason)))
                S (open n now (W_failed req now u) L')) ->
  ends usable
    (try_bind (fun _ => Ret (Ok (set_state (pending_transfer req now u) StateFailed
                                  insufficient_reason)))
      (TransferRepo.UpdateState (Tx n) u StateFailed insufficient_reason)) S
    (open n now (W_claimed req now u) L) P.
Proof.
  intros Hs H. destruct (valid_request _ Hvalid Hamt) as [Ha Hne].
  seq_call ends_update_state.
  - view_simpl. by rewrite lookup_insert_eq.
  - simpl. lia.
  - by right.
  - done.
  - intros L'. apply ends_ret, H.
Qed.

Lemma ends_move src dst (f : svc (result Transfer)) u L :
  wallets db !! from = Some src -> wallets db !! to = Some dst ->
  Amount req <= Wallet_Balance src -> Wallet_Balance dst + Amount req <= int64_max ->
  (forall L', ends usable f S (open n now (W_moved req now u src dst) L') P) ->
  ends usable
    (try_bind (fun _ => try_bind (fun _ => f)
      (WalletRepo.UpdateBalance (Tx n) to (wrap64 (Wallet_Balance dst + Amount req))))
      (WalletRepo.UpdateBalance (Tx n) from (wrap64 (Wallet_Balance src - Amount req)))) S
    (open n now (W_claimed req now u) L) P.
Proof.
  intros Hs Hd Hle Hfit H. destruct (valid_request _ Hvalid Hamt) as [Ha Hne].
  destruct (inv_wallets _ Hinv _ _ Hs) as [_ Hbs].
  destruct (inv_wallets _ Hinv _ _ Hd) as [_ Hbd].
  rewrite (debit_fits req), wrap64_id by (try done; unfold in_int64, int64_min; lia).
  seq_call ends_update_balance; [by view_simpl|lia|]. intros L1.
  seq_call ends_update_balance; [|lia|exact H].
  view_simpl. rewrite lookup_insert_ne by done. done.
Qed.

(** A credit that does not fit wraps to a negative balance, which the
    table's CHECK refuses. *)
Lemma ends_overflow src dst (f : svc (result Transfer)) u L :
  wallets db !! from = Some src -> wallets db !! to = Some dst ->
  Amount req <= Wallet_Balance src -> int64_max < Wallet_Balance dst + Amount req ->
  (forall L' W', P (Returned (Err (ErrWrap "update wallet balance: "
                    (ErrPg pgCheckViolation "wallets_balance_check"))))
                 S (Some (mkTxn n now W' L' true))) ->
  ends usable
    (try_bind (fun _ => try_bind (fun _ => f)
      (WalletRepo.UpdateBalance (Tx n) to (wrap64 (Wallet_Balance dst + Amount req))))
      (WalletRepo.UpdateBalance (Tx n) from (wrap64 (Wallet_Balance src - Amount req)))) S
    (open n now (W_claimed req now u) L) P.
Proof.
  intros Hs Hd Hle Hover H. destruct (valid_request _ Hvalid Hamt) as [Ha Hne].
  destruct (inv_wallets _ Hinv _ _ Hs) as [_ Hbs].
  destruct (inv_wallets _ Hinv _ _ Hd) as [_ Hbd].
  rewrite (debit_fits req) by done.
  seq_call ends_update_balance; [by view_simpl|lia|]. intros L1.
  seq_call ends_update_negative; [| |apply H].
  - view_simpl. rewrite lookup_insert_ne by done. done.
  - apply wrap64_add_overflow; lia.
Qed.

(** No ledger entry names a transfer that is not there. *)
Lemma no_entries u ty :
  transfers db !! u = None -> map_Forall (fun _ e => ~ same_side u ty e) (ledger_entries db).
Proof.
  intros Hu i e He [Hs _].
  destruct (entry_ok_transfer _ _ _ (inv_ledger _ Hinv _ _ He)) as (r & Hr & _).
  unfold db in *. congruence.
Qed.

Hypothesis Hseq : forall i, seq <= i -> ledger_entries db !! i = None.

Definition S_booked : shared := mkShared db (seq + 1 + 1) (sh_next_tx S) (sh_metrics S).

Lemma ends_book src dst (f : svc (result Transfer)) u L :
  wallets db !! from = Some src -> wallets db !! to = Some dst -> transfers db !! u = None ->
  (forall L', ends usable f S_booked
     (open n now (W_booked req now u src dst seq (seq + 1)) L') P) ->
  ends usable
    (try_bind (fun _ => try_bind (fun _ => f)
      (LedgerRepo.Insert (Tx n)
         (mkLedgerEntry 0 u to EntryCredit (Amount req) time_zero)))
      (LedgerRepo.Insert (Tx n)
         (mkLedgerEntry 0 u from EntryDebit (Amount req) time_zero))) S
    (open n now (W_moved req now u src dst) L) P.
Proof.
  intros Hs Hd Hu H. destruct (valid_request _ Hvalid Hamt) as [Ha Hne].
  pose proof (Hseq seq ltac:(lia)) as Hi. pose proof (Hseq (seq + 1) ltac:(lia)) as Hj.
  seq_call ends_insert_ledger; view_simpl.
  - done.
  - apply Ha.
  - by left.
  - by apply no_entries.
  - rewrite lookup_insert_eq. eauto.
  - rewrite lookup_insert_ne, lookup_insert_eq by done. eauto.
  - intros L1. seq_call ends_insert_ledger; view_simpl.
    + rewrite lookup_insert_ne by lia. done.
    + apply Ha.
    + by right.
    + apply map_Forall_insert_2; [|by apply no_entries]. intros [_ Hty]. done.
    + rewrite lookup_insert_eq. eauto.
    + rewrite lookup_insert_eq. eauto.
    + exact H.
Qed.

Lemma ends_finish src dst u L :
  (forall L', P (Returned (Ok (set_state (pending_transfer req now u) StateProcessed EmptyString)))
                S_booked (open n now (W_processed req now u src dst seq (seq + 1)) L')) ->
  ends usable
    (try_bind (fun _ => Ret (Ok (set_state (pending_transfer req now u) StateProcessed
                                  EmptyString)))
      (TransferRepo.UpdateState (Tx n) u StateProcessed EmptyString)) S_booked
    (open n now (W_booked req now u src dst seq (seq + 1)) L) P.
Proof.
  intros H. destruct (valid_request _ Hvalid Hamt) as [Ha Hne].
  seq_call ends_update_state.
  - view_simpl. by rewrite lookup_insert_eq.
  - simpl. lia.
  - by left.
  - done.
  - intros L'. apply ends_ret, H.
Qed.

(** *** The whole body *)

Lemma ends_body_processed src dst L :
  wallets db !! from = Some src -> wallets db !! to = Some dst ->
  idempotency_records db !! IdempotencyKey req = None ->
  Amount req <= Wallet_Balance src -> Wallet_Balance dst + Amount req <= int64_max ->
  (forall L' u, transfers db !! u = None ->
     P (Returned (Ok (set_state (pending_transfer req now u) StateProcessed EmptyString)))
       S_booked (open n now (W_processed req now u src dst seq (seq + 1)) L')) ->
  ends usable body S (open n now ∅ L) P.
Proof.
  intros Hs Hd Hk Hle Hfit H. unfold body, executeTransfer.
  eapply ends_lock_both; [done..|]. intros L1. eapply ends_read_both; [done..|]. intros L2.
  eapply ends_claim; [done..|]. intros L3 u Hu. rewrite decide_False by lia.
  rewrite (wallet_ok_id _ _ (inv_wallets _ Hinv _ _ Hs)),
    (wallet_ok_id _ _ (inv_wallets _ Hinv _ _ Hd)).
  eapply ends_move; [done..|]. intros L4. eapply ends_book; [done..|]. intros L5.
  apply ends_finish. auto.
Qed.

Lemma ends_body_insufficient src dst L :
  wallets db !! from = Some src -> wallets db !! to = Some dst ->
  idempotency_records db !! IdempotencyKey req = None ->
  Wallet_Balance src < Amount req ->
  (forall L' u, transfers db !! u = None ->
     P (Returned (Ok (set_state (pending_transfer req now u) StateFailed insufficient_reason)))
       S (open n now (W_failed req now u) L')) ->
  ends usable body S (open n now ∅ L) P.
Proof.
  intros Hs Hd Hk Hlt H. unfold body, executeTransfer.
  eapply ends_lock_both; [done..|]. intros L1. eapply ends_read_both; [done..|]. intros L2.
  eapply ends_claim; [done..|]. intros L3 u Hu. rewrite decide_True by lia.
  eapply ends_fail; [done|]. auto.
Qed.

Lemma ends_body_overflow src dst L :
  wallets db !! from = Some src -> wallets db !! to = Some dst ->
  idempotency_records db !! IdempotencyKey req = None ->
  Amount req <= Wallet_Balance src -> int64_max < Wallet_Balance dst + Amount req ->
  (forall L' W', P (Returned (Err (ErrWrap "update wallet balance: "
                    (ErrPg pgCheckViolation "wallets_balance_check"))))
                 S (Some (mkTxn n now W' L' true))) ->
  ends usable body S (open n now ∅ L) P.
Proof.
  intros Hs Hd Hk Hle Hover H. unfold body, executeTransfer.
  eapply ends_lock_both; [done..|]. intros L1. eapply ends_read_both; [done..|]. intros L2.
  eapply ends_claim; [done..|]. intros L3 u Hu. rewrite decide_False by lia.
  rewrite (wallet_ok_id _ _ (inv_wallets _ Hinv _ _ Hs)),
    (wallet_ok_id _ _ (inv_wallets _ Hinv _ _ Hd)).
  by eapply ends_overflow.
Qed.

Lemma ends_body_missing L :
  wallets db !! from = None \/ wallets db !! to = None ->
  (forall L' W', P (Returned (Err ErrNotFound)) S (open n now W' L')) ->
  ends usable body S (open n now ∅ L) P.
Proof.
  intros Hmiss H. unfold body, executeTransfer. fold from to.
  assert (forall a b (f : svc (result Transfer)),
    wallets db !! a = None \/ wallets db !! b = None ->
    ends usable (try_bind (fun _ => try_bind (fun _ => f) (WalletRepo.LockForUpdate (Tx n) b))
      (WalletRepo.LockForUpdate (Tx n) a)) S (open n now ∅ L) P) as Hlock.
  { intros a b f Hab. destruct (wallets db !! a) as [w|] eqn:Ha.
    - destruct Hab as [|Hb]; [done|].
      seq_call ends_lock_wallet; [by rewrite tables_union_empty|]. intros L1.
      seq_call ends_lock_missing; [by rewrite tables_union_empty|auto].
    - seq_call ends_lock_missing; [by rewrite tables_union_empty|auto]. }
  unfold orderedPair. destruct (String.ltb from to); apply Hlock; tauto.
Qed.
End body.

(** *** RunInTx *)

Definition begun (S : shared) : shared :=
  mkShared (sh_db S) (sh_seq S) (Datatypes.S (sh_next_tx S)) (sh_metrics S).
End alone.

Lemma ends_RunInTx ok {A} (fn : Executor -> svc (result A)) S P :
  (forall ch, ok ch -> ch_fault ch = None) ->
  (forall now, ends ok (fn (Tx (sh_next_tx S))) (begun S) (open (sh_next_tx S) now ∅ ∅)
     (fun r S' T' => exists t, T' = Some t /\ tx_id t = sh_next_tx S /\
        match r with
        | Returned (Ok a) => tx_aborted t = false /\
            P (Returned (Ok a)) (set_db S' (tx_view S' t)) None
        | _ => P r S' None
        end)) ->
  ends ok (RunInTx fn) S None P.
Proof.
  intros Hcalm H. apply ends_vis. intros ch Hch. cbn [local_exec]. unfold do_begin.
  rewrite (Hcalm ch Hch), Nat.add_1_r. cbn [proc_bind]. apply ends_finally.
  eapply ends_mono; [apply H|]. intros r S' T' (t & -> & Ht & Hr).
  destruct r as [[a|e]|v]; apply ends_vis; intros ch' Hch'; unfold local_exec;
    rewrite <- Ht, live_tx_self; unfold do_commit, do_rollback; rewrite ?(Hcalm ch' Hch').
  - destruct Hr as [-> Hr]. by apply ends_ret.
  - by apply ends_ret.
  - intros cs _. done.
Qed.

(** ** Create *)

Section create.
Variables (S : shared) (req : CreateTransferRequest).
Let db := sh_db S.
Let key := IdempotencyKey req.
Let ok := usable S.

Lemma ends_record {A} start state (f : unit -> svc A) S1 P :
  ends ok (f tt) (if decide (state = EmptyString) then S1 else count_transfer state S1) None P ->
  ends ok (proc_bind f (record_outcome start state)) S1 None P.
Proof.
  intros H. unfold record_outcome. repeat case_decide; [done..|].
  apply ends_vis. intros ch1 _. apply ends_vis. intros ch2 _. by apply ends_vis.
Qed.

(** A replay lookup answers [r] and changes nothing. *)
Definition replays (r : result (option Transfer)) (S1 : shared) : Prop :=
  ends ok (replayIfExists transferSvc DB key (hash req)) S1 None
    (fun o S' T' => o = Returned r /\ S' = S1 /\ T' = None).

Lemma replays_miss S1 :
  idempotency_records (sh_db S1) !! key = None -> replays (Ok None) S1.
Proof.
  intros Hk. eapply (ends_query _ (usable_calm S)); [done|intros; simpl; by rewrite Hk|].
  cbn. by apply ends_ret.
Qed.

Lemma replays_conflict S1 i :
  idempotency_records (sh_db S1) !! key = Some i -> ir_request_hash i <> hash req ->
  replays (Err ErrIdempotencyConflict) S1.
Proof.
  intros Hk Hh. eapply (ends_query _ (usable_calm S)); [done|intros; simpl; by rewrite Hk|].
  cbn. rewrite decide_True by done. by apply ends_ret.
Qed.

Lemma replays_hit S1 i r :
  idempotency_records (sh_db S1) !! key = Some i -> ir_request_hash i = hash req ->
  transfers (sh_db S1) !! ir_transfer_id i = Some r ->
  replays (Ok (Some (select_transfer r))) S1.
Proof.
  intros Hk Hh Hr. eapply (ends_query _ (usable_calm S)); [done|intros; simpl; by rewrite Hk|].
  cbn. rewrite decide_False by auto.
  eapply (ends_query _ (usable_calm S)); [done|intros; simpl; by rewrite Hr|].
  cbn. by apply ends_ret.
Qed.

(** The answer and the metrics of a request, given those of its body. *)
Lemma ends_Create P :
  Validate req = None ->
  ends ok (Create_body transferSvc req (hash req)) S None
    (fun o S' T' => exists r state, o = Returned (r, state) /\ T' = None /\
       P (Returned r) (if decide (state = EmptyString) then S' else count_transfer state S')
         None) ->
  ends ok (Create transferSvc req) S None P.
Proof.
  intros Hv H. apply ends_vis. intros ch _. cbn [local_exec proc_bind]. rewrite Hv.
  apply ends_bind. eapply ends_mono; [exact H|].
  intros o S' T' (r & state & -> & -> & HP). by apply ends_record, ends_ret.
Qed.

Lemma ends_Create_replay r P :
  Validate req = None -> replays r S -> r <> Ok None ->
  P (Returned r)
    (match r with
     | Ok (Some t) => if decide (Transfer_State t = EmptyString) then S
                      else count_transfer (Transfer_State t) S
     | _ => S
     end) None ->
  ends ok (Create transferSvc req) S None P.
Proof.
  intros Hv Hr Hne HP. apply ends_Create; [done|]. unfold Create_body. apply ends_bind.
  eapply ends_mono; [exact Hr|]. intros o S' T' (-> & -> & ->).
  destruct r as [[t|]|e]; [|done|]; apply ends_ret; by repeat eexists.
Qed.

(** The first request of a key: the transaction decides. *)
Lemma ends_Create_first P :
  Validate req = None -> idempotency_records db !! key = None ->
  ends ok (RunInTx (fun exec => executeTransfer transferSvc exec req (hash req))) S None
    (fun o S' T' => T' = None /\
       match o with
       | Returned (Ok t) => Transfer_State t <> EmptyString /\
           P (Returned (Ok (Some t))) (count_transfer (Transfer_State t) S') None
       | Returned (Err e) => errors_Is e ErrIdempotencyExists = false /\
           P (Returned (Err e)) S' None
       | Panicked v => False
       end) ->
  ends ok (Create transferSvc req) S None P.
Proof.
  intros Hv Hk H. apply ends_Create; [done|]. unfold Create_body. apply ends_bind.
  eapply ends_mono; [by apply replays_miss|]. intros o S' T' (-> & -> & ->).
  apply ends_bind. eapply ends_mono; [exact H|]. intros [[t|e]|v] S' T' [-> HP]; [| |done].
  - apply ends_ret. destruct HP as [Hst HP]. repeat eexists. by rewrite decide_False.
  - destruct HP as [-> HP]. apply ends_ret. by repeat eexists.
Qed.
End create.

(** ** The theorems *)

Section theorems.
Variables (S : shared) (req : CreateTransferRequest) (cs : nat -> choice).
Hypotheses (Hinv : db_inv (sh_db S)) (Hvalid : Validate req = None)
  (Hamt : in_int64 (Amount req)) (Hworld : fresh_world S cs).

Let from := FromWalletID req.
Let to := ToWalletID req.
Let key := IdempotencyKey req.

Lemma usable_world k : usable S (cs k).
Proof. split; [by apply (world_calm _ _ Hworld)|by apply (world_uuid _ _ Hworld)]. Qed.

(** The inputs of the transfer a run makes. *)
Definition run_inputs (u : UUID) (now : Time) : transfer_inputs :=
  mkTransferInputs req u now (sh_seq S) (sh_seq S + 1).

(** From symbolic execution to the run. *)
Lemma run_ends {A} (p : svc A) (P : outcome A -> shared -> option txn -> Prop) :
  ends (usable S) p S None P -> let '(o, S', T') := run cs p S None in P o S' T'.
Proof. intros H. apply (H cs usable_world). Qed.

(** What the caller of a faultless [Create] gets: answer and database. *)
Definition creates (r : result (option Transfer)) (t : tables) (m : gmap string nat) : Prop :=
  exists S', run cs (Create transferSvc req) S None = (Returned r, S', None) /\
    sh_db S' = t /\ sh_metrics S' = m.

Lemma creates_ends (P : result (option Transfer) -> tables -> gmap string nat -> Prop) :
  ends (usable S) (Create transferSvc req) S None (fun o S' T' =>
    T' = None /\ exists r, o = Returned r /\ P r (sh_db S') (sh_metrics S')) ->
  exists r t m, creates r t m /\ P r t m.
Proof.
  intros H. apply run_ends in H. unfold creates.
  destruct (run _ _ _ _) as [[o S'] T']. destruct H as (-> & r & -> & HP).
  exists r, (sh_db S'), (sh_metrics S'). split; [by exists S'|done].
Qed.

(** One transfer counted by the state the caller sees. *)
Definition counted (state : TransferState) : gmap string nat :=
  sh_metrics (count_transfer state S).

Section wallets.
Variables src dst : Wallet.
Hypotheses (Hsrc : wallets (sh_db S) !! from = Some src)
  (Hdst : wallets (sh_db S) !! to = Some dst)
  (Hkey : idempotency_records (sh_db S) !! key = None).

(** A funded transfer, symbolically. *)
Lemma ends_funded :
  Amount req <= Wallet_Balance src -> Wallet_Balance dst + Amount req <= int64_max ->
  ends (usable S) (Create transferSvc req) S None (fun o S' T' => T' = None /\
    exists r, o = Returned r /\ exists u now, transfers (sh_db S) !! u = None /\
    r = Ok (Some (select_transfer (transfer_row (run_inputs u now) StateProcessed None))) /\
    sh_db S' = processed_effect (run_inputs u now) src dst (sh_db S) /\
    sh_metrics S' = counted StateProcessed).
Proof.
  intros Hle Hfit.
  apply ends_Create_first; [done..|]. apply ends_RunInTx; [exact (usable_calm S)|].
  intros now. eapply (ends_body_processed (begun S)); try done; [apply Hworld|].
  intros L u Hu. eexists. split_and!; [done..|]. eexists. split; [done|].
  exists u, now. split_and!; try done. apply W_processed_effect.
Qed.

(** A funded transfer.  With both wallets there, the key unused, enough
    money at the source and room at the destination, the answer is a
    PROCESSED transfer with a fresh id, and the database changes by exactly
    the specified effect of that transfer. *)
Lemma create_processed :
  Amount req <= Wallet_Balance src -> Wallet_Balance dst + Amount req <= int64_max ->
  exists u now, transfers (sh_db S) !! u = None /\
    creates (Ok (Some (select_transfer (transfer_row (run_inputs u now) StateProcessed None))))
      (processed_effect (run_inputs u now) src dst (sh_db S)) (counted StateProcessed).
Proof.
  intros Hle Hfit.
  destruct (creates_ends (fun r t m => exists u now, transfers (sh_db S) !! u = None /\
    r = Ok (Some (select_transfer (transfer_row (run_inputs u now) StateProcessed None))) /\
    t = processed_effect (run_inputs u now) src dst (sh_db S) /\ m = counted StateProcessed)
    (ends_funded Hle Hfit)) as (r & t & m & Hc & u & now & Hu & -> & -> & ->). by eauto.
Qed.
End wallets.

(** An overdraft.  With less money at the source than the amount, the
    answer is a FAILED transfer with the reason, recorded under its key; no
    balance and no ledger entry changes. *)
Lemma create_insufficient src dst :
  wallets (sh_db S) !! from = Some src -> wallets (sh_db S) !! to = Some dst ->
  idempotency_records (sh_db S) !! key = None -> Wallet_Balance src < Amount req ->
  exists u now, transfers (sh_db S) !! u = None /\
    creates (Ok (Some (select_transfer (transfer_row (run_inputs u now) StateFailed
                                          (Some insufficient_reason)))))
      (failed_effect (run_inputs u now) (sh_db S)) (counted StateFailed).
Proof.
  intros Hs Hd Hk Hlt.
  destruct (creates_ends (fun r t m => exists u now, transfers (sh_db S) !! u = None /\
    r = Ok (Some (select_transfer (transfer_row (run_inputs u now) StateFailed
                                          (Some insufficient_reason)))) /\
    t = failed_effect (run_inputs u now) (sh_db S) /\ m = counted StateFailed))
    as (r & t & m & Hc & u & now & Hu & -> & -> & ->); [|by eauto].
  apply ends_Create_first; [done..|]. apply ends_RunInTx; [exact (usable_calm S)|].
  intros now. eapply (ends_body_insufficient (begun S)); try done.
  intros L u Hu. eexists. split_and!; [done..|]. eexists. split; [done|].
  exists u, now. split_and!; try done. apply W_failed_effect.
Qed.

(** A credit that does not fit, symbolically. *)
Lemma create_overflows src dst :
  wallets (sh_db S) !! from = Some src -> wallets (sh_db S) !! to = Some dst ->
  idempotency_records (sh_db S) !! key = None ->
  Amount req <= Wallet_Balance src -> int64_max < Wallet_Balance dst + Amount req ->
  creates (Err (ErrWrap "update wallet balance: "
                  (ErrPg pgCheckViolation "wallets_balance_check"))) (sh_db S) (sh_metrics S).
Proof.
  intros Hs Hd Hk Hle Hover.
  destruct (creates_ends (fun r t m => r = Err (ErrWrap "update wallet balance: "
                  (ErrPg pgCheckViolation "wallets_balance_check")) /\
    t = sh_db S /\ m = sh_metrics S)) as (r & t & m & Hc & -> & -> & ->); [|done].
  apply ends_Create_first; [done..|]. apply ends_RunInTx; [exact (usable_calm S)|].
  intros now. eapply (ends_body_overflow (begun S)); try done.
  intros L W. eexists. split_and!; [done..|]. eauto.
Qed.

(** C25: a credit that overflows.  When the destination's balance would not
    fit an int64, Go's addition wraps to a negative balance, the CHECK of
    the wallets table refuses it, and everything is rolled back: the answer
    is an error of no known kind and the database is as before, the key
    still unused. *)
Theorem create_overflow src dst :
  wallets (sh_db S) !! from = Some src -> wallets (sh_db S) !! to = Some dst ->
  idempotency_records (sh_db S) !! key = None ->
  Amount req <= Wallet_Balance src -> int64_max < Wallet_Balance dst + Amount req ->
  creates (Err (ErrWrap "update wallet balance: "
                  (ErrPg pgCheckViolation "wallets_balance_check"))) (sh_db S) (sh_metrics S).
Proof. apply create_overflows. Qed.

(** A missing wallet.  When either wallet does not exist the answer is
    the not-found error and the database is as before, the key still unused. *)
Lemma create_missing_wallet :
  wallets (sh_db S) !! from = None \/ wallets (sh_db S) !! to = None ->
  idempotency_records (sh_db S) !! key = None ->
  creates (Err ErrNotFound) (sh_db S) (sh_metrics S).
Proof.
  intros Hmiss Hk.
  destruct (creates_ends (fun r t m => r = Err ErrNotFound /\ t = sh_db S /\ m = sh_metrics S))
    as (r & t & m & Hc & -> & -> & ->); [|done].
  apply ends_Create_first; [done..|]. apply ends_RunInTx; [exact (usable_calm S)|].
  intros now. apply (ends_body_missing (begun S)); [done|].
  intros L W. eexists. split_and!; [done..|]. eauto.
Qed.

(** A replay.  When the key is committed with the request's digest the
    answer is the transfer that was made for it, as it is stored, and the
    database does not change. *)
Lemma create_replay i :
  idempotency_records (sh_db S) !! key = Some i -> ir_request_hash i = hash req ->
  exists r, transfers (sh_db S) !! ir_transfer_id i = Some r /\
    creates (Ok (Some (select_transfer r))) (sh_db S) (counted (tr_state r)).
Proof.
  intros Hk Hh.
  destruct (idem_ok_transfer _ _ _ (inv_idem _ Hinv _ _ Hk)) as (r & Hr & _).
  exists r. split; [done|].
  destruct (creates_ends (fun a t m => a = Ok (Some (select_transfer r)) /\ t = sh_db S /\
    m = counted (tr_state r))) as (a & t & m & Hc & -> & -> & ->); [|done].
  eapply ends_Create_replay; [done|by eapply replays_hit|done|]. simpl.
  rewrite decide_False; [eauto 10|].
  destruct (transfer_ok_settled _ _ _ (inv_transfers _ Hinv _ _ Hr)) as [[-> _]|[-> _]]; done.
Qed.

(** A conflict.  When the key is committed with another digest the
    answer is the conflict error and the database does not change. *)
Lemma create_conflict i :
  idempotency_records (sh_db S) !! key = Some i -> ir_request_hash i <> hash req ->
  creates (Err ErrIdempotencyConflict) (sh_db S) (sh_metrics S).
Proof.
  intros Hk Hh.
  destruct (creates_ends (fun a t m => a = Err ErrIdempotencyConflict /\ t = sh_db S /\
    m = sh_metrics S)) as (a & t & m & Hc & -> & -> & ->); [|done].
  eapply ends_Create_replay; [done|by eapply replays_conflict|done|]. eauto 10.
Qed.
End theorems.

(** An invalid request is refused before the database is asked anything:
    whatever the world does, the answer is the validation error and nothing
    changes, and [Validate] refuses exactly the requests with an empty key, an
    amount that is not positive, an empty wallet id or twice the same wallet. *)
Lemma create_invalid S req cs :
  (Validate req = None <->
   IdempotencyKey req <> EmptyString /\ 0 < Amount req /\ FromWalletID req <> EmptyString /\
   ToWalletID req <> EmptyString /\ FromWalletID req <> ToWalletID req) /\
  forall e, Validate req = Some e ->
    run cs (Create transferSvc req) S None = (Returned (Err e), S, None).
Proof.
  split.
  - unfold Validate. repeat case_decide; split; intros; destruct_and?; try done; try lia; naive_solver lia.
  - intros e He. unfold Create. cbn. by rewrite He.
Qed.

(** ** RunInTx for any body *)

(** What the exit of [RunInTx] makes of the body's outcome when the database
    decides [ch] for the COMMIT or the ROLLBACK. *)
Definition tx_exit {A} (ch : choice) (o : outcome (result A)) (S : shared) (t : txn)
  : outcome (result A) * shared :=
  match o with
  | Panicked v => (Panicked v, S)
  | Returned (Err e) =>
      (Returned (Err (match ch_fault ch with
                      | Some (Broken text) => ErrWrapV e "; rollback: " (ErrDriver text)
                      | _ => e
                      end)), S)
  | Returned (Ok a) =>
      match do_commit ch S t with
      | (Ok _, S') => (Returned (Ok a), S')
      | (Err e, S') => (Returned (Err (ErrWrap "commit: " e)), S')
      end
  end.

(** C26: RunInTx.  Whatever the body does on its transaction: when it panics
    the transaction is rolled back and the panic goes on; when it returns an
    error the transaction is rolled back and that error is returned (wrapped
    together with the rollback's own error, unless the transaction was already
    gone); when it succeeds the transaction is committed and an error of
    COMMIT is returned.  No path leaves the transaction open, and a BEGIN that
    fails runs nothing. *)
Theorem RunInTx_spec {A} (fn : Executor -> svc (result A)) cs S :
  let begin := cs 0%nat in
  let n := sh_next_tx S in
  match ch_fault begin with
  | Some f =>
      run cs (RunInTx fn) S None
      = (Returned (Err (ErrWrap "begin tx: " (fault_error f))), S, None)
  | None =>
      forall o S' t,
        run (fun k => cs (Datatypes.S k)) (fn (Tx n)) (begun S) (open n (ch_now begin) ∅ ∅)
        = (o, S', Some t) -> tx_id t = n ->
        exists k, run cs (RunInTx fn) S None = (tx_exit (cs k) o S' t, None)
  end.
Proof.
  unfold RunInTx, perform. cbn [proc_bind run local_exec]. unfold do_begin.
  destruct (ch_fault (cs 0%nat)) as [f|]; [done|]. cbn [proc_bind]. rewrite Nat.add_1_r.
  intros o S' t Hrun Ht.
  pose proof (run_finally (RunInTx_exit (sh_next_tx S)) (fn (Tx (sh_next_tx S)))
    (fun k => cs (Datatypes.S k)) (begun S) (open (sh_next_tx S) (ch_now (cs 0%nat)) ∅ ∅)) as Hf.
  rewrite Hrun in Hf. destruct Hf as [k Hf]. exists (Datatypes.S (k + 0)).
  etrans; [exact Hf|]. clear Hf Hrun. rewrite <- Ht. destruct o as [[a|e]|v]; unfold tx_exit.
  - cbn [RunInTx_exit perform proc_bind run]. unfold local_exec. rewrite live_tx_self.
    by destruct (do_commit _ _ _) as [[u|e] S2].
  - cbn [RunInTx_exit perform proc_bind run]. unfold local_exec. rewrite live_tx_self.
    unfold do_rollback. by destruct (ch_fault _) as [[text|]|].
  - cbn [RunInTx_exit perform proc_bind run]. unfold local_exec. by rewrite live_tx_self.
Qed.

(** ** Witnesses: the cases at concrete databases *)

Definition bank_shared : shared := mkShared bank 1 0 ∅.
Definition bank_world (n : nat) : choice := calm (N.of_nat n).

Lemma bank_fresh : fresh_world bank_shared bank_world.
Proof.
  split; [done| |]; intros; simpl; rewrite ?(left_id_L ∅ (∪)); apply lookup_empty.
Qed.

(** The bank after alice paid bob 30 under the key k1. *)
Definition paid_shared : shared := cf_shared (after 2 race_whole race).
Definition paid_world (n : nat) : choice := calm (1000 + N.of_nat n).

Lemma paid_ok : db_inv (sh_db paid_shared).
Proof. exact (conf_inv _ _ (reachable_conf_ok _ _ _ _ _ bank_ok race_ok race_reachable)). Qed.

Lemma paid_transfers :
  transfers (sh_db paid_shared)
  = {[142%N := mkTransferRow 142 alice bob 30 StateProcessed None 12 12]}.
Proof. by vm_compute. Qed.

Lemma paid_ledger :
  ledger_entries (sh_db paid_shared)
  = {[2 := mkLedgerEntry 2 142 bob EntryCredit 30 12; 1 := mkLedgerEntry 1 142 alice EntryDebit 30 12]}.
Proof. by vm_compute. Qed.

Lemma paid_seq : sh_seq paid_shared = 3.
Proof. by vm_compute. Qed.

Lemma paid_fresh : fresh_world paid_shared paid_world.
Proof.
  split; [done| |].
  - intros k. rewrite paid_transfers. apply lookup_singleton_ne. simpl. lia.
  - intros i Hi. rewrite paid_seq in Hi. rewrite paid_ledger.
    rewrite lookup_insert_ne by lia. apply lookup_singleton_ne. lia.
Qed.

Lemma create_processed_witness :
  exists u now, transfers bank !! u = None /\
    creates bank_shared (pay "k1" 30) bank_world
      (Ok (Some (select_transfer
         (transfer_row (run_inputs bank_shared (pay "k1" 30) u now) StateProcessed None))))
      (processed_effect (run_inputs bank_shared (pay "k1" 30) u now)
         (mkWallet alice 100 1 1) (mkWallet bob 50 2 2) bank)
      (counted bank_shared StateProcessed).
Proof.
  apply (create_processed bank_shared (pay "k1" 30) bank_world bank_ok eq_refl ltac:(done) bank_fresh
           (mkWallet alice 100 1 1) (mkWallet bob 50 2 2)); [by vm_compute..].
Defined.

Lemma create_insufficient_witness :
  exists u now, transfers bank !! u = None /\
    creates bank_shared (pay "k1" 130) bank_world
      (Ok (Some (select_transfer (transfer_row (run_inputs bank_shared (pay "k1" 130) u now)
                                    StateFailed (Some insufficient_reason)))))
      (failed_effect (run_inputs bank_shared (pay "k1" 130) u now) bank)
      (counted bank_shared StateFailed).
Proof.
  apply (create_insufficient bank_shared (pay "k1" 130) bank_world eq_refl ltac:(done) bank_fresh
           (mkWallet alice 100 1 1) (mkWallet bob 50 2 2)); [by vm_compute..].
Defined.

(** A bank where bob has the largest balance an int64 can hold. *)
Definition full_shared : shared :=
  mkShared (put_wallet (mkWallet bob int64_max 2 2) ∪ (put_wallet (mkWallet alice 100 1 1) ∪ ∅))
    1 0 ∅.

Lemma full_ok : db_inv (sh_db full_shared).
Proof.
  eapply atomic_step_inv; [apply atomic_wallet; [by vm_compute|unfold int64_max; lia]|].
  eapply atomic_step_inv; [apply atomic_wallet; [by vm_compute|unfold int64_max; lia]|].
  apply db_inv_empty.
Qed.

Lemma full_fresh : fresh_world full_shared bank_world.
Proof.
  split; [done| |]; intros; simpl; rewrite ?(left_id_L ∅ (∪)); apply lookup_empty.
Qed.

Lemma create_overflow_witness :
  creates full_shared (pay "k1" 30) bank_world
    (Err (ErrWrap "update wallet balance: " (ErrPg pgCheckViolation "wallets_balance_check")))
    (sh_db full_shared) ∅.
Proof.
  apply (create_overflow full_shared (pay "k1" 30) bank_world full_ok eq_refl ltac:(done) full_fresh
           (mkWallet alice 100 1 1) (mkWallet bob int64_max 2 2)); [by vm_compute..].
Defined.

Lemma create_missing_wallet_witness :
  creates bank_shared (mkCreateTransferRequest "k1" alice "carol" 30) bank_world
    (Err ErrNotFound) bank ∅.
Proof.
  apply (create_missing_wallet bank_shared (mkCreateTransferRequest "k1" alice "carol" 30)
           bank_world eq_refl bank_fresh); [right; by vm_compute|by vm_compute].
Defined.

Definition paid_record : IdemRow := mkIdemRow "k1" (hash (pay "k1" 30)) 142 12.

Lemma paid_key : idempotency_records (sh_db paid_shared) !! "k1" = Some paid_record.
Proof. by vm_compute. Qed.

Lemma create_replay_witness :
  exists r, transfers (sh_db paid_shared) !! 142%N = Some r /\
    creates paid_shared (pay "k1" 30) paid_world (Ok (Some (select_transfer r)))
      (sh_db paid_shared) (counted paid_shared (tr_state r)).
Proof.
  exact (create_replay paid_shared (pay "k1" 30) paid_world paid_ok eq_refl paid_fresh paid_record
           paid_key eq_refl).
Defined.

Lemma create_conflict_witness :
  creates paid_shared (pay "k1" 31) paid_world (Err ErrIdempotencyConflict)
    (sh_db paid_shared) (sh_metrics paid_shared).
Proof.
  apply (create_conflict paid_shared (pay "k1" 31) paid_world eq_refl paid_fresh paid_record
           paid_key). by vm_compute.
Defined.
