(* ===== verification/Spans.v ===== *)
(** * internal/tracing and the span of [Create]

    [TransferService.Create] is written here a second time, with the
    OpenTelemetry calls of its body: the span it opens, the attributes and
    errors it puts on it, its deferred end.  [observe] runs such a program and
    keeps the log of its span, and whether its last call to the database was of
    its transaction.  With the calls on the span left out [Create_spanned] is
    [Service.Create] ([erases_to_Create]), so the span changes no answer and no
    row; and what the log holds when a request has been answered among others is
    [span_of]. *)

From S2P Require Import Prelude GoRuntime Domain Database Repository Service Spec Machine Rely.
From S2P Require Import Workload RepositoryCorrect ServiceCorrect Scenario.
#[local] Open Scope go_scope.

(** ** internal/tracing/tracing.go *)

Definition tracerName : string := "github.com/PratikDhanave/wallet-transfer-assignment".

(** An [otel.Tracer] is known by its name. *)
Record tracer : Type := otel_Tracer { tracer_name : string }.

Definition Tracer : tracer := otel_Tracer tracerName.

(** [attribute.KeyValue] *)
Inductive attr : Type :=
| StringAttr (key value : string)
| Int64Attr (key : string) (value : Z).

(** The calls a function makes on its span. *)
Inductive span_event : Type :=
| Started (t : tracer) (name : string)
| Attributes (attrs : list attr)
| Recorded (err : error)
| Ended.

(** ** Programs that trace *)

Inductive spanE : Type -> Type :=
| Svc {X : Type} (o : svcE X) : spanE X
| Span (e : span_event) : spanE unit.

Definition traced_svc : Type -> Type := proc spanE.

Fixpoint lift {A} (p : svc A) : traced_svc A :=
  match p with
  | Ret a => Ret a
  | Panic v => Panic v
  | Vis o k => Vis (Svc o) (fun x => lift (k x))
  end.

Definition Start (t : tracer) (name : string) : traced_svc unit := perform (Span (Started t name)).
Definition SetAttributes (attrs : list attr) : traced_svc unit := perform (Span (Attributes attrs)).
Definition RecordError (err : error) : traced_svc unit := perform (Span (Recorded err)).

(** [defer span.End()]: on every exit, a panic included. *)
Definition defer_End {A} (p : traced_svc A) : traced_svc A :=
  proc_finally (fun o =>
    _ ← perform (Span Ended);
    match o with Returned a => Ret a | Panicked v => Panic v end) p.

(** ** transfer.go *)

Definition span_name : string := "TransferService.Create".

Definition request_attributes (req : CreateTransferRequest) : list attr :=
  [StringAttr "transfer.from_wallet_id" (FromWalletID req);
   StringAttr "transfer.to_wallet_id" (ToWalletID req);
   Int64Attr "transfer.amount" (Amount req)].

Definition state_attribute (resultState : TransferState) : attr :=
  StringAttr "transfer.state" resultState.

(** The body after validation, with its one [span.RecordError]. *)
Definition Create_body_spanned (s : TransferService) (req : CreateTransferRequest) (hash : string)
  : traced_svc (result (option Transfer) * TransferState) :=
  replay ← lift (replayIfExists s (svc_exec s) (IdempotencyKey req) hash);
  match replay with
  | Err err => Ret (Err err, EmptyString)
  | Ok (Some t) => Ret (Ok (Some t), Transfer_State t)
  | Ok None =>
      tx ← lift (txm_RunInTx (svc_txm s) _ (fun exec => executeTransfer s exec req hash));
      match tx with
      | Err txErr =>
          if errors_Is txErr ErrIdempotencyExists then
            again ← lift (replayIfExists s (svc_exec s) (IdempotencyKey req) hash);
            match again with
            | Ok (Some t) => Ret (again, Transfer_State t)
            | _ => Ret (again, EmptyString)
            end
          else
            _ ← RecordError txErr;
            Ret (Err txErr, EmptyString)
      | Ok t => Ret (Ok (Some t), Transfer_State t)
      end
  end.

(** The deferred closure. *)
Definition record_outcome_spanned (start : Time) (resultState : TransferState) : traced_svc unit :=
  if decide (resultState = EmptyString) then Ret tt
  else
    _ ← perform (Svc (TransfersTotal_Inc resultState));
    now ← perform (Svc TimeNow);
    _ ← perform (Svc (TransferDuration_Observe resultState (now - start)));
    SetAttributes [state_attribute resultState].

Definition Create_spanned (s : TransferService) (req : CreateTransferRequest)
  : traced_svc (result (option Transfer)) :=
  _ ← Start Tracer span_name;
  defer_End (
    start ← perform (Svc TimeNow);
    match Validate req with
    | Some err =>
        _ ← RecordError err;
        Ret (Err err)
    | None =>
        _ ← SetAttributes (request_attributes req);
        'ret ← Create_body_spanned s req (hash req);
        _ ← record_outcome_spanned start (snd ret);
        Ret (fst ret)
    end).

(** ** Running them

    What is seen of a run: the log of its span, and whether its last call to
    the database was the begin, the commit or the rollback of its transaction
    (and not a statement outside one). *)
Record seen : Type := mkSeen {
  seen_span : list span_event;
  seen_tx : bool
}.

(** Several calls in a row on the span.  Without a provider ([Setup] has not run)
    the tracer records nothing. *)
Definition notes (provider : bool) (es : list span_event) (s : seen) : seen :=
  mkSeen (if provider then seen_span s ++ es else seen_span s) (seen_tx s).

Definition last_call {X} (o : svcE X) (tx : bool) : bool :=
  match o with
  | BeginTx | CommitTx _ | RollbackTx _ => true
  | Exec DB _ => false
  | _ => tx
  end.

Definition note_call {X} (o : svcE X) (s : seen) : seen := mkSeen (seen_span s) (last_call o (seen_tx s)).

Definition observe_op (provider : bool) {A X} (o : spanE X)
  : (X -> seen -> svc A) -> seen -> svc A :=
  match o with
  | Svc o => fun k s => Vis o (fun x => k x (note_call o s))
  | Span e => fun k s => k tt (notes provider [e] s)
  end.

(** The program and, whichever way it ends, what was seen of it. *)
Fixpoint observe (provider : bool) {A} (p : traced_svc A) (s : seen) : svc (outcome A * seen) :=
  match p with
  | Ret a => Ret (Returned a, s)
  | Panic v => Ret (Panicked v, s)
  | Vis o k => observe_op provider o (fun x => observe provider (k x)) s
  end.

Definition unseen : seen := mkSeen [] false.

(** ** Programs that differ in their span only

    [erases p q]: with the calls on its span left out, [p] is [q]. *)
Inductive erases {A} : traced_svc A -> svc A -> Prop :=
| erases_Ret a : erases (Ret a) (Ret a)
| erases_Panic v : erases (Panic v) (Panic v)
| erases_Svc {X} (o : svcE X) k k' :
    (forall x, erases (k x) (k' x)) -> erases (Vis (Svc o) k) (Vis o k')
| erases_Span e k q : erases (k tt) q -> erases (Vis (Span e) k) q.

#[local] Hint Constructors erases : core.

Lemma erases_lift {A} (p : svc A) : erases (lift p) p.
Proof. induction p; simpl; auto. Qed.

Lemma erases_perform {X} (o : svcE X) : erases (perform (Svc o)) (perform o).
Proof. apply erases_Svc. auto. Qed.

Lemma erases_bind {A B} (f : A -> traced_svc B) (g : A -> svc B) p q :
  erases p q -> (forall a, erases (f a) (g a)) -> erases (proc_bind f p) (proc_bind g q).
Proof. intros H Hf. induction H; simpl; auto. Qed.

Lemma erases_span {A} (f : unit -> traced_svc A) e q :
  erases (f tt) q -> erases (proc_bind f (perform (Span e))) q.
Proof. apply erases_Span. Qed.

Lemma erases_defer_End {A} (p : traced_svc A) q : erases p q -> erases (defer_End p) q.
Proof. intros H. unfold defer_End. induction H; simpl; auto. Qed.

#[local] Hint Resolve erases_lift erases_perform erases_bind erases_span : core.

Lemma erases_body s req h : erases (Create_body_spanned s req h) (Create_body s req h).
Proof.
  apply erases_bind; [auto|]. intros [[t|]|e]; [auto| |auto].
  apply erases_bind; [auto|]. intros [t|e]; [auto|]. case_match; [|apply erases_span; auto].
  apply erases_bind; [auto|]. intros [[t|]|e']; auto.
Qed.

Lemma erases_record start state :
  erases (record_outcome_spanned start state) (record_outcome start state).
Proof.
  unfold record_outcome_spanned, record_outcome. case_decide; [auto|].
  do 2 (apply erases_bind; [auto|]; intros ?). constructor. intros []. constructor. constructor.
Qed.

Lemma erases_to_Create s req : erases (Create_spanned s req) (Create s req).
Proof.
  apply erases_span, erases_defer_End, erases_bind; [auto|]. intros start.
  destruct (Validate req); [apply erases_span; auto|]. apply erases_span, erases_bind; [apply erases_body|].
  intros ret. apply erases_bind; [apply erases_record|auto].
Qed.

(** The observed program does what the erased one does, and ends normally. *)
Lemma run_observe {A} (p : traced_svc A) q provider cs S T s :
  erases p q -> exists s',
    run cs (observe provider p s) S T
    = let '(r, S', T') := run cs q S T in (Returned (r, s'), S', T').
Proof.
  intros H. revert cs S T s. induction H as [a|v|X o k k' _ IH|e k q _ IH]; intros; simpl; eauto.
  destruct (local_exec _ _ _ _) as [[x S'] T']. apply IH.
Qed.

(** ** The span of a call among others *)

Lemma notes_app provider es es' s :
  notes provider es' (notes provider es s) = notes provider (es ++ es') s.
Proof. unfold notes. destruct provider; simpl; [by rewrite app_assoc|done]. Qed.

Lemma notes_nil provider s : notes provider [] s = s.
Proof. destruct provider, s; unfold notes; simpl; by rewrite ?app_nil_r. Qed.

(** The events of one call of [Create] that answered [r]; [tx]: its last call to
    the database ended (or failed to begin) its transaction. *)
Definition span_of (req : CreateTransferRequest) (r : result (option Transfer)) (tx : bool)
  : list span_event :=
  Started Tracer span_name ::
  match Validate req with
  | Some err => [Recorded err; Ended]
  | None =>
      Attributes (request_attributes req) ::
      match r with
      | Ok (Some t) => [Attributes [state_attribute (Transfer_State t)]; Ended]
      | Ok None => [Ended]
      | Err e => if tx then [Recorded e; Ended] else [Ended]
      end
  end.

(** *** The last call of a service program

    Whatever the environment answers, [P] holds of the outcome and the last call. *)
Fixpoint calls {A} (p : svc A) (tx : bool) (P : outcome A -> bool -> Prop) : Prop :=
  match p with
  | Ret a => P (Returned a) tx
  | Panic v => P (Panicked v) tx
  | Vis o k => forall x, calls (k x) (last_call o tx) P
  end.

Lemma calls_total {A} (p : svc A) tx (P : outcome A -> bool -> Prop) :
  (forall o tx', P o tx') -> calls p tx P.
Proof. intros H. revert tx. induction p; simpl; auto. Qed.

Lemma calls_bind {A B} (f : A -> svc B) (p : svc A) tx P :
  calls p tx (fun o tx' => match o with
                           | Returned a => calls (f a) tx' P
                           | Panicked v => P (Panicked v) tx'
                           end) -> calls (proc_bind f p) tx P.
Proof. revert tx. induction p; simpl; auto. Qed.

Lemma calls_finally {A B} (h : outcome A -> svc B) (p : svc A) tx P :
  calls p tx (fun o tx' => calls (h o) tx' P) -> calls (proc_finally h p) tx P.
Proof. revert tx. induction p; simpl; auto. Qed.

(** A replay looks outside any transaction. *)
Lemma replay_calls key h tx :
  calls (replayIfExists transferSvc DB key h) tx (fun _ tx' => tx' = false).
Proof.
  unfold replayIfExists. cbn.
  intros [[[[k h'] u]|]|e]; cbn; [|done|by repeat (case_match; cbn)].
  case_decide; [done|]. intros [[r|]|e]; cbn; [done..|by repeat (case_match; cbn)].
Qed.

(** [RunInTx] ends with its transaction, whatever its body does. *)
Lemma RunInTx_calls {A} (fn : Executor -> svc (result A)) tx :
  calls (RunInTx fn) tx (fun o tx' => match o with Returned _ => tx' = true | Panicked _ => True end).
Proof.
  intros [n|e]; [|done]. apply calls_finally, calls_total. intros o tx1.
  destruct o as [[a|e]|v]; cbn; intros [u|e']; cbn; by repeat case_match.
Qed.

Section observe.
Variable provider : bool.

Lemma wp_observe_lift {A B} (f : A -> traced_svc B) (p : svc A) s C T Q Q' P :
  wp p C T Q' -> calls p (seen_tx s) P ->
  (forall a C' T' tx, P (Returned a) tx -> Q' a C' T' ->
     wp (observe provider (f a) (mkSeen (seen_span s) tx)) C' T' Q) ->
  wp (observe provider (proc_bind f (lift p)) s) C T Q.
Proof.
  intros H HP Hf. revert s C T H HP Hf. induction p as [a|v|X o k IH]; simpl; intros s C T H HP Hf.
  - apply wp_rely. intros C' HR. destruct s as [log tx]. apply (Hf a C' T tx HP). auto.
  - intros C' HR. by destruct (H C' HR).
  - intros S ch HR. destruct (H S ch HR) as [Ho H']. split; [done|].
    destruct (local_exec ch o S T) as [[x S'] T']. destruct H' as [Hg Hw]. split; [done|].
    apply IH; [done|apply HP|exact Hf].
Qed.

Lemma wp_observe_bind {A B} (f : A -> traced_svc B) (p : traced_svc A) log C T Q :
  wp (observe provider p log) C T (fun x C' T' => exists a, x.1 = Returned a /\
    wp (observe provider (f a) x.2) C' T' Q) ->
  wp (observe provider (proc_bind f p) log) C T Q.
Proof.
  revert log C T. induction p as [a|v|X [Y o|e] k IH]; simpl; intros log C T H.
  - apply wp_rely. intros C' HR. by destruct (H C' HR) as (? & [= <-] & ?).
  - intros C' HR. by destruct (H C' HR) as (? & ? & ?).
  - intros S ch HR. destruct (H S ch HR) as [Ho H']. split; [done|].
    destruct (local_exec ch o S T) as [[x S'] T']. destruct H'. eauto.
  - by apply IH.
Qed.

Lemma wp_observe_defer_End {A} (p : traced_svc A) log C T Q :
  wp (observe provider p log) C T (fun x => Q (x.1, notes provider [Ended] x.2)) ->
  wp (observe provider (defer_End p) log) C T Q.
Proof.
  unfold defer_End. revert log C T.
  induction p as [a|v|X [Y o|e] k IH]; simpl; intros log C T H; [done..| |by apply IH].
  intros S ch HR. destruct (H S ch HR) as [Ho H']. split; [done|].
  destruct (local_exec ch o S T) as [[x S'] T']. destruct H'. eauto.
Qed.

Lemma wp_observe_span {A} (f : unit -> traced_svc A) e log C T Q :
  wp (observe provider (f tt) (notes provider [e] log)) C T Q ->
  wp (observe provider (proc_bind f (perform (Span e))) log) C T Q.
Proof. done. Qed.
End observe.

(** ** The span of a request *)

Definition seen_state (r : result (option Transfer)) : TransferState :=
  match r with Ok (Some t) => Transfer_State t | _ => EmptyString end.

(** An error of the transaction is no conflict of keys. *)
Definition told_ok (r : result (option Transfer)) (tx : bool) : Prop :=
  tx = true -> forall e, r = Err e ->
    errors_Is e ErrIdempotencyConflict = false /\ errors_Is e ErrIdempotencyExists = false.

Section create_span.
Variables (provider : bool) (req : CreateTransferRequest).
Hypothesis Hamount : in_int64 (Amount req).

Definition body_events (r : result (option Transfer)) (tx : bool) : list span_event :=
  match r with Err e => if tx then [Recorded e] else [] | _ => [] end.

Definition body_seen (log : list span_event)
    (x : outcome (result (option Transfer) * TransferState) * seen) (C : tables) (T : option txn)
  : Prop :=
  exists r tx, x = (Returned (r, seen_state r), notes provider (body_events r tx) (mkSeen log tx)) /\
    create_post req r C T /\ told_ok r tx.

Lemma body_seen_ret r tx log C :
  create_post req r C None -> told_ok r tx ->
  wp (Ret (Returned (r, seen_state r), notes provider (body_events r tx) (mkSeen log tx))) C None
    (body_seen log).
Proof.
  intros H Ht C' HR. exists r, tx. split; [done|]. split; [|done].
  eapply create_post_stable; [done|apply HR].
Qed.

(** Nothing is put on the span. *)
Lemma body_seen_quiet r tx log C :
  create_post req r C None -> body_events r tx = [] -> told_ok r tx ->
  wp (Ret (Returned (r, seen_state r), mkSeen log tx)) C None (body_seen log).
Proof.
  intros H He Ht. rewrite <- (notes_nil provider (mkSeen log tx)), <- He. by apply body_seen_ret.
Qed.

Lemma wp_body_seen s C :
  Validate req = None ->
  wp (observe provider (Create_body_spanned transferSvc req (hash req)) s) C None
    (body_seen (seen_span s)).
Proof.
  intros Hv. eapply wp_observe_lift; [by apply (wp_replay req False)|apply replay_calls|].
  intros r C1 T tx -> [-> H]. destruct r as [[tr|]|e].
  1: by apply (body_seen_quiet (Ok (Some tr))). 2: by apply (body_seen_quiet (Err e)).
  eapply wp_observe_lift; [by apply wp_RunInTx|apply RunInTx_calls|]. cbn [seen_span].
  intros r C2 T tx -> [-> Htx]. destruct r as [tr|e]; [by apply (body_seen_quiet (Ok (Some tr)))|].
  destruct Htx as [Hc He]. destruct (errors_Is e ErrIdempotencyExists) eqn:Hex.
  - eapply wp_observe_lift; [by apply (wp_replay req True); auto|apply replay_calls|].
    cbn [seen_span]. intros r C3 T tx -> [-> Hr]. destruct r as [[tr|]|e'];
      [by apply (body_seen_quiet (Ok (Some tr)))|by destruct Hr|by apply (body_seen_quiet (Err e'))].
  - apply wp_observe_span, (body_seen_ret (Err e) true).
    + split; [done|]. congruence.
    + intros _ e' [= <-]. done.
Qed.

(** The state of a transfer that was answered is on its span. *)
Lemma reply_state t C : db_inv C -> reply_ok req t C -> Transfer_State t <> EmptyString.
Proof.
  intros Hi [_ Ht _]. apply fmap_Some in Ht as (r & Hr & ->). simpl.
  pose proof (transfer_ok_settled _ _ _ (inv_transfers _ Hi _ _ Hr)) as Hs.
  destruct Hs as [[-> _]|[-> _]]; done.
Qed.

Lemma wp_record_seen start (state : TransferState) s C Q :
  (forall C', rely ∅ C C' -> Q (Returned tt,
     notes provider (if decide (state = EmptyString) then [] else [Attributes [state_attribute state]])
       s) C' None) ->
  wp (observe provider (record_outcome_spanned start state) s) C None Q.
Proof.
  intros H. unfold record_outcome_spanned. destruct (decide (state = EmptyString)).
  - apply wp_ret. intros C' HR. specialize (H C' HR). by rewrite notes_nil in H.
  - apply wp_TransfersTotal_Inc, wp_TimeNow. intros now. apply wp_TransferDuration_Observe.
    intros C' HR. destruct s. by apply H.
Qed.

Definition span_post (x : outcome (result (option Transfer)) * seen) (C : tables) (T : option txn)
  : Prop :=
  exists r tx, x = (Returned r, notes provider (span_of req r tx) (mkSeen [] tx)) /\
    create_post req r C T /\ told_ok r tx.

Lemma wp_Create_spanned C :
  wp (observe provider (Create_spanned transferSvc req) unseen) C None span_post.
Proof.
  apply wp_observe_span, wp_observe_defer_End, wp_TimeNow. intros start.
  destruct (Validate req) as [err|] eqn:Hv.
  - apply wp_observe_span, wp_ret. intros C' _. exists (Err err), false.
    unfold span_of. rewrite Hv. split; [by destruct provider|]. split; [|done].
    by apply invalid_post.
  - apply wp_observe_span, wp_observe_bind. eapply wp_mono; [|by apply wp_body_seen].
    intros x C1 T (r & tx & -> & Hr & Ht).
    assert (T = None) as -> by apply Hr. eexists. split; [done|]. cbn [fst snd].
    apply wp_observe_bind, wp_record_seen.
    intros C3 HR3. eexists. split; [done|]. cbn [fst snd]. apply wp_ret. intros C4 HR4.
    assert (create_post req r C4 None) as Hr4
      by (eapply create_post_stable; [done|etrans; [apply HR3|apply HR4]]).
    exists r, tx. split; [|done]. cbn [fst snd].
    assert ((if decide (seen_state r = EmptyString) then []
             else [Attributes [state_attribute (seen_state r)]])
      = match r with Ok (Some t) => [Attributes [state_attribute (Transfer_State t)]] | _ => [] end) as ->.
    { destruct r as [[t|]|e]; simpl; [|done..]. rewrite decide_False; [done|].
      eapply reply_state; [apply HR4|apply Hr4]. }
    f_equal. unfold span_of. rewrite Hv. rewrite !notes_app. destruct provider; [|done].
    unfold notes. simpl. f_equal. destruct r as [[t|]|e]; [done|by destruct Hr|by destruct tx].
Qed.
End create_span.

#[export] Instance span_workload (provider : bool)
  : Workload CreateTransferRequest (outcome (result (option Transfer)) * seen) := {|
  wl_prog req := observe provider (Create_spanned transferSvc req) unseen;
  wl_ok req _ := in_int64 (Amount req);
  wl_post := span_post provider;
  wl_spec req C H := wp_Create_spanned provider req H C;
  wl_closed req x C T H := match H with ex_intro _ _ (ex_intro _ _ (conj _ (conj P _))) => proj1 P end
|}.

(** ** Properties *)

(** Tracing changes nothing: for any service, request, state and
    decisions of the world, [Create] with the calls on its span ends as [Create]
    without them does, a panic included, in the same state. *)
Lemma create_span_erased provider s req cs S T :
  exists s', run cs (observe provider (Create_spanned s req) unseen) S T
    = let '(r, S', T') := run cs (Create s req) S T in (Returned (r, s'), S', T').
Proof. apply run_observe, erases_to_Create. Qed.

(** C33: the span of a request.  When any number of [Create] calls run at once,
    with any faults, a call that has answered [r] has left exactly [span_of]:
    it is opened with the tracer and the name of the source and ended once, last;
    an invalid request has its validation error on it and nothing else; a valid
    one the three attributes of the request, then, when it was answered with a
    transfer, the state of that transfer, and when it failed, its error if and
    only if the last call to the database was the begin, the commit or the
    rollback of its transaction.  Such an error is never a key conflict: the
    errors of the lookups for a replay are on no span.  Without a provider the
    log is empty. *)
Theorem create_spans provider pool t seq reqs c i x :
  db_inv t -> Forall (fun req => in_int64 (Amount req)) reqs ->
  reachable (WL := span_workload provider) pool t seq reqs c -> answered c i x ->
  exists req r, reqs !! i = Some req /\ x.1 = Returned r /\
    seen_span x.2 = (if provider then span_of req r (seen_tx x.2) else []) /\
    told_ok r (seen_tx x.2) /\ create_post req r (committed c) None.
Proof.
  intros Hi Ha Hc Hx.
  pose proof (reachable_conf_ok (WL := span_workload provider) _ _ _ _ _ Hi Ha Hc) as Hok.
  destruct (answered_post _ _ _ _ Hok Hx) as (req & Hreq & (r & tx & -> & Hr & Ht) & _).
  exists req, r. by destruct provider.
Qed.

(** One key, two amounts, and a wallet that does not exist: the first call's span
    shows the transfer's state, the second's ends without the conflict, the
    third's has the error that rolled its transaction back. *)
Definition spans_calls : list CreateTransferRequest :=
  [pay "k1" 30; pay "k1" 31; mkCreateTransferRequest "k2" alice "nobody" 1].
Definition spans_end :=
  after (WL := span_workload true) 1 (clash_schedule ++ moves 2 60 6) spans_calls.

Definition third_seen : outcome (result (option Transfer)) * seen :=
  (Returned (Err ErrNotFound),
   mkSeen [Started Tracer span_name;
           Attributes (request_attributes (mkCreateTransferRequest "k2" alice "nobody" 1));
           Recorded ErrNotFound; Ended] true).

Example calls_spans :
  answered spans_end 0 (Returned (Ok (Some (mkTransfer 107 alice bob 30 StateProcessed EmptyString 12 12))),
    mkSeen [Started Tracer span_name; Attributes (request_attributes (pay "k1" 30));
            Attributes [state_attribute StateProcessed]; Ended] true) /\
  answered spans_end 1 (Returned (Err ErrIdempotencyConflict),
    mkSeen [Started Tracer span_name; Attributes (request_attributes (pay "k1" 31)); Ended] false) /\
  answered spans_end 2 third_seen.
Proof. split_and!; exists None; by vm_compute. Qed.

Lemma spans_calls_ok : Forall (fun req => in_int64 (Amount req)) spans_calls.
Proof. repeat constructor; done. Qed.

Lemma spans_reachable : reachable (WL := span_workload true) 1 bank 1 spans_calls spans_end.
Proof. by apply (after_reachable (WL := span_workload true)); vm_compute. Qed.

Lemma create_spans_witness :
  exists req r, spans_calls !! 2%nat = Some req /\ third_seen.1 = Returned r /\
    seen_span third_seen.2 = span_of req r true /\
    told_ok r true /\ create_post req r (committed spans_end) None.
Proof.
  exact (create_spans true 1 bank 1 spans_calls spans_end 2 third_seen bank_ok spans_calls_ok
           spans_reachable (proj2 (proj2 calls_spans))).
Defined.
