(* ===== verification/Reference.v ===== *)
(** * Create as one function

    What [TransferService.Create] does when nothing fails, written as a function
    of the committed tables, without transactions, locks or replays; and the
    proof that the program is equal to it on every database. *)

From S2P Require Import Prelude GoRuntime Domain Database Repository Service Spec Machine Rely.
From S2P Require Import ServiceCorrect Workload Concurrency Scenario Sequential.

Definition balance_refused : error :=
  ErrWrap "update wallet balance: " (ErrPg pgCheckViolation "wallets_balance_check").

(** The answer and the tables after it, when the id [u] is drawn, the clock of
    the database reads [now] and the ledger's sequence is at [seq]. *)
Definition reference (t : tables) (seq : Z) (u : UUID) (now : Time) (req : CreateTransferRequest)
  : result (option Transfer) * tables :=
  let x := mkTransferInputs req u now seq (seq + 1) in
  match Validate req with
  | Some e => (Err e, t)
  | None =>
      match idempotency_records t !! IdempotencyKey req with
      | Some i =>
          if decide (ir_request_hash i = hash req)
          then (Ok (select_transfer <$> transfers t !! ir_transfer_id i), t)
          else (Err ErrIdempotencyConflict, t)
      | None =>
          match wallets t !! FromWalletID req, wallets t !! ToWalletID req with
          | Some src, Some dst =>
              if decide (Wallet_Balance src < Amount req) then
                (Ok (Some (select_transfer (transfer_row x StateFailed (Some insufficient_reason)))),
                 failed_effect x t)
              else if decide (int64_max < Wallet_Balance dst + Amount req) then (Err balance_refused, t)
              else
                (Ok (Some (select_transfer (transfer_row x StateProcessed None))),
                 processed_effect x src dst t)
          | _, _ => (Err ErrNotFound, t)
          end
      end
  end.

(** The counter of transfers: one more for the state that is answered. *)
Definition reference_metrics (S : shared) (r : result (option Transfer)) : gmap string nat :=
  match r with
  | Ok (Some tr) => counted S (Transfer_State tr)
  | _ => sh_metrics S
  end.

(** C5: Create is its reference function.  On every well-formed database, for
    every request, a faultless run of [TransferService.Create] (the digest, the
    replay lookup, the transaction with its locks, reads, writes and commit, the
    counters of the deferred closure) answers what [reference] answers, leaves
    the tables [reference] leaves and counts the state that is answered: an
    invalid request, a replay, a conflict, a missing wallet, an overdraft, a
    credit that does not fit and a transfer that is made, in this order. *)
Theorem create_equals_reference S req cs :
  db_inv (sh_db S) -> in_int64 (Amount req) -> fresh_world S cs ->
  exists u now, transfers (sh_db S) !! u = None /\
    let '(r, t) := reference (sh_db S) (sh_seq S) u now req in
    creates S req cs r t (reference_metrics S r).
Proof.
  intros Hinv Hamt Hworld. unfold reference.
  pose proof (world_uuid _ _ Hworld 0) as Hu0.
  destruct (Validate req) as [e|] eqn:Hv.
  { exists (ch_uuid (cs 0%nat)), 0. split; [done|]. exists S.
    by rewrite (proj2 (create_invalid S req cs) e Hv). }
  destruct (idempotency_records (sh_db S) !! IdempotencyKey req) as [i|] eqn:Hk.
  { exists (ch_uuid (cs 0%nat)), 0. split; [done|]. case_decide as Hh.
    - destruct (create_replay S req cs Hinv Hv Hworld i Hk Hh) as (r & -> & Hc). exact Hc.
    - by eapply create_conflict. }
  destruct (wallets (sh_db S) !! FromWalletID req) as [src|] eqn:Hs.
  2: { exists (ch_uuid (cs 0%nat)), 0. split; [done|]. apply create_missing_wallet; auto. }
  destruct (wallets (sh_db S) !! ToWalletID req) as [dst|] eqn:Hd.
  2: { exists (ch_uuid (cs 0%nat)), 0. split; [done|]. apply create_missing_wallet; auto. }
  case_decide as Hlt.
  { destruct (create_insufficient S req cs Hv Hamt Hworld src dst Hs Hd Hk Hlt) as (u & now & Hu & Hc).
    by exists u, now. }
  case_decide as Hover.
  { exists (ch_uuid (cs 0%nat)), 0. split; [done|].
    apply (create_overflows S req cs Hinv Hv Hamt Hworld src dst Hs Hd Hk); lia. }
  destruct (create_processed S req cs Hinv Hv Hamt Hworld src dst Hs Hd Hk) as (u & now & Hu & Hc);
    [lia..|]. by exists u, now.
Qed.

Lemma create_equals_reference_witness :
  exists u now, transfers bank !! u = None /\
    let '(r, t) := reference bank 1 u now (pay "k1" 30) in
    creates bank_shared (pay "k1" 30) bank_world r t (reference_metrics bank_shared r).
Proof. exact (create_equals_reference bank_shared (pay "k1" 30) bank_world bank_ok ltac:(done) bank_fresh). Defined.

(** The reference at the example databases: what kind of answer, and how many
    transfers are recorded afterwards. *)
Definition reference_case (t : tables) (req : CreateTransferRequest) : result TransferState * nat :=
  let '(r, t') := reference t 3 500 100 req in
  (match r with
   | Ok (Some tr) => Ok (Transfer_State tr)
   | Ok None => Ok EmptyString
   | Err e => Err e
   end, size (transfers t')).

Example reference_cases :
  map (reference_case (sh_db paid_shared))
    [pay "k2" 30; pay "k2" 71; pay "k1" 30; pay "k1" 31; pay "k2" 0;
     mkCreateTransferRequest "k2" alice "carol" 5] =
  [(Ok StateProcessed, 2%nat); (Ok StateFailed, 2%nat); (Ok StateProcessed, 1%nat);
   (Err ErrIdempotencyConflict, 1%nat); (Err ErrInvalidAmount, 1%nat); (Err ErrNotFound, 1%nat)].
Proof. by vm_compute. Qed.
