(* ===== verification/Idempotency.v ===== *)
(** * The digest of a request

    What a matching digest says about the parameters of two requests:
    [hash_input] joins the wallet ids and the amount with [|] and does not
    escape the ids, so equal inputs mean equal parameters only when the ids
    have no [|]; a digest collision is the only other way. *)

From S2P Require Import Prelude GoRuntime Domain Database Repository Service Spec Machine Rely.
From S2P Require Import RepositoryCorrect ServiceCorrect Workload Concurrency Scenario Safety Sequential.

(** ** Joining with a separator *)

Definition chars (s : string) : list Ascii.ascii := String.list_ascii_of_string s.

Lemma chars_app a b : chars (a +:+ b) = chars a ++ chars b.
Proof. induction a as [|c a IH]; [done|]. unfold chars in *. simpl. by rewrite IH. Qed.

Lemma chars_inj a b : chars a = chars b -> a = b.
Proof.
  intros H. rewrite <- (String.string_of_list_ascii_of_string a),
    <- (String.string_of_list_ascii_of_string b). unfold chars in H. by rewrite H.
Qed.

Definition bar : Ascii.ascii := Eval vm_compute in Ascii.ascii_of_N 124.

Definition no_bar (s : string) : Prop := bar ∉ chars s.

#[global] Instance no_bar_dec s : Decision (no_bar s).
Proof. unfold no_bar. apply _. Defined.

(** The first separator of two equal joins is in the same place. *)
Lemma split_first {A} (x : A) l l' k k' :
  x ∉ l -> x ∉ l' -> l ++ x :: k = l' ++ x :: k' -> l = l' /\ k = k'.
Proof.
  revert l'. induction l as [|y l IH]; intros [|y' l'] Hl Hl' E; simplify_eq/=.
  - done.
  - by destruct Hl'; left.
  - by destruct Hl; left.
  - rewrite not_elem_of_cons in Hl, Hl'. destruct Hl, Hl'.
    destruct (IH l') as [-> ->]; done.
Qed.

(** And so is the last. *)
Lemma split_last {A} (x : A) l l' k k' :
  x ∉ k -> x ∉ k' -> l ++ x :: k = l' ++ x :: k' -> l = l' /\ k = k'.
Proof.
  intros Hk Hk' E. apply (f_equal reverse) in E.
  rewrite !reverse_app, !reverse_cons, <- !app_assoc in E. simpl in E.
  apply split_first in E as [E1 E2]; [|by rewrite elem_of_reverse..].
  by apply (inj reverse) in E1, E2.
Qed.

(** Numbers are written without [|]. *)
Lemma pretty_N_go_no_bar n s : no_bar s -> no_bar (pretty_N_go n s).
Proof.
  revert s. induction (N.lt_wf_0 n) as [n _ IH]; intros s Hs.
  destruct (decide (n = 0)%N) as [->|Hn]; [done|].
  rewrite pretty_N_go_step by lia. apply IH; [apply N.div_lt; lia|].
  unfold no_bar, chars. simpl. rewrite not_elem_of_cons. split; [|done].
  unfold pretty_N_char. by repeat case_match.
Qed.

Lemma pretty_no_bar (z : Z) : no_bar (pretty z).
Proof.
  assert (forall n : N, no_bar (pretty n)) as HN.
  { intros n. unfold pretty, pretty_N. case_decide; [by vm_compute; set_solver|].
    apply pretty_N_go_no_bar. unfold no_bar, chars. set_solver. }
  destruct z as [|p|p]; [apply (HN 0%N)|apply (HN (N.pos p))|].
  apply not_elem_of_cons. split; [done|apply (HN (N.pos p))].
Qed.

(** ** What the digest's input determines *)

Definition same_parameters (r r' : CreateTransferRequest) : Prop :=
  FromWalletID r = FromWalletID r' /\ ToWalletID r = ToWalletID r' /\ Amount r = Amount r'.

Lemma chars_hash_input r :
  chars (hash_input r)
  = (chars (FromWalletID r) ++ bar :: chars (ToWalletID r)) ++ bar :: chars (pretty (Amount r)).
Proof. unfold hash_input. by rewrite !chars_app, <- !app_assoc. Qed.

Lemma hash_input_eq r r' :
  hash_input r = hash_input r' <->
  Amount r = Amount r' /\
  FromWalletID r +:+ "|" +:+ ToWalletID r = FromWalletID r' +:+ "|" +:+ ToWalletID r'.
Proof.
  split.
  - intros E. apply (f_equal chars) in E. rewrite !chars_hash_input in E.
    apply split_last in E as [E1 E2]; [|apply pretty_no_bar..].
    apply chars_inj, (inj pretty) in E2. split; [done|].
    apply chars_inj. by rewrite !chars_app.
  - intros [Ha E]. apply chars_inj. rewrite !chars_hash_input, Ha. f_equal.
    apply (f_equal chars) in E. by rewrite !chars_app in E.
Qed.

Lemma hash_input_inj r r' :
  no_bar (FromWalletID r) -> no_bar (FromWalletID r') -> hash_input r = hash_input r' ->
  same_parameters r r'.
Proof.
  intros Hr Hr' E. apply hash_input_eq in E as [Ha E]. apply (f_equal chars) in E.
  rewrite !chars_app in E. simpl in E. apply split_first in E as [E1 E2]; [|done..].
  by apply chars_inj in E1, E2.
Qed.

(** Two different inputs with one SHA-256 digest. *)
Definition digest_collision (r r' : CreateTransferRequest) : Prop :=
  hash_input r <> hash_input r' /\ Sha256.Sum256 (hash_input r) = Sha256.Sum256 (hash_input r').

#[local] Transparent hash.

Lemma hash_eq r r' : hash r = hash r' -> hash_input r = hash_input r' \/ digest_collision r r'.
Proof.
  intros E. destruct (decide (hash_input r = hash_input r')) as [|Hne]; [by left|]. right.
  split; [done|]. unfold hash in E.
  apply Sha256.EncodeToString_inj in E; auto using Sha256.Sum256_bytes.
Qed.

Lemma hash_of_input r r' : hash_input r = hash_input r' -> hash r = hash r'.
Proof. intros E. unfold hash. by rewrite E. Qed.

Lemma hash_unfold r : hash r = Sha256.EncodeToString (Sha256.Sum256 (hash_input r)).
Proof. done. Qed.

#[local] Opaque hash.

Lemma hash_parameters r r' :
  no_bar (FromWalletID r) -> no_bar (FromWalletID r') -> hash r = hash r' ->
  same_parameters r r' \/ digest_collision r r'.
Proof.
  intros Hr Hr' E. destruct (hash_eq _ _ E) as [Hin|]; [left|by right].
  by apply hash_input_inj.
Qed.

(** The parameters a committed transfer was made for. *)
Definition row_request (r : TransferRow) : CreateTransferRequest :=
  mkCreateTransferRequest EmptyString (tr_from_wallet_id r) (tr_to_wallet_id r) (tr_amount r).

(** ** The theorems *)

(** What a matching digest means.  Two requests have the same digest
    exactly when their amounts agree and their wallet ids agree once joined
    with [|] (or SHA-256 collides); when the source ids contain no [|] this is
    equality of source, destination and amount. *)
Lemma digest_determines_parameters r r' :
  (hash r = hash r' <->
     (Amount r = Amount r' /\
      FromWalletID r +:+ "|" +:+ ToWalletID r = FromWalletID r' +:+ "|" +:+ ToWalletID r')
     \/ digest_collision r r') /\
  (no_bar (FromWalletID r) -> no_bar (FromWalletID r') -> hash r = hash r' ->
     same_parameters r r' \/ digest_collision r r').
Proof.
  split; [|apply hash_parameters]. rewrite <- hash_input_eq. split; [apply hash_eq|].
  intros [E|[_ E]]; [by apply hash_of_input|]. by rewrite !hash_unfold, E.
Qed.

(** A reply is for the parameters asked.  In every reachable state, when
    a transfer request whose source id has no [|] is answered with a
    transfer whose source id has none either, that transfer moves the
    requested amount between the requested wallets, unless SHA-256 collides. *)
Lemma reply_has_requested_parameters pool t seq reqs c i req tr :
  db_inv t -> Forall api_ok reqs -> reachable pool t seq reqs c ->
  reqs !! i = Some (CreateTransfer req) -> answered c i (TransferCreated (Ok (Some tr))) ->
  no_bar (FromWalletID req) -> no_bar (Transfer_FromWalletID tr) ->
  (Transfer_FromWalletID tr = FromWalletID req /\ Transfer_ToWalletID tr = ToWalletID req /\
   Transfer_Amount tr = Amount req)
  \/ exists r, digest_collision (row_request r) req.
Proof.
  intros Hi Hr Hc Hreq Ha Hb Hb'.
  destruct (transfer_answer_ok pool t seq reqs Hi Hr c c i req tr Hc Hreq Ha (rtc_refl _ _))
    as [_ Ht (k & Hk & Hu & Hh)].
  pose proof (conf_inv _ _ (reachable_conf_ok _ _ _ _ _ Hi Hr Hc)) as Hdb.
  destruct (idem_ok_transfer _ _ _ (inv_idem _ Hdb _ _ Hk)) as (r & Hrow & Hhash).
  rewrite Hu in Hrow. rewrite Hrow in Ht. injection Ht as <-. simpl in Hb'.
  destruct (hash_parameters (row_request r) req Hb' Hb) as [(?&?&?)|Hcol].
  - unfold row_hash in Hhash. unfold row_request. congruence.
  - by left.
  - right. by exists r.
Qed.

(** C27: exactly-once for parameters.  Two requests with one key, both answered
    with a transfer, asked for the same wallets and amount, when their source
    ids have no [|] and SHA-256 does not collide on them. *)
Theorem same_key_same_parameters pool t seq reqs c c' i j req req' tr tr' :
  db_inv t -> Forall api_ok reqs -> reachable pool t seq reqs c -> rtc (steps pool) c c' ->
  reqs !! i = Some (CreateTransfer req) -> reqs !! j = Some (CreateTransfer req') ->
  IdempotencyKey req = IdempotencyKey req' ->
  answered c i (TransferCreated (Ok (Some tr))) ->
  answered c' j (TransferCreated (Ok (Some tr'))) ->
  no_bar (FromWalletID req) -> no_bar (FromWalletID req') ->
  (tr = tr' /\ same_parameters req req') \/ digest_collision req req'.
Proof.
  intros Hinv Hr Hc Hcc Hi Hj Hkey Ha Ha' Hb Hb'.
  destruct (same_key_replies pool t seq reqs Hinv Hr c c' i j req req' tr tr') as [-> Hh]; try done.
  destruct (hash_parameters _ _ Hb Hb' Hh); auto.
Qed.

(** ** Ids with [|] *)

(** A transfer from [a|b] to [c], and one from [a] to [b|c]. *)
Definition bar_request (key a b c : string) (amount : Z) : CreateTransferRequest :=
  mkCreateTransferRequest key (a +:+ "|" +:+ b) c amount.
Definition bar_request' (key a b c : string) (amount : Z) : CreateTransferRequest :=
  mkCreateTransferRequest key a (b +:+ "|" +:+ c) amount.

Lemma bar_same_hash key a b c amount :
  hash (bar_request key a b c amount) = hash (bar_request' key a b c amount).
Proof.
  apply hash_of_input, hash_input_eq. split; [done|]. apply chars_inj. simpl.
  rewrite !chars_app. simpl. by rewrite <- !app_assoc.
Qed.

Lemma bar_longer a b : a +:+ "|" +:+ b <> a.
Proof.
  intros E. apply (f_equal (length ∘ chars)) in E. simpl in E.
  rewrite chars_app, length_app in E. simpl in E. lia.
Qed.

(** C28: the digest does not separate the fields.  For any ids, amount and key:
    once a transfer from [a|b] to [c] was made and answered under the key, a
    valid request for a transfer from [a] to [b|c] with the same key is not
    refused as a conflict: it is answered with that first transfer, whose
    source is another wallet, and its own transfer is never made. *)
Theorem bar_in_ids_confuses_replay S cs key a b c amount tr :
  db_inv (sh_db S) -> fresh_world S cs ->
  reply_ok (bar_request key a b c amount) tr (sh_db S) ->
  Transfer_FromWalletID tr = FromWalletID (bar_request key a b c amount) ->
  Validate (bar_request' key a b c amount) = None ->
  (exists S', run cs (Create transferSvc (bar_request' key a b c amount)) S None
     = (Returned (Ok (Some tr)), S', None) /\ sh_db S' = sh_db S) /\
  Transfer_FromWalletID tr <> FromWalletID (bar_request' key a b c amount).
Proof.
  intros Hi Hw [_ Ht (i & Hk & Hu & Hh)] Hfrom Hv. split; [|rewrite Hfrom; apply bar_longer].
  destruct (create_replay S (bar_request' key a b c amount) cs Hi Hv Hw i Hk) as
    (r & Hr & S' & Hrun & Hdb & _); [by rewrite Hh, bar_same_hash|].
  rewrite Hu in Hr. rewrite Hr in Ht. injection Ht as Ht. rewrite Ht in Hrun. by exists S'.
Qed.

(** The lock order.  Both directions between two wallets lock them in
    the same order, the byte order of their ids. *)
Lemma orderedPair_canonical a b :
  (a <> b -> orderedPair a b = orderedPair b a) /\
  (let '(x, y) := orderedPair a b in
   (x = a /\ y = b \/ x = b /\ y = a) /\ (a <> b -> String.ltb x y = true)).
Proof.
  unfold orderedPair. destruct (String.ltb a b) eqn:E; (split; [intros Hne|split; [auto|intros Hne]]).
  - destruct (String.ltb b a) eqn:E'; [|done].
    pose proof (string_ltb_trans _ _ _ E E'). by rewrite string_ltb_irrefl in *.
  - done.
  - apply string_ltb_total in E; [|done]. by rewrite E.
  - apply string_ltb_total in E; done.
Qed.

(** ** Witnesses *)

Lemma alice_no_bar : no_bar alice.
Proof. by apply (bool_decide_unpack _); vm_compute. Qed.

Lemma reply_has_requested_parameters_witness :
  (Transfer_FromWalletID race_transfer = alice /\ Transfer_ToWalletID race_transfer = bob /\
   Transfer_Amount race_transfer = 30)
  \/ exists r, digest_collision (row_request r) (pay "k1" 30).
Proof.
  exact (reply_has_requested_parameters 2 bank 1 race _ 0 (pay "k1" 30) race_transfer bank_ok race_ok
           race_reachable eq_refl (race_answer 0 ltac:(lia)) alice_no_bar alice_no_bar).
Defined.

Lemma same_key_same_parameters_witness :
  (race_transfer = race_transfer /\ same_parameters (pay "k1" 30) (pay "k1" 30))
  \/ digest_collision (pay "k1" 30) (pay "k1" 30).
Proof.
  exact (same_key_same_parameters 2 bank 1 race _ _ 0 1 (pay "k1" 30) (pay "k1" 30) _ _ bank_ok
           race_ok race_reachable (rtc_refl _ _) eq_refl eq_refl eq_refl
           (race_answer 0 ltac:(lia)) (race_answer 1 ltac:(lia)) alice_no_bar alice_no_bar).
Defined.

(** A bank whose wallets have such ids, after a payment of 5. *)
Definition bar_bank : tables :=
  foldr (fun id t => put_wallet (mkWallet id 100 1 1) ∪ t) ∅ ["a|b"; "c"; "a"; "b|c"].
Definition bar_visits : list api := [CreateTransfer (bar_request "key" "a" "b" "c" 5)].
Definition bar_paid : config reply :=
  default (start bar_bank 1 bar_visits)
    (run_schedule 1 (moves 0 0 19) (start bar_bank 1 bar_visits)).
Definition bar_transfer : Transfer :=
  mkTransfer 107 "a|b" "c" 5 StateProcessed EmptyString 12 12.

Lemma bar_bank_ok : db_inv bar_bank.
Proof.
  unfold bar_bank. cbn [foldr].
  do 4 (eapply atomic_step_inv; [apply atomic_wallet; [by vm_compute|unfold int64_max; lia]|]).
  apply db_inv_empty.
Qed.

Lemma bar_visits_ok : Forall api_ok bar_visits.
Proof. by repeat constructor. Qed.

Lemma bar_paid_reachable : reachable 1 bar_bank 1 bar_visits bar_paid.
Proof. apply reachable_schedule. exists (moves 0 0 19). by vm_compute. Qed.

Lemma bar_paid_ok : db_inv (committed bar_paid).
Proof. exact (conf_inv _ _ (reachable_conf_ok _ _ _ _ _ bar_bank_ok bar_visits_ok bar_paid_reachable)). Qed.

Lemma bar_paid_answer : answered bar_paid 0 (TransferCreated (Ok (Some bar_transfer))).
Proof. exists None. by vm_compute. Qed.

Lemma bar_paid_fresh : fresh_world (cf_shared bar_paid) paid_world.
Proof.
  assert (transfers (committed bar_paid)
    = {[107%N := mkTransferRow 107 "a|b" "c" 5 StateProcessed None 12 12]}) as Ht by (by vm_compute).
  assert (ledger_entries (committed bar_paid)
    = {[2 := mkLedgerEntry 2 107 "c" EntryCredit 5 12; 1 := mkLedgerEntry 1 107 "a|b" EntryDebit 5 12]})
    as Hl by (by vm_compute).
  assert (sh_seq (cf_shared bar_paid) = 3) as Hs by (by vm_compute). unfold committed in *.
  split; [done| |].
  - intros k. rewrite Ht. apply lookup_singleton_ne. simpl. lia.
  - intros i Hi. rewrite Hs in Hi. rewrite Hl, lookup_insert_ne by lia.
    apply lookup_singleton_ne. lia.
Qed.

Lemma bar_paid_reply :
  reply_ok (bar_request "key" "a" "b" "c" 5) bar_transfer (committed bar_paid).
Proof.
  by apply (transfer_answer_ok 1 bar_bank 1 bar_visits bar_bank_ok bar_visits_ok bar_paid bar_paid 0
    (bar_request "key" "a" "b" "c" 5) bar_transfer bar_paid_reachable eq_refl bar_paid_answer
    (rtc_refl _ _)).
Qed.

Lemma bar_in_ids_confuses_replay_witness :
  exists S', run paid_world (Create transferSvc (bar_request' "key" "a" "b" "c" 5))
    (cf_shared bar_paid) None = (Returned (Ok (Some bar_transfer)), S', None).
Proof.
  destruct (bar_in_ids_confuses_replay (cf_shared bar_paid) paid_world "key" "a" "b" "c" 5 bar_transfer
    bar_paid_ok
    bar_paid_fresh bar_paid_reply eq_refl ltac:(by vm_compute))
    as [(S' & H & _) _].
  by exists S'.
Defined.
