(* ===== verification/History.v ===== *)
(** * Wallet history: order, page size, and walking all pages

    The page a history request answers, and the walk a client makes by giving
    each page's cursor back as [before] until there is none. *)

From S2P Require Import Prelude GoRuntime Domain Database Repository Service Spec Machine Rely.
From S2P Require Import RepositoryCorrect ServiceCorrect Workload Concurrency Scenario Safety Sequential.
#[local] Open Scope go_scope.

(** ** The order of a history *)

#[export] Instance history_order_total : Total history_order.
Proof. intros a b. unfold history_order. lia. Qed.

#[export] Instance history_order_trans : Transitive history_order.
Proof. intros a b c. unfold history_order. lia. Qed.

Lemma history_sorted t w b : StronglySorted history_order (history_rows t w b).
Proof. apply StronglySorted_merge_sort; apply _. Qed.

Lemma StronglySorted_filter {A} (R : relation A) (P : A -> Prop) `{!forall x, Decision (P x)} l :
  StronglySorted R l -> StronglySorted R (filter P l).
Proof.
  induction 1 as [|x l Hl IH Hx]; [constructor|]. rewrite filter_cons. case_decide; [|done].
  constructor; [done|]. rewrite Forall_forall in Hx |- *. intros y Hy.
  apply list_elem_of_filter in Hy as [_ Hy]. auto.
Qed.

Lemma filter_all {A} (P : A -> Prop) `{!forall x, Decision (P x)} l :
  Forall P l -> filter P l = l.
Proof. induction 1 as [|x l Hx _ IH]; [done|]. by rewrite filter_cons, decide_True, IH. Qed.

(** Rows with one id are one row. *)
Lemma history_id_inj t w b b' t1 t2 :
  db_inv t -> t1 ∈ history_rows t w b -> t2 ∈ history_rows t w b' ->
  history_order t1 t2 -> history_order t2 t1 -> t1 = t2.
Proof.
  intros Hi H1 H2 H12 H21. destruct (shows_history _ _ _ _ Hi H1) as [Hs1 _].
  destruct (shows_history _ _ _ _ Hi H2) as [Hs2 _]. unfold shows_transfer in *.
  assert (Transfer_ID t1 = Transfer_ID t2) as E by (unfold history_order in *; lia).
  rewrite E in Hs1. congruence.
Qed.

Lemma history_NoDup t w b : db_inv t -> NoDup (history_rows t w b).
Proof.
  intros Hi. unfold history_rows. rewrite merge_sort_Permutation. apply NoDup_filter.
  apply (NoDup_fmap_1 Transfer_ID). rewrite <- !list_fmap_compose.
  replace ((Transfer_ID ∘ select_transfer) ∘ snd <$> map_to_list (transfers t))
    with ((map_to_list (transfers t)).*1); [apply NoDup_fst_map_to_list|].
  apply list_fmap_ext. intros i [u r] Hr. apply list_elem_of_lookup_2, elem_of_map_to_list in Hr.
  simpl. symmetry. apply (transfer_ok_id _ _ _ (inv_transfers _ Hi _ _ Hr)).
Qed.

(** A later page is the older part of an earlier one. *)
Definition before_of (b : option Time) (tr : Transfer) : Prop :=
  match b with None => True | Some c => Transfer_CreatedAt tr < c end.

#[global] Instance before_of_dec b tr : Decision (before_of b tr).
Proof. destruct b; simpl; apply _. Defined.

Lemma history_rows_before t w b c :
  db_inv t -> (forall tr, Transfer_CreatedAt tr < c -> before_of b tr) ->
  history_rows t w (Some c) = filter (fun tr => Transfer_CreatedAt tr < c) (history_rows t w b).
Proof.
  intros Hi Hc. eapply (StronglySorted_unique_strong history_order).
  - intros t1 t2 H1 H2. apply list_elem_of_filter in H2 as [_ H2]. by eapply history_id_inj.
  - apply history_sorted.
  - apply StronglySorted_filter, history_sorted.
  - unfold history_rows at 1. rewrite merge_sort_Permutation.
    unfold history_rows. rewrite merge_sort_Permutation.
    rewrite list_filter_filter. apply reflexive_eq, list_filter_iff. intros tr.
    unfold history_where. unfold before_of in Hc. destruct b; naive_solver lia.
Qed.

(** ** Walking the pages *)

(** No two transfers of the wallet were created at the same time. *)
Definition distinct_times (l : list Transfer) : Prop := NoDup (Transfer_CreatedAt <$> l).

Lemma older_than_head x l :
  StronglySorted history_order (x :: l) -> distinct_times (x :: l) ->
  Forall (fun tr => Transfer_CreatedAt tr < Transfer_CreatedAt x) l.
Proof.
  intros Hs Hd. apply StronglySorted_cons in Hs as [Hx _]. apply NoDup_cons in Hd as [Hn _].
  rewrite Forall_forall in Hx |- *. intros tr Htr. specialize (Hx tr Htr).
  assert (Transfer_CreatedAt tr <> Transfer_CreatedAt x) as Hne.
  { intros E. apply Hn. rewrite <- E. by apply list_elem_of_fmap_2. }
  unfold history_order in Hx. lia.
Qed.

(** With distinct times, the rows older than the last of a page are the rest. *)
Lemma filter_after_page n x l :
  StronglySorted history_order l -> distinct_times l -> l !! n = Some x ->
  filter (fun tr => Transfer_CreatedAt tr < Transfer_CreatedAt x) l = drop (S n) l.
Proof.
  revert n. induction l as [|y l IH]; intros n Hs Hd Hn; [done|].
  pose proof (older_than_head _ _ Hs Hd) as Hold.
  apply StronglySorted_cons in Hs as [Hy Hs]. apply NoDup_cons in Hd as [Hyd Hd].
  rewrite filter_cons. destruct n as [|n]; simplify_eq/=.
  - rewrite decide_False by lia. rewrite drop_0. by apply filter_all.
  - rewrite decide_False; [by apply IH|]. apply list_elem_of_lookup_2 in Hn.
    rewrite Forall_forall in Hold. specialize (Hold x Hn). lia.
Qed.

Lemma take_newer n x l :
  StronglySorted history_order l -> l !! n = Some x ->
  Forall (fun tr => Transfer_CreatedAt x <= Transfer_CreatedAt tr) (take (Datatypes.S n) l).
Proof.
  revert n. induction l as [|y l IH]; intros n Hs Hn; [done|].
  apply StronglySorted_cons in Hs as [Hy Hs]. destruct n as [|n]; simplify_eq/=.
  - rewrite take_0. repeat constructor. lia.
  - constructor; [|by apply IH]. rewrite Forall_forall in Hy.
    specialize (Hy x (list_elem_of_lookup_2 _ _ _ Hn)). unfold history_order in Hy. lia.
Qed.

(** A client that follows the cursors. *)
Fixpoint walk (fuel : nat) (wallet : string) (limit : Z) (before : option Time)
  : svc (result (list Transfer)) :=
  match fuel with
  | O => Panic "fuel"
  | S fuel' =>
      page ←? ListTransfersByWallet transferSvc wallet limit before;
      match page with
      | (rows, None) => Ret (Ok rows)
      | (rows, Some cursor) =>
          rest ←? walk fuel' wallet limit (Some cursor);
          Ret (Ok (rows ++ rest))
      end
  end.

Section walk.
Variables (S : shared) (wallet : string) (limit : Z).
Hypotheses (Hinv : db_inv (sh_db S)) (Hw : wallet <> EmptyString).

Let calm_choice (ch : choice) : Prop := ch_fault ch = None.

Definition page_size : nat := Z.to_nat (clamp_limit limit).

Lemma clamp_range : 1 <= clamp_limit limit <= MaxTransferListLimit.
Proof.
  unfold clamp_limit, DefaultTransferListLimit, MaxTransferListLimit. repeat case_decide; lia.
Qed.

Lemma ends_page {B} before (f : _ -> svc (result B)) P :
  ends calm_choice
    (f (take page_size (history_rows (sh_db S) wallet before),
        next_cursor (take page_size (history_rows (sh_db S) wallet before)) (clamp_limit limit)))
    S None P ->
  ends calm_choice (try_bind f (ListTransfersByWallet transferSvc wallet limit before)) S None P.
Proof.
  intros H. unfold ListTransfersByWallet. rewrite decide_False by done.
  pose proof clamp_range as Hc.
  eapply (ends_query calm_choice (fun ch H => H)); [done| |].
  - intros now. simpl. unfold sql_check. rewrite bool_decide_eq_true_2 by lia. done.
  - cbn. exact H.
Qed.

(** A page is full or is the end. *)
Lemma next_cursor_page rows :
  next_cursor (take page_size rows) (clamp_limit limit)
  = if decide (length rows < page_size)%nat then None
    else Transfer_CreatedAt <$> rows !! (page_size - 1)%nat.
Proof.
  pose proof clamp_range as Hc. unfold next_cursor, page_size. rewrite length_take.
  destruct (decide (length rows < Z.to_nat (clamp_limit limit))%nat).
  - rewrite decide_False by lia. done.
  - rewrite decide_True by lia. f_equal. rewrite last_lookup, length_take.
    rewrite lookup_take_lt by lia. f_equal. lia.
Qed.

(** ** What a walk reads of a history

    Page by page: the next page starts below the creation time of the last row
    of a full one. *)
Fixpoint pages (fuel : nat) (h : list Transfer) : list Transfer :=
  match fuel with
  | O => []
  | Datatypes.S fuel' =>
      if decide (length h < page_size)%nat then h
      else match h !! (page_size - 1)%nat with
           | Some x => take page_size h ++
               pages fuel' (filter (fun tr => Transfer_CreatedAt tr < Transfer_CreatedAt x) h)
           | None => []
           end
  end.

Lemma page_size_pos : (1 <= page_size)%nat.
Proof. pose proof clamp_range. unfold page_size. lia. Qed.

Lemma page_last (h : list Transfer) : ~ (length h < page_size)%nat -> exists x, h !! (page_size - 1)%nat = Some x.
Proof.
  intros H. pose proof page_size_pos. destruct (h !! (page_size - 1)%nat) as [x|] eqn:E; [eauto|].
  apply lookup_ge_None in E. lia.
Qed.

Lemma older_shorter (h : list Transfer) n x :
  h !! n = Some x ->
  (length (filter (fun tr => (Transfer_CreatedAt tr < Transfer_CreatedAt x)%Z) h) < length h)%nat.
Proof.
  intros Hx. apply list_elem_of_lookup_2 in Hx. eapply length_filter_lt; [exact Hx|]. lia.
Qed.

Lemma ends_walk fuel before :
  (length (history_rows (sh_db S) wallet before) < fuel)%nat ->
  ends calm_choice (walk fuel wallet limit before) S None (fun o S' T' =>
    o = Returned (Ok (pages fuel (history_rows (sh_db S) wallet before))) /\ S' = S /\ T' = None).
Proof.
  revert before. induction fuel as [|fuel IH]; intros before Hlen; [lia|]. cbn [walk pages].
  set (rows := history_rows (sh_db S) wallet before) in *.
  apply ends_page. fold rows. rewrite next_cursor_page. case_decide as Hfull.
  - rewrite take_ge by lia. by apply ends_ret.
  - destruct (page_last rows Hfull) as [x Hx]. rewrite Hx. cbn [fmap option_fmap option_map].
    assert (history_rows (sh_db S) wallet (Some (Transfer_CreatedAt x))
      = filter (fun tr => Transfer_CreatedAt tr < Transfer_CreatedAt x) rows) as Hrest.
    { apply history_rows_before; [done|]. intros tr Htr.
      apply list_elem_of_lookup_2, elem_of_history in Hx as [[_ Hx] _].
      unfold before_of. destruct before; [lia|done]. }
    pose proof (older_shorter _ _ _ Hx) as Hlt. apply ends_bind. eapply ends_mono.
    + apply IH. rewrite Hrest. lia.
    + intros o S' T' (-> & -> & ->). apply ends_ret. by rewrite Hrest.
Qed.

(** Without ties the pages are the whole history. *)
Lemma pages_all fuel (h : list Transfer) :
  StronglySorted history_order h -> distinct_times h -> (length h < fuel)%nat -> pages fuel h = h.
Proof.
  revert h. induction fuel as [|fuel IH]; intros h Hs Hd Hlen; [lia|]. cbn [pages].
  case_decide as Hfull; [done|]. destruct (page_last h Hfull) as [x Hx]. rewrite Hx.
  pose proof page_size_pos. pose proof (older_shorter _ _ _ Hx). rewrite IH.
  - rewrite (filter_after_page (page_size - 1)) by done.
    replace (Datatypes.S (page_size - 1)) with page_size by lia. apply take_drop.
  - by apply StronglySorted_filter.
  - unfold distinct_times in *. eapply sublist_NoDup; [exact Hd|]. apply fmap_sublist, sublist_filter.
  - lia.
Qed.
End walk.

(** ** The rows a walk misses *)

(** [tr] shares its creation time with the last row of a full page and comes
    after it. *)
Definition hidden (limit : Z) (rows : list Transfer) (tr : Transfer) : Prop :=
  exists k x, rows !! (k * page_size limit + (page_size limit - 1))%nat = Some x /\
    Transfer_CreatedAt tr = Transfer_CreatedAt x /\ (Transfer_ID tr < Transfer_ID x)%N.

(** A history: ordered, and no two rows with one id. *)
Record ordered_rows (h : list Transfer) : Prop := {
  rows_sorted : StronglySorted history_order h;
  rows_ids : NoDup (Transfer_ID <$> h)
}.

Lemma ordered_filter (P : Transfer -> Prop) `{!forall x, Decision (P x)} h :
  ordered_rows h -> ordered_rows (filter P h).
Proof.
  intros [Hs Hi]. split; [by apply StronglySorted_filter|].
  eapply sublist_NoDup; [exact Hi|]. apply fmap_sublist, sublist_filter.
Qed.

Lemma history_ordered t w b : db_inv t -> ordered_rows (history_rows t w b).
Proof.
  intros Hi. split; [apply history_sorted|]. apply NoDup_fmap_2_strong; [|by apply history_NoDup].
  intros t1 t2 H1 H2 E. destruct (shows_history _ _ _ _ Hi H1) as [Hs1 _].
  destruct (shows_history _ _ _ _ Hi H2) as [Hs2 _]. unfold shows_transfer in *. congruence.
Qed.

(** The rows before and after a row. *)
Lemma ordered_around n x h tr :
  ordered_rows h -> h !! n = Some x -> tr ∈ h ->
  (tr ∈ take (Datatypes.S n) h <->
   Transfer_CreatedAt x < Transfer_CreatedAt tr \/
   (Transfer_CreatedAt tr = Transfer_CreatedAt x /\ (Transfer_ID x <= Transfer_ID tr)%N)).
Proof.
  revert n. induction h as [|y h IH]; intros n [Hs Hi] Hn Htr; [done|].
  apply StronglySorted_cons in Hs as [Hy Hs]. apply NoDup_cons in Hi as [Hn' Hi].
  rewrite Forall_forall in Hy. cbn [firstn]. rewrite elem_of_cons.
  assert (forall z, z ∈ h -> Transfer_ID y <> Transfer_ID z) as Hne.
  { intros z Hz E. apply Hn'. rewrite E. by apply list_elem_of_fmap_2. }
  unfold history_order in Hy. destruct n as [|n]; simpl in Hn.
  - injection Hn as ->. rewrite take_0. apply elem_of_cons in Htr as [->|Htr].
    + split; [intros _; right; split; [done|lia]|by left].
    + pose proof (Hne _ Htr). pose proof (Hy _ Htr). split; [intros [->|[]%elem_of_nil]; done|lia].
  - pose proof (Hy x (list_elem_of_lookup_2 _ _ _ Hn)).
    apply elem_of_cons in Htr as [->|Htr]; [split; [intros _; lia|by left]|].
    rewrite <- (IH n (Build_ordered_rows h Hs Hi) Hn Htr). split; [|by right].
    intros [->|?]; [|done]. exfalso. apply Hn'. by apply list_elem_of_fmap_2.
Qed.

Section missing.
Variable limit : Z.
Let p := page_size limit.

Lemma pages_elem fuel h tr : tr ∈ pages limit fuel h -> tr ∈ h.
Proof.
  revert h. induction fuel as [|fuel IH]; cbn [pages]; intros h Htr; [by apply elem_of_nil in Htr|].
  case_decide; [done|]. destruct (h !! _); [|by apply elem_of_nil in Htr].
  apply elem_of_app in Htr as [Htr|Htr].
  - apply elem_of_take in Htr as (i & Hi & _). by eapply list_elem_of_lookup_2.
  - by apply IH, list_elem_of_filter in Htr as [_ Htr].
Qed.

(** The last rows of the full pages: that of the first, and those of the rest. *)
Lemma hidden_app h rest x tr :
  length h = p -> h !! (p - 1)%nat = Some x ->
  hidden limit (h ++ rest) tr <->
  (Transfer_CreatedAt tr = Transfer_CreatedAt x /\ (Transfer_ID tr < Transfer_ID x)%N) \/
  hidden limit rest tr.
Proof.
  intros Hl Hx. pose proof (page_size_pos limit) as Hp. fold p in Hp. unfold hidden. fold p. split.
  - intros ([|k] & y & Hy & Ht).
    + left. simpl in Hy. rewrite lookup_app_l in Hy by lia. by simplify_eq.
    + right. exists k, y. rewrite lookup_app_r in Hy by lia. split; [|done].
      by replace (k * p + (p - 1))%nat with (Datatypes.S k * p + (p - 1) - length h)%nat by lia.
  - intros [Ht|(k & y & Hy & Ht)].
    + exists 0%nat, x. split; [|done]. simpl. by rewrite lookup_app_l by lia.
    + exists (Datatypes.S k), y. split; [|done]. rewrite lookup_app_r by lia.
      by replace (Datatypes.S k * p + (p - 1) - length h)%nat with (k * p + (p - 1))%nat by lia.
Qed.

Lemma pages_missing fuel h tr :
  ordered_rows h -> (length h < fuel)%nat -> tr ∈ h ->
  tr ∉ pages limit fuel h <-> hidden limit (pages limit fuel h) tr.
Proof.
  revert h. induction fuel as [|fuel IH]; intros h Ho Hlen Htr; [lia|]. cbn [pages].
  pose proof (page_size_pos limit) as Hp. case_decide as Hfull.
  { split; [done|]. intros (k & x & Hx & _). apply lookup_lt_Some in Hx. lia. }
  destruct (page_last limit h Hfull) as [x Hx]. rewrite Hx.
  pose proof (older_shorter _ _ _ Hx) as Hlt.
  set (older := filter (fun tr => Transfer_CreatedAt tr < Transfer_CreatedAt x) h) in *.
  pose proof (ordered_around _ _ _ tr Ho Hx Htr) as Hin.
  replace (Datatypes.S (page_size limit - 1)) with (page_size limit) in Hin by lia.
  rewrite (hidden_app _ _ x) by
    (rewrite ?length_take, ?lookup_take_lt by lia; first [done|subst p; lia]).
  rewrite not_elem_of_app, Hin. destruct (decide (Transfer_CreatedAt tr < Transfer_CreatedAt x)) as [Hold|Hnew].
  - rewrite <- IH; [|by apply ordered_filter|lia|by apply list_elem_of_filter].
    split; [intros [_ H]; by right|]. intros [H|H]; [lia|]. split; [lia|done].
  - assert (tr ∉ pages limit fuel older) as Hno.
    { intros H. by apply pages_elem, list_elem_of_filter in H as [H _]. }
    assert (~ hidden limit (pages limit fuel older) tr) as Hnh.
    { intros (k & y & Hy & Ht & _). apply list_elem_of_lookup_2, pages_elem, list_elem_of_filter in Hy
        as [Hy _]. lia. }
    split; [intros [H _]; left; lia|]. intros [H|H]; [|done]. split; [lia|done].
Qed.
End missing.

(** ** The theorems *)

(** C29: one page.  For a wallet id that is not empty a faultless history
    request answers the first rows of the wallet's history that are older than
    [before]: at most the clamped limit (1 to 200, 50 when none is given),
    newest first with ties by id, only transfers from or to the wallet; the
    cursor is the creation time of the last row of a full page, and absent on
    a shorter one.  Nothing changes. *)
Theorem list_page S wallet limit before cs :
  wallet <> EmptyString -> (forall k, ch_fault (cs k) = None) ->
  let page := take (page_size limit) (history_rows (sh_db S) wallet before) in
  run cs (ListTransfersByWallet transferSvc wallet limit before) S None
  = (Returned (Ok (page, if decide (length page < page_size limit)%nat then None
                         else Transfer_CreatedAt <$> last page)), S, None) /\
  StronglySorted history_order page /\
  Forall (fun tr => Transfer_FromWalletID tr = wallet \/ Transfer_ToWalletID tr = wallet) page /\
  (length page <= page_size limit)%nat /\ (1 <= page_size limit <= 200)%nat /\
  (limit <= 0 -> page_size limit = 50%nat) /\
  (1 <= limit <= 200 -> page_size limit = Z.to_nat limit).
Proof.
  intros Hw Hcs page. pose proof (clamp_range limit) as Hc. unfold MaxTransferListLimit in Hc.
  assert (length page <= page_size limit)%nat as Hlen by (unfold page; rewrite length_take; lia).
  assert (ends (fun ch => ch_fault ch = None)
    (ListTransfersByWallet transferSvc wallet limit before) S None (fun o S' T' =>
      o = Returned (Ok (page, next_cursor page (clamp_limit limit))) /\ S' = S /\ T' = None)) as H.
  { unfold ListTransfersByWallet. rewrite decide_False by done.
    eapply ends_query; [done|done| |].
    - intros now. simpl. unfold sql_check. rewrite bool_decide_eq_true_2 by lia. done.
    - cbn. by apply ends_ret. }
  specialize (H cs Hcs). destruct (run _ _ _ _) as [[o S'] T']. destruct H as (-> & -> & ->).
  split_and!.
  - unfold next_cursor. unfold page_size in *. by repeat case_decide; try lia.
  - unfold page. apply (StronglySorted_app_1_l _ _ (drop (page_size limit)
      (history_rows (sh_db S) wallet before))). rewrite take_drop. apply history_sorted.
  - apply Forall_forall. intros tr Htr. apply elem_of_take in Htr as (i & Hi & _).
    by apply list_elem_of_lookup_2, elem_of_history in Hi as [[? _] _].
  - done.
  - unfold page_size. lia.
  - unfold page_size. lia.
  - unfold page_size, clamp_limit, DefaultTransferListLimit. intros.
    repeat case_decide; try lia; done.
  - unfold page_size, clamp_limit, MaxTransferListLimit. intros.
    repeat case_decide; try lia; done.
Qed.

(** C30: walking all pages.  When no two transfers of the wallet share a
    creation time, following the cursors from the first page lists exactly the
    wallet's history, every transfer once and in order, and stops. *)
Theorem walk_complete S wallet limit cs fuel :
  db_inv (sh_db S) -> wallet <> EmptyString -> (forall k, ch_fault (cs k) = None) ->
  distinct_times (history_rows (sh_db S) wallet None) ->
  (length (history_rows (sh_db S) wallet None) < fuel)%nat ->
  run cs (walk fuel wallet limit None) S None
  = (Returned (Ok (history_rows (sh_db S) wallet None)), S, None).
Proof.
  intros Hi Hw Hcs Hd Hf. pose proof (ends_walk S wallet limit Hi Hw fuel None Hf cs Hcs) as H.
  destruct (run _ _ _ _) as [[o S'] T']. destruct H as (-> & -> & ->).
  by rewrite pages_all by (done || apply history_sorted).
Qed.

(** C31: equal creation times break the walk.  On any database, for any page
    size, the walk stops, and the transfers of the wallet it misses are exactly
    those that share their creation time with the last row of a full page and
    come after it in the order of the history: the cursor is the creation time
    alone, so they are on no page. *)
Theorem walk_skips_ties S wallet limit cs fuel :
  db_inv (sh_db S) -> wallet <> EmptyString -> (forall k, ch_fault (cs k) = None) ->
  (length (history_rows (sh_db S) wallet None) < fuel)%nat ->
  exists rows, run cs (walk fuel wallet limit None) S None = (Returned (Ok rows), S, None) /\
    (forall tr, tr ∈ rows -> tr ∈ history_rows (sh_db S) wallet None) /\
    forall tr, tr ∈ history_rows (sh_db S) wallet None ->
      tr ∉ rows <-> exists k x,
        rows !! (k * page_size limit + (page_size limit - 1))%nat = Some x /\
        Transfer_CreatedAt tr = Transfer_CreatedAt x /\ (Transfer_ID tr < Transfer_ID x)%N.
Proof.
  intros Hi Hw Hcs Hf. pose proof (ends_walk S wallet limit Hi Hw fuel None Hf cs Hcs) as H.
  destruct (run _ _ _ _) as [[o S'] T']. destruct H as (-> & -> & ->). eexists.
  split; [done|]. split; [apply pages_elem|]. intros tr Htr.
  apply (pages_missing limit fuel _ tr); [by apply history_ordered|done|done].
Qed.

(** Two transfers committed in the same microsecond. *)
Definition tie_world (u : N) (n : nat) : choice := mkChoice None false 7 u.
Definition tie_visits : list api := [CreateTransfer (pay "k1" 1); CreateTransfer (pay "k2" 2)].
Definition tie_schedule : list (nat * choice) :=
  replicate 19 (0%nat, tie_world 1 0) ++ replicate 19 (1%nat, tie_world 2 0).
Definition tie_state : shared := cf_shared (after 1 tie_schedule tie_visits).
Definition tie_first : Transfer := mkTransfer 2 alice bob 2 StateProcessed EmptyString 7 7.
Definition tie_second : Transfer := mkTransfer 1 alice bob 1 StateProcessed EmptyString 7 7.

Lemma tie_history : history_rows (sh_db tie_state) alice None = [tie_first; tie_second].
Proof. by vm_compute. Qed.

Lemma tie_visits_ok : Forall api_ok tie_visits.
Proof. by repeat constructor. Qed.

Lemma tie_reachable : reachable 1 bank 1 tie_visits (after 1 tie_schedule tie_visits).
Proof. by apply after_reachable; vm_compute. Qed.

Lemma tie_inv : db_inv (sh_db tie_state).
Proof. exact (conf_inv _ _ (reachable_conf_ok _ _ _ _ _ bank_ok tie_visits_ok tie_reachable)). Qed.

(** The walk with pages of one answers only the first. *)
Example tie_walk :
  run (tie_world 3) (walk 5 alice 1 None) tie_state None
  = (Returned (Ok [tie_first]), tie_state, None).
Proof. by vm_compute. Qed.

(** ** Witnesses *)

Lemma paid_history :
  history_rows (sh_db paid_shared) alice None
  = [mkTransfer 142 alice bob 30 StateProcessed EmptyString 12 12].
Proof. by vm_compute. Qed.

Lemma list_page_witness :
  StronglySorted history_order (take (page_size 0) (history_rows (sh_db paid_shared) alice None)).
Proof.
  exact (proj1 (proj2 (list_page paid_shared alice 0 None paid_world ltac:(discriminate)
                         (fun k => eq_refl)))).
Defined.

Lemma walk_complete_witness :
  run paid_world (walk 2 alice 1 None) paid_shared None
  = (Returned (Ok (history_rows (sh_db paid_shared) alice None)), paid_shared, None).
Proof.
  apply (walk_complete paid_shared alice 1 paid_world 2 paid_ok ltac:(discriminate)
           (fun k => eq_refl)); rewrite paid_history.
  - apply NoDup_singleton.
  - simpl. lia.
Defined.

Lemma answered_rows {A B C} (a a' : A) (s s' : B) (u u' : C) :
  (Returned (Ok a), s, u) = (Returned (Ok a'), s', u') -> a = a'.
Proof. congruence. Qed.

Lemma walk_skips_ties_witness :
  tie_second ∈ history_rows (sh_db tie_state) alice None /\ tie_second ∉ [tie_first].
Proof.
  assert (tie_second ∈ history_rows (sh_db tie_state) alice None) as Hin
    by (rewrite tie_history; by right; left).
  destruct (walk_skips_ties tie_state alice 1 (tie_world 3) 5 tie_inv ltac:(discriminate)
    (fun k => eq_refl)) as (rows & Hr & _ & Hm); [rewrite tie_history; simpl; lia|].
  rewrite tie_walk in Hr. apply answered_rows in Hr as <-. split; [exact Hin|].
  apply (Hm tie_second Hin). exists 0%nat, tie_first. split; [done|]. split; [done|]. simpl. lia.
Defined.
