(* ===== verification/Walks.v ===== *)
(** * Walking a history while transfers are made

    [History] walks the pages of an idle database.  Here a client follows the
    cursors while other requests run: a workload of service requests and
    walks.  A walk sees each page at another moment, so what it promises is
    relative to the tables at its start. *)

From S2P Require Import Prelude GoRuntime Domain Database Repository Service Spec Machine Rely.
From S2P Require Import RepositoryCorrect ServiceCorrect Workload Concurrency Scenario Sequential History.
#[local] Open Scope go_scope.

(** ** The history of a growing database *)

Lemma history_grows C C' w b tr :
  grows C C' -> tr ∈ history_rows C w b -> tr ∈ history_rows C' w b.
Proof.
  intros Hg (Hw & u & r & Hr & ->)%elem_of_history. apply elem_of_history.
  split; [done|]. exists u, r. split; [|done]. eapply lookup_weaken; [done|apply Hg].
Qed.

Lemma history_narrow C w b tr : tr ∈ history_rows C w b -> tr ∈ history_rows C w None.
Proof. intros ([Hw _] & Hr)%elem_of_history. by apply elem_of_history. Qed.

Lemma distinct_narrow C C' w b :
  db_inv C -> grows C C' -> distinct_times (history_rows C' w None) ->
  distinct_times (history_rows C w b).
Proof.
  intros Hi Hg. unfold distinct_times.
  assert (history_rows C w b ⊆+ history_rows C' w None) as Hsub.
  { apply NoDup_submseteq; [by apply history_NoDup|]. intros tr Htr.
    by eapply history_grows, history_narrow. }
  apply submseteq_Permutation in Hsub as [rest ->]. rewrite fmap_app.
  by intros [? _]%NoDup_app.
Qed.

(** ** A client that follows the cursors

    It reads a page and at most [more] after it; the answer is the rows read and
    the cursor to go on from, if any. *)
Fixpoint follow (more : nat) (wallet : string) (limit : Z) (before : option Time)
  : svc (result (list Transfer * option Time)) :=
  page ←? ListTransfersByWallet transferSvc wallet limit before;
  match more, page with
  | S more', (rows, Some cursor) =>
      rest ←? follow more' wallet limit (Some cursor);
      Ret (Ok (rows ++ fst rest, snd rest))
  | _, _ => Ret (Ok page)
  end.

(** What the walk has passed by the time its cursor is [next]. *)
Definition passed (next : option Time) (tr : Transfer) : Prop :=
  match next with None => True | Some c => c <= Transfer_CreatedAt tr end.

Section follow.
Variables (C0 : tables) (w : string).

(** The rows read between [before] and [next], at a moment when [C] is
    committed. *)
Record read_rows (before next : option Time) (rows : list Transfer) (C : tables) : Prop := {
  read_sorted : StronglySorted history_order rows;
  read_once : NoDup rows;
  read_between : Forall (fun tr => before_of before tr /\ passed next tr) rows;
  read_committed : Forall (fun tr => shows_transfer C tr /\
    (Transfer_FromWalletID tr = w \/ Transfer_ToWalletID tr = w)) rows;
  read_back : forall b c, before = Some b -> next = Some c -> c <= b;
  read_all : distinct_times (history_rows C w None) ->
    forall tr, tr ∈ history_rows C0 w before -> passed next tr -> tr ∈ rows
}.

Lemma read_grows before next rows C C' :
  db_inv C -> grows C C' -> read_rows before next rows C -> read_rows before next rows C'.
Proof.
  intros Hi Hg [Hs Hn Hb Hc Hk Ha]. split; [done..| |done|].
  - eapply Forall_impl; [done|]. intros tr [? ?]. split; [by eapply shows_transfer_grows|done].
  - intros Hd. apply Ha. by eapply distinct_narrow.
Qed.

(** One page. *)
Lemma read_page limit before C rows :
  db_inv C -> grows C0 C ->
  rows = take (page_size limit) (history_rows C w before) ->
  read_rows before (next_cursor rows (clamp_limit limit)) rows C.
Proof.
  intros Hi Hg ->. pose proof (clamp_range limit) as Hl.
  set (h := history_rows C w before).
  assert (StronglySorted history_order h) as Hs by apply history_sorted.
  assert (forall tr, tr ∈ take (page_size limit) h -> tr ∈ h) as Hin.
  { intros tr Htr. apply elem_of_take in Htr as (n & Hn & _). by eapply list_elem_of_lookup_2. }
  assert (Forall (fun tr => passed (next_cursor (take (page_size limit) h) (clamp_limit limit)) tr)
    (take (page_size limit) h) /\ (distinct_times h -> forall tr, tr ∈ h ->
    passed (next_cursor (take (page_size limit) h) (clamp_limit limit)) tr ->
    tr ∈ take (page_size limit) h)) as [Hp Hc].
  { rewrite next_cursor_page. case_decide as Hfull; [rewrite take_ge by lia; split; auto; by apply Forall_true|].
    assert (page_size limit = Datatypes.S (page_size limit - 1)) as Hsz by (unfold page_size; lia).
    destruct (h !! (page_size limit - 1)%nat) as [x|] eqn:Hx;
      [|apply lookup_ge_None in Hx; lia]. simpl. split.
    - rewrite Hsz. by apply take_newer.
    - intros Hd tr Htr Hge. rewrite <- (take_drop (page_size limit) h) in Htr.
      apply elem_of_app in Htr as [?|Htr]; [done|]. rewrite Hsz in Htr.
      rewrite <- (filter_after_page _ _ _ Hs Hd Hx) in Htr.
      apply list_elem_of_filter in Htr as [? _]. lia. }
  split.
  - apply (StronglySorted_app_1_l _ _ (drop (page_size limit) h)). by rewrite take_drop.
  - eapply sublist_NoDup; [by apply history_NoDup|apply sublist_take].
  - rewrite Forall_forall in Hp |- *. intros tr Htr. split; [|auto].
    apply Hin, elem_of_history in Htr as [[_ Hb] _]. by destruct before.
  - apply Forall_forall. intros tr Htr. by eapply shows_history, Hin.
  - intros b c -> Hc'. unfold next_cursor in Hc'. case_decide; [|done].
    apply fmap_Some in Hc' as (x & Hx & ->). apply last_Some_elem_of, Hin in Hx.
    apply elem_of_history in Hx as [[_ Hx] _]. lia.
  - intros Hd tr Htr. apply Hc; [by eapply distinct_narrow|]. by eapply history_grows.
Qed.

(** The pages after the first. *)
Lemma read_append before c next rows rest C :
  read_rows before (Some c) rows C -> read_rows (Some c) next rest C ->
  read_rows before next (rows ++ rest) C.
Proof.
  intros [Hs1 Hn1 Hb1 Hc1 Hk1 Ha1] [Hs2 Hn2 Hb2 Hc2 Hk2 Ha2].
  rewrite Forall_forall in Hb1, Hb2. simpl in *.
  assert (forall x y, x ∈ rows -> y ∈ rest -> Transfer_CreatedAt y < Transfer_CreatedAt x) as Hlt.
  { intros x y Hx Hy. destruct (Hb1 x Hx), (Hb2 y Hy). lia. }
  split.
  - apply StronglySorted_app_2; try done. intros x y Hx Hy. left. auto.
  - apply NoDup_app. split_and!; [done| |done]. intros x Hx Hx'.
    specialize (Hlt x x Hx Hx'). lia.
  - apply Forall_forall. intros tr [Htr|Htr]%elem_of_app.
    + destruct (Hb1 tr Htr). split; [done|]. destruct next as [c'|]; [|done].
      specialize (Hk2 c c' eq_refl eq_refl). simpl. lia.
    + destruct (Hb2 tr Htr). split; [|done]. destruct before as [b|]; [|done].
      specialize (Hk1 b c eq_refl eq_refl). simpl. lia.
  - by apply Forall_app.
  - intros b c' Hb ->. specialize (Hk1 b c Hb eq_refl). specialize (Hk2 c c' eq_refl eq_refl). lia.
  - intros Hd tr Htr Hp. apply elem_of_app.
    destruct (decide (c <= Transfer_CreatedAt tr)); [left; auto|right]. apply Ha2; [done| |done].
    apply elem_of_history in Htr as [[Hw _] Hr]. apply elem_of_history.
    split; [|done]. split; [done|]. simpl. lia.
Qed.

(** *** Among other requests *)

Definition followed (before : option Time) (r : result (list Transfer * option Time)) (C : tables)
    (T : option txn) : Prop :=
  T = None /\
  match r with Ok (rows, next) => read_rows before next rows C | Err _ => True end.

Lemma followed_ret before rows next C :
  db_inv C -> read_rows before next rows C -> wp (Ret (Ok (rows, next))) C None (followed before).
Proof.
  intros Hi H. apply wp_ret. intros C' HR. split; [done|]. eapply read_grows; [done|apply HR|done].
Qed.

Lemma wp_page {B} (f : _ -> svc (result B)) limit before C Q :
  grows C0 C -> (forall e C', wp (Ret (Err e)) C' None Q) ->
  (forall rows C', rely ∅ C C' -> read_rows before (next_cursor rows (clamp_limit limit)) rows C' ->
     wp (f (rows, next_cursor rows (clamp_limit limit))) C' None Q) ->
  wp (try_bind f (ListTransfersByWallet transferSvc w limit before)) C None Q.
Proof.
  intros Hg Herr H. pose proof (clamp_range limit) as Hl. unfold ListTransfersByWallet.
  case_decide; [apply Herr|]. apply wp_db_query; [done| |by intros [] C'; apply Herr|].
  - intros now seq t. simpl. unfold sql_check. by case_bool_decide.
  - intros C1 now seq HR1. simpl. unfold sql_check. rewrite bool_decide_eq_true_2 by lia. simpl.
    apply H; [done|]. apply read_page; [apply HR1| |done]. etrans; [done|apply HR1].
Qed.

Lemma wp_follow more limit before C :
  grows C0 C -> wp (follow more w limit before) C None (followed before).
Proof.
  revert before C. induction more as [|more IH]; intros before C Hg; cbn [follow];
    (apply wp_page; [done|intros e C'; by apply wp_ret|]; intros rows C1 HR1 Hrows).
  - apply followed_ret; [apply HR1|done].
  - destruct (next_cursor rows (clamp_limit limit)) as [c|]; [|apply followed_ret; [apply HR1|done]].
    apply wp_try_bind. eapply wp_mono; [|apply wp_settled, wp_grows, IH; etrans; [done|apply HR1]].
    intros [[rest next]|e] C2 T (Hi2 & Hg2 & -> & Hrest); [|done].
    apply followed_ret; [done|]. eapply read_append; [|done]. eapply read_grows; [|done..]. apply HR1.
Qed.
End follow.

(** ** Walks and requests at once *)

Inductive visit : Type :=
| Request (a : api)
| Walk (more : nat) (wallet : string) (limit : Z).

Inductive visited : Type :=
| Replied (r : reply)
| Walked (r : result (list Transfer * option Time)).

Definition visit_prog (v : visit) : svc visited :=
  match v with
  | Request a => r ← serve a; Ret (Replied r)
  | Walk more w limit => r ← follow more w limit None; Ret (Walked r)
  end.

(** A walk starts on tables that [C0] has grown to. *)
Definition visit_ok (C0 : tables) (v : visit) (C : tables) : Prop :=
  match v with Request a => api_ok a | Walk _ _ _ => grows C0 C end.

Definition visit_post (C0 : tables) (v : visit) (r : visited) (C : tables) (T : option txn) : Prop :=
  T = None /\
  match v, r with
  | Request a, Replied r => reply_post a r C None
  | Walk _ w _, Walked r => followed C0 w None r C None
  | _, _ => False
  end.

Lemma wp_visit C0 v C : visit_ok C0 v C -> wp (visit_prog v) C None (visit_post C0 v).
Proof.
  intros Hv. destruct v as [a|more w limit]; apply wp_bind.
  - eapply wp_mono; [|apply wp_close, wp_serve, Hv]. intros r C1 T H. apply wp_ret.
    intros C2 HR. pose proof (H C2 HR) as Hr. assert (T = None) as -> by apply Hr. done.
  - eapply wp_mono; [|apply wp_close, wp_follow, Hv]. intros r C1 T H. apply wp_ret.
    intros C2 HR. pose proof (H C2 HR) as Hr. assert (T = None) as -> by apply Hr. done.
Qed.

Definition walk_workload (C0 : tables) : Workload visit visited := {|
  wl_prog := visit_prog;
  wl_ok := visit_ok C0;
  wl_post := visit_post C0;
  wl_spec := wp_visit C0;
  wl_closed v r C T H := proj1 H
|}.

(** C32: walks among other requests.  A client that follows the cursors of a
    wallet's history while any other requests run, with any faults, gets
    committed transfers of the wallet only, each once, newest first.  When no
    two transfers of the wallet share a creation time it gets every transfer
    committed when it started, down to the cursor it stopped at, and all of
    them once there is no cursor left, whatever was created meanwhile. *)
Theorem walk_among_requests pool t seq vs c i more w limit rows next :
  db_inv t -> Forall (fun v => visit_ok t v t) vs ->
  reachable (WL := walk_workload t) pool t seq vs c -> vs !! i = Some (Walk more w limit) ->
  answered c i (Walked (Ok (rows, next))) ->
  StronglySorted history_order rows /\ NoDup rows /\
  Forall (fun tr => shows_transfer (committed c) tr /\
    (Transfer_FromWalletID tr = w \/ Transfer_ToWalletID tr = w)) rows /\
  (distinct_times (history_rows (committed c) w None) ->
   forall tr, tr ∈ history_rows t w None -> passed next tr -> tr ∈ rows).
Proof.
  intros Hi Hv Hc Hw Ha.
  pose proof (reachable_conf_ok (WL := walk_workload t) _ _ _ _ _ Hi Hv Hc) as Hok.
  destruct (answered_post _ _ _ _ Hok Ha) as (v & Hv' & [_ Hp] & _). simplify_eq.
  destruct Hp as [_ []]. auto.
Qed.

(** Alice's history is read page by page while she pays again: the new transfer
    is newer than the cursor and not on the walk; the old one is. *)
Definition walk_visits : list visit :=
  [Walk 5 alice 1; Request (CreateTransfer (pay "k2" 5))].
Definition walk_schedule : list (nat * choice) := moves 0 200 1 ++ moves 1 210 19 ++ moves 0 300 1.
Definition walk_end : config visited :=
  let c := start (WL := walk_workload (sh_db paid_shared)) (sh_db paid_shared) 3 walk_visits in
  default c (run_schedule 1 walk_schedule c).

Lemma walk_end_reachable :
  reachable (WL := walk_workload (sh_db paid_shared)) 1 (sh_db paid_shared) 3 walk_visits walk_end.
Proof. apply reachable_schedule. exists walk_schedule. by vm_compute. Qed.

Lemma walk_end_answer : answered walk_end 0 (Walked (Ok ([race_transfer], None))).
Proof. exists None. by vm_compute. Qed.

Lemma walk_visits_ok t : Forall (fun v => visit_ok t v t) walk_visits.
Proof. repeat apply Forall_cons_2; [by unfold visit_ok|done|apply Forall_nil_2]. Qed.

Example walk_end_history :
  Transfer_Amount <$> history_rows (committed walk_end) alice None = [5; 30].
Proof. by vm_compute. Qed.

Lemma walk_among_requests_witness :
  distinct_times (history_rows (committed walk_end) alice None) /\
  history_rows (sh_db paid_shared) alice None = [race_transfer] /\
  (forall tr, tr ∈ history_rows (sh_db paid_shared) alice None -> tr ∈ [race_transfer]).
Proof.
  assert (distinct_times (history_rows (committed walk_end) alice None)) as Hd.
  { apply (bool_decide_unpack _). by vm_compute. }
  split; [exact Hd|]. split; [by vm_compute|].
  intros tr Htr. apply (walk_among_requests 1 (sh_db paid_shared) 3 walk_visits walk_end 0 5 alice 1
    [race_transfer] None paid_ok (walk_visits_ok _) walk_end_reachable eq_refl walk_end_answer);
    [exact Hd|exact Htr|exact I].
Defined.
