(* ===== verification/Strconv.v ===== *)
(** * strconv: decimal numbers

    [Atoi] and [ParseInt(s, 10, 64)], which agree where [int] has 64 bits, and
    the decimal text of [FormatInt], with the round trip between them. *)

From Stdlib Require Import Ascii.
From S2P Require Import Prelude.

Definition byte (c : ascii) : N := N_of_ascii c.
Definition str1 (c : ascii) : string := String c EmptyString.

Definition between_bytes (lo hi : N) (c : ascii) : bool := (lo <=? byte c)%N && (byte c <=? hi)%N.

Fixpoint all_chars (f : ascii -> bool) (s : string) : bool :=
  match s with
  | EmptyString => true
  | String c s' => f c && all_chars f s'
  end.

Lemma all_chars_app f a b : all_chars f (a +:+ b) = all_chars f a && all_chars f b.
Proof.
  induction a as [|c a IH]; [done|]. change (String c a +:+ b) with (String c (a +:+ b)).
  cbn [all_chars]. by rewrite IH, andb_assoc.
Qed.

Lemma all_chars_weaken (f g : ascii -> bool) s :
  (forall c, f c = true -> g c = true) -> all_chars f s = true -> all_chars g s = true.
Proof.
  intros Hfg. induction s as [|c s IH]; [done|]. simpl. rewrite !andb_true_iff. intros [Hc Hs].
  auto.
Qed.

(** ** Digits *)

Definition digit (n : Z) : ascii := ascii_of_N (48 + Z.to_N n).

Definition digit_value (c : ascii) : option Z :=
  let n := Z.of_N (byte c) - 48 in
  if (0 <=? n) && (n <=? 9) then Some n else None.

(** The digits at the head of a string, read on to [acc], and what follows. *)
Fixpoint read_digits (acc : Z) (s : string) : Z * string :=
  match s with
  | String c s' =>
      match digit_value c with
      | Some d => read_digits (acc * 10 + d) s'
      | None => (acc, s)
      end
  | EmptyString => (acc, s)
  end.

(** At least one digit and nothing else. *)
Definition all_digits (s : string) : option Z :=
  match s with
  | EmptyString => None
  | _ => match read_digits 0 s with (n, EmptyString) => Some n | _ => None end
  end.

(** A sign may come first; out of range is an error. *)
Definition Atoi (s : string) : option Z :=
  n ← match s with
      | String c s' =>
          if (byte c =? 45)%N then Z.opp <$> all_digits s'
          else if (byte c =? 43)%N then all_digits s' else all_digits s
      | EmptyString => None
      end;
  if decide (in_int64 n) then Some n else None.

(** [strconv.FormatInt(n, 10)] *)
Definition Itoa (n : Z) : string := pretty n.

(** ** What reading and writing have to do with each other *)

Lemma app_assoc_string (a b c : string) : (a +:+ b) +:+ c = a +:+ (b +:+ c).
Proof. induction a as [|x a IH]; [done|]. exact (f_equal (String x) IH). Qed.

Lemma app_nil_string (a : string) : a +:+ EmptyString = a.
Proof. induction a as [|x a IH]; [done|]. exact (f_equal (String x) IH). Qed.

Lemma length_app_string (a b : string) :
  String.length (a +:+ b) = (String.length a + String.length b)%nat.
Proof. induction a as [|x a IH]; [done|]. exact (f_equal S IH). Qed.

Lemma digit_value_digit n : 0 <= n < 10 -> digit_value (digit n) = Some n.
Proof.
  intros Hn. unfold digit_value, digit, byte. rewrite N_ascii_embedding by lia.
  rewrite N2Z.inj_add, Z2N.id by lia.
  replace (Z.of_N 48 + n - 48) with n by lia.
  destruct (0 <=? n) eqn:E1, (n <=? 9) eqn:E2; try lia. done.
Qed.

Lemma digit_value_range c d : digit_value c = Some d -> 0 <= d <= 9.
Proof. unfold digit_value. case_match eqn:E; intros [= <-]. lia. Qed.

(** stdpp's decimal digits are these. *)
Lemma pretty_digit n : (n < 10)%N -> pretty_N_char n = digit (Z.of_N n).
Proof.
  intros H. pose proof (forall_below (fun z => bool_decide (pretty_N_char (Z.to_N z) = digit z)) 10
    eq_refl (Z.of_N n) ltac:(lia)) as Hz.
  apply bool_decide_eq_true in Hz. by rewrite N2Z.id in Hz.
Qed.

(** The digits of [n] in front of [s] read as [n], and the first is not 0. *)
Lemma pretty_N_go_read n s :
  read_digits 0 (pretty_N_go n s) = read_digits (Z.of_N n) s /\
  ((0 < n)%N -> exists d s', 0 < d < 10 /\ pretty_N_go n s = String (digit d) s').
Proof.
  revert s. induction n as [n IH] using (well_founded_induction N.lt_wf_0). intros s.
  destruct (decide (n = 0)%N) as [->|Hn]; [by rewrite pretty_N_go_0|].
  rewrite pretty_N_go_step by lia. rewrite pretty_digit by (by apply N.mod_lt).
  pose proof (N.div_mod n 10 ltac:(done)) as Hdiv. pose proof (N.mod_lt n 10 ltac:(done)) as Hmod.
  assert (n / 10 < n)%N as Hlt by (apply N.div_lt; lia).
  set (q := (n / 10)%N) in *. set (r := (n mod 10)%N) in *. clearbody q r.
  destruct (IH q Hlt (String (digit (Z.of_N r)) s)) as [Hr Hd]. split.
  - rewrite Hr. cbn [read_digits]. rewrite digit_value_digit by lia. f_equal. lia.
  - intros _. destruct (decide (q = 0)%N) as [E|E]; [|apply Hd; lia].
    rewrite E, pretty_N_go_0. exists (Z.of_N r), s. split; [lia|done].
Qed.

Lemma pretty_N_go_app n s t : pretty_N_go n (s +:+ t) = pretty_N_go n s +:+ t.
Proof.
  revert s. induction n as [n IH] using (well_founded_induction N.lt_wf_0). intros s.
  destruct (decide (n = 0)%N) as [->|Hn]; [by rewrite !pretty_N_go_0|].
  rewrite !(pretty_N_go_step n) by lia.
  apply (IH (n / 10)%N ltac:(apply N.div_lt; lia) (String _ s)).
Qed.

Lemma pretty_N_pos n : (0 < n)%N -> pretty n = pretty_N_go n EmptyString.
Proof. intros. unfold pretty, pretty_N. by rewrite decide_False by lia. Qed.

(** The text of a positive number starts with a digit other than 0, and reads
    back. *)
Lemma pretty_pos z s :
  0 < z ->
  read_digits 0 (pretty z +:+ s) = read_digits z s /\
  exists d s', 0 < d < 10 /\ pretty z = String (digit d) s'.
Proof.
  intros Hz. destruct z as [|p|p]; [lia| |lia].
  change (pretty (Z.pos p)) with (pretty (N.pos p)). rewrite pretty_N_pos by lia.
  rewrite <- pretty_N_go_app. change (EmptyString +:+ s) with s. destruct (pretty_N_go_read (N.pos p) s) as [-> _].
  destruct (pretty_N_go_read (N.pos p) EmptyString) as [_ H]. split; [done|]. apply H. lia.
Qed.

Lemma pretty_neg z : z < 0 -> pretty z = "-" +:+ pretty (- z).
Proof. by destruct z. Qed.

(** [s] does not start with a digit. *)
Definition ends_digits (s : string) : Prop := forall z, read_digits z s = (z, s).

Lemma ends_digits_nil : ends_digits EmptyString.
Proof. done. Qed.

Lemma digit_byte d : 0 <= d < 10 -> byte (digit d) = (48 + Z.to_N d)%N.
Proof. intros. unfold byte, digit. apply N_ascii_embedding. lia. Qed.

Lemma all_digits_pretty z : 0 <= z -> all_digits (pretty z) = Some z.
Proof.
  intros Hz. destruct (decide (z = 0)) as [->|]; [done|].
  destruct (pretty_pos z EmptyString ltac:(lia)) as (Hr & d & s' & Hd & E).
  rewrite app_nil_string in Hr. unfold all_digits. rewrite E in *. by rewrite Hr.
Qed.

Lemma Atoi_minus s :
  Atoi (String "-"%char s) =
  n ← Z.opp <$> all_digits s; if decide (in_int64 n) then Some n else None.
Proof. done. Qed.

Lemma Atoi_digit d s :
  0 <= d < 10 ->
  Atoi (String (digit d) s) =
  n ← all_digits (String (digit d) s); if decide (in_int64 n) then Some n else None.
Proof.
  intros. unfold Atoi. rewrite digit_byte by lia.
  destruct (N.eqb_spec (48 + Z.to_N d) 45) as [?|_]; [lia|].
  by destruct (N.eqb_spec (48 + Z.to_N d) 43) as [?|_]; [lia|].
Qed.

(** [Atoi] reads what [Itoa] writes. *)
Lemma Atoi_Itoa z : in_int64 z -> Atoi (Itoa z) = Some z.
Proof.
  intros Hz. unfold Itoa.
  destruct (decide (z < 0)) as [Hn|Hn].
  - rewrite (pretty_neg z Hn). change ("-" +:+ ?s) with (String "-"%char s).
    rewrite Atoi_minus, all_digits_pretty by lia.
    cbn -[in_int64]. rewrite Z.opp_involutive. by case_decide.
  - destruct (decide (z = 0)) as [->|]; [by vm_compute|].
    destruct (pretty_pos z EmptyString ltac:(lia)) as (_ & d & s' & Hd & E).
    pose proof (all_digits_pretty z ltac:(lia)) as Ha. rewrite E in *.
    rewrite Atoi_digit, Ha by lia. cbn -[in_int64]. by case_decide.
Qed.

(** Decimal text is made of digits and a sign. *)
Lemma pretty_N_go_chars f n s :
  (forall d, 0 <= d < 10 -> f (digit d) = true) -> all_chars f s = true ->
  all_chars f (pretty_N_go n s) = true.
Proof.
  intros Hf. revert s. induction n as [n IH] using (well_founded_induction N.lt_wf_0). intros s Hs.
  destruct (decide (n = 0)%N) as [->|Hn]; [by rewrite pretty_N_go_0|].
  rewrite pretty_N_go_step by lia. pose proof (N.mod_lt n 10 ltac:(done)) as Hmod.
  apply (IH (n / 10)%N ltac:(apply N.div_lt; lia)). simpl.
  set (r := (n mod 10)%N) in *. clearbody r. rewrite pretty_digit by done. by rewrite Hf by lia.
Qed.

Lemma Itoa_chars f z :
  (forall d, 0 <= d < 10 -> f (digit d) = true) -> 0 <= z -> all_chars f (Itoa z) = true.
Proof.
  intros Hf Hz. unfold Itoa. destruct z as [|p|p]; [|change (pretty (Z.pos p)) with (pretty (N.pos p))|lia].
  - change (pretty 0) with (String (digit 0) EmptyString). cbn [all_chars]. by rewrite (Hf 0).
  - rewrite pretty_N_pos by lia. by apply pretty_N_go_chars.
Qed.
