(* ===== verification/GoTime.v ===== *)
(** * time: UTC formatting and RFC 3339 parsing

    The two layouts the handlers write and the one they read.  A [Time] is in
    microseconds since the Unix epoch (what a TIMESTAMPTZ column holds); a
    parsed cursor is truncated to microseconds, as the driver does when it
    sends it. *)

From Stdlib Require Import Ascii.
From S2P Require Import Prelude GoRuntime Domain Strconv.

(** ** The civil calendar *)

(** Days since 1970-01-01 to year, month, day, by eras of 400 years that start
    on the first of March. *)
Definition era_days : Z := 146097.

Definition civil_of_era_day (doe : Z) : Z * Z * Z :=
  let yoe := (doe - doe / 1460 + doe / 36524 - doe / 146096) / 365 in
  let doy := doe - (365 * yoe + yoe / 4 - yoe / 100) in
  let mp := (5 * doy + 2) / 153 in
  let d := doy - (153 * mp + 2) / 5 + 1 in
  let m := if mp <? 10 then mp + 3 else mp - 9 in
  (if m <=? 2 then yoe + 1 else yoe, m, d).

Definition civil_of_days (days : Z) : Z * Z * Z :=
  let z := days + 719468 in
  let '(y, m, d) := civil_of_era_day (z mod era_days) in
  (y + z / era_days * 400, m, d).

Definition days_of_civil (y m d : Z) : Z :=
  let y' := if m <=? 2 then y - 1 else y in
  let yoe := y' mod 400 in
  let doy := (153 * (if 2 <? m then m - 3 else m + 9) + 2) / 5 + d - 1 in
  y' / 400 * era_days + (yoe * 365 + yoe / 4 - yoe / 100 + doy) - 719468.

Definition leap (y : Z) : bool := (y mod 4 =? 0) && (negb (y mod 100 =? 0) || (y mod 400 =? 0)).

Definition days_in (m y : Z) : Z :=
  if m =? 2 then if leap y then 29 else 28
  else if (m =? 4) || (m =? 6) || (m =? 9) || (m =? 11) then 30 else 31.

(** ** Formatting *)

(** [n] with at least [w] digits; the fields here have at most [w]. *)
Fixpoint pad_digits (w : nat) (n : Z) : string :=
  match w with
  | O => EmptyString
  | S w' => pad_digits w' (n / 10) +:+ String (digit (n mod 10)) EmptyString
  end.

Definition micros_per_day : Z := 86400000000.

(** [2006-01-02T15:04:05], for years 0 to 9999. *)
Definition format_seconds (t : Time) : string :=
  let '(y, m, d) := civil_of_days (t / micros_per_day) in
  let s := t mod micros_per_day / 1000000 in
  pad_digits 4 y +:+ "-" +:+ pad_digits 2 m +:+ "-" +:+ pad_digits 2 d +:+ "T" +:+
  pad_digits 2 (s / 3600) +:+ ":" +:+ pad_digits 2 (s / 60 mod 60) +:+ ":" +:+
  pad_digits 2 (s mod 60).

(** [t.UTC().Format("2006-01-02T15:04:05.000Z")] *)
Definition format_millis (t : Time) : string :=
  format_seconds t +:+ "." +:+ pad_digits 3 (t mod 1000000 / 1000) +:+ "Z".

(** The [.999999999] of a layout: no trailing zeros, no dot without digits. *)
Fixpoint trim_zeros (w : nat) (n : Z) : nat * Z :=
  match w with
  | O => (O, n)
  | S w' => if n mod 10 =? 0 then trim_zeros w' (n / 10) else (w, n)
  end.

Definition format_fraction (n : Z) : string :=
  match trim_zeros 6 n with
  | (O, _) => EmptyString
  | (w, n') => "." +:+ pad_digits w n'
  end.

(** [t.UTC().Format(time.RFC3339Nano)] *)
Definition format_nano (t : Time) : string :=
  format_seconds t +:+ format_fraction (t mod 1000000) +:+ "Z".

(** ** Parsing: [time.Parse(time.RFC3339Nano, s)] *)

(** Exactly [w] digits. *)
Fixpoint take_digits (w : nat) (acc : Z) (s : string) : option (Z * string) :=
  match w, s with
  | O, _ => Some (acc, s)
  | S w', String c s' =>
      d ← digit_value c; take_digits w' (acc * 10 + d) s'
  | S _, EmptyString => None
  end.

(** [getnum(value, false)]: two digits or one. *)
Definition take_hour (s : string) : option (Z * string) :=
  match take_digits 2 0 s with
  | Some r => Some r
  | None => take_digits 1 0 s
  end.

Definition take_char (c : string) (s : string) : option string :=
  match c, s with
  | String x _, String y s' => if Ascii.eqb x y then Some s' else None
  | _, _ => None
  end.

(** The digits of a fraction, as nanoseconds: the first nine count. *)
Fixpoint fraction_digits (s : string) : list Z * string :=
  match s with
  | String c s' =>
      match digit_value c with
      | Some d => let '(ds, rest) := fraction_digits s' in (d :: ds, rest)
      | None => ([], s)
      end
  | EmptyString => ([], s)
  end.

Fixpoint nanos (w : nat) (ds : list Z) : Z :=
  match w with
  | O => 0
  | S w' => match ds with
            | [] => 0
            | d :: ds' => d * 10 ^ Z.of_nat w' + nanos w' ds'
            end
  end.

(** An absent fraction is zero; a comma is as good as a period. *)
Definition take_fraction (s : string) : Z * string :=
  match s with
  | String c s' =>
      if Ascii.eqb c "."%char || Ascii.eqb c ","%char then
        match fraction_digits s' with
        | ([], _) => (0, s)
        | (ds, rest) => (nanos 9 ds, rest)
        end
      else (0, s)
  | EmptyString => (0, s)
  end.

(** [Z] or an offset [+hh:mm], in seconds. *)
Definition take_zone (s : string) : option (Z * string) :=
  match s with
  | String c s' =>
      if Ascii.eqb c "Z"%char then Some (0, s')
      else
        sign ← (if Ascii.eqb c "+"%char then Some 1
                else if Ascii.eqb c "-"%char then Some (-1) else None);
        '(hh, s1) ← take_digits 2 0 s';
        s2 ← take_char ":" s1;
        '(mm, s3) ← take_digits 2 0 s2;
        if (24 <? hh) || (60 <? mm) then None else Some (sign * (hh * 3600 + mm * 60), s3)
  | EmptyString => None
  end.

Definition parse_nano (s : string) : option Time :=
  '(y, s) ← take_digits 4 0 s; s ← take_char "-" s;
  '(m, s) ← take_digits 2 0 s; s ← take_char "-" s;
  '(d, s) ← take_digits 2 0 s; s ← take_char "T" s;
  '(hh, s) ← take_hour s; s ← take_char ":" s;
  '(mi, s) ← take_digits 2 0 s; s ← take_char ":" s;
  '(ss, s) ← take_digits 2 0 s;
  let '(ns, s) := take_fraction s in
  '(offset, s) ← take_zone s;
  if negb (String.eqb s EmptyString) then None
  else if (m <=? 0) || (12 <? m) || (24 <=? hh) || (60 <=? mi) || (60 <=? ss)
          || (d <? 1) || (days_in m y <? d) then None
  else Some (((days_of_civil y m d * 86400 + hh * 3600 + mi * 60 + ss - offset) * 1000000)
             + ns / 1000).

(** ** The calendar round trip *)

Definition era_year (doe : Z) : Z :=
  (doe - doe / 1460 + doe / 36524 - doe / 146096) / 365.
Definition year_day (doe : Z) : Z :=
  doe - (365 * era_year doe + era_year doe / 4 - era_year doe / 100).

Lemma era_year_range doe :
  0 <= doe < era_days -> 0 <= era_year doe < 400 /\ 0 <= year_day doe <= 365.
Proof.
  unfold year_day, era_year, era_days. intros. Z.to_euclidean_division_equations. lia.
Qed.

Lemma leap_true y :
  y mod 4 = 0 -> (y mod 100 <> 0 \/ y mod 400 = 0) -> leap y = true.
Proof.
  unfold leap. intros H4 H. apply andb_true_iff. split; [lia|]. apply orb_true_iff.
  rewrite negb_true_iff. lia.
Qed.

(** The 366th day of a year that starts in March is a leap day. *)
Lemma year_day_leap doe :
  0 <= doe < era_days -> year_day doe = 365 -> leap (era_year doe + 1) = true.
Proof.
  unfold year_day, era_year, era_days. intros.
  apply leap_true; Z.to_euclidean_division_equations; lia.
Qed.

Lemma month_day doy :
  0 <= doy <= 365 ->
  let mp := (5 * doy + 2) / 153 in
  0 <= mp <= 11 /\ 1 <= doy - (153 * mp + 2) / 5 + 1 <= 31 /\
  (mp = 1 \/ mp = 3 \/ mp = 6 \/ mp = 8 -> doy - (153 * mp + 2) / 5 + 1 <= 30) /\
  (mp = 11 -> doy - (153 * mp + 2) / 5 + 1 = doy - 336).
Proof. intros H mp. unfold mp. clear mp. Z.to_euclidean_division_equations. lia. Qed.

Lemma era_day_spec doe :
  0 <= doe < era_days ->
  let '(y, m, d) := civil_of_era_day doe in
  (1 <= m <= 12 /\ 1 <= d <= days_in m y) /\ days_of_civil y m d = doe - 719468.
Proof.
  intros Hd. destruct (era_year_range doe Hd) as [Hy Hdoy].
  pose proof (year_day_leap doe Hd) as Hleap.
  unfold civil_of_era_day. fold (era_year doe). fold (year_day doe).
  destruct (month_day (year_day doe) Hdoy) as (Hmp & Hday & H30 & H11).
  assert (365 * era_year doe + era_year doe / 4 - era_year doe / 100 + year_day doe = doe) as Hdoe
    by (unfold year_day; lia).
  set (mp := (5 * year_day doe + 2) / 153) in *. clearbody mp.
  set (yoe := era_year doe) in *. set (doy := year_day doe) in *.
  set (d := doy - (153 * mp + 2) / 5 + 1) in *.
  assert (days_of_civil (if (if mp <? 10 then mp + 3 else mp - 9) <=? 2 then yoe + 1 else yoe)
            (if mp <? 10 then mp + 3 else mp - 9) d = doe - 719468) as Hcivil.
  { unfold days_of_civil. destruct (mp <? 10) eqn:E.
    - replace (mp + 3 <=? 2) with false by lia. replace (2 <? mp + 3) with true by lia.
      rewrite Z.mod_small, Z.div_small by lia. replace (mp + 3 - 3) with mp by lia.
      unfold era_days, d. lia.
    - replace (mp - 9 <=? 2) with true by lia. replace (2 <? mp - 9) with false by lia.
      replace (yoe + 1 - 1) with yoe by lia. rewrite Z.mod_small, Z.div_small by lia.
      replace (mp - 9 + 9) with mp by lia. unfold era_days, d. lia. }
  split; [|done]. split; [destruct (mp <? 10) eqn:E; lia|]. split; [lia|].
  clear Hcivil. unfold days_in. clearbody d yoe doy.
  pose proof (below_elem 12 mp ltac:(lia)) as Hcases.
  rewrite list_elem_of_In in Hcases. vm_compute in Hcases.
  destruct_or! Hcases; subst mp; cbn [Z.ltb Z.compare Pos.compare Pos.compare_cont];
    repeat case_match; try lia.
  destruct (decide (doy = 365)) as [E|]; [|lia]. specialize (Hleap E). congruence.
Qed.

Lemma leap_era y k : leap (y + k * 400) = leap y.
Proof.
  unfold leap.
  assert ((y + k * 400) mod 4 = y mod 4) as ->
    by (replace (k * 400) with (k * 100 * 4) by lia; apply Z.mod_add; lia).
  assert ((y + k * 400) mod 100 = y mod 100) as ->
    by (replace (k * 400) with (k * 4 * 100) by lia; apply Z.mod_add; lia).
  by rewrite Z.mod_add.
Qed.

Lemma days_in_era m y k : days_in m (y + k * 400) = days_in m y.
Proof. unfold days_in. by rewrite leap_era. Qed.

Lemma days_of_civil_era y m d k :
  days_of_civil (y + k * 400) m d = days_of_civil y m d + k * era_days.
Proof.
  unfold days_of_civil. destruct (m <=? 2).
  - replace (y + k * 400 - 1) with (y - 1 + k * 400) by lia.
    rewrite Z.mod_add, Z.div_add by lia. lia.
  - rewrite Z.mod_add, Z.div_add by lia. lia.
Qed.

Lemma civil_of_days_spec days :
  let '(y, m, d) := civil_of_days days in
  1 <= m <= 12 /\ 1 <= d <= days_in m y /\ days_of_civil y m d = days.
Proof.
  unfold civil_of_days. pose proof (Z.mod_pos_bound (days + 719468) era_days) as Hmod.
  pose proof (era_day_spec ((days + 719468) mod era_days)) as H.
  destruct (civil_of_era_day _) as [[y m] d].
  destruct H as [[Hm Hd] Hday]; [unfold era_days in *; lia|].
  rewrite days_in_era, days_of_civil_era, Hday. split_and!; try lia.
  pose proof (Z.div_mod (days + 719468) era_days). unfold era_days in *. lia.
Qed.

(** ** Digits *)

Lemma take_digits_add a b acc s :
  take_digits (a + b) acc s = '(x, s') ← take_digits a acc s; take_digits b x s'.
Proof.
  revert acc s. induction a as [|a IH]; intros acc s; [done|].
  destruct s as [|c s]; [done|]. simpl. destruct (digit_value c); [|done]. apply IH.
Qed.

Lemma take_pad w n s acc :
  0 <= n < 10 ^ Z.of_nat w ->
  take_digits w acc (pad_digits w n +:+ s) = Some (acc * 10 ^ Z.of_nat w + n, s).
Proof.
  revert n s acc. induction w as [|w IH]; intros n s acc Hn.
  - simpl in *. do 2 f_equal. lia.
  - replace (S w) with (w + 1)%nat by lia. rewrite take_digits_add.
    replace (w + 1)%nat with (S w) by lia. cbn [pad_digits]. rewrite app_assoc_string.
    rewrite Nat2Z.inj_succ, Z.pow_succ_r in * by lia.
    pose proof (Z.mod_pos_bound n 10). pose proof (Z.div_mod n 10).
    rewrite IH by (split; [apply Z.div_pos; lia|apply Z.div_lt_upper_bound; lia]).
    change (String (digit (n mod 10)) EmptyString +:+ s) with (String (digit (n mod 10)) s).
    cbn [mbind option_bind take_digits]. rewrite digit_value_digit by lia.
    cbn [mbind option_bind]. do 2 f_equal. lia.
Qed.

(** ** The round trip *)

Lemma take_pad_field w n s :
  0 <= n < 10 ^ Z.of_nat w -> take_digits w 0 (pad_digits w n +:+ s) = Some (n, s).
Proof. intros. by rewrite take_pad. Qed.

Lemma take_char_self c s : take_char (String c EmptyString) (String c EmptyString +:+ s) = Some s.
Proof. simpl. by rewrite Ascii.eqb_refl. Qed.

Lemma trim_zeros_spec w n :
  0 <= n < 10 ^ Z.of_nat w ->
  let '(v, n') := trim_zeros w n in
  (v <= w)%nat /\ 0 <= n' < 10 ^ Z.of_nat v /\ n = n' * 10 ^ Z.of_nat (w - v).
Proof.
  revert n. induction w as [|w IH]; intros n Hn; simpl; [simpl in *; lia|].
  rewrite Nat2Z.inj_succ, Z.pow_succ_r in Hn by lia.
  destruct (n mod 10 =? 0) eqn:E.
  - pose proof (Z.div_mod n 10). specialize (IH (n / 10)). destruct (trim_zeros w (n / 10)) as [v n'].
    destruct IH as (Hv & Hn' & Hd); [split; [apply Z.div_pos; lia|apply Z.div_lt_upper_bound; lia]|].
    split_and!; try lia. replace (S w - v)%nat with (S (w - v)) by lia.
    rewrite Nat2Z.inj_succ, Z.pow_succ_r by lia. lia.
  - replace (S w - S w)%nat with 0%nat by lia. rewrite Nat2Z.inj_succ, Z.pow_succ_r by lia.
    simpl. lia.
Qed.

(** The digits of a padded number, read as a fraction. *)
Lemma fraction_digits_pad w n s :
  0 <= n < 10 ^ Z.of_nat w -> fraction_digits s = ([], s) ->
  exists ds, fraction_digits (pad_digits w n +:+ s) = (ds, s) /\ length ds = w /\
    forall k, (w <= k)%nat -> nanos k ds = n * 10 ^ Z.of_nat (k - w).
Proof.
  intros Hn Hs.
  assert (forall w n s' ds', 0 <= n < 10 ^ Z.of_nat w -> fraction_digits s' = (ds', s) ->
    exists ds, fraction_digits (pad_digits w n +:+ s') = (ds ++ ds', s) /\ length ds = w /\
      forall k, (w <= k)%nat -> nanos k (ds ++ ds') = n * 10 ^ Z.of_nat (k - w) + nanos (k - w) ds')
    as Hgen.
  { clear w n Hn. intros w. induction w as [|w IH]; intros n s' ds' Hn Hs'.
    - exists []. simpl in *. split_and!; [done|done|]. intros k _. rewrite Nat.sub_0_r. lia.
    - rewrite Nat2Z.inj_succ, Z.pow_succ_r in Hn by lia.
      pose proof (Z.mod_pos_bound n 10). pose proof (Z.div_mod n 10).
      cbn [pad_digits]. rewrite app_assoc_string.
      change (String (digit (n mod 10)) EmptyString +:+ s') with (String (digit (n mod 10)) s').
      destruct (IH (n / 10) (String (digit (n mod 10)) s') (n mod 10 :: ds'))
        as (ds & Hds & Hlen & Hval).
      + split; [apply Z.div_pos; lia|apply Z.div_lt_upper_bound; lia].
      + cbn [fraction_digits]. rewrite digit_value_digit by lia. by rewrite Hs'.
      + exists (ds ++ [n mod 10]). rewrite <- app_assoc. split_and!; [done| |].
        * rewrite length_app. simpl. lia.
        * intros k Hk. cbn [app]. rewrite Hval by lia.
          destruct (k - w)%nat as [|m] eqn:Em; [lia|]. replace (k - S w)%nat with m by lia.
          cbn [nanos]. rewrite Nat2Z.inj_succ, Z.pow_succ_r by lia. nia. }
  destruct (Hgen w n s [] Hn Hs) as (ds & Hds & Hlen & Hval). rewrite app_nil_r in *.
  exists ds. split_and!; [done|done|]. intros k Hk.
  rewrite Hval by done. destruct (k - w)%nat; simpl; lia.
Qed.

(** The zone [Z] ends a fraction. *)
Lemma take_fraction_format n :
  0 <= n < 1000000 -> take_fraction (format_fraction n +:+ "Z") = (n * 1000, "Z"%string).
Proof.
  intros Hn. unfold format_fraction. pose proof (trim_zeros_spec 6 n) as H.
  destruct (trim_zeros 6 n) as [v n']. destruct H as (Hv & Hn' & E); [simpl; lia|].
  destruct v as [|v]; [simpl in Hn'; assert (n' = 0) as -> by lia; simpl in *; by subst n|].
  rewrite app_assoc_string. change ("." +:+ ?x) with (String "."%char x).
  cbn [take_fraction]. cbn -[pad_digits fraction_digits nanos].
  destruct (fraction_digits_pad (S v) n' "Z" Hn' eq_refl) as (ds & -> & Hlen & Hval).
  destruct ds as [|d ds]; [done|]. rewrite Hval by lia.
  f_equal. rewrite E, <- Z.mul_assoc. f_equal.
  change 1000 with (10 ^ 3). rewrite <- Z.pow_add_r by lia. f_equal. lia.
Qed.

Definition year_of (t : Time) : Z := let '(y, _, _) := civil_of_days (t / micros_per_day) in y.

(** The time printed by [Format(time.RFC3339Nano)] in UTC is read back by
    [time.Parse] as the same microsecond, for the years 0 to 9999. *)
Lemma parse_format_nano t : 0 <= year_of t <= 9999 -> parse_nano (format_nano t) = Some t.
Proof.
  unfold year_of, format_nano, format_seconds. intros Hy.
  pose proof (civil_of_days_spec (t / micros_per_day)) as Hc.
  destruct (civil_of_days _) as [[y m] d]. destruct Hc as (Hm & Hd & Hdays).
  pose proof (Z.mod_pos_bound t micros_per_day ltac:(done)) as Hday.
  pose proof (Z.mod_pos_bound t 1000000 ltac:(done)) as Hus.
  set (s := t mod micros_per_day / 1000000).
  assert (0 <= s < 86400 /\ t = (t / micros_per_day * 86400 + s) * 1000000 + t mod 1000000)
    as [Hs Ht] by (unfold s, micros_per_day in *; Z.to_euclidean_division_equations; lia).
  assert (0 <= s / 3600 < 24 /\ 0 <= s / 60 mod 60 < 60 /\ 0 <= s mod 60 < 60 /\
    s / 3600 * 3600 + s / 60 mod 60 * 60 + s mod 60 = s) as (Hh & Hmi & Hss & Hsum)
    by (clearbody s; Z.to_euclidean_division_equations; lia).
  assert (days_in m y <= 31) as Hdi by (unfold days_in; repeat case_match; lia).
  rewrite !app_assoc_string. unfold parse_nano, take_hour.
  repeat first
    [ rewrite take_pad_field by (simpl; lia) | rewrite take_char_self
    | progress cbn [mbind option_bind] ].
  rewrite take_fraction_format by done. cbn -[Z.mul Z.add Z.div].
  case_match; [lia|]. f_equal. rewrite Hdays, Z.div_mul by done. lia.
Qed.

(** ** The characters of a printed time *)

(** Digits and the separators of the layout. *)
Definition time_char (c : ascii) : bool :=
  between_bytes 48 57 c || existsb (Ascii.eqb c) ["-"; ":"; "."; "T"; "Z"]%char.

Lemma all_chars_digits f w n :
  (forall d, 0 <= d < 10 -> f (digit d) = true) -> all_chars f (pad_digits w n) = true.
Proof.
  intros Hf. revert n. induction w as [|w IH]; intros n; [done|]. cbn [pad_digits].
  rewrite all_chars_app, IH. simpl. rewrite Hf; [done|]. apply Z.mod_pos_bound. lia.
Qed.

Lemma time_char_digit d : 0 <= d < 10 -> time_char (digit d) = true.
Proof.
  intros Hd. unfold time_char, between_bytes. rewrite digit_byte by done.
  apply orb_true_iff. left. apply andb_true_iff. split; apply N.leb_le; lia.
Qed.

Lemma format_nano_chars t : all_chars time_char (format_nano t) = true.
Proof.
  unfold format_nano, format_seconds, format_fraction.
  destruct (civil_of_days _) as [[y m] d]. destruct (trim_zeros _ _) as [[|w] n];
    rewrite !all_chars_app, ?(all_chars_digits time_char) by exact time_char_digit; done.
Qed.
