(* ===== verification/Float64.v ===== *)
(** * float64: small integers are exact

    Binary64 arithmetic on integers below 2^53 does not round: what
    [time.ParseDuration] needs of it. *)

From Stdlib Require Import SpecFloat.
From S2P Require Import Prelude.

Definition float64_of (z : Z) : spec_float := binary_normalize 53 1024 z 0 false.
Definition float64_mul : spec_float -> spec_float -> spec_float := SFmul 53 1024.
Definition float64_div : spec_float -> spec_float -> spec_float := SFdiv 53 1024.

#[global] Instance spec_float_eq_dec : EqDecision spec_float.
Proof. solve_decision. Defined.

(** [uint64(x)] of a float that is not negative and in range. *)
Definition uint64_of_float (x : spec_float) : Z :=
  match x with
  | S754_finite false m e => Z.shiftl (Zpos m) e
  | _ => 0
  end.

(** [x] is the integer [v], whatever its exponent. *)
Definition denotes (x : spec_float) (v : Z) : Prop :=
  exists m c, x = S754_finite false m (- c) /\ 0 <= c <= 52 /\ Zpos m = v * 2 ^ c.

Lemma denotes_uint64 x v : denotes x v -> uint64_of_float x = v.
Proof.
  intros (m & c & -> & Hc & E). unfold uint64_of_float. rewrite E.
  rewrite Z.shiftl_div_pow2 by lia.
  rewrite Z.opp_involutive. apply Z.div_mul. lia.
Qed.

Lemma digits2_log2 m : Zpos (digits2_pos m) = Z.log2 (Zpos m) + 1.
Proof.
  induction m as [m IH|m IH|]; simpl digits2_pos; [| |done]; rewrite Pos2Z.inj_succ, IH.
  - change (Zpos m~1) with (2 * Zpos m + 1). rewrite Z.log2_succ_double by lia. lia.
  - change (Zpos m~0) with (2 * Zpos m). rewrite Z.log2_double by lia. lia.
Qed.

Lemma digits2_scaled m v c :
  0 < v -> 0 <= c -> Zpos m = v * 2 ^ c -> Zdigits2 (Zpos m) = Z.log2 v + 1 + c.
Proof.
  intros Hv Hc E. cbn [Zdigits2]. rewrite digits2_log2, E, Z.log2_mul_pow2 by lia. lia.
Qed.

Lemma iter_pos_nat {A} (f : A -> A) p x : SpecFloat.iter_pos f p x = Nat.iter (Pos.to_nat p) f x.
Proof.
  revert x. induction p as [p IH|p IH|]; intros x; simpl SpecFloat.iter_pos.
  - rewrite !IH, <- Nat.iter_add. rewrite Pos2Nat.inj_xI.
    replace (S (2 * Pos.to_nat p)) with (Pos.to_nat p + Pos.to_nat p + 1)%nat by lia.
    by rewrite (Nat.iter_add _ 1).
  - rewrite !IH, <- Nat.iter_add, Pos2Nat.inj_xO.
    by replace (2 * Pos.to_nat p)%nat with (Pos.to_nat p + Pos.to_nat p)%nat by lia.
  - done.
Qed.

(** Shifting out zeros loses nothing. *)
Lemma shr_zeros n (v : positive) :
  Nat.iter n shr_1 (Build_shr_record (Zpos v * 2 ^ Z.of_nat n) false false)
  = Build_shr_record (Zpos v) false false.
Proof.
  induction n as [|n IH]; [by rewrite Z.mul_1_r|].
  rewrite Nat.iter_succ_r. rewrite <- IH. f_equal.
  rewrite Nat2Z.inj_succ, Z.pow_succ_r by lia.
  replace (Zpos v * (2 * 2 ^ Z.of_nat n)) with (2 * (Zpos v * 2 ^ Z.of_nat n)) by lia.
  destruct (Zpos v * 2 ^ Z.of_nat n) as [|p|p] eqn:E; [lia|done|lia].
Qed.

Lemma fexp_small e : -1000 <= e <= 53 -> fexp 53 1024 e = e - 53.
Proof. unfold fexp, emin. lia. Qed.

(** Rounding an integer below 2^53, however it is scaled. *)
Lemma round_exact m v c :
  0 < v < 2 ^ 53 -> 0 <= c <= 900 -> Zpos m = v * 2 ^ c ->
  denotes (binary_round_aux 53 1024 false (Zpos m) (- c) loc_Exact) v.
Proof.
  intros Hv Hc E.
  assert (0 <= Z.log2 v < 53) as Hl by (split; [apply Z.log2_nonneg|apply Z.log2_lt_pow2; lia]).
  pose proof (digits2_scaled m v c ltac:(lia) ltac:(lia) E) as Hd.
  unfold binary_round_aux, shr_fexp at 1. rewrite Hd.
  replace (Z.log2 v + 1 + c + - c) with (Z.log2 v + 1) by lia. rewrite fexp_small by lia.
  set (j := Z.log2 v + 1 - 53 - - c).
  assert (exists m' c', shr (shr_record_of_loc (Zpos m) loc_Exact) (- c) j
    = (Build_shr_record (Zpos m') false false, - c') /\ 0 <= c' <= 52 - Z.log2 v /\
      Zpos m' = v * 2 ^ c') as (m' & c' & Hs & Hc' & Em').
  { cbn [shr_record_of_loc]. destruct j as [|p|p] eqn:Ej; unfold j in Ej; cbn [shr].
    - exists m, c. split_and!; [done|lia..|done].
    - assert (0 < v * 2 ^ (c - Zpos p)) as Hpos
        by (apply Z.mul_pos_pos; [lia|apply Z.pow_pos_nonneg; lia]).
      exists (Z.to_pos (v * 2 ^ (c - Zpos p))), (c - Zpos p).
      rewrite Z2Pos.id by done. split_and!; [|lia..|done]. rewrite iter_pos_nat.
      replace (Zpos m) with (Zpos (Z.to_pos (v * 2 ^ (c - Zpos p))) * 2 ^ Z.of_nat (Pos.to_nat p)).
      + rewrite shr_zeros, Z2Pos.id by done. f_equal. lia.
      + rewrite Z2Pos.id by done. rewrite positive_nat_Z, E.
        replace c with ((c - Zpos p) + Zpos p) at 2 by lia. rewrite Z.pow_add_r by lia. lia.
    - exists m, c. split_and!; [done|lia..|done]. }
  rewrite Hs. cbn [shr_m loc_of_shr_record round_nearest_even]. unfold shr_fexp.
  pose proof (digits2_scaled m' v c' ltac:(lia) ltac:(lia) Em') as Hd'. rewrite Hd'.
  replace (Z.log2 v + 1 + c' + - c') with (Z.log2 v + 1) by lia. rewrite fexp_small by lia.
  assert (shr (shr_record_of_loc (Zpos m') loc_Exact) (- c') (Z.log2 v + 1 - 53 - - c')
    = (Build_shr_record (Zpos m') false false, - c')) as ->.
  { cbn [shr_record_of_loc]. destruct (Z.log2 v + 1 - 53 - - c') eqn:Ej; [done|lia|done]. }
  cbn [shr_m]. destruct (- c' <=? 1024 - 53) eqn:El; [|lia].
  exists m', c'. split; [done|]. split; [lia|done].
Qed.

Lemma float64_of_exact v : 0 < v < 2 ^ 53 -> denotes (float64_of v) v.
Proof.
  intros Hv. destruct v as [|p|p]; [lia| |lia]. unfold float64_of, binary_normalize, binary_round.
  assert (0 <= Z.log2 (Zpos p) < 53) as Hl
    by (split; [apply Z.log2_nonneg|apply Z.log2_lt_pow2; lia]).
  rewrite digits2_log2, Z.add_0_r, fexp_small by lia. unfold shl_align.
  destruct (Z.log2 (Zpos p) + 1 - 53 - 0) as [|d|d] eqn:Ed; [|lia|].
  - apply (round_exact p (Zpos p) 0); lia.
  - replace (Z.log2 (Zpos p) + 1 - 53) with (- Zpos d) by lia. apply round_exact; [done|lia|].
    clear. induction d as [|d IH] using Pos.peano_ind; [simpl; lia|].
    rewrite Pos.iter_succ, Pos2Z.inj_succ, Z.pow_succ_r by lia.
    change (Zpos (Pos.iter xO p d)~0) with (2 * Zpos (Pos.iter xO p d)). rewrite IH. lia.
Qed.

Lemma float64_mul_exact x y a b :
  denotes x a -> denotes y b -> 0 < a -> 0 < b -> a * b < 2 ^ 53 ->
  uint64_of_float (float64_mul x y) = a * b.
Proof.
  intros (m & c & -> & Hc & Em) (n & d & -> & Hd & En) Ha Hb Hab. apply denotes_uint64.
  unfold float64_mul, SFmul. cbn [xorb].
  replace (- c + - d) with (- (c + d)) by lia. apply round_exact; [nia|lia|].
  rewrite Pos2Z.inj_mul, Em, En, Z.pow_add_r by lia. lia.
Qed.
