(* ===== verification/GoDuration.v ===== *)
(** * time.Duration: parsing and printing

    A [Duration] is an int64 number of nanoseconds.  [ParseDuration] works in
    uint64 and takes the fraction of a number through float64, as the code
    does: the float operations are those of [SpecFloat] at binary64. *)

From Stdlib Require Import Ascii.
From Stdlib Require Import SpecFloat.
From S2P Require Import Prelude GoRuntime Strconv Float64 GoTime.

Definition Nanosecond : Z := 1.
Definition Microsecond : Z := 1000 * Nanosecond.
Definition Millisecond : Z := 1000 * Microsecond.
Definition Second : Z := 1000 * Millisecond.
Definition Minute : Z := 60 * Second.
Definition Hour : Z := 60 * Minute.

(** ** Parsing *)

Definition is_digit (c : ascii) : bool :=
  match digit_value c with Some _ => true | None => false end.

(** [leadingInt]: [None] when the number exceeds 2^63. *)
Fixpoint leadingInt (x : Z) (s : string) : option (Z * string) :=
  match s with
  | String c s' =>
      match digit_value c with
      | Some d =>
          if 2 ^ 63 / 10 <? x then None
          else if 2 ^ 63 <? x * 10 + d then None
          else leadingInt (x * 10 + d) s'
      | None => Some (x, s)
      end
  | EmptyString => Some (x, s)
  end.

(** [leadingFraction]: digits that no longer fit are skipped. *)
Fixpoint leadingFraction (x : Z) (scale : spec_float) (overflow : bool) (s : string)
  : Z * spec_float * string :=
  match s with
  | String c s' =>
      match digit_value c with
      | Some d =>
          if overflow || ((2 ^ 63 - 1) / 10 <? x) || (2 ^ 63 <? x * 10 + d)
          then leadingFraction x scale true s'
          else leadingFraction (x * 10 + d) (float64_mul scale (float64_of 10)) false s'
      | None => (x, scale, s)
      end
  | EmptyString => (x, scale, s)
  end.

(** The unit is what comes before the next digit or period. *)
Fixpoint leadingUnit (s : string) : string * string :=
  match s with
  | String c s' =>
      if (byte c =? 46)%N || is_digit c then (EmptyString, s)
      else let '(u, rest) := leadingUnit s' in (String c u, rest)
  | EmptyString => (EmptyString, s)
  end.

(** The micro sign and the Greek letter mu, in UTF-8. *)
Definition micro_sign : string := String (ascii_of_N 194) (str1 (ascii_of_N 181)).
Definition greek_mu : string := String (ascii_of_N 206) (str1 (ascii_of_N 188)).

Definition unitMap : list (string * Z) :=
  [("ns", Nanosecond); ("us", Microsecond); (micro_sign +:+ "s", Microsecond);
   (greek_mu +:+ "s", Microsecond); ("ms", Millisecond); ("s", Second); ("m", Minute);
   ("h", Hour)].

Definition unit_of (u : string) : option Z :=
  snd <$> find (fun p => String.eqb p.1 u) unitMap.

(** [quote] of package time: bytes outside printable ASCII in hex. *)
Definition hex_digit (n : N) : ascii := ascii_of_N (if (n <? 10)%N then 48 + n else 87 + n).

Definition quote_byte (c : ascii) : string :=
  if (byte c <? 32)%N || (128 <=? byte c)%N then
    "\x" +:+ String (hex_digit (byte c / 16)) (str1 (hex_digit (byte c mod 16)))
  else if (byte c =? 34)%N || (byte c =? 92)%N then String "\"%char (str1 c)
  else str1 c.

Fixpoint quote_bytes (s : string) : string :=
  match s with
  | String c s' => quote_byte c +:+ quote_bytes s'
  | EmptyString => EmptyString
  end.

Definition double_quote : string := str1 (ascii_of_N 34).
Definition time_quote (s : string) : string := double_quote +:+ quote_bytes s +:+ double_quote.

Definition invalid_duration (orig : string) : error :=
  ErrText ("time: invalid duration " +:+ time_quote orig).

Definition wrap_uint64 (z : Z) : Z := z mod 2 ^ 64.

(** One number with its unit, in nanoseconds, and what follows. *)
Definition parse_component (orig s : string) : result (Z * string) :=
  let bad := Err (invalid_duration orig) in
  match s with
  | String c _ =>
      if negb ((byte c =? 46)%N || is_digit c) then bad
      else
        match leadingInt 0 s with
        | None => bad
        | Some (v, s1) =>
            let pre := negb (String.eqb s1 s) in
            let '(f, scale, s2, post) :=
              match s1 with
              | String "."%char t =>
                  let '(f, scale, s2) := leadingFraction 0 (float64_of 1) false t in
                  (f, scale, s2, negb (String.eqb s2 t))
              | _ => (0, float64_of 1, s1, false)
              end in
            if negb pre && negb post then bad
            else
              let '(u, s3) := leadingUnit s2 in
              if String.eqb u EmptyString then
                Err (ErrText ("time: missing unit in duration " +:+ time_quote orig))
              else
                match unit_of u with
                | None => Err (ErrText ("time: unknown unit " +:+ time_quote u +:+
                                        " in duration " +:+ time_quote orig))
                | Some unit =>
                    if 2 ^ 63 / unit <? v then bad
                    else
                      let v := v * unit in
                      if 0 <? f then
                        let v := wrap_uint64 (v + uint64_of_float
                          (float64_mul (float64_of f) (float64_div (float64_of unit) scale))) in
                        if 2 ^ 63 <? v then bad else Ok (v, s3)
                      else Ok (v, s3)
                end
        end
  | EmptyString => bad
  end.

(** The loop over the components, adding up in uint64. *)
Fixpoint parse_components (fuel : nat) (orig : string) (d : Z) (s : string) : result Z :=
  match s, fuel with
  | EmptyString, _ => Ok d
  | _, O => Err (invalid_duration orig)
  | _, S fuel' =>
      match parse_component orig s with
      | Err e => Err e
      | Ok (v, s') =>
          let d := wrap_uint64 (d + v) in
          if 2 ^ 63 <? d then Err (invalid_duration orig)
          else parse_components fuel' orig d s'
      end
  end.

Definition ParseDuration (orig : string) : result Z :=
  let '(neg, s) :=
    match orig with
    | String "-"%char s => (true, s)
    | String "+"%char s => (false, s)
    | _ => (false, orig)
    end in
  if String.eqb s "0" then Ok 0
  else if String.eqb s EmptyString then Err (invalid_duration orig)
  else
    match parse_components (String.length s) orig 0 s with
    | Err e => Err e
    | Ok d =>
        if neg then Ok (wrap64 (- wrap64 d))
        else if 2 ^ 63 - 1 <? d then Err (invalid_duration orig)
        else Ok d
    end.

(** ** Printing: [Duration.String] *)

(** [fmtFrac]: the last [prec] digits of [v] as a fraction without trailing
    zeros, and what is before them. *)
Fixpoint fmtFrac (prec : nat) (v : Z) (acc : string) : string * Z :=
  match prec with
  | O => (if String.eqb acc EmptyString then EmptyString else "." +:+ acc, v)
  | S prec' =>
      fmtFrac prec' (v / 10)
        (if (v mod 10 =? 0) && String.eqb acc EmptyString then EmptyString
         else String (digit (v mod 10)) acc)
  end.

Definition format_below_second (u : Z) : string :=
  if u =? 0 then "0s"
  else
    let '(prec, unit) :=
      if u <? Microsecond then (0%nat, "ns")
      else if u <? Millisecond then (3%nat, micro_sign +:+ "s") else (6%nat, "ms") in
    let '(frac, n) := fmtFrac prec u EmptyString in
    Itoa n +:+ frac +:+ unit.

Definition format_seconds_up (u : Z) : string :=
  let '(frac, n) := fmtFrac 9 u EmptyString in
  let secs := Itoa (n mod 60) +:+ frac +:+ "s" in
  let n := n / 60 in
  if n =? 0 then secs
  else
    let mins := Itoa (n mod 60) +:+ "m" +:+ secs in
    let n := n / 60 in
    if n =? 0 then mins else Itoa n +:+ "h" +:+ mins.

Definition Duration_String (d : Z) : string :=
  let u := if d <? 0 then wrap_uint64 (- d) else d in
  let s := if u <? Second then format_below_second u else format_seconds_up u in
  if d <? 0 then "-" +:+ s else s.

Example parse_5m : ParseDuration "5m" = Ok (5 * Minute).
Proof. by vm_compute. Qed.
Example parse_mixed : ParseDuration "-1.5h7m0.25s3ns" = Ok (- (97 * Minute + 250 * Millisecond + 3)).
Proof. by vm_compute. Qed.
Example print_mixed : Duration_String (- (97 * Minute + 250 * Millisecond + 3)) = "-1h37m0.250000003s".
Proof. by vm_compute. Qed.
Example print_least : Duration_String int64_min = "-2562047h47m16.854775808s".
Proof. by vm_compute. Qed.
Example parse_least : ParseDuration "-2562047h47m16.854775808s" = Ok int64_min.
Proof. by vm_compute. Qed.
Example parse_wraps : ParseDuration "9223372036854775808ns9223372036854775808ns5m" = Ok (5 * Minute).
Proof. by vm_compute. Qed.

(** ** What is left to read gets shorter *)

Abbreviation len := String.length.

Lemma leadingInt_length x s v s' : leadingInt x s = Some (v, s') -> (len s' <= len s)%nat.
Proof.
  revert x. induction s as [|c s IH]; intros x; cbn [leadingInt]; [by intros [= _ <-]|].
  destruct (digit_value c); [|by intros [= _ <-]]. repeat case_match; try done.
  intros E. apply IH in E. cbn [String.length]. lia.
Qed.

Lemma leadingFraction_length x sc o s f sc' s' :
  leadingFraction x sc o s = (f, sc', s') -> (len s' <= len s)%nat.
Proof.
  revert x sc o. induction s as [|c s IH]; intros x sc o; cbn [leadingFraction];
    [by intros [= _ _ <-]|].
  destruct (digit_value c); [|by intros [= _ _ <-]].
  case_match; intros E; apply IH in E; cbn [String.length]; lia.
Qed.

Lemma leadingUnit_length s u s' : leadingUnit s = (u, s') -> (len u + len s' = len s)%nat.
Proof.
  revert u. induction s as [|c s IH]; intros u; cbn [leadingUnit]; [by intros [= <- <-]|].
  case_match; [by intros [= <- <-]|]. destruct (leadingUnit s) as [u' r]. intros [= <- <-].
  cbn [String.length]. pose proof (IH u' eq_refl). lia.
Qed.

Lemma fraction_length s1 f scale s2 (post : bool) :
  match s1 with
  | String "."%char t =>
      let '(f, scale, s2) := leadingFraction 0 (float64_of 1) false t in
      (f, scale, s2, negb (String.eqb s2 t))
  | _ => (0, float64_of 1, s1, false)
  end = (f, scale, s2, post) -> (len s2 <= len s1)%nat.
Proof.
  destruct s1 as [|c t]; [by intros [= _ _ <- _]|].
  destruct (ascii_dec c "."%char) as [->|Hc].
  - destruct (leadingFraction _ _ _ t) as [[x y] z] eqn:E. intros [= _ _ <- _].
    apply leadingFraction_length in E. cbn [String.length]. lia.
  - assert (forall (A : Type) (a b : A), match c with "."%char => a | _ => b end = b) as H
      by (intros A a b; clear -Hc; each_byte c; done).
    rewrite H. by intros [= _ _ <- _].
Qed.

Lemma parse_component_length orig s v s' :
  parse_component orig s = Ok (v, s') -> (len s' < len s)%nat.
Proof.
  unfold parse_component. destruct s as [|c s]; [done|]. set (s0 := String c s).
  destruct (negb _); [done|]. destruct (leadingInt 0 s0) as [[n s1]|] eqn:E1; [|done].
  apply leadingInt_length in E1.
  destruct (match s1 with String _ _ => _ | _ => _ end) as [[[f scale] s2] post] eqn:E2.
  apply fraction_length in E2. destruct (_ && _); [done|].
  destruct (leadingUnit s2) as [u s3] eqn:E3. apply leadingUnit_length in E3.
  destruct (String.eqb_spec u EmptyString); [done|].
  assert (0 < len u)%nat by (destruct u; [done|cbn; lia]).
  destruct (unit_of u); [|done]. case_match; [done|].
  case_match; [case_match; [done|]|]; intros [= _ <-]; lia.
Qed.

(** So the length is enough fuel. *)
Lemma parse_components_fuel n m orig d s :
  (len s <= n)%nat -> (len s <= m)%nat -> parse_components n orig d s = parse_components m orig d s.
Proof.
  revert m d s. induction n as [|n IH]; intros m d s Hn Hm.
  - destruct s; [by destruct m|cbn in Hn; lia].
  - destruct s as [|c s]; [by destruct m|]. destruct m as [|m]; [cbn in Hm; lia|].
    cbn [parse_components].
    destruct (parse_component orig (String c s)) as [[v s']|e] eqn:E; [|done].
    apply parse_component_length in E. cbn [String.length] in *.
    case_match; [done|]. apply IH; lia.
Qed.

Definition parse_all (orig : string) (d : Z) (s : string) : result Z :=
  parse_components (len s) orig d s.

Lemma parse_all_step orig d s v s' :
  parse_component orig s = Ok (v, s') ->
  parse_all orig d s =
  if 2 ^ 63 <? wrap_uint64 (d + v) then Err (invalid_duration orig)
  else parse_all orig (wrap_uint64 (d + v)) s'.
Proof.
  intros E. pose proof (parse_component_length _ _ _ _ E) as Hl. unfold parse_all.
  destruct s as [|c s]; [done|]. cbn [String.length parse_components]. rewrite E.
  case_match; [done|]. apply parse_components_fuel; cbn [String.length] in Hl; lia.
Qed.

(** ** The result is an int64 *)

Lemma parse_components_range fuel orig d s r :
  0 <= d <= 2 ^ 63 -> parse_components fuel orig d s = Ok r -> 0 <= r <= 2 ^ 63.
Proof.
  revert d s. induction fuel as [|fuel IH]; intros d s Hd; cbn [parse_components].
  - destruct s; [by intros [= <-]|done].
  - destruct s as [|c s]; [by intros [= <-]|].
    destruct (parse_component orig _) as [[v s']|e]; [|done].
    destruct (2 ^ 63 <? wrap_uint64 (d + v)) eqn:E; [done|]. apply IH.
    unfold wrap_uint64 in *. pose proof (Z.mod_pos_bound (d + v) (2 ^ 64)). lia.
Qed.

Lemma ParseDuration_range s d : ParseDuration s = Ok d -> in_int64 d.
Proof.
  unfold ParseDuration. destruct (match s with String _ _ => _ | _ => _ end) as [neg t].
  destruct (String.eqb t "0"); [by intros [= <-]|]. destruct (String.eqb t EmptyString); [done|].
  destruct (parse_components _ s 0 t) as [r|e] eqn:E; [|done].
  apply parse_components_range in E; [|lia]. destruct neg.
  - intros [= <-]. apply wrap64_in_int64.
  - destruct (2 ^ 63 - 1 <? r) eqn:E2; [done|]. intros [= <-].
    unfold in_int64, int64_min, int64_max. lia.
Qed.

(** ** Reading back what was printed *)

Lemma read_digits_grows acc s : 0 <= acc -> acc <= (read_digits acc s).1.
Proof.
  revert acc. induction s as [|c s IH]; intros acc Ha; cbn [read_digits]; [done|].
  destruct (digit_value c) as [d|] eqn:E; [|done]. apply digit_value_range in E.
  specialize (IH (acc * 10 + d)). lia.
Qed.

Lemma leadingInt_read acc s :
  0 <= acc -> (read_digits acc s).1 <= 2 ^ 63 -> leadingInt acc s = Some (read_digits acc s).
Proof.
  revert acc. induction s as [|c s IH]; intros acc Ha; cbn [read_digits leadingInt]; [done|].
  destruct (digit_value c) as [d|] eqn:E; [|done]. apply digit_value_range in E. intros Hle.
  pose proof (read_digits_grows (acc * 10 + d) s ltac:(lia)) as Hg.
  destruct (2 ^ 63 / 10 <? acc) eqn:E1.
  { assert (2 ^ 63 / 10 < acc) as Hlt by lia. change (2 ^ 63 / 10) with 922337203685477580 in Hlt. lia. }
  destruct (2 ^ 63 <? acc * 10 + d) eqn:E2; [lia|]. apply IH; lia.
Qed.

Lemma leadingInt_Itoa n t :
  0 <= n <= 2 ^ 63 -> ends_digits t -> leadingInt 0 (Itoa n +:+ t) = Some (n, t).
Proof.
  intros Hn Ht. assert (read_digits 0 (Itoa n +:+ t) = (n, t)) as E.
  { unfold Itoa. destruct (decide (n = 0)) as [->|]; [apply Ht|].
    destruct (pretty_pos n t ltac:(lia)) as [-> _]. apply Ht. }
  rewrite leadingInt_read; rewrite ?E; simpl; done || lia.
Qed.

Lemma Itoa_first n : 0 <= n -> exists d s, 0 <= d < 10 /\ Itoa n = String (digit d) s.
Proof.
  intros Hn. unfold Itoa. destruct (decide (n = 0)) as [->|]; [by exists 0, EmptyString|].
  destruct (pretty_pos n EmptyString ltac:(lia)) as (_ & d & s & Hd & E). exists d, s.
  split; [lia|done].
Qed.

Lemma is_digit_digit d : 0 <= d < 10 -> is_digit (digit d) = true.
Proof. intros Hd. unfold is_digit. by rewrite digit_value_digit. Qed.

(** *** Fractions *)

Fixpoint scale_of (k : nat) : spec_float :=
  match k with O => float64_of 1 | S k' => float64_mul (scale_of k') (float64_of 10) end.

Definition ends_fraction (t : string) : Prop :=
  match t with String c _ => is_digit c = false | EmptyString => True end.

Lemma leadingFraction_end x sc o t : ends_fraction t -> leadingFraction x sc o t = (x, sc, t).
Proof.
  destruct t as [|c t]; [done|]. unfold ends_fraction, is_digit. cbn [leadingFraction].
  by destruct (digit_value c).
Qed.

Lemma pad_digits_S w n : pad_digits (S w) n = pad_digits w (n / 10) +:+ String (digit (n mod 10)) EmptyString.
Proof. done. Qed.

Lemma leadingFraction_pad k g t :
  0 <= g < 10 ^ Z.of_nat k -> (k <= 18)%nat ->
  leadingFraction 0 (float64_of 1) false (pad_digits k g +:+ t) =
  leadingFraction g (scale_of k) false t.
Proof.
  revert g t. induction k as [|k IH]; intros g t Hg Hk.
  { replace g with 0 by (simpl in Hg; lia). done. }
  rewrite Nat2Z.inj_succ, Z.pow_succ_r in Hg by lia.
  pose proof (Z.mod_pos_bound g 10 ltac:(lia)) as Hm. pose proof (Z.div_mod g 10 ltac:(lia)) as Hd.
  assert (10 ^ Z.of_nat k <= 10 ^ 17) as Hp by (apply Z.pow_le_mono_r; lia).
  change (10 ^ 17) with 100000000000000000 in Hp.
  set (q := g / 10) in *. set (r := g mod 10) in *.
  rewrite pad_digits_S, app_assoc_string. fold q r. clearbody q r.
  rewrite IH by lia. change (String (digit r) EmptyString +:+ t) with (String (digit r) t).
  cbn [leadingFraction]. rewrite digit_value_digit by lia.
  change ((2 ^ 63 - 1) / 10) with 922337203685477580.
  destruct (922337203685477580 <? q) eqn:E1; [lia|]. destruct (2 ^ 63 <? q * 10 + r) eqn:E2; [lia|].
  cbn [orb]. by replace (q * 10 + r) with g by lia.
Qed.

Lemma pad_digits_mod k n : pad_digits k (n mod 10 ^ Z.of_nat k) = pad_digits k n.
Proof.
  revert n. induction k as [|k IH]; intros n; [done|]. rewrite !pad_digits_S.
  rewrite Nat2Z.inj_succ, Z.pow_succ_r by lia.
  pose proof (Z.pow_pos_nonneg 10 (Z.of_nat k) ltac:(lia) ltac:(lia)) as Hp.
  rewrite Z.rem_mul_r by lia. f_equal; [|f_equal].
  - rewrite (Z.mul_comm 10), Z.add_comm, Z.div_add_l by lia.
    rewrite (Z.div_small (n mod 10)) by (apply Z.mod_pos_bound; lia). rewrite Z.add_0_r. apply IH.
  - f_equal. rewrite Z.add_comm, Z.mul_comm, Z.add_comm, Z.mod_add by lia. by apply Z.mod_mod.
Qed.

Lemma fmtFrac_digits prec v c acc :
  fmtFrac prec v (String c acc) =
  ("." +:+ pad_digits prec v +:+ String c acc, v / 10 ^ Z.of_nat prec).
Proof.
  revert v c acc. induction prec as [|prec IH]; intros v c acc.
  { cbn [fmtFrac]. by rewrite Z.div_1_r. }
  cbn [fmtFrac]. rewrite (proj2 (String.eqb_neq (String c acc) EmptyString)) by done.
  rewrite andb_false_r, IH, pad_digits_S, app_assoc_string.
  rewrite Nat2Z.inj_succ, Z.pow_succ_r, Z.div_div by (try apply Z.pow_pos_nonneg; lia). done.
Qed.

(** The fraction of [v] over [10^prec]: nothing, or [k] digits that stand for
    the remainder. *)
Lemma fmtFrac_spec prec v :
  0 <= v ->
  (v mod 10 ^ Z.of_nat prec = 0 /\ fmtFrac prec v EmptyString = (EmptyString, v / 10 ^ Z.of_nat prec)) \/
  exists k g, (0 < k <= prec)%nat /\ 0 < g < 10 ^ Z.of_nat k /\
    v mod 10 ^ Z.of_nat prec = g * 10 ^ Z.of_nat (prec - k) /\
    fmtFrac prec v EmptyString = ("." +:+ pad_digits k g, v / 10 ^ Z.of_nat prec).
Proof.
  revert v. induction prec as [|prec IH]; intros v Hv.
  { left. rewrite Z.mod_1_r. split; [done|]. cbn [fmtFrac]. by rewrite Z.div_1_r. }
  assert (10 ^ Z.of_nat (S prec) = 10 * 10 ^ Z.of_nat prec) as Hpow
    by (rewrite Nat2Z.inj_succ, Z.pow_succ_r; lia).
  pose proof (Z.pow_pos_nonneg 10 (Z.of_nat prec) ltac:(lia) ltac:(lia)) as Hp.
  assert (v mod 10 ^ Z.of_nat (S prec) = v mod 10 + 10 * ((v / 10) mod 10 ^ Z.of_nat prec)) as Hmod
    by (rewrite Hpow; apply Z.rem_mul_r; lia).
  assert (v / 10 / 10 ^ Z.of_nat prec = v / 10 ^ Z.of_nat (S prec)) as Hdiv
    by (rewrite Hpow; apply Z.div_div; lia).
  pose proof (Z.mod_pos_bound v 10 ltac:(lia)) as Hr.
  cbn [fmtFrac]. destruct (v mod 10 =? 0) eqn:E0; cbn [andb String.eqb].
  - destruct (IH (v / 10) ltac:(by apply Z.div_pos)) as [[H0 ->]|(k & g & Hk & Hg & Hm & ->)].
    + left. split; [lia|by rewrite Hdiv].
    + right. exists k, g. split; [lia|]. split; [done|]. split; [|by rewrite Hdiv].
      rewrite Hmod, Hm. replace (S prec - k)%nat with (S (prec - k)) by lia.
      rewrite (Nat2Z.inj_succ (prec - k)), Z.pow_succ_r by lia. lia.
  - right. exists (S prec), (v mod 10 ^ Z.of_nat (S prec)).
    pose proof (Z.mod_pos_bound (v / 10) (10 ^ Z.of_nat prec) Hp).
    split; [lia|]. split; [rewrite Hmod, Hpow; lia|]. split; [by rewrite Nat.sub_diag, Z.mul_1_r|].
    rewrite fmtFrac_digits, Hdiv, pad_digits_mod, pad_digits_S. done.
Qed.

(** A unit of [10^p] nanoseconds over a scale of [10^k] is the integer
    [10^(p - k)]. *)
Lemma unit_over_scale p k :
  (p <= 9)%nat -> (k <= p)%nat ->
  denotes (float64_div (float64_of (10 ^ Z.of_nat p)) (scale_of k)) (10 ^ Z.of_nat (p - k)).
Proof.
  intros Hp Hk.
  assert (forallb (fun p => forallb (fun k =>
    bool_decide (float64_div (float64_of (10 ^ Z.of_nat p)) (scale_of k) = float64_of (10 ^ Z.of_nat (p - k))))
    (seq 0 (S p))) (seq 0 10) = true) as H by (by vm_compute).
  rewrite forallb_forall in H. specialize (H p). rewrite <- list_elem_of_In, elem_of_seq in H.
  specialize (H ltac:(lia)). rewrite forallb_forall in H. specialize (H k).
  rewrite <- list_elem_of_In, elem_of_seq in H. specialize (H ltac:(lia)).
  apply bool_decide_eq_true in H. rewrite H. apply float64_of_exact.
  split; [apply Z.pow_pos_nonneg; lia|].
  apply Z.le_lt_trans with (10 ^ 9); [apply Z.pow_le_mono_r; lia|done].
Qed.

Lemma fraction_value p k g :
  (p <= 9)%nat -> (0 < k <= p)%nat -> 0 < g < 10 ^ Z.of_nat k ->
  uint64_of_float (float64_mul (float64_of g)
    (float64_div (float64_of (10 ^ Z.of_nat p)) (scale_of k))) = g * 10 ^ Z.of_nat (p - k).
Proof.
  intros Hp Hk Hg.
  assert (10 ^ Z.of_nat k * 10 ^ Z.of_nat (p - k) = 10 ^ Z.of_nat p) as Hpk
    by (rewrite <- Z.pow_add_r by lia; f_equal; lia).
  pose proof (Z.pow_pos_nonneg 10 (Z.of_nat (p - k)) ltac:(lia) ltac:(lia)) as H1.
  assert (10 ^ Z.of_nat p <= 10 ^ 9) as H2 by (apply Z.pow_le_mono_r; lia).
  change (10 ^ 9) with 1000000000 in H2.
  assert (10 ^ Z.of_nat k <= 10 ^ 9) as H3 by (apply Z.pow_le_mono_r; lia).
  change (10 ^ 9) with 1000000000 in H3.
  apply float64_mul_exact; [apply float64_of_exact; lia|apply unit_over_scale; lia|lia|lia|nia].
Qed.

(** *** Components *)

(** What can follow a unit: nothing, or the next number. *)
Definition next_number (t : string) : Prop :=
  match t with String c _ => is_digit c = true | EmptyString => True end.

Definition unit_char (c : ascii) : bool := negb ((byte c =? 46)%N || is_digit c).

Lemma leadingUnit_text u t :
  all_chars unit_char u = true -> next_number t -> leadingUnit (u +:+ t) = (u, t).
Proof.
  intros Hu Ht. induction u as [|c u IH].
  - change (EmptyString +:+ t) with t. destruct t as [|c t]; [done|]. cbn [leadingUnit].
    simpl in Ht. by rewrite Ht, orb_true_r.
  - change (String c u +:+ t) with (String c (u +:+ t)). cbn [all_chars] in Hu.
    apply andb_true_iff in Hu as [Hc Hu]. cbn [leadingUnit]. unfold unit_char in Hc.
    apply negb_true_iff in Hc. by rewrite Hc, IH.
Qed.

(** The units are words of letters. *)
Record unit_word (u : string) (unit : Z) : Prop := mkUnitWord {
  word_value : unit_of u = Some unit;
  word_chars : all_chars unit_char u = true;
  word_first : exists c s, u = String c s /\ is_digit c = false /\ c <> "."%char;
  word_positive : 0 < unit
}.

Lemma unit_not_empty u unit : unit_word u unit -> String.eqb u EmptyString = false.
Proof. by intros [_ _ (c & s & -> & _) _]. Qed.

Lemma unit_ends u unit t : unit_word u unit -> ends_digits (u +:+ t) /\ ends_fraction (u +:+ t).
Proof.
  intros [_ _ (c & s & -> & Hc & _) _]. split; [|done]. intros z.
  change (String c s +:+ t) with (String c (s +:+ t)). cbn [read_digits].
  unfold is_digit in Hc. by destruct (digit_value c).
Qed.

Lemma not_same n (t s : string) : 0 <= n -> s = Itoa n +:+ t -> negb (String.eqb t s) = true.
Proof.
  intros Hn ->. apply negb_true_iff, String.eqb_neq. intros E.
  destruct (Itoa_first n Hn) as (d & x & _ & Ei). rewrite Ei in E.
  apply (f_equal String.length) in E. change (String (digit d) x +:+ t) with (String (digit d) (x +:+ t)) in E.
  cbn [String.length] in E. rewrite length_app_string in E. lia.
Qed.

Section component.
Context (orig u t : string) (unit n : Z).
Hypothesis Hu : unit_word u unit.
Hypothesis Ht : next_number t.
Hypothesis Hn : 0 <= n <= 2 ^ 63 / unit.

Lemma count_bound : 0 <= n <= 2 ^ 63.
Proof.
  destruct Hu as [_ _ _ Hp]. split; [lia|]. etrans; [apply Hn|]. apply Z.div_le_upper_bound; lia.
Qed.

(** A number without a fraction. *)
Lemma component_whole : parse_component orig (Itoa n +:+ u +:+ t) = Ok (n * unit, t).
Proof.
  destruct (unit_ends u unit t Hu) as [He _]. pose proof count_bound as Hb.
  pose proof (leadingInt_Itoa n (u +:+ t) Hb He) as HI.
  pose proof (not_same n (u +:+ t) _ (proj1 Hb) eq_refl) as Hs.
  destruct (Itoa_first n (proj1 Hb)) as (d & x & Hd & Ei). revert HI Hs. rewrite Ei.
  change (String (digit d) x +:+ ?y) with (String (digit d) (x +:+ y)). intros HI Hs.
  unfold parse_component. rewrite (is_digit_digit d Hd), orb_true_r. cbn [negb].
  rewrite HI, Hs.
  destruct (word_first u unit Hu) as (c & y & Ec & _ & Hdot).
  assert (forall (A : Type) (a b : string -> A) (e : A),
    match u +:+ t with String "."%char s => a s | _ => e end = e) as Hmatch.
  { intros A a b e. rewrite Ec. change (String c y +:+ t) with (String c (y +:+ t)).
    clear -Hdot. each_byte c; done. }
  rewrite (Hmatch _ _ (fun _ => (0, float64_of 1, u +:+ t, false))). cbn [negb andb].
  rewrite (leadingUnit_text u t (word_chars u unit Hu) Ht), (unit_not_empty u unit Hu).
  rewrite (word_value u unit Hu).
  destruct (2 ^ 63 / unit <? n) eqn:E; [lia|]. done.
Qed.

(** One with a fraction of [k] digits. *)
Lemma component_fraction p k g :
  unit = 10 ^ Z.of_nat p -> (p <= 9)%nat -> (0 < k <= p)%nat -> 0 < g < 10 ^ Z.of_nat k ->
  n * unit + g * 10 ^ Z.of_nat (p - k) <= 2 ^ 63 ->
  parse_component orig (Itoa n +:+ ("." +:+ pad_digits k g) +:+ u +:+ t)
  = Ok (n * unit + g * 10 ^ Z.of_nat (p - k), t).
Proof.
  intros Eu Hp Hk Hg Hfit. destruct (unit_ends u unit t Hu) as [_ Hef]. pose proof count_bound as Hb.
  rewrite app_assoc_string. set (frac := pad_digits k g +:+ u +:+ t).
  assert (ends_digits ("." +:+ frac)) as He by (by intros z).
  pose proof (leadingInt_Itoa n ("." +:+ frac) Hb He) as HI.
  pose proof (not_same n ("." +:+ frac) _ (proj1 Hb) eq_refl) as Hs.
  destruct (Itoa_first n (proj1 Hb)) as (d & x & Hd & Ei). revert HI Hs. rewrite Ei.
  change (String (digit d) x +:+ ?y) with (String (digit d) (x +:+ y)). intros HI Hs.
  unfold parse_component. rewrite (is_digit_digit d Hd), orb_true_r. cbn [negb].
  rewrite HI, Hs. change ("." +:+ frac) with (String "."%char frac). cbn iota.
  assert (leadingFraction 0 (float64_of 1) false frac = (g, scale_of k, u +:+ t)) as ->
    by (unfold frac; rewrite leadingFraction_pad by lia; by apply leadingFraction_end).
  cbn [negb andb].
  rewrite (leadingUnit_text u t (word_chars u unit Hu) Ht), (unit_not_empty u unit Hu).
  rewrite (word_value u unit Hu).
  destruct (2 ^ 63 / unit <? n) eqn:E; [lia|]. destruct (0 <? g) eqn:Eg; [|lia].
  pose proof (fraction_value p k g Hp Hk Hg) as Hv. rewrite <- Eu in Hv. rewrite Hv.
  unfold wrap_uint64.
  pose proof (Z.pow_pos_nonneg 10 (Z.of_nat (p - k)) ltac:(lia) ltac:(lia)) as H1.
  pose proof (word_positive u unit Hu).
  assert (0 <= n * unit) by (apply Z.mul_nonneg_nonneg; lia).
  assert (0 <= g * 10 ^ Z.of_nat (p - k)) by (apply Z.mul_nonneg_nonneg; lia).
  rewrite Z.mod_small by lia.
  by rewrite (proj2 (Z.ltb_ge _ _) Hfit).
Qed.
End component.

(** *** Whole texts *)

Lemma parse_all_add orig d s v s' :
  parse_component orig s = Ok (v, s') -> 0 <= d -> 0 <= v -> d + v <= 2 ^ 63 ->
  parse_all orig d s = parse_all orig (d + v) s'.
Proof.
  intros E Hd Hv Hle. rewrite (parse_all_step _ _ _ _ _ E). unfold wrap_uint64.
  rewrite Z.mod_small by lia. by rewrite (proj2 (Z.ltb_ge _ _) Hle).
Qed.

(** A number, the fraction [fmtFrac] makes of [v], a unit of [10^p]. *)
Lemma component_printed orig p n v u t :
  unit_word u (10 ^ Z.of_nat p) -> next_number t -> (p <= 9)%nat -> 0 <= n -> 0 <= v ->
  n * 10 ^ Z.of_nat p + v mod 10 ^ Z.of_nat p <= 2 ^ 63 ->
  parse_component orig (Itoa n +:+ (fmtFrac p v EmptyString).1 +:+ u +:+ t)
  = Ok (n * 10 ^ Z.of_nat p + v mod 10 ^ Z.of_nat p, t).
Proof.
  intros Hu Ht Hp Hn Hv Hle.
  pose proof (Z.pow_pos_nonneg 10 (Z.of_nat p) ltac:(lia) ltac:(lia)) as Hpos.
  pose proof (Z.mod_pos_bound v (10 ^ Z.of_nat p) Hpos) as Hm.
  assert (0 <= n <= 2 ^ 63 / 10 ^ Z.of_nat p) as Hn'
    by (split; [done|]; apply Z.div_le_lower_bound; lia).
  destruct (fmtFrac_spec p v Hv) as [[H0 ->]|(k & g & Hk & Hg & Hmod & ->)]; cbn [fst].
  - rewrite H0, Z.add_0_r. change (EmptyString +:+ ?x) with x. by apply component_whole.
  - rewrite Hmod in Hle. rewrite Hmod. by apply component_fraction.
Qed.

Ltac known_unit := split; [by vm_compute|by vm_compute|by eexists _, _|done].

Lemma word_ns : unit_word "ns" (10 ^ Z.of_nat 0). Proof. known_unit. Qed.
Lemma word_us : unit_word (micro_sign +:+ "s") (10 ^ Z.of_nat 3). Proof. known_unit. Qed.
Lemma word_ms : unit_word "ms" (10 ^ Z.of_nat 6). Proof. known_unit. Qed.
Lemma word_s : unit_word "s" (10 ^ Z.of_nat 9). Proof. known_unit. Qed.
Lemma word_m : unit_word "m" Minute. Proof. known_unit. Qed.
Lemma word_h : unit_word "h" Hour. Proof. known_unit. Qed.

Lemma next_number_Itoa n t : 0 <= n -> next_number (Itoa n +:+ t).
Proof.
  intros Hn. destruct (Itoa_first n Hn) as (d & s & Hd & ->). by apply is_digit_digit.
Qed.

(** One printed component to the end of the text. *)
Lemma printed_end orig p d n v u :
  unit_word u (10 ^ Z.of_nat p) -> (p <= 9)%nat -> 0 <= d -> 0 <= n -> 0 <= v ->
  d + (n * 10 ^ Z.of_nat p + v mod 10 ^ Z.of_nat p) <= 2 ^ 63 ->
  parse_all orig d (Itoa n +:+ (fmtFrac p v EmptyString).1 +:+ u)
  = Ok (d + (n * 10 ^ Z.of_nat p + v mod 10 ^ Z.of_nat p)).
Proof.
  intros Hu Hp Hd Hn Hv Hle.
  pose proof (Z.pow_pos_nonneg 10 (Z.of_nat p) ltac:(lia) ltac:(lia)) as Hpos.
  pose proof (Z.mod_pos_bound v (10 ^ Z.of_nat p) Hpos).
  assert (0 <= n * 10 ^ Z.of_nat p) by (apply Z.mul_nonneg_nonneg; lia).
  pose proof (component_printed orig p n v u EmptyString Hu I Hp Hn Hv ltac:(lia)) as E.
  rewrite app_nil_string in E. rewrite (parse_all_add _ _ _ _ _ E) by lia. done.
Qed.

Lemma fmtFrac_rest p v : 0 <= v -> (fmtFrac p v EmptyString).2 = v / 10 ^ Z.of_nat p.
Proof. intros Hv. by destruct (fmtFrac_spec p v Hv) as [[_ ->]|(k & g & _ & _ & _ & ->)]. Qed.

Lemma printed_below_second orig u :
  0 < u < Second -> parse_all orig 0 (format_below_second u) = Ok u.
Proof.
  intros Hu. unfold Second, Millisecond, Microsecond, Nanosecond in *.
  assert (forall p unit, unit_word unit (10 ^ Z.of_nat p) -> (p <= 9)%nat ->
    parse_all orig 0 (let '(frac, n) := fmtFrac p u EmptyString in Itoa n +:+ frac +:+ unit) = Ok u)
    as H.
  { intros p unit Hw Hp. pose proof (fmtFrac_rest p u ltac:(lia)) as Hr.
    destruct (fmtFrac p u EmptyString) as [frac n] eqn:E. cbn [snd] in Hr. subst n.
    pose proof (Z.pow_pos_nonneg 10 (Z.of_nat p) ltac:(lia) ltac:(lia)) as Hpos.
    pose proof (Z.div_mod u (10 ^ Z.of_nat p) ltac:(lia)) as Hd.
    pose proof (printed_end orig p 0 (u / 10 ^ Z.of_nat p) u unit Hw Hp ltac:(lia)
      ltac:(by apply Z.div_pos; lia) ltac:(lia) ltac:(lia)) as Hend.
    rewrite E in Hend. cbn [fst] in Hend. rewrite Hend. f_equal. lia. }
  unfold format_below_second. rewrite (proj2 (Z.eqb_neq u 0)) by lia.
  unfold Millisecond, Microsecond, Nanosecond.
  destruct (u <? _); [|destruct (u <? _)];
    [apply (H 0%nat), le_0_n; apply word_ns|apply (H 3%nat); [apply word_us|lia]
    |apply (H 6%nat); [apply word_ms|lia]].
Qed.

Lemma printed_from_second orig u :
  Second <= u <= 2 ^ 63 -> parse_all orig 0 (format_seconds_up u) = Ok u.
Proof.
  unfold Second, Millisecond, Microsecond, Nanosecond. intros Hu. unfold format_seconds_up.
  pose proof (fmtFrac_rest 9 u ltac:(lia)) as Hr.
  destruct (fmtFrac 9 u EmptyString) as [frac n] eqn:E. cbn [snd] in Hr. subst n.
  change (10 ^ Z.of_nat 9) with 1000000000.
  pose proof (Z.div_mod u 1000000000 ltac:(lia)) as H1.
  pose proof (Z.mod_pos_bound u 1000000000 ltac:(lia)) as B1. set (n := u / 1000000000) in *.
  pose proof (Z.div_mod n 60 ltac:(lia)) as H2. pose proof (Z.mod_pos_bound n 60 ltac:(lia)) as B2.
  set (m := n / 60) in *.
  pose proof (Z.div_mod m 60 ltac:(lia)) as H3. pose proof (Z.mod_pos_bound m 60 ltac:(lia)) as B3.
  set (h := m / 60) in *.
  assert (forall d, 0 <= d -> d + ((n mod 60) * 1000000000 + u mod 1000000000) <= 2 ^ 63 ->
    parse_all orig d (Itoa (n mod 60) +:+ frac +:+ "s")
    = Ok (d + ((n mod 60) * 1000000000 + u mod 1000000000))) as Hsecs.
  { intros d Hd Hle.
    pose proof (printed_end orig 9 d (n mod 60) u "s" word_s ltac:(lia) Hd ltac:(lia) ltac:(lia) Hle)
      as Hend. rewrite E in Hend. exact Hend. }
  set (secs := Itoa (n mod 60) +:+ frac +:+ "s") in *.
  assert (next_number secs) as Nsecs by (apply next_number_Itoa; lia).
  destruct (Z.eqb_spec m 0) as [Em|Em]; [rewrite Hsecs by lia; f_equal; lia|].
  assert (forall k, 0 <= k < 60 \/ k = m mod 60 -> forall d, 0 <= d -> d + k * Minute <= 2 ^ 63 ->
    parse_all orig d (Itoa k +:+ "m" +:+ secs) = parse_all orig (d + k * Minute) secs) as Hmins.
  { intros k Hk d Hd Hle. unfold Minute, Second, Millisecond, Microsecond, Nanosecond in *.
    apply parse_all_add; [|lia..]. apply component_whole; [apply word_m|done|].
    unfold Minute, Second, Millisecond, Microsecond, Nanosecond.
    change (2 ^ 63 / (60 * (1000 * (1000 * (1000 * 1))))) with 153722867. lia. }
  set (mins := Itoa (m mod 60) +:+ "m" +:+ secs) in *.
  unfold Minute, Second, Millisecond, Microsecond, Nanosecond in Hmins.
  assert (0 <= n) by lia. assert (0 <= m) by lia. assert (0 <= h) by lia.
  destruct (Z.eqb_spec h 0) as [Eh|Eh].
  { unfold mins. rewrite Hmins by lia. rewrite Hsecs by lia. f_equal. lia. }
  assert (next_number mins) as Nmins by (apply next_number_Itoa; lia).
  assert (parse_all orig 0 (Itoa h +:+ "h" +:+ mins) = parse_all orig (0 + h * Hour) mins) as ->.
  { unfold Hour, Minute, Second, Millisecond, Microsecond, Nanosecond.
    apply parse_all_add; [|lia..]. apply component_whole; [apply word_h|done|].
    unfold Hour, Minute, Second, Millisecond, Microsecond, Nanosecond.
    change (2 ^ 63 / (60 * (60 * (1000 * (1000 * (1000 * 1)))))) with 2562047. lia. }
  unfold Hour, Minute, Second, Millisecond, Microsecond, Nanosecond.
  unfold mins. rewrite Hmins by lia. rewrite Hsecs by lia. f_equal. lia.
Qed.

(** A text that starts with a digit and is longer than it. *)
Definition numbered (s : string) : Prop :=
  exists d x, 0 <= d < 10 /\ s = String (digit d) x /\ x <> EmptyString.

Lemma numbered_Itoa n t : 0 <= n -> t <> EmptyString -> numbered (Itoa n +:+ t).
Proof.
  intros Hn Ht. destruct (Itoa_first n Hn) as (d & s & Hd & ->). exists d, (s +:+ t).
  split_and!; [lia|lia|done|]. destruct s; [exact Ht|done].
Qed.

Lemma app_not_empty a b : b <> EmptyString -> a +:+ b <> EmptyString.
Proof. destruct a; done. Qed.

Lemma numbered_format u :
  0 <= u -> numbered (if u <? Second then format_below_second u else format_seconds_up u).
Proof.
  intros Hu. destruct (u <? Second) eqn:E.
  - unfold format_below_second. destruct (u =? 0).
    { exists 0, "s"%string. split_and!; done. }
    assert (forall p unit, unit <> EmptyString ->
      numbered (let '(frac, n) := fmtFrac p u EmptyString in Itoa n +:+ frac +:+ unit)) as H.
    { intros p unit Hne. pose proof (fmtFrac_rest p u Hu) as Hr.
      destruct (fmtFrac p u EmptyString) as [frac n]. cbn [snd] in Hr. subst n.
      apply numbered_Itoa; [apply Z.div_pos; [lia|apply Z.pow_pos_nonneg; lia]|by apply app_not_empty]. }
    destruct (u <? Microsecond); [|destruct (u <? Millisecond)]; by apply H.
  - unfold format_seconds_up. pose proof (fmtFrac_rest 9 u Hu) as Hr.
    destruct (fmtFrac 9 u EmptyString) as [frac n]. cbn [snd] in Hr. subst n.
    set (n := u / 10 ^ Z.of_nat 9). assert (0 <= n) by (apply Z.div_pos; [lia|done]).
    destruct (_ =? 0); [|destruct (_ =? 0)]; apply numbered_Itoa; try done; try (by apply app_not_empty).
    + apply Z.mod_pos_bound. lia.
    + apply Z.mod_pos_bound. lia.
    + repeat (apply Z.div_pos; [|lia]). lia.
Qed.

Lemma numbered_not_zero s : numbered s -> String.eqb s "0" = false /\ String.eqb s EmptyString = false.
Proof.
  intros (d & x & _ & -> & Hx). rewrite !String.eqb_neq. split; [|done].
  intros [= _ ->]. done.
Qed.

Lemma ParseDuration_plain s :
  numbered s ->
  ParseDuration s =
  match parse_all s 0 s with
  | Err e => Err e
  | Ok d => if 2 ^ 63 - 1 <? d then Err (invalid_duration s) else Ok d
  end.
Proof.
  intros Hs. destruct (numbered_not_zero s Hs) as [H0 H1]. destruct Hs as (d & x & Hd & E & _).
  assert (match s with
          | String "-"%char s => (true, s)
          | String "+"%char s => (false, s)
          | _ => (false, s)
          end = (false, s)) as Hsign.
  { rewrite E. clear -Hd. assert (Hb : digit d <> "-"%char /\ digit d <> "+"%char).
    { split; intros Eb; apply (f_equal byte) in Eb; rewrite digit_byte in Eb by done;
        [change (byte "-") with 45%N in Eb|change (byte "+") with 43%N in Eb]; lia. }
    destruct Hb as [Hb1 Hb2]. generalize dependent (digit d). intros c Hc Hp.
    each_byte c; done. }
  unfold ParseDuration. rewrite Hsign, H0, H1. done.
Qed.

Lemma ParseDuration_minus s :
  numbered s ->
  ParseDuration (String "-"%char s) =
  match parse_all (String "-"%char s) 0 s with
  | Err e => Err e
  | Ok d => Ok (wrap64 (- wrap64 d))
  end.
Proof.
  intros Hs. destruct (numbered_not_zero s Hs) as [H0 H1]. unfold ParseDuration.
  by rewrite H0, H1.
Qed.

Lemma parse_printed orig u :
  0 <= u <= 2 ^ 63 ->
  parse_all orig 0 (if u <? Second then format_below_second u else format_seconds_up u) = Ok u.
Proof.
  intros Hu. destruct (u <? Second) eqn:E.
  - destruct (decide (u = 0)) as [->|]; [by vm_compute|]. apply printed_below_second. lia.
  - apply printed_from_second. lia.
Qed.

(** [ParseDuration] reads what [String] prints, for every int64. *)
Lemma ParseDuration_String d : in_int64 d -> ParseDuration (Duration_String d) = Ok d.
Proof.
  unfold in_int64, int64_min, int64_max. intros Hd. unfold Duration_String.
  destruct (d <? 0) eqn:E.
  - assert (wrap_uint64 (- d) = - d) as -> by (unfold wrap_uint64; rewrite Z.mod_small; lia).
    pose proof (numbered_format (- d) ltac:(lia)) as Hn.
    change ("-" +:+ ?s) with (String "-"%char s). rewrite ParseDuration_minus by done.
    rewrite parse_printed by lia. f_equal. unfold wrap64.
    destruct (decide (d = - 2 ^ 63)) as [->|]; [by vm_compute|].
    rewrite (Z.mod_small (- d + 2 ^ 63)) by lia. rewrite Z.mod_small by lia. lia.
  - pose proof (numbered_format d ltac:(lia)) as Hn. rewrite ParseDuration_plain by done.
    rewrite parse_printed by lia. by rewrite (proj2 (Z.ltb_ge _ _)) by lia.
Qed.
