(* ===== verification/Json.v ===== *)
(** * encoding/json: what the handlers write and read

    Strings are byte strings.  [Encoder.Encode] of the response structs, and
    [Decoder.Decode] with [DisallowUnknownFields] into the two request
    structs, whose fields are strings and an int64.  A member with any other
    value (an array, an object, a boolean, a number with a fraction or an
    exponent) is refused by the decoder, as a syntax error or as a type error,
    so the decoder here refuses it without telling the two apart. *)

From Stdlib Require Import Ascii.
From S2P Require Import Prelude GoRuntime Strconv.

(** ** UTF-8: [utf8.DecodeRune] *)

Definition continuation : ascii -> bool := between_bytes 128 191.

(** The valid second bytes after a leading byte. *)
Definition second2 (c0 c1 : ascii) : bool := between_bytes 194 223 c0 && continuation c1.
Definition second3 (c0 c1 : ascii) : bool :=
  if (byte c0 =? 224)%N then between_bytes 160 191 c1
  else if (byte c0 =? 237)%N then between_bytes 128 159 c1
  else between_bytes 225 239 c0 && continuation c1.
Definition second4 (c0 c1 : ascii) : bool :=
  if (byte c0 =? 240)%N then between_bytes 144 191 c1
  else if (byte c0 =? 244)%N then between_bytes 128 143 c1
  else between_bytes 241 243 c0 && continuation c1.

(** A rune as its bytes, or one byte that starts no rune. *)
Inductive rune : Type :=
| Rune1 (c0 : ascii)
| Rune2 (c0 c1 : ascii)
| Rune3 (c0 c1 c2 : ascii)
| Rune4 (c0 c1 c2 c3 : ascii)
| BadByte (c0 : ascii).

(** The first rune of [String c0 s], and what follows it. *)
Definition first_rune (c0 : ascii) (s : string) : rune * string :=
  if (byte c0 <? 128)%N then (Rune1 c0, s)
  else match s with
       | String c1 s1 =>
           if second2 c0 c1 then (Rune2 c0 c1, s1)
           else match s1 with
                | String c2 s2 =>
                    if second3 c0 c1 && continuation c2 then (Rune3 c0 c1 c2, s2)
                    else match s2 with
                         | String c3 s3 =>
                             if second4 c0 c1 && continuation c2 && continuation c3
                             then (Rune4 c0 c1 c2 c3, s3) else (BadByte c0, s)
                         | EmptyString => (BadByte c0, s)
                         end
                | EmptyString => (BadByte c0, s)
                end
       | EmptyString => (BadByte c0, s)
       end.

Fixpoint runes (fuel : nat) (s : string) : list rune :=
  match fuel, s with
  | S fuel', String c s' => let '(r, rest) := first_rune c s' in r :: runes fuel' rest
  | _, _ => []
  end.

Definition runes_of (s : string) : list rune := runes (String.length s) s.

Definition bytes_string (l : list N) : string := foldr (fun n s => String (ascii_of_N n) s) EmptyString l.

(** U+FFFD *)
Definition replacement : string := Eval vm_compute in bytes_string [239; 191; 189]%N.

Definition rune_bytes (r : rune) : string :=
  match r with
  | Rune1 a => str1 a
  | Rune2 a b => String a (str1 b)
  | Rune3 a b c => String a (String b (str1 c))
  | Rune4 a b c d => String a (String b (String c (str1 d)))
  | BadByte _ => replacement
  end.

Definition concat_strings : list string -> string := foldr String.append EmptyString.

(** The string with U+FFFD for every byte that is not UTF-8. *)
Definition to_valid (s : string) : string := concat_strings (map rune_bytes (runes_of s)).

(** ** Encoding *)

Definition dquote : string := Eval vm_compute in bytes_string [34]%N.
Definition backslash : string := Eval vm_compute in bytes_string [92]%N.
Definition newline : string := Eval vm_compute in bytes_string [10]%N.

Definition hex_lower (n : N) : ascii := ascii_of_N (if (n <? 10)%N then 48 + n else 87 + n).

(** [\u00xy] *)
Definition escape_u00 (c : ascii) : string :=
  backslash +:+ "u00" +:+ String (hex_lower (byte c / 16)) (str1 (hex_lower (byte c mod 16))).

Definition escape_ascii (c : ascii) : string :=
  match byte c with
  | 34%N => backslash +:+ dquote
  | 92%N => backslash +:+ backslash
  | 8%N => backslash +:+ "b"
  | 12%N => backslash +:+ "f"
  | 10%N => backslash +:+ "n"
  | 13%N => backslash +:+ "r"
  | 9%N => backslash +:+ "t"
  | 60%N | 62%N | 38%N => escape_u00 c
  | n => if (n <? 32)%N then escape_u00 c else str1 c
  end.

Definition escape_rune (r : rune) : string :=
  match r with
  | Rune1 c => escape_ascii c
  | Rune3 a b c =>
      (* U+2028 and U+2029 *)
      if (byte a =? 226)%N && (byte b =? 128)%N && ((byte c =? 168)%N || (byte c =? 169)%N)
      then backslash +:+ "u202" +:+ str1 (hex_lower (byte c mod 16)) else rune_bytes r
  | BadByte _ => backslash +:+ "ufffd"
  | _ => rune_bytes r
  end.

Definition escape (s : string) : string := concat_strings (map escape_rune (runes_of s)).
Definition json_string (s : string) : string := dquote +:+ escape s +:+ dquote.
Definition json_int (z : Z) : string := pretty z.

Fixpoint join (sep : string) (l : list string) : string :=
  match l with
  | [] => EmptyString
  | [s] => s
  | s :: l' => s +:+ sep +:+ join sep l'
  end.

Definition json_object (fields : list (string * string)) : string :=
  "{" +:+ join "," (map (fun kv => json_string kv.1 +:+ ":" +:+ kv.2) fields) +:+ "}".
Definition json_array (l : list string) : string := "[" +:+ join "," l +:+ "]".

(** A field with the option [omitempty]. *)
Definition omitempty (name value : string) : list (string * string) :=
  if decide (value = EmptyString) then [] else [(name, json_string value)].

(** ** Decoding *)

Fixpoint skip_space (s : string) : string :=
  match s with
  | String c s' =>
      match byte c with
      | 32%N | 9%N | 10%N | 13%N => skip_space s'
      | _ => s
      end
  | EmptyString => s
  end.

(** What a string starts with, and the rest. *)
Fixpoint strip_prefix (p s : string) : option string :=
  match p, s with
  | EmptyString, _ => Some s
  | String a p', String b s' => if Ascii.eqb a b then strip_prefix p' s' else None
  | _, EmptyString => None
  end.

Definition hex_value (c : ascii) : option N :=
  let n := byte c in
  if between_bytes 48 57 c then Some (n - 48)%N
  else if between_bytes 65 70 c then Some (n - 55)%N
  else if between_bytes 97 102 c then Some (n - 87)%N
  else None.

(** Four hexadecimal digits. *)
Definition hex4 (s : string) : option (N * string) :=
  match s with
  | String a (String b (String c (String d rest))) =>
      a ← hex_value a; b ← hex_value b; c ← hex_value c; d ← hex_value d;
      Some (((a * 16 + b) * 16 + c) * 16 + d, rest)%N
  | _ => None
  end.

(** [utf8.AppendRune] of a rune that is no surrogate. *)
Definition utf8 (r : N) : string :=
  if (r <? 128)%N then bytes_string [r]
  else if (r <? 2048)%N then bytes_string [192 + r / 64; 128 + r mod 64]%N
  else if (r <? 65536)%N then
    bytes_string [224 + r / 4096; 128 + r / 64 mod 64; 128 + r mod 64]%N
  else bytes_string
    [240 + r / 262144; 128 + r / 4096 mod 64; 128 + r / 64 mod 64; 128 + r mod 64]%N.

Definition in_range (lo hi r : N) : bool := (lo <=? r)%N && (r <=? hi)%N.
Definition IsSurrogate : N -> bool := in_range 55296 57343.

(** [utf16.DecodeRune] of two halves. *)
Definition utf16_pair (hi lo : N) : option N :=
  if in_range 55296 56319 hi && in_range 56320 57343 lo
  then Some ((hi - 55296) * 1024 + (lo - 56320) + 65536)%N else None.

(** A low half after [\uXXXX], when it completes the high half [r]. *)
Definition second_half (r : N) (s : string) : option (N * string) :=
  s ← strip_prefix (backslash +:+ "u") s;
  '(r1, rest) ← hex4 s;
  x ← utf16_pair r r1;
  Some (x, rest).

(** The character of a one-letter escape. *)
Definition simple_escape (c : ascii) : option N :=
  match byte c with
  | 34%N => Some 34%N | 92%N => Some 92%N | 47%N => Some 47%N
  | 98%N => Some 8%N | 102%N => Some 12%N | 110%N => Some 10%N
  | 114%N => Some 13%N | 116%N => Some 9%N
  | _ => None
  end.

Definition unquote_u (s : string) : option (string * string) :=
  '(r, rest) ← hex4 s;
  if IsSurrogate r then
    match second_half r rest with
    | Some (x, rest') => Some (utf8 x, rest')
    | None => Some (replacement, rest)
    end
  else Some (utf8 r, rest).

(** One character of a string literal, decoded, and the rest. *)
Definition unquote_char (c : ascii) (s : string) : option (string * string) :=
  if (byte c =? 92)%N then
    match s with
    | String e s' =>
        match simple_escape e with
        | Some n => Some (bytes_string [n], s')
        | None => if (byte e =? 117)%N then unquote_u s' else None
        end
    | EmptyString => None
    end
  else if (byte c <? 32)%N then None
  else let '(r, rest) := first_rune c s in Some (rune_bytes r, rest).

(** The rest of a string literal after its opening quote. *)
Fixpoint unquote (fuel : nat) (s : string) : option (string * string) :=
  match fuel, s with
  | S fuel', String c s' =>
      if (byte c =? 34)%N then Some (EmptyString, s')
      else '(x, rest) ← unquote_char c s'; '(y, rest') ← unquote fuel' rest; Some (x +:+ y, rest')
  | _, _ => None
  end.

Definition literal (s : string) : option (string * string) :=
  s ← strip_prefix dquote s; unquote (String.length s) s.

(** An integer literal, and whether it fits an int64. *)
Definition int_literal (s : string) : option (Z * string) :=
  let '(sign, s) := match strip_prefix "-" s with Some s' => (-1, s') | None => (1, s) end in
  match s with
  | String c rest =>
      d ← digit_value c;
      let '(n, rest) := if decide (d = 0) then (0, rest) else read_digits d rest in
      if decide (in_int64 (sign * n)) then Some (sign * n, rest) else None
  | EmptyString => None
  end.

(** ** Decoding into a struct *)

Inductive kind : Type := KString | KInt64.
Inductive value : Type := VString (s : string) | VInt64 (n : Z).

#[global] Instance value_eq_dec : EqDecision value.
Proof. solve_decision. Defined.

(** [null] leaves the field as it is. *)
Definition decode_value (k : kind) (s : string) : option (option value * string) :=
  match strip_prefix "null" s with
  | Some rest => Some (None, rest)
  | None =>
      match k with
      | KString => '(x, rest) ← literal s; Some (Some (VString x), rest)
      | KInt64 => '(n, rest) ← int_literal s; Some (Some (VInt64 n), rest)
      end
  end.

Definition upper (c : ascii) : ascii :=
  if between_bytes 97 122 c then ascii_of_N (byte c - 32) else c.

(** Two runes outside ASCII fold to letters: the long s and the Kelvin sign. *)
Definition fold_rune (r : rune) : string :=
  match r with
  | Rune1 c => str1 (upper c)
  | Rune2 a b => if (byte a =? 197)%N && (byte b =? 191)%N then "S" else rune_bytes r
  | Rune3 a b c =>
      if (byte a =? 226)%N && (byte b =? 132)%N && (byte c =? 170)%N then "K" else rune_bytes r
  | _ => rune_bytes r
  end.

(** [foldName] *)
Definition foldName (s : string) : string := concat_strings (map fold_rune (runes_of s)).

(** The field a member's key names: no field is an error
    ([DisallowUnknownFields]). *)
Definition field_of (fields : list (string * kind)) (key : string) : option (string * kind) :=
  find (fun f => String.eqb (foldName f.1) (foldName key)) fields.

(** One member: its field and what it is set to, if it is. *)
Definition decode_member (fields : list (string * kind)) (s : string)
  : option (list (string * value) * string) :=
  '(key, s) ← literal s;
  s ← strip_prefix ":" (skip_space s);
  f ← field_of fields key;
  '(v, s) ← decode_value f.2 (skip_space s);
  Some (match v with Some v => [(f.1, v)] | None => [] end, skip_space s).

(** The members up to the closing brace. *)
Fixpoint decode_members (fuel : nat) (fields : list (string * kind)) (s : string)
  : option (list (string * value)) :=
  match fuel with
  | O => None
  | S fuel' =>
      '(l, s) ← decode_member fields s;
      match strip_prefix "," s with
      | Some s => l' ← decode_members fuel' fields (skip_space s); Some (l ++ l')
      | None => _ ← strip_prefix "}" s; Some l
      end
  end.

(** [dec.Decode(&req)]: the assignments to the fields of [req], in order.
    [None] is an error.  What follows the value is not read. *)
Definition Decode (fields : list (string * kind)) (body : string)
  : option (list (string * value)) :=
  let s := skip_space body in
  match strip_prefix "null" s with
  | Some _ => Some []
  | None =>
      s ← strip_prefix "{" s;
      match strip_prefix "}" (skip_space s) with
      | Some _ => Some []
      | None => decode_members (S (String.length s)) fields (skip_space s)
      end
  end.

(** A field after the assignments: the last one counts. *)
Definition field_string (l : list (string * value)) (name : string) : string :=
  foldl (fun x kv => match kv.2 with
                     | VString s => if String.eqb kv.1 name then s else x
                     | _ => x end) EmptyString l.
Definition field_int64 (l : list (string * value)) (name : string) : Z :=
  foldl (fun x kv => match kv.2 with
                     | VInt64 n => if String.eqb kv.1 name then n else x
                     | _ => x end) 0 l.

(** ** Reading what was written *)

Lemma byte_eq c n : byte c = n -> c = ascii_of_N n.
Proof. intros <-. symmetry. apply ascii_N_embedding. Qed.

(** The runes [first_rune] gives. *)
Definition rune_valid (r : rune) : Prop :=
  match r with
  | Rune1 a => (byte a <? 128)%N = true
  | Rune2 a b => (byte a <? 128)%N = false /\ second2 a b = true
  | Rune3 a b c =>
      (byte a <? 128)%N = false /\ second2 a b = false /\ second3 a b && continuation c = true
  | Rune4 a b c d =>
      (byte a <? 128)%N = false /\ second2 a b = false /\ second3 a b && continuation c = false /\
      second4 a b && continuation c && continuation d = true
  | BadByte _ => True
  end.

Lemma first_rune_valid c s : rune_valid (first_rune c s).1.
Proof. unfold first_rune. repeat case_match; simpl; auto. Qed.

Lemma runes_valid fuel s : Forall rune_valid (runes fuel s).
Proof.
  revert s. induction fuel as [|fuel IH]; intros [|c s]; simpl; auto.
  pose proof (first_rune_valid c s). destruct (first_rune c s). auto.
Qed.

Lemma strip_prefix_app p s : strip_prefix p (p +:+ s) = Some s.
Proof. induction p as [|a p IH]; [done|]. simpl. by rewrite Ascii.eqb_refl. Qed.

(** A rune of two or more bytes reads back as itself. *)
Lemma first_rune_bytes r t :
  rune_valid r -> (forall c, r <> BadByte c) -> exists c s,
  rune_bytes r +:+ t = String c s /\ first_rune c s = (r, t) /\
  match r with Rune1 _ => True | _ => (byte c <? 128)%N = false end.
Proof.
  intros Hr Hb. unfold first_rune. destruct r as [a|a b|a b c|a b c d|a]; simpl in Hr.
  - exists a, t. by rewrite Hr.
  - destruct Hr as (Ha & H2). exists a, (String b t). by rewrite Ha, H2.
  - destruct Hr as (Ha & H2 & H3). exists a, (String b (String c t)). by rewrite Ha, H2, H3.
  - destruct Hr as (Ha & H2 & H3 & H4). exists a, (String b (String c (String d t))).
    by rewrite Ha, H2, H3, H4.
  - by destruct (Hb a).
Qed.

Lemma unquote_plain_rune r t :
  rune_valid r -> (forall c, r <> BadByte c) -> (forall c, r <> Rune1 c) -> exists c s,
  rune_bytes r +:+ t = String c s /\ (byte c =? 34)%N = false /\
  unquote_char c s = Some (rune_bytes r, t).
Proof.
  intros Hr Hb H1. destruct (first_rune_bytes r t Hr Hb) as (c & s & E & Hf & Hc).
  exists c, s. assert ((byte c <? 128)%N = false) as H128 by (destruct r; [by destruct (H1 c0)|done..]).
  unfold unquote_char. rewrite E, Hf. apply N.ltb_ge in H128.
  destruct (N.eqb_spec (byte c) 34); [lia|]. destruct (N.eqb_spec (byte c) 92); [lia|].
  by destruct (N.ltb_spec (byte c) 32); [lia|].
Qed.

Lemma unquote_ascii c t :
  (byte c <? 128)%N = true -> exists c' s,
  escape_ascii c +:+ t = String c' s /\ (byte c' =? 34)%N = false /\
  unquote_char c' s = Some (str1 c, t).
Proof.
  intros H. each_byte c; try (by vm_compute in H);
    (eexists _, _; split_and!; [reflexivity|by vm_compute|by vm_compute]).
Qed.

(** Every character of an escaped string is read back. *)
Lemma unquote_rune r t :
  rune_valid r -> exists c s,
  escape_rune r +:+ t = String c s /\ (byte c =? 34)%N = false /\
  unquote_char c s = Some (rune_bytes r, t).
Proof.
  intros Hr. destruct r as [a|a b|a b c|a b c d|a]; cbn [escape_rune].
  - by apply unquote_ascii.
  - by apply unquote_plain_rune.
  - destruct (N.eqb_spec (byte a) 226) as [Ea|]; [|by apply unquote_plain_rune].
    destruct (N.eqb_spec (byte b) 128) as [Eb|]; [|by apply unquote_plain_rune].
    apply byte_eq in Ea as ->. apply byte_eq in Eb as ->.
    destruct (N.eqb_spec (byte c) 168) as [Ec|]; [|destruct (N.eqb_spec (byte c) 169) as [Ec|];
      [|by apply unquote_plain_rune]];
    (apply byte_eq in Ec as ->; eexists _, _; split_and!; [reflexivity|by vm_compute|by vm_compute]).
  - by apply unquote_plain_rune.
  - eexists _, _; split_and!; [reflexivity|by vm_compute|by vm_compute].
Qed.

Lemma unquote_runes rs t fuel :
  Forall rune_valid rs -> (length rs < fuel)%nat ->
  unquote fuel (concat_strings (map escape_rune rs) +:+ dquote +:+ t) =
  Some (concat_strings (map rune_bytes rs), t).
Proof.
  intros Hrs. revert fuel. induction Hrs as [|r rs Hr _ IH]; intros fuel Hf;
    (destruct fuel as [|fuel]; [simpl in Hf; lia|]); [done|].
  cbn [map concat_strings foldr]. rewrite app_assoc_string.
  destruct (unquote_rune r (concat_strings (map escape_rune rs) +:+ dquote +:+ t) Hr)
    as (c & s & E & Hq & Hc).
  unfold concat_strings in *. rewrite E. cbn [unquote]. rewrite Hq, Hc.
  cbn [mbind option_bind]. by rewrite IH by (simpl in Hf; lia).
Qed.

Lemma length_escape rs :
  Forall rune_valid rs ->
  (length rs <= String.length (concat_strings (map escape_rune rs)))%nat.
Proof.
  induction 1 as [|r rs Hr _ IH]; [done|]. cbn [map concat_strings foldr length].
  rewrite length_app_string. destruct (unquote_rune r EmptyString Hr) as (c & s & E & _).
  rewrite app_nil_string in E. rewrite E. fold (concat_strings (map escape_rune rs)). cbn [String.length]. lia.
Qed.

(** A string literal is read back, with U+FFFD for what is not UTF-8. *)
Lemma literal_json_string s t : literal (json_string s +:+ t) = Some (to_valid s, t).
Proof.
  unfold literal, json_string. rewrite !app_assoc_string, strip_prefix_app.
  cbn [mbind option_bind]. apply unquote_runes; [apply runes_valid|].
  rewrite !length_app_string. pose proof (length_escape (runes_of s) (runes_valid _ _)).
  unfold escape. change (String.length dquote) with 1%nat. lia.
Qed.

Lemma strip_prefix_ne a p c s : a <> c -> strip_prefix (String a p) (String c s) = None.
Proof. intros. simpl. by destruct (Ascii.eqb_spec a c). Qed.

Lemma digit_ne d c : 0 <= d < 10 -> (byte c < 48 \/ 57 < byte c)%N -> c <> digit d.
Proof. intros Hd Hc ->. rewrite digit_byte in Hc by done. lia. Qed.

Lemma int_literal_json_int z t :
  in_int64 z -> ends_digits t -> int_literal (json_int z +:+ t) = Some (z, t).
Proof.
  intros Hz Ht. unfold json_int.
  assert (forall sign p, sign * p = z -> 0 <= p -> exists d rest,
    pretty p +:+ t = String (digit d) rest /\ 0 <= d < 10 /\
    (if decide (d = 0) then (0, rest) else read_digits d rest) = (p, t)) as Hpos.
  { intros sign p _ Hp. destruct (decide (p = 0)) as [->|Hp0]; [by exists 0, t|].
    destruct (pretty_pos p t ltac:(lia)) as (Hr & d & s' & Hd & E).
    exists d, (s' +:+ t). rewrite E in *. split_and!; [done|lia|lia|].
    rewrite decide_False by lia. rewrite <- (Ht p), <- Hr.
    change (String (digit d) s' +:+ t) with (String (digit d) (s' +:+ t)).
    cbn [read_digits]. by rewrite digit_value_digit by lia. }
  unfold int_literal. destruct (decide (z < 0)) as [Hn|Hn].
  - rewrite (pretty_neg z Hn), app_assoc_string, strip_prefix_app.
    destruct (Hpos (-1) (- z)) as (d & rest & -> & Hd & Hr); [lia..|].
    rewrite digit_value_digit by lia. cbn [mbind option_bind]. rewrite Hr.
    replace (-1 * - z) with z by lia. by rewrite decide_True.
  - destruct (Hpos 1 z) as (d & rest & -> & Hd & Hr); [lia..|].
    rewrite strip_prefix_ne by (apply digit_ne; [done|left; by vm_compute]).
    rewrite digit_value_digit by lia. cbn [mbind option_bind]. rewrite Hr.
    rewrite Z.mul_1_l. by rewrite decide_True.
Qed.

(** The first character of an encoded integer. *)
Lemma json_int_first z t : exists c s, json_int z +:+ t = String c s /\ (byte c <? 58)%N = true /\
  (44 <? byte c)%N = true.
Proof.
  unfold json_int. destruct (decide (z < 0)) as [Hn|Hn].
  - rewrite (pretty_neg z Hn). by exists "-"%char, (pretty (- z) +:+ t).
  - destruct (decide (z = 0)) as [->|]; [by exists "0"%char, t|].
    destruct (pretty_pos z t ltac:(lia)) as (_ & d & s' & Hd & E). rewrite E.
    eexists _, _. split; [done|]. rewrite digit_byte by lia. split; apply N.ltb_lt; lia.
Qed.

(** A struct as the list of its fields. *)
Definition kind_of (v : value) : kind :=
  match v with VString _ => KString | VInt64 _ => KInt64 end.
Definition encode_value (v : value) : string :=
  match v with VString s => json_string s | VInt64 n => json_int n end.
Definition valid_value (v : value) : value :=
  match v with VString s => VString (to_valid s) | VInt64 n => VInt64 n end.
Definition value_ok (v : value) : Prop :=
  match v with VString _ => True | VInt64 n => in_int64 n end.

(** What can follow a member. *)
Definition member_end (t : string) : Prop :=
  exists s, t = "," +:+ s \/ t = "}" +:+ s.

Lemma member_end_digits t : member_end t -> ends_digits t.
Proof. by intros (s & [-> | ->]) z. Qed.
Lemma member_end_space t : member_end t -> skip_space t = t.
Proof. by intros (s & [-> | ->]). Qed.

Lemma decode_encode_value v t :
  value_ok v -> member_end t ->
  decode_value (kind_of v) (skip_space (encode_value v +:+ t)) = Some (Some (valid_value v), t).
Proof.
  intros Hv Ht. unfold decode_value. destruct v as [s|n]; cbn [encode_value kind_of valid_value].
  - change (skip_space (json_string s +:+ t)) with (json_string s +:+ t).
    change (strip_prefix "null" (json_string s +:+ t)) with (@None string).
    by rewrite literal_json_string.
  - destruct (json_int_first n t) as (c & s & E & Hc & Hc').
    apply N.ltb_lt in Hc, Hc'.
    assert (skip_space (json_int n +:+ t) = json_int n +:+ t) as ->.
    { rewrite E. cbn [skip_space]. repeat (case_match; try done); lia. }
    assert (strip_prefix "null" (json_int n +:+ t) = None) as ->.
    { rewrite E. apply strip_prefix_ne. intros <-. by vm_compute in Hc. }
    by rewrite int_literal_json_int by auto using member_end_digits.
Qed.

Lemma decode_encode_member fields name v t :
  field_of fields (to_valid name) = Some (name, kind_of v) -> value_ok v -> member_end t ->
  decode_member fields (json_string name +:+ ":" +:+ encode_value v +:+ t) =
  Some ([(name, valid_value v)], t).
Proof.
  intros Hf Hv Ht. unfold decode_member. rewrite literal_json_string.
  cbn [mbind option_bind]. change (skip_space (":" +:+ ?s)) with (":" +:+ s).
  rewrite strip_prefix_app. cbn [mbind option_bind]. rewrite Hf.
  cbn [mbind option_bind snd fst]. rewrite decode_encode_value by done.
  cbn [mbind option_bind]. by rewrite member_end_space.
Qed.

Definition encode_fields (l : list (string * value)) : list (string * string) :=
  map (fun kv => (kv.1, encode_value kv.2)) l.
Definition valid_fields (l : list (string * value)) : list (string * value) :=
  map (fun kv => (kv.1, valid_value kv.2)) l.
Definition members_text (l : list (string * string)) : string :=
  join "," (map (fun kv => json_string kv.1 +:+ ":" +:+ kv.2) l).

Lemma decode_encode_members fields l t fuel :
  Forall (fun kv => field_of fields (to_valid kv.1) = Some (kv.1, kind_of kv.2) /\
                    value_ok kv.2) l ->
  l <> [] -> (length l <= fuel)%nat ->
  decode_members fuel fields (members_text (encode_fields l) +:+ "}" +:+ t) =
  Some (valid_fields l).
Proof.
  intros Hl Hne. revert fuel. induction Hl as [|[name v] l [Hf Hv] _ IH]; intros fuel Hfuel; [done|].
  simpl in Hf, Hv. destruct fuel as [|fuel]; [simpl in Hfuel; lia|]. cbn [decode_members].
  destruct l as [|kv l].
  - unfold members_text. cbn [encode_fields map join fst snd]. rewrite !app_assoc_string.
    rewrite decode_encode_member by (try done; exists t; by right).
    cbn [mbind option_bind]. change (strip_prefix "," ("}" +:+ t)) with (@None string).
    by rewrite strip_prefix_app.
  - assert (members_text (encode_fields ((name, v) :: kv :: l)) =
      json_string name +:+ ":" +:+ encode_value v +:+ "," +:+ members_text (encode_fields (kv :: l)))
      as ->.
    { unfold members_text, encode_fields. cbn [map fst snd]. cbn [join fst snd].
      by rewrite !app_assoc_string. }
    rewrite !app_assoc_string. rewrite decode_encode_member by (try done; eexists; by left).
    cbn [mbind option_bind]. rewrite strip_prefix_app.
    assert (skip_space (members_text (encode_fields (kv :: l)) +:+ "}" +:+ t) =
      members_text (encode_fields (kv :: l)) +:+ "}" +:+ t) as ->.
    { unfold members_text. cbn [encode_fields map]. by destruct (map _ (map _ l)). }
    rewrite IH by (try done; simpl in *; lia). done.
Qed.

Lemma length_join sep l :
  Forall (fun s => 1 <= String.length s)%nat l ->
  (length l <= String.length (join sep l))%nat.
Proof.
  induction 1 as [|s l Hs Hl IH]; [done|]. destruct l as [|s' l]; [simpl in *; lia|].
  cbn [join length]. rewrite !length_app_string. cbn [join length] in IH. lia.
Qed.

(** An encoded struct, whatever follows it, is read back field by field. *)
Lemma Decode_encode fields l t :
  Forall (fun kv => field_of fields (to_valid kv.1) = Some (kv.1, kind_of kv.2) /\
                    value_ok kv.2) l ->
  l <> [] -> Decode fields (json_object (encode_fields l) +:+ t) = Some (valid_fields l).
Proof.
  intros Hl Hne. unfold Decode, json_object. fold (members_text (encode_fields l)).
  rewrite !app_assoc_string.
  change (skip_space ("{" +:+ ?s)) with ("{" +:+ s).
  change (strip_prefix "null" ("{" +:+ ?s)) with (@None string). rewrite strip_prefix_app.
  cbn [mbind option_bind].
  assert (exists s, members_text (encode_fields l) +:+ "}" +:+ t = dquote +:+ s) as [s E].
  { destruct l as [|kv l]; [done|]. unfold members_text. cbn [encode_fields map].
    destruct (map _ (map _ l)); cbn [join]; unfold json_string;
      eexists; rewrite !app_assoc_string; reflexivity. }
  assert (skip_space (members_text (encode_fields l) +:+ "}" +:+ t) =
    members_text (encode_fields l) +:+ "}" +:+ t) as -> by (by rewrite E).
  assert (strip_prefix "}" (members_text (encode_fields l) +:+ "}" +:+ t) = None) as ->
    by (by rewrite E).
  apply decode_encode_members; [done..|]. rewrite length_app_string.
  assert (length l <= String.length (members_text (encode_fields l)))%nat; [|lia].
  unfold members_text. etrans; [|apply length_join].
  - unfold encode_fields. by rewrite !length_map.
  - apply Forall_forall. intros x Hx. apply list_elem_of_fmap in Hx as (kv & -> & _).
    rewrite length_app_string. unfold json_string. rewrite length_app_string.
    change (String.length dquote) with 1%nat. lia.
Qed.

(** ** Decoded numbers are int64 *)

Lemma int_literal_range s n t : int_literal s = Some (n, t) -> in_int64 n.
Proof.
  unfold int_literal. destruct (match strip_prefix "-" s with Some _ => _ | None => _ end) as [sign x].
  destruct x as [|c rest]; [done|]. intros (d & _ & H)%bind_Some.
  destruct (if decide (d = 0) then _ else _) as [m y]. case_decide; by simplify_eq.
Qed.

Lemma decode_value_ok k s v t : decode_value k s = Some (Some v, t) -> value_ok v.
Proof.
  unfold decode_value. destruct (strip_prefix _ _); [done|]. destruct k.
  - intros ([x y] & _ & H)%bind_Some. by simplify_eq.
  - intros ([n y] & Hn & H)%bind_Some. simplify_eq. by eapply int_literal_range.
Qed.

Lemma decode_members_ok fuel fields s l :
  decode_members fuel fields s = Some l -> Forall (fun kv => value_ok kv.2) l.
Proof.
  revert s l. induction fuel as [|fuel IH]; [done|]. intros s l. cbn [decode_members].
  intros ([l1 s1] & H1 & H)%bind_Some.
  assert (Forall (fun kv => value_ok kv.2) l1) as Hl1.
  { unfold decode_member in H1. apply bind_Some in H1 as ([key s2] & _ & H1).
    apply bind_Some in H1 as (s3 & _ & H1). apply bind_Some in H1 as (f & _ & H1).
    apply bind_Some in H1 as ([[v|] s4] & Hv & H1); simplify_eq; [|constructor].
    constructor; [by eapply decode_value_ok|constructor]. }
  destruct (strip_prefix "," s1).
  - apply bind_Some in H as (l2 & H2 & H). simplify_eq. apply Forall_app. eauto.
  - apply bind_Some in H as (s2 & _ & H). by simplify_eq.
Qed.

Lemma Decode_ok fields body l : Decode fields body = Some l -> Forall (fun kv => value_ok kv.2) l.
Proof.
  unfold Decode. destruct (strip_prefix _ _); [intros [= <-]; constructor|].
  intros (s & _ & H)%bind_Some. destruct (strip_prefix _ _); [simplify_eq; constructor|].
  by eapply decode_members_ok.
Qed.

Lemma field_int64_range l name :
  Forall (fun kv => value_ok kv.2) l -> in_int64 (field_int64 l name).
Proof.
  intros Hl. unfold field_int64. assert (in_int64 0) as H0 by (by vm_compute).
  revert H0. generalize 0. induction Hl as [|[k [s|n]] l Hv _ IH]; intros z Hz; simpl; auto.
  apply IH. by case_match.
Qed.

(** ** The fuel is enough

    Every step of the decoder consumes a character, so the length of the text
    is enough fuel and more changes nothing. *)

Abbreviation len := String.length.

Lemma strip_prefix_length p s s' : strip_prefix p s = Some s' -> (len s' + len p = len s)%nat.
Proof.
  revert s. induction p as [|a p IH]; intros s; simpl; [intros [= ->]; lia|].
  destruct s as [|b s]; [done|]. destruct (Ascii.eqb a b); [|done]. intros H.
  apply IH in H. simpl. lia.
Qed.

Lemma skip_space_length s : (len (skip_space s) <= len s)%nat.
Proof. induction s as [|c s IH]; simpl; [done|]. repeat case_match; simpl; lia. Qed.

Lemma first_rune_length c s : (len (first_rune c s).2 <= len s)%nat.
Proof. unfold first_rune. repeat case_match; simpl; lia. Qed.

Lemma runes_fuel n m s : (len s <= n)%nat -> (len s <= m)%nat -> runes n s = runes m s.
Proof.
  revert m s. induction n as [|n IH]; intros [|m] [|c s]; simpl; intros Hn Hm; try lia; try done.
  pose proof (first_rune_length c s). destruct (first_rune c s) as [r rest]. simpl in *.
  f_equal. apply IH; lia.
Qed.

Lemma hex4_length s r s' : hex4 s = Some (r, s') -> (len s' <= len s)%nat.
Proof.
  unfold hex4. destruct s as [|a [|b [|c [|d s]]]]; try done. cbn [len].
  destruct (hex_value a), (hex_value b), (hex_value c), (hex_value d); try done.
  intros [= _ <-]. lia.
Qed.

Lemma second_half_length r s x s' : second_half r s = Some (x, s') -> (len s' <= len s)%nat.
Proof.
  unfold second_half. intros (s1 & H1 & H)%bind_Some. apply bind_Some in H as ([r1 s2] & H2 & H).
  apply bind_Some in H as (y & _ & [= _ <-]). apply strip_prefix_length in H1.
  apply hex4_length in H2. lia.
Qed.

Lemma unquote_char_length c s x s' : unquote_char c s = Some (x, s') -> (len s' <= len s)%nat.
Proof.
  unfold unquote_char. destruct (byte c =? 92)%N.
  - destruct s as [|e s]; [done|]. destruct (simple_escape e); [intros [= _ <-]; simpl; lia|].
    destruct (byte e =? 117)%N; [|done]. unfold unquote_u.
    intros ([r rest] & Hr & H)%bind_Some. apply hex4_length in Hr. cbn [len].
    destruct (IsSurrogate r); [|by simplify_eq; lia].
    destruct (second_half r rest) as [[y rest']|] eqn:E; simplify_eq; [|lia].
    apply second_half_length in E. lia.
  - destruct (byte c <? 32)%N; [done|]. pose proof (first_rune_length c s).
    destruct (first_rune c s). intros [= _ <-]. done.
Qed.

Lemma unquote_fuel n m s : (len s <= n)%nat -> (len s <= m)%nat -> unquote n s = unquote m s.
Proof.
  revert m s. induction n as [|n IH]; intros [|m] [|c s]; simpl; intros Hn Hm; try lia; try done.
  destruct (byte c =? 34)%N; [done|]. destruct (unquote_char c s) as [[x rest]|] eqn:E; [|done].
  apply unquote_char_length in E. cbn [mbind option_bind]. by rewrite (IH m rest) by lia.
Qed.

Lemma unquote_length n s x s' : unquote n s = Some (x, s') -> (len s' <= len s)%nat.
Proof.
  revert s x s'. induction n as [|n IH]; intros [|c s] x s'; simpl; try done.
  destruct (byte c =? 34)%N; [intros [= _ <-]; lia|].
  intros ([y rest] & E & H)%bind_Some. apply bind_Some in H as ([z rest'] & E' & [= _ <-]).
  apply unquote_char_length in E. apply IH in E'. lia.
Qed.

Lemma literal_length s x s' : literal s = Some (x, s') -> (len s' <= len s)%nat.
Proof.
  unfold literal. intros (s1 & H1 & H)%bind_Some. apply strip_prefix_length in H1.
  apply unquote_length in H. lia.
Qed.

Lemma read_digits_length acc s : (len (read_digits acc s).2 <= len s)%nat.
Proof.
  revert acc. induction s as [|c s IH]; intros acc; simpl; [done|].
  destruct (digit_value c); simpl; [|done]. etrans; [apply IH|lia].
Qed.

Lemma int_literal_length s z s' : int_literal s = Some (z, s') -> (len s' <= len s)%nat.
Proof.
  unfold int_literal. assert (exists sign t, (len t <= len s)%nat /\
    match strip_prefix "-" s with Some s1 => (-1, s1) | None => (1, s) end = (sign, t))
    as (sign & t & Ht & ->).
  { destruct (strip_prefix "-" s) as [s1|] eqn:E; [apply strip_prefix_length in E|];
      eexists _, _; (split; [|done]); lia. }
  destruct t as [|c t]; [done|]. intros (d & _ & H)%bind_Some. cbn [len] in Ht.
  pose proof (read_digits_length d t). case_decide; [|destruct (read_digits d t)];
    case_decide; simplify_eq/=; lia.
Qed.

Lemma decode_value_length k s v s' : decode_value k s = Some (v, s') -> (len s' <= len s)%nat.
Proof.
  unfold decode_value. destruct (strip_prefix "null" s) as [t|] eqn:E.
  - intros [= _ <-]. apply strip_prefix_length in E. lia.
  - destruct k; intros ([x t] & H & [= _ <-])%bind_Some;
      [by apply literal_length in H|by apply int_literal_length in H].
Qed.

Lemma decode_member_length fields s l s' :
  decode_member fields s = Some (l, s') -> (len s' < len s)%nat.
Proof.
  unfold decode_member. intros ([key s1] & H1 & H)%bind_Some.
  apply bind_Some in H as (s2 & H2 & H). apply bind_Some in H as (f & _ & H).
  apply bind_Some in H as ([v s3] & H3 & [= _ <-]).
  apply literal_length in H1. apply strip_prefix_length in H2. apply decode_value_length in H3.
  pose proof (skip_space_length s1). pose proof (skip_space_length s2).
  pose proof (skip_space_length s3). simpl in H2. lia.
Qed.

Lemma decode_members_fuel n m fields s :
  (len s < n)%nat -> (len s < m)%nat -> decode_members n fields s = decode_members m fields s.
Proof.
  revert m s. induction n as [|n IH]; intros [|m] s Hn Hm; [lia..|]. cbn [decode_members].
  destruct (decode_member fields s) as [[l t]|] eqn:E; [|done]. cbn [mbind option_bind].
  apply decode_member_length in E. destruct (strip_prefix "," t) as [t'|] eqn:E'; [|done].
  apply strip_prefix_length in E'. pose proof (skip_space_length t').
  by rewrite (IH m) by lia.
Qed.
