(* ===== verification/Web.v ===== *)
(** * net/http and net/url, as the handlers use them

    One request is served by one goroutine: its handlers are programs that
    perform the operations of the service and otherwise change the state of
    the request: the response being written, the status recorders, the request
    structs (a middleware copies the struct it was given, the router writes to
    the one it gets), the log and the HTTP metrics. *)

From Stdlib Require Import Ascii.
From S2P Require Import Prelude GoRuntime Domain Strconv Json Repository.

(** ** The state of one request *)

(** [*http.Request].  Header fields are keyed by their canonical name; the
    context holds values under the keys of [internal/handler]. *)
Record Request : Type := mkRequest {
  Method : string;
  RequestURI : string;
  URL_Path : string;
  URL_EscapedPath : string;
  URL_RawQuery : string;
  Header : gmap string string;
  Body : string;
  ctx : gmap nat string;
  Pattern : string;
  PathValues : list (string * string)
}.

(** The server's side of the response: the header map of the handler, what
    was sent (status and header at that time), the body so far. *)
Record conn : Type := mkConn {
  conn_head : bool;  (** the request is a HEAD: a body is not sent *)
  conn_header : gmap string string;
  conn_sent : option (Z * gmap string string);
  conn_body : string
}.

Record recorder : Type := mkRecorder { status : Z; wrote : bool }.

Record log_line : Type := mkLog {
  log_level : string;
  log_msg : string;
  log_attrs : list (string * string)
}.

Record webstate : Type := mkWeb {
  ws_conn : conn;
  ws_recorders : list recorder;      (** by address *)
  ws_requests : list Request;        (** by address *)
  ws_log : list log_line;
  ws_total : gmap (string * string * string) nat;  (** wallet_http_requests_total *)
  ws_durations : list (string * string * Z)  (** observations, in microseconds *)
}.

Definition set_conn (c : conn) (s : webstate) : webstate :=
  mkWeb c (ws_recorders s) (ws_requests s) (ws_log s) (ws_total s) (ws_durations s).
Definition set_recorders (l : list recorder) (s : webstate) : webstate :=
  mkWeb (ws_conn s) l (ws_requests s) (ws_log s) (ws_total s) (ws_durations s).
Definition set_requests (l : list Request) (s : webstate) : webstate :=
  mkWeb (ws_conn s) (ws_recorders s) l (ws_log s) (ws_total s) (ws_durations s).
Definition add_log (l : log_line) (s : webstate) : webstate :=
  mkWeb (ws_conn s) (ws_recorders s) (ws_requests s) (ws_log s ++ [l]) (ws_total s)
    (ws_durations s).

(** ** Handlers *)

Definition web (A : Type) : Type := webstate -> svc (outcome A * webstate).

Definition ret {A} (a : A) : web A := fun s => Ret (Returned a, s).
Definition panic {A} (v : string) : web A := fun s => Ret (Panicked v, s).
Definition web_bind {A B} (f : A -> web B) (m : web A) : web B := fun s =>
  proc_bind (fun r => match r with
                      | (Returned a, s') => f a s'
                      | (Panicked v, s') => Ret (Panicked v, s')
                      end) (m s).

(** A call into the service: a panic there unwinds the handler. *)
Definition call {A} (p : svc A) : web A := fun s => proc_finally (fun r => Ret (r, s)) p.

Definition read {A} (f : webstate -> A) : web A := fun s => Ret (Returned (f s), s).
Definition modify (f : webstate -> webstate) : web unit := fun s => Ret (Returned tt, f s).

(** A deferred [recover]: the state is as the panic left it. *)
Definition on_panic (h : string -> web unit) (m : web unit) : web unit := fun s =>
  proc_bind (fun r => match r with
                      | (Returned a, s') => Ret (Returned a, s')
                      | (Panicked v, s') => h v s'
                      end) (m s).

Declare Scope web_scope.
Notation "x ← m ; k" := (web_bind (fun x => k) m)
  (at level 20, m at level 100, k at level 200, only parsing) : web_scope.
Notation "' p ← m ; k" := (web_bind (fun r => match r with p => k end) m)
  (at level 20, p pattern, m at level 100, k at level 200, only parsing) : web_scope.
Delimit Scope web_scope with web.
#[local] Open Scope web_scope.

(** ** Request structs *)

Abbreviation request_ptr := nat.

Definition nil_dereference : string :=
  "runtime error: invalid memory address or nil pointer dereference".

Definition deref (r : request_ptr) : web Request :=
  o ← read (fun s => ws_requests s !! r);
  match o with Some q => ret q | None => panic nil_dereference end.

Definition set_match (pattern : string) (values : list (string * string)) (q : Request)
  : Request :=
  mkRequest (Method q) (RequestURI q) (URL_Path q) (URL_EscapedPath q) (URL_RawQuery q) (Header q)
    (Body q) (ctx q) pattern values.

Definition set_context (c : gmap nat string) (q : Request) : Request :=
  mkRequest (Method q) (RequestURI q) (URL_Path q) (URL_EscapedPath q) (URL_RawQuery q) (Header q)
    (Body q) c (Pattern q) (PathValues q).

(** [r.WithContext(ctx)]: a shallow copy at a new address. *)
Definition WithContext (r : request_ptr) (c : gmap nat string) : web request_ptr :=
  q ← deref r;
  p ← read (fun s => length (ws_requests s));
  _ ← modify (fun s => set_requests (ws_requests s ++ [set_context c q]) s);
  ret p.

(** [r.PathValue(name)] *)
Definition PathValue (q : Request) (name : string) : string :=
  match find (fun nv => String.eqb nv.1 name) (PathValues q) with
  | Some nv => nv.2
  | None => EmptyString
  end.

(** [r.Header.Get(key)] for a canonical key. *)
Definition Header_Get (q : Request) (key : string) : string := default EmptyString (Header q !! key).

(** ** Response writers

    The server's own, or one of the two [statusRecorder] types around
    another.  A recorder lives at an address of [ws_recorders]. *)
Inductive ResponseWriter : Type :=
| Conn
| AccessRecorder (p : nat) (inner : ResponseWriter)
| MetricsRecorder (p : nat) (inner : ResponseWriter).

Definition Handler : Type := ResponseWriter -> request_ptr -> web unit.

Definition informational (code : Z) : bool := (100 <=? code) && (code <=? 199) && negb (code =? 101).

(** The server's [WriteHeader]: the first final status counts. *)
Definition conn_WriteHeader (code : Z) : web unit :=
  c ← read ws_conn;
  match conn_sent c with
  | Some _ => ret tt
  | None =>
      if (code <? 100) || (999 <? code) then panic "invalid WriteHeader code"
      else if informational code then ret tt
      else modify (set_conn (mkConn (conn_head c) (conn_header c) (Some (code, conn_header c))
                               (conn_body c)))
  end.

Definition bodyAllowedForStatus (code : Z) : bool :=
  negb ((100 <=? code) && (code <=? 199)) && negb (code =? 204) && negb (code =? 304).

(** The server's [Write]. *)
Definition conn_Write (b : string) : web unit :=
  c ← read ws_conn;
  _ ← match conn_sent c with Some _ => ret tt | None => conn_WriteHeader 200 end;
  c ← read ws_conn;
  if bodyAllowedForStatus (default 200 (fst <$> conn_sent c)) && negb (conn_head c) then
    modify (set_conn (mkConn (conn_head c) (conn_header c) (conn_sent c) (conn_body c +:+ b)))
  else ret tt.

(** [w.Header().Set(key, value)]: every recorder promotes the [Header] method
    of the writer it embeds. *)
Definition Header_Set (w : ResponseWriter) (key value : string) : web unit :=
  modify (fun s => let c := ws_conn s in
    set_conn (mkConn (conn_head c) (<[key := value]> (conn_header c)) (conn_sent c) (conn_body c)) s).

Definition new_recorder : web nat :=
  p ← read (fun s => length (ws_recorders s));
  _ ← modify (fun s => set_recorders (ws_recorders s ++ [mkRecorder 200 false]) s);
  ret p.

Definition get_recorder (p : nat) : web recorder :=
  o ← read (fun s => ws_recorders s !! p);
  match o with Some x => ret x | None => panic nil_dereference end.

(** [if !s.wrote { s.status = code; s.wrote = true }] *)
Definition record_status (p : nat) (code : Z) : web unit :=
  x ← get_recorder p;
  if negb (wrote x) then
    modify (fun s => set_recorders (<[p := mkRecorder code true]> (ws_recorders s)) s)
  else ret tt.

(** The methods of [handler.statusRecorder], over those of the writer it
    embeds. *)
Definition statusRecorder_WriteHeader (inner : Z -> web unit) (p : nat) (code : Z) : web unit :=
  _ ← record_status p code;
  inner code.
Definition statusRecorder_Write (inner : string -> web unit) (p : nat) (b : string) : web unit :=
  _ ← record_status p 200;
  inner b.

(** The methods of [metrics.statusRecorder]. *)
Definition metrics_statusRecorder_WriteHeader (inner : Z -> web unit) (p : nat) (code : Z)
  : web unit :=
  _ ← record_status p code;
  inner code.
Definition metrics_statusRecorder_Write (inner : string -> web unit) (p : nat) (b : string)
  : web unit :=
  _ ← record_status p 200;
  inner b.

(** [w.WriteHeader(code)] and [w.Write(b)] *)
Fixpoint WriteHeader (w : ResponseWriter) (code : Z) : web unit :=
  match w with
  | Conn => conn_WriteHeader code
  | AccessRecorder p inner => statusRecorder_WriteHeader (WriteHeader inner) p code
  | MetricsRecorder p inner => metrics_statusRecorder_WriteHeader (WriteHeader inner) p code
  end.

Fixpoint Write (w : ResponseWriter) (b : string) : web unit :=
  match w with
  | Conn => conn_Write b
  | AccessRecorder p inner => statusRecorder_Write (Write inner) p b
  | MetricsRecorder p inner => metrics_statusRecorder_Write (Write inner) p b
  end.

(** [http.Error(w, text, code)] *)
Definition http_Error (w : ResponseWriter) (text : string) (code : Z) : web unit :=
  _ ← Header_Set w "Content-Type" "text/plain; charset=utf-8";
  _ ← Header_Set w "X-Content-Type-Options" "nosniff";
  _ ← WriteHeader w code;
  Write w (text +:+ newline).

Definition log (level msg : string) (attrs : list (string * string)) : web unit :=
  modify (add_log (mkLog level msg attrs)).
