(* ===== verification/Mux.v ===== *)
(** * net/url queries and http.ServeMux routing

    Percent decoding, [url.Values] from a query string, [path.Clean], and the
    routing of [ServeMux]: patterns with a method and wildcards, literal
    segments before wildcards, redirects to the clean path, 405 with the
    methods a path allows, 404. *)

From Stdlib Require Import Ascii.
From S2P Require Import Prelude GoRuntime Strconv Json Web.
#[local] Open Scope web_scope.

(** ** Cutting strings *)

(** [strings.Cut(s, sep)] for one byte: what precedes and what follows it. *)
Fixpoint cut (sep : ascii) (s : string) : string * option string :=
  match s with
  | EmptyString => (EmptyString, None)
  | String c s' =>
      if Ascii.eqb c sep then (EmptyString, Some s')
      else let '(a, b) := cut sep s' in (String c a, b)
  end.

(** [strings.Split(s, sep)] *)
Fixpoint split (sep : ascii) (s : string) : list string :=
  match s with
  | EmptyString => [EmptyString]
  | String c s' =>
      if Ascii.eqb c sep then EmptyString :: split sep s'
      else match split sep s' with
           | x :: l => String c x :: l
           | [] => [str1 c]
           end
  end.

Fixpoint contains (c : ascii) (s : string) : bool :=
  match s with
  | EmptyString => false
  | String c' s' => Ascii.eqb c c' || contains c s'
  end.

(** [s] does not have the byte [sep]. *)
Definition free (sep : ascii) (s : string) : bool := all_chars (fun c => negb (Ascii.eqb c sep)) s.

Lemma split_free sep s : Forall (fun x => free sep x = true) (split sep s).
Proof.
  induction s as [|c s IH]; simpl; [by repeat constructor|]. destruct (Ascii.eqb c sep) eqn:E; [auto|].
  destruct (split sep s) as [|x l]; inversion IH; subst; constructor; auto;
    unfold free; simpl; by rewrite E.
Qed.

Lemma split_cons sep x s :
  free sep x = true -> split sep (x +:+ String sep s) = x :: split sep s.
Proof.
  unfold free. induction x as [|c x IH]; simpl.
  - intros _. by rewrite Ascii.eqb_refl.
  - rewrite andb_true_iff, negb_true_iff. intros [Hc Hx].
    change (String c x +:+ ?s) with (String c (x +:+ s)). cbn [split]. by rewrite Hc, IH.
Qed.

Lemma split_nonempty sep s : split sep s <> [].
Proof. destruct s; cbn; repeat case_match; done. Qed.

Lemma split_single sep x : free sep x = true -> split sep x = [x].
Proof.
  unfold free. induction x as [|c x IH]; [done|]. simpl. rewrite andb_true_iff, negb_true_iff.
  intros [Hc Hx]. by rewrite Hc, IH.
Qed.

(** ** Percent decoding *)

Definition unhex (a b : ascii) : option ascii :=
  match hex_value a, hex_value b with
  | Some x, Some y => Some (ascii_of_N (x * 16 + y))
  | _, _ => None
  end.

(** [plus]: whether a plus sign stands for a space. *)
Fixpoint percent_decode (plus : bool) (s : string) : option string :=
  match s with
  | EmptyString => Some EmptyString
  | String "%"%char s1 =>
      match s1 with
      | String a (String b s2) =>
          match unhex a b, percent_decode plus s2 with
          | Some c, Some t => Some (String c t)
          | _, _ => None
          end
      | _ => None
      end
  | String c s1 =>
      match percent_decode plus s1 with
      | Some t => Some (String (if plus && Ascii.eqb c "+"%char then " "%char else c) t)
      | None => None
      end
  end.

(** Nothing to decode. *)
Definition literal_char (c : ascii) : bool :=
  negb (Ascii.eqb c "%"%char) && negb (Ascii.eqb c "+"%char).

Lemma percent_decode_literal plus s :
  all_chars literal_char s = true -> percent_decode plus s = Some s.
Proof.
  induction s as [|c s IH]; [done|]. simpl. rewrite andb_true_iff. intros [Hc Hs].
  unfold literal_char in Hc. apply andb_true_iff in Hc as [Hp Hq].
  apply negb_true_iff in Hp, Hq. rewrite (IH Hs), Hq, andb_false_r.
  each_byte c; done.
Qed.

Definition QueryUnescape : string -> option string := percent_decode true.
Definition PathUnescape : string -> option string := percent_decode false.

(** ** [r.URL.Query()] *)

(** One setting of a query string; a malformed one is dropped. *)
Definition query_setting (s : string) : list (string * string) :=
  if contains ";"%char s || String.eqb s EmptyString then []
  else
    let '(k, v) := cut "="%char s in
    match QueryUnescape k, QueryUnescape (default EmptyString v) with
    | Some k, Some v => [(k, v)]
    | _, _ => []
    end.

Definition parseQuery (s : string) : list (string * string) :=
  concat (map query_setting (split "&"%char s)).

(** [Query().Get(key)]: the first value, or the empty string. *)
Definition Query_Get (q : list (string * string)) (key : string) : string :=
  match find (fun kv => String.eqb kv.1 key) q with
  | Some kv => kv.2
  | None => EmptyString
  end.

(** ** [cleanPath] *)

(** The segments of a rooted path without empty ones and dots. *)
Definition clean_segment (stack : list string) (s : string) : list string :=
  if String.eqb s EmptyString || String.eqb s "." then stack
  else if String.eqb s ".." then tail stack
  else s :: stack.

Definition rooted (segs : list string) : string := concat_strings (map (fun s => "/" +:+ s) segs).

Fixpoint ends_with_slash (p : string) : bool :=
  match p with
  | EmptyString => false
  | String c EmptyString => Ascii.eqb c "/"%char
  | String _ p' => ends_with_slash p'
  end.

Definition starts_with_slash (p : string) : bool :=
  match p with String c _ => Ascii.eqb c "/"%char | EmptyString => false end.

Definition cleanPath (p : string) : string :=
  if String.eqb p EmptyString then "/"
  else
    let p := if starts_with_slash p then p else "/" +:+ p in
    match rev (foldl clean_segment [] (split "/"%char p)) with
    | [] => "/"
    | segs => if ends_with_slash p then rooted segs +:+ "/" else rooted segs
    end.

(** ** Patterns *)

Inductive segment : Type :=
| Lit (s : string)
| Wild (name : string)
| Multi.              (** the rest of the path: a pattern that ends in a slash *)

Record pattern : Type := mkPattern {
  pat_text : string;
  pat_method : string;  (** empty: any *)
  pat_segments : list segment
}.

(** A wildcard is a segment in braces. *)
Definition parse_segment (s : string) : segment :=
  match s with
  | String "{"%char rest => Wild (cut "}"%char rest).1
  | _ => Lit s
  end.

Fixpoint parse_segments (l : list string) : list segment :=
  match l with
  | [] => []
  | [s] => if String.eqb s EmptyString then [Multi] else [parse_segment s]
  | s :: l' => parse_segment s :: parse_segments l'
  end.

(** [parsePattern] of ["METHOD /path"] or ["/path"]. *)
Definition parsePattern (s : string) : pattern :=
  let '(method, path) :=
    match cut " "%char s with
    | (m, Some p) => (m, p)
    | (p, None) => (EmptyString, p)
    end in
  mkPattern s method (parse_segments (tail (split "/"%char path))).

(** ** Matching *)

Definition ServeMux : Type := list (pattern * Handler).

Definition HandleFunc (mux : ServeMux) (p : string) (h : Handler) : ServeMux :=
  mux ++ [(parsePattern p, h)].

Definition NewServeMux : ServeMux := [].

(** A candidate: the segments still to match, the values of the wildcards so
    far, the route. *)
Definition candidate : Type := list segment * list (string * string) * (pattern * Handler).

(** [firstSegment]: the segments of a path; a trailing slash is a segment
    ["/"]. *)
Definition unescape_segment (s : string) : string := default s (PathUnescape s).
Fixpoint path_segments (l : list string) : list string :=
  match l with
  | [] => []
  | [s] => if String.eqb s EmptyString then ["/"] else [unescape_segment s]
  | s :: l' => unescape_segment s :: path_segments l'
  end.

Definition take_lit (s : string) (c : candidate) : list candidate :=
  match c with
  | (Lit l :: rest, values, route) => if String.eqb l s then [(rest, values, route)] else []
  | _ => []
  end.
Definition take_wild (s : string) (c : candidate) : list candidate :=
  match c with
  | (Wild name :: rest, values, route) => [(rest, values ++ [(name, s)], route)]
  | _ => []
  end.

(** [routingNode.matchPath]: literals first, then wildcards (not for a
    trailing slash), then the rest of the path. *)
Fixpoint matchPath (cs : list candidate) (segs : list string) : option candidate :=
  match segs with
  | [] => find (fun c => match c with ([], _, _) => true | _ => false end) cs
  | s :: segs' =>
      match matchPath (concat (map (take_lit s) cs)) segs' with
      | Some c => Some c
      | None =>
          match (if String.eqb s "/" then None
                 else matchPath (concat (map (take_wild s) cs)) segs') with
          | Some c => Some c
          | None => find (fun c => match c with (Multi :: _, _, _) => true | _ => false end) cs
          end
      end
  end.

Definition candidates (mux : ServeMux) (method : string) : list candidate :=
  concat (map (fun ph => if String.eqb (pat_method ph.1) method
                         then [(pat_segments ph.1, [], ph)] else []) mux).

Definition match_method (mux : ServeMux) (method path : string) : option candidate :=
  matchPath (candidates mux method) (path_segments (tail (split "/"%char path))).

(** The method's own patterns; for HEAD those of GET; those of any method. *)
Definition mux_match (mux : ServeMux) (method path : string) : option candidate :=
  match match_method mux method path with
  | Some c => Some c
  | None =>
      match (if String.eqb method "HEAD" then match_method mux "GET" path else None) with
      | Some c => Some c
      | None => match_method mux EmptyString path
      end
  end.

Definition route_of (c : candidate) : pattern * Handler := c.2.

(** [exactMatch] *)
Definition exactMatch (c : candidate) (path : string) : bool :=
  match last (pat_segments (route_of c).1) with
  | Some Multi =>
      ends_with_slash path &&
      Nat.eqb (length (pat_segments (route_of c).1)) (length (tail (split "/"%char path)))
  | _ => true
  end.

(** A path that only matches with a slash at its end. *)
Definition slash_redirect (mux : ServeMux) (method path : string) (m : option candidate) : bool :=
  negb (match m with Some c => exactMatch c path | None => false end) &&
  negb (ends_with_slash path) && negb (String.eqb path EmptyString) &&
  match mux_match mux method (path +:+ "/") with
  | Some c => exactMatch c (path +:+ "/")
  | None => false
  end.

(** [matchingMethods], in alphabetical order; GET allows HEAD. *)
Definition methods_of (mux : ServeMux) : list string :=
  merge_sort (fun a b => String.leb a b)
    (remove_dups (concat (map (fun ph => if String.eqb (pat_method ph.1) EmptyString then []
                                         else if String.eqb (pat_method ph.1) "GET" then ["GET"; "HEAD"]
                                         else [pat_method ph.1]) mux))).

Definition allows (mux : ServeMux) (path method : string) : bool :=
  let m := if String.eqb method "HEAD" then "GET" else method in
  bool_decide (is_Some (match_method mux m path)) ||
  (negb (ends_with_slash path) && bool_decide (is_Some (match_method mux m (path +:+ "/")))).

Definition matchingMethods (mux : ServeMux) (path : string) : list string :=
  filter (fun m => allows mux path m = true) (methods_of mux).

(** ** [ServeMux.ServeHTTP] *)

Section serve.
(** What [http.Redirect] writes for a URL built from a path and a query: the
    Location header and the body of the answer to a GET. *)
Context (redirect_location redirect_body : string -> string -> string).

Definition Redirect (path query : string) (code : Z) : Handler := fun w r =>
  q ← deref r;
  hadCT ← read (fun s => bool_decide (is_Some (conn_header (ws_conn s) !! "Content-Type")));
  _ ← Header_Set w "Location" (redirect_location path query);
  _ ← (if negb hadCT && (String.eqb (Method q) "GET" || String.eqb (Method q) "HEAD")
       then Header_Set w "Content-Type" "text/html; charset=utf-8" else ret tt);
  _ ← WriteHeader w code;
  if negb hadCT && String.eqb (Method q) "GET" then Write w (redirect_body path query)
  else ret tt.

Definition NotFound : Handler := fun w _ => http_Error w "404 page not found" 404.

Definition MethodNotAllowed (allowed : list string) : Handler := fun w _ =>
  _ ← Header_Set w "Allow" (join ", " allowed);
  http_Error w "Method Not Allowed" 405.

(** [findHandler]: the handler, the pattern for [r.Pattern], the values. *)
Definition findHandler (mux : ServeMux) (q : Request)
  : Handler * string * list (string * string) :=
  let connect := String.eqb (Method q) "CONNECT" in
  let path := if connect then URL_EscapedPath q else cleanPath (URL_EscapedPath q) in
  let m := mux_match mux (Method q) path in
  if slash_redirect mux (Method q) path m then
    (Redirect (cleanPath (URL_Path q) +:+ "/") (URL_RawQuery q) 301, cleanPath (URL_Path q) +:+ "/", [])
  else if negb (String.eqb path (URL_EscapedPath q)) then
    (Redirect path (URL_RawQuery q) 301,
     match m with Some c => pat_text (route_of c).1 | None => EmptyString end, [])
  else
    match m with
    | Some c => ((route_of c).2, pat_text (route_of c).1, c.1.2)
    | None =>
        match matchingMethods mux path with
        | [] => (NotFound, EmptyString, [])
        | allowed => (MethodNotAllowed allowed, EmptyString, [])
        end
    end.

Definition mux_ServeHTTP (mux : ServeMux) : Handler := fun w r =>
  q ← deref r;
  if String.eqb (RequestURI q) "*" then
    _ ← Header_Set w "Connection" "close";
    WriteHeader w 400
  else
    let '(h, pattern, values) := findHandler mux q in
    _ ← modify (fun s => set_requests (<[r := set_match pattern values q]> (ws_requests s)) s);
    h w r.
End serve.
