(* ===== verification/Handlers.v ===== *)
(** * internal/handler: errors.go, transfer.go, wallet.go *)

From S2P Require Import Prelude GoRuntime Domain Database Repository Service.
From S2P Require Import Strconv GoTime Json Web Mux.
#[local] Open Scope web_scope.

(** ** Code outside the repository

    [github.com/google/uuid], the text of a [*pgconn.PgError], and the texts
    of the JSON decoder's errors and of [debug.Stack]. *)
Record externals : Type := mkExternals {
  uuid_String : UUID -> string;
  uuid_Parse : string -> option UUID;
  pg_error_text : string -> string -> string;
  json_error_text : string -> string;
  debug_Stack : string;
  redirect_location : string -> string -> string;
  redirect_body : string -> string -> string
}.

Section handlers.
Context (X : externals).

(** [err.Error()] *)
Fixpoint Error (e : error) : string :=
  match e with
  | ErrVar _ text | ErrText text | ErrDriver text => text
  | ErrWrap pre inner => pre +:+ Error inner
  | ErrWrapV inner sep other => Error inner +:+ sep +:+ Error other
  | ErrPg code constraint => pg_error_text X code constraint
  end.

(** ** errors.go *)

(** [errorBody], encoded. *)
Definition errorBody (msg : string) : string := json_object [("error", json_string msg)].

Definition internal_error : string := "internal error".

Definition classify (err : error) : Z * string :=
  if errors_Is err ErrInvalidIdempotencyKey || errors_Is err ErrInvalidAmount
     || errors_Is err ErrSameWallet then (400, Error err)
  else if errors_Is err ErrIdempotencyConflict then (409, Error err)
  else if errors_Is err ErrNotFound || errors_Is err ErrWalletNotFound then (404, "not found")
  else (500, internal_error).

(** [json.NewEncoder(w).Encode(body)] writes the text and a newline. *)
Definition writeJSON (w : ResponseWriter) (status : Z) (body : option string) : web unit :=
  _ ← Header_Set w "Content-Type" "application/json";
  _ ← WriteHeader w status;
  match body with
  | None => ret tt
  | Some text => Write w (text +:+ newline)
  end.

Definition writeError (w : ResponseWriter) (r : request_ptr) (err : error) : web unit :=
  let '(status, msg) := classify err in
  _ ← (if decide (500 <= status) then
         q ← deref r;
         log "ERROR" "request failed"
           [("path", URL_Path q); ("method", Method q); ("error", Error err)]
       else ret tt);
  writeJSON w status (Some (errorBody msg)).

(** ** transfer.go *)

Record TransferHandler : Type := NewTransferHandler { th_svc : TransferService }.

Record createTransferRequest : Type := mk_createTransferRequest {
  ctr_IdempotencyKey : string;
  ctr_FromWalletID : string;
  ctr_ToWalletID : string;
  ctr_Amount : Z
}.

Definition createTransferRequest_fields : list (string * kind) :=
  [("idempotencyKey", KString); ("fromWalletId", KString); ("toWalletId", KString);
   ("amount", KInt64)].

Definition decode_createTransferRequest (body : string) : option createTransferRequest :=
  match Decode createTransferRequest_fields body with
  | Some l => Some (mk_createTransferRequest (field_string l "idempotencyKey")
      (field_string l "fromWalletId") (field_string l "toWalletId") (field_int64 l "amount"))
  | None => None
  end.

Record transferResponse : Type := mk_transferResponse {
  tr_ID : string;
  tr_FromWalletID : string;
  tr_ToWalletID : string;
  tr_Amount : Z;
  tr_State : string;
  tr_FailureReason : string;
  tr_CreatedAt : string;
  tr_UpdatedAt : string
}.

Definition toTransferResponse (t : Transfer) : transferResponse :=
  mk_transferResponse (uuid_String X (Transfer_ID t)) (Transfer_FromWalletID t)
    (Transfer_ToWalletID t) (Transfer_Amount t) (Transfer_State t) (Transfer_FailureReason t)
    (format_millis (Transfer_CreatedAt t)) (format_millis (Transfer_UpdatedAt t)).

Definition json_transferResponse (t : transferResponse) : string :=
  json_object ([("id", json_string (tr_ID t)); ("fromWalletId", json_string (tr_FromWalletID t));
    ("toWalletId", json_string (tr_ToWalletID t)); ("amount", json_int (tr_Amount t));
    ("state", json_string (tr_State t))] ++ omitempty "failureReason" (tr_FailureReason t) ++
    [("createdAt", json_string (tr_CreatedAt t)); ("updatedAt", json_string (tr_UpdatedAt t))]).

Definition TransferHandler_Get (h : TransferHandler) : Handler := fun w r =>
  q ← deref r;
  match uuid_Parse X (PathValue q "id") with
  | None => writeJSON w 400 (Some (errorBody "invalid transfer id"))
  | Some id =>
      t ← call (GetTransfer (th_svc h) id);
      match t with
      | Err err => writeError w r err
      | Ok t => writeJSON w 200 (Some (json_transferResponse (toTransferResponse t)))
      end
  end.

Definition json_transferListResponse (l : list transferResponse) (nextCursor : string) : string :=
  json_object (("transfers", json_array (map json_transferResponse l)) ::
               omitempty "nextCursor" nextCursor).

Definition errBadQuery (m : string) : error := ErrText m.

(** [?limit] *)
Definition parse_limit (s : string) : result Z :=
  if String.eqb s EmptyString then Ok 0
  else match Atoi s with
       | Some n => if decide (n < 0) then Err (errBadQuery "invalid limit") else Ok n
       | None => Err (errBadQuery "invalid limit")
       end.

(** [?before] *)
Definition parse_before (s : string) : result (option Time) :=
  if String.eqb s EmptyString then Ok None
  else match parse_nano s with
       | Some t => Ok (Some t)
       | None => Err (errBadQuery "invalid before timestamp; expected RFC3339")
       end.

Definition parseListQuery (q : Request) : result (Z * option Time) :=
  let values := parseQuery (URL_RawQuery q) in
  match parse_limit (Query_Get values "limit") with
  | Err err => Err err
  | Ok limit =>
      match parse_before (Query_Get values "before") with
      | Err err => Err err
      | Ok before => Ok (limit, before)
      end
  end.

Definition TransferHandler_Create (h : TransferHandler) : Handler := fun w r =>
  q ← deref r;
  match decode_createTransferRequest (Body q) with
  | None => writeJSON w 400 (Some (errorBody ("invalid json: " +:+ json_error_text X (Body q))))
  | Some req =>
      t ← call (Create (th_svc h) (mkCreateTransferRequest (ctr_IdempotencyKey req)
            (ctr_FromWalletID req) (ctr_ToWalletID req) (ctr_Amount req)));
      match t with
      | Err err => writeError w r err
      | Ok None => panic nil_dereference
      | Ok (Some t) => writeJSON w 200 (Some (json_transferResponse (toTransferResponse t)))
      end
  end.

(** ** wallet.go *)

Record WalletHandler : Type := NewWalletHandler {
  wh_wsvc : WalletService;
  wh_tsvc : TransferService
}.

Record walletResponse : Type := mk_walletResponse { wr_ID : string; wr_Balance : Z }.

Definition toWalletResponse (w : Wallet) : walletResponse :=
  mk_walletResponse (Wallet_ID w) (Wallet_Balance w).

Definition json_walletResponse (w : walletResponse) : string :=
  json_object [("id", json_string (wr_ID w)); ("balance", json_int (wr_Balance w))].

Definition WalletHandler_Get (h : WalletHandler) : Handler := fun w r =>
  q ← deref r;
  wallet ← call (WalletService_Get (wh_wsvc h) (PathValue q "id"));
  match wallet with
  | Err err => writeError w r err
  | Ok wallet => writeJSON w 200 (Some (json_walletResponse (toWalletResponse wallet)))
  end.

Definition WalletHandler_ListTransfers (h : WalletHandler) : Handler := fun w r =>
  q ← deref r;
  let walletID := PathValue q "id" in
  match parseListQuery q with
  | Err err => writeJSON w 400 (Some (errorBody (Error err)))
  | Ok (limit, before) =>
      rows ← call (ListTransfersByWallet (wh_tsvc h) walletID limit before);
      match rows with
      | Err err =>
          if errors_Is err ErrWalletNotFound && String.eqb walletID EmptyString then
            writeJSON w 400 (Some (errorBody "wallet id is required"))
          else writeError w r err
      | Ok (rows, next) =>
          writeJSON w 200 (Some (json_transferListResponse (map toTransferResponse rows)
            match next with Some t => format_nano t | None => EmptyString end))
      end
  end.

Record createWalletRequest : Type := mk_createWalletRequest { cwr_ID : string; cwr_Balance : Z }.

Definition createWalletRequest_fields : list (string * kind) :=
  [("id", KString); ("balance", KInt64)].

Definition decode_createWalletRequest (body : string) : option createWalletRequest :=
  match Decode createWalletRequest_fields body with
  | Some l => Some (mk_createWalletRequest (field_string l "id") (field_int64 l "balance"))
  | None => None
  end.

Definition WalletHandler_Create (h : WalletHandler) : Handler := fun w r =>
  q ← deref r;
  match decode_createWalletRequest (Body q) with
  | None => writeJSON w 400 (Some (errorBody ("invalid json: " +:+ json_error_text X (Body q))))
  | Some req =>
      wallet ← call (WalletService_Create (wh_wsvc h) (cwr_ID req) (cwr_Balance req));
      match wallet with
      | Err err => writeError w r err
      | Ok wallet => writeJSON w 201 (Some (json_walletResponse (toWalletResponse wallet)))
      end
  end.
End handlers.
