(* ===== verification/Router.v ===== *)
(** * internal/handler: middleware.go, router.go; internal/metrics: middleware.go

    The middleware chain, the routes, and the handler of the public listener
    as cmd/server/main.go assembles it. *)

From S2P Require Import Prelude GoRuntime Domain Database Repository Service.
From S2P Require Import Strconv GoTime Json Web Mux Handlers.
#[local] Open Scope web_scope.

Section router.
Context (X : externals).

(** ** middleware.go *)

Definition requestIDHeader : string := "X-Request-Id".
Definition requestIDKey : nat := 0.

Definition RequestIDFromContext (c : gmap nat string) : string :=
  match c !! requestIDKey with Some v => v | None => EmptyString end.

Definition RequestID (next : Handler) : Handler := fun w r =>
  q ← deref r;
  id ← (if String.eqb (Header_Get q requestIDHeader) EmptyString
        then u ← call (perform NewUUID); ret (uuid_String X u)
        else ret (Header_Get q requestIDHeader));
  _ ← Header_Set w requestIDHeader id;
  r' ← WithContext r (<[requestIDKey := id]> (ctx q));
  next w r'.

Definition AccessLog (next : Handler) : Handler := fun w r =>
  start ← call (perform TimeNow);
  rec ← new_recorder;
  _ ← next (AccessRecorder rec w) r;
  q ← deref r;
  x ← get_recorder rec;
  now ← call (perform TimeNow);
  log "INFO" "http_request"
    [("request_id", RequestIDFromContext (ctx q)); ("method", Method q); ("path", URL_Path q);
     ("status", Itoa (status x)); ("duration_ms", Itoa (Z.quot (now - start) 1000))].

Definition recover_body : string :=
  "{" +:+ dquote +:+ "error" +:+ dquote +:+ ":" +:+ dquote +:+ "internal error" +:+ dquote +:+ "}".

Definition Recover (next : Handler) : Handler := fun w r =>
  on_panic (fun v =>
    q ← deref r;
    _ ← log "ERROR" "panic recovered"
      [("panic", v); ("stack", debug_Stack X); ("request_id", RequestIDFromContext (ctx q));
       ("method", Method q); ("path", URL_Path q)];
    _ ← Header_Set w "Content-Type" "application/json";
    _ ← WriteHeader w 500;
    Write w recover_body)
  (next w r).

(** The first middleware is the outermost. *)
Definition Chain (h : Handler) (mws : list (Handler -> Handler)) : Handler :=
  foldr (fun mw h => mw h) h mws.

(** ** router.go *)

Definition healthz : Handler := fun w _ =>
  _ ← WriteHeader w 200;
  Write w "ok".

Definition api_mux (transfer : TransferHandler) (wallet : WalletHandler) : ServeMux :=
  let mux := NewServeMux in
  let mux := HandleFunc mux "POST /transfers" (TransferHandler_Create X transfer) in
  let mux := HandleFunc mux "GET /transfers/{id}" (TransferHandler_Get X transfer) in
  let mux := HandleFunc mux "POST /wallets" (WalletHandler_Create X wallet) in
  let mux := HandleFunc mux "GET /wallets/{id}" (WalletHandler_Get X wallet) in
  let mux := HandleFunc mux "GET /wallets/{id}/transfers" (WalletHandler_ListTransfers X wallet) in
  HandleFunc mux "GET /healthz" healthz.

Definition NewRouter (transfer : TransferHandler) (wallet : WalletHandler) : Handler :=
  Chain (mux_ServeHTTP (redirect_location X) (redirect_body X) (api_mux transfer wallet))
    [RequestID; AccessLog; Recover].

(** ** internal/metrics/middleware.go *)

Definition count_request (key : string * string * string) (s : webstate) : webstate :=
  mkWeb (ws_conn s) (ws_recorders s) (ws_requests s) (ws_log s)
    (partial_alter (fun n => Some (default 0%nat n + 1)%nat) key (ws_total s)) (ws_durations s).

Definition observe_request (d : string * string * Z) (s : webstate) : webstate :=
  mkWeb (ws_conn s) (ws_recorders s) (ws_requests s) (ws_log s) (ws_total s)
    (ws_durations s ++ [d]).

Definition HTTPMiddleware (next : Handler) : Handler := fun w r =>
  start ← call (perform TimeNow);
  rec ← new_recorder;
  _ ← next (MetricsRecorder rec w) r;
  q ← deref r;
  let route := if String.eqb (Pattern q) EmptyString then "_unmatched_" else Pattern q in
  x ← get_recorder rec;
  _ ← modify (count_request (Method q, route, Itoa (status x)));
  now ← call (perform TimeNow);
  modify (observe_request (Method q, route, now - start)).

(** ** The handler of the public listener, less the tracing around it *)

Definition apiHandler : Handler :=
  HTTPMiddleware (NewRouter (NewTransferHandler transferSvc)
                            (NewWalletHandler walletSvc transferSvc)).

(** ** The server's side *)

Record response : Type := mkResponse {
  rsp_status : Z;
  rsp_header : gmap string string;
  rsp_body : string
}.

(** A request arrives: one request struct without a route and with an empty
    context, nothing written. *)
Definition arrive (q : Request) : webstate :=
  mkWeb (mkConn (String.eqb (Method q) "HEAD") ∅ None EmptyString) []
    [set_match EmptyString [] (set_context ∅ q)] [] ∅ [].

Definition serve_http (h : Handler) (q : Request) : svc (outcome unit * webstate) :=
  h Conn 0%nat (arrive q).

(** What the client gets: a handler that sent nothing answers 200. *)
Definition response_of (s : webstate) : response :=
  let c := ws_conn s in
  match conn_sent c with
  | Some (code, header) => mkResponse code header (conn_body c)
  | None => mkResponse 200 (conn_header c) EmptyString
  end.
End router.
