(* ===== verification/Config.v ===== *)
(** * internal/config: the configuration from the environment *)

From Stdlib Require Import Ascii.
From S2P Require Import Prelude GoRuntime Strconv GoDuration Handlers.

(** The environment of the process. *)
Definition environ : Type := gmap string string.

(** [os.Getenv]: empty when unset. *)
Definition os_Getenv (env : environ) (key : string) : string := default EmptyString (env !! key).

Record Config : Type := mkConfiguration {
  DatabaseURL : string;
  HTTPAddr : string;
  DebugAddr : string;
  DBMaxOpenConns : Z;
  DBMaxIdleConns : Z;
  DBConnMaxLifetime : Z;
  DBConnMaxIdleTime : Z
}.

Definition DefaultDBMaxOpenConns : Z := 25.
Definition DefaultDBMaxIdleConns : Z := 5.
Definition DefaultDBConnMaxLifetime : Z := 5 * Minute.
Definition DefaultDBConnMaxIdleTime : Z := 1 * Minute.

(** ** The error of [strconv.Atoi]

    A [*NumError] unwraps to [ErrSyntax] or [ErrRange]: the digits are read
    from the left in uint64, and the first that does not fit ends the
    reading. *)
Definition ErrSyntax : error := ErrVar "strconv.ErrSyntax" "invalid syntax".
Definition ErrRange : error := ErrVar "strconv.ErrRange" "value out of range".

Fixpoint exceeds_uint64 (acc : Z) (s : string) : bool :=
  match s with
  | String c s' =>
      match digit_value c with
      | Some d => if 2 ^ 64 - 1 <? acc * 10 + d then true else exceeds_uint64 (acc * 10 + d) s'
      | None => false
      end
  | EmptyString => false
  end.

Definition unsigned (s : string) : string :=
  match s with
  | String c s' => if (byte c =? 45)%N || (byte c =? 43)%N then s' else s
  | EmptyString => s
  end.

Definition out_of_range (s : string) : bool :=
  exceeds_uint64 0 (unsigned s) || bool_decide (is_Some (all_digits (unsigned s))).

Section config.
(** [strconv.Quote], which asks the Unicode tables what is printable. *)
Context (Quote : string -> string).

(** [strconv.Atoi] with its error. *)
Definition strconv_Atoi (s : string) : result Z :=
  match Atoi s with
  | Some n => Ok n
  | None => Err (ErrWrap ("strconv.Atoi: parsing " +:+ Quote s +:+ ": ")
                   (if out_of_range s then ErrRange else ErrSyntax))
  end.

(** ** [Load] *)

Definition envInt (env : environ) (key : string) (def : Z) : result Z :=
  let s := os_Getenv env key in
  if String.eqb s EmptyString then Ok def
  else match strconv_Atoi s with
       | Err err => Err (ErrWrap (key +:+ ": ") err)
       | Ok n =>
           if decide (n <= 0) then Err (ErrText (key +:+ " must be positive, got " +:+ Itoa n))
           else Ok n
       end.

Definition envDuration (env : environ) (key : string) (def : Z) : result Z :=
  let s := os_Getenv env key in
  if String.eqb s EmptyString then Ok def
  else match ParseDuration s with
       | Err err => Err (ErrWrap (key +:+ ": ") err)
       | Ok d =>
           if decide (d <= 0)
           then Err (ErrText (key +:+ " must be positive, got " +:+ Duration_String d))
           else Ok d
       end.

Definition Load (env : environ) : result Config :=
  let dbURL := os_Getenv env "DATABASE_URL" in
  if String.eqb dbURL EmptyString then Err (ErrText "DATABASE_URL is required")
  else
    let addr := os_Getenv env "HTTP_ADDR" in
    let addr := if String.eqb addr EmptyString then ":8080" else addr in
    let debugAddr := os_Getenv env "DEBUG_ADDR" in
    match envInt env "DB_MAX_OPEN_CONNS" DefaultDBMaxOpenConns with
    | Err err => Err err
    | Ok maxOpen =>
    match envInt env "DB_MAX_IDLE_CONNS" DefaultDBMaxIdleConns with
    | Err err => Err err
    | Ok maxIdle =>
    match envDuration env "DB_CONN_MAX_LIFETIME" DefaultDBConnMaxLifetime with
    | Err err => Err err
    | Ok maxLife =>
    match envDuration env "DB_CONN_MAX_IDLE_TIME" DefaultDBConnMaxIdleTime with
    | Err err => Err err
    | Ok maxIdleTime =>
        Ok (mkConfiguration dbURL addr debugAddr maxOpen maxIdle maxLife maxIdleTime)
    end end end end.

Definition good {A} (r : result A) : bool := match r with Ok _ => true | Err _ => false end.

(** ** What a setting is *)

(** Unset: the default.  Set: the value of the text, which is positive. *)
Inductive setting (parse : string -> option Z) (env : environ) (key : string) (def n : Z) : Prop :=
| setting_default : os_Getenv env key = EmptyString -> n = def -> setting parse env key def n
| setting_given : os_Getenv env key <> EmptyString -> parse (os_Getenv env key) = Some n ->
    0 < n -> setting parse env key def n.

Definition ParseDuration_value (s : string) : option Z :=
  match ParseDuration s with Ok d => Some d | Err _ => None end.

Lemma envInt_spec env key def n : envInt env key def = Ok n <-> setting Atoi env key def n.
Proof.
  unfold envInt, strconv_Atoi. destruct (String.eqb_spec (os_Getenv env key) EmptyString) as [E|E].
  - split; [intros [= <-]; by left|]. intros [_ ->|? _ _]; done.
  - split.
    + destruct (Atoi _) as [m|] eqn:Ha; [|done]. case_decide; [done|]. intros [= <-].
      right; [done..|lia].
    + intros [?|_ -> Hn]; [done|]. by rewrite decide_False by lia.
Qed.

Lemma envDuration_spec env key def n :
  envDuration env key def = Ok n <-> setting ParseDuration_value env key def n.
Proof.
  unfold envDuration. destruct (String.eqb_spec (os_Getenv env key) EmptyString) as [E|E].
  - split; [intros [= <-]; by left|]. intros [_ ->|? _ _]; done.
  - split.
    + destruct (ParseDuration _) as [m|] eqn:Ha; [|done]. case_decide; [done|]. intros [= <-].
      right; [done| |lia]. unfold ParseDuration_value. by rewrite Ha.
    + intros [?|_ Hp Hn]; [done|]. unfold ParseDuration_value in Hp.
      destruct (ParseDuration _) as [m|]; [|done]. injection Hp as ->.
      by rewrite decide_False by lia.
Qed.

Definition http_addr (env : environ) : string :=
  if String.eqb (os_Getenv env "HTTP_ADDR") EmptyString then ":8080" else os_Getenv env "HTTP_ADDR".

(** The configuration an environment stands for. *)
Record configured (env : environ) (cfg : Config) : Prop := mkConfigured {
  cfg_url : os_Getenv env "DATABASE_URL" = DatabaseURL cfg;
  cfg_url_given : DatabaseURL cfg <> EmptyString;
  cfg_http : HTTPAddr cfg = http_addr env;
  cfg_debug : DebugAddr cfg = os_Getenv env "DEBUG_ADDR";
  cfg_open : setting Atoi env "DB_MAX_OPEN_CONNS" 25 (DBMaxOpenConns cfg);
  cfg_idle : setting Atoi env "DB_MAX_IDLE_CONNS" 5 (DBMaxIdleConns cfg);
  cfg_life : setting ParseDuration_value env "DB_CONN_MAX_LIFETIME" (5 * Minute) (DBConnMaxLifetime cfg);
  cfg_idle_time : setting ParseDuration_value env "DB_CONN_MAX_IDLE_TIME" (1 * Minute) (DBConnMaxIdleTime cfg)
}.

Lemma Load_configured env cfg : Load env = Ok cfg <-> configured env cfg.
Proof.
  unfold Load. split.
  - destruct (String.eqb_spec (os_Getenv env "DATABASE_URL") EmptyString) as [E|E]; [done|].
    destruct (envInt env "DB_MAX_OPEN_CONNS" _) as [a|] eqn:E1; [|done].
    destruct (envInt env "DB_MAX_IDLE_CONNS" _) as [b|] eqn:E2; [|done].
    destruct (envDuration env "DB_CONN_MAX_LIFETIME" _) as [c|] eqn:E3; [|done].
    destruct (envDuration env "DB_CONN_MAX_IDLE_TIME" _) as [d|] eqn:E4; [|done].
    intros [= <-]. apply envInt_spec in E1, E2. apply envDuration_spec in E3, E4. done.
  - intros [Hu Hne Hh Hd H1 H2 H3 H4]. rewrite Hu, (proj2 (String.eqb_neq _ _) Hne).
    apply envInt_spec in H1, H2. apply envDuration_spec in H3, H4.
    unfold DefaultDBMaxOpenConns, DefaultDBMaxIdleConns, DefaultDBConnMaxLifetime,
      DefaultDBConnMaxIdleTime.
    rewrite H1, H2, H3, H4. fold (http_addr env). rewrite <- Hh, <- Hd. by destruct cfg.
Qed.

(** ** Errors name the variable *)

(** What each variable has to satisfy, in the order [Load] reads them. *)
Definition requirements (env : environ) : list (string * Prop) :=
  [("DATABASE_URL"%string, os_Getenv env "DATABASE_URL" <> EmptyString);
   ("DB_MAX_OPEN_CONNS"%string, exists n, setting Atoi env "DB_MAX_OPEN_CONNS" 25 n);
   ("DB_MAX_IDLE_CONNS"%string, exists n, setting Atoi env "DB_MAX_IDLE_CONNS" 5 n);
   ("DB_CONN_MAX_LIFETIME"%string,
      exists n, setting ParseDuration_value env "DB_CONN_MAX_LIFETIME" (5 * Minute) n);
   ("DB_CONN_MAX_IDLE_TIME"%string,
      exists n, setting ParseDuration_value env "DB_CONN_MAX_IDLE_TIME" (1 * Minute) n)].

(** [e] is about the first variable that does not satisfy its requirement. *)
Definition blames_first (X : externals) (env : environ) (e : error) : Prop :=
  exists (fine : list (string * Prop)) key (P : Prop) rest text,
    requirements env = fine ++ (key, P) :: rest /\ Forall (fun kp => kp.2) fine /\ ~ P /\
    Error X e = key +:+ text.

Lemma envInt_error env key def e :
  envInt env key def = Err e ->
  ~ (exists n, setting Atoi env key def n) /\ forall X, exists text, Error X e = key +:+ text.
Proof.
  intros E. split.
  - intros [n Hn]. apply envInt_spec in Hn. congruence.
  - intros X. unfold envInt in E. destruct (String.eqb _ _); [done|].
    destruct (strconv_Atoi _) as [n|err]; [case_decide; [|done]|]; injection E as <-; cbn [Error].
    + by eexists.
    + rewrite app_assoc_string. by eexists.
Qed.

Lemma envDuration_error env key def e :
  envDuration env key def = Err e ->
  ~ (exists n, setting ParseDuration_value env key def n) /\
  forall X, exists text, Error X e = key +:+ text.
Proof.
  intros E. split.
  - intros [n Hn]. apply envDuration_spec in Hn. congruence.
  - intros X. unfold envDuration in E. destruct (String.eqb _ _); [done|].
    destruct (ParseDuration _) as [n|err]; [case_decide; [|done]|]; injection E as <-; cbn [Error].
    + by eexists.
    + rewrite app_assoc_string. by eexists.
Qed.

Ltac fine_ones := repeat (apply Forall_cons_2; [by cbn [snd]; eauto|]); constructor.

(** C20: the configuration is read as documented, and a typo fails loudly.
    [Load] succeeds exactly on the environments whose variables are well formed,
    with the default for each one that is unset and the positive value of each
    one that is set; otherwise its error text begins with the name of the first
    variable that is not. *)
Theorem load_fails_loudly X env :
  match Load env with
  | Ok cfg => configured env cfg /\ Forall (fun kp => kp.2) (requirements env)
  | Err e => (forall cfg, ~ configured env cfg) /\ blames_first X env e
  end.
Proof.
  destruct (Load env) as [cfg|e] eqn:HL.
  - apply Load_configured in HL. split; [done|]. destruct HL as [Hu Hne _ _ H1 H2 H3 H4].
    rewrite <- Hu in Hne. fine_ones.
  - split; [intros cfg Hc; apply Load_configured in Hc; congruence|].
    unfold Load in HL. unfold blames_first, requirements.
    destruct (String.eqb_spec (os_Getenv env "DATABASE_URL") EmptyString) as [E|E].
    { injection HL as <-. eexists [], _, _, _, _. split; [done|]. split; [constructor|].
      split; [by intros H; apply H|by vm_compute]. }
    destruct (envInt env "DB_MAX_OPEN_CONNS" _) as [a|e1] eqn:E1.
    2: { injection HL as ->. destruct (envInt_error _ _ _ _ E1) as [Hn Ht].
         destruct (Ht X) as [text Htext]. eexists [_], _, _, _, text.
         split; [reflexivity|]. split; [|done]. fine_ones. }
    apply envInt_spec in E1. destruct (envInt env "DB_MAX_IDLE_CONNS" _) as [b|e2] eqn:E2.
    2: { injection HL as ->. destruct (envInt_error _ _ _ _ E2) as [Hn Ht].
         destruct (Ht X) as [text Htext]. eexists [_; _], _, _, _, text.
         split; [reflexivity|]. split; [|done]. fine_ones. }
    apply envInt_spec in E2. destruct (envDuration env "DB_CONN_MAX_LIFETIME" _) as [c|e3] eqn:E3.
    2: { injection HL as ->. destruct (envDuration_error _ _ _ _ E3) as [Hn Ht].
         destruct (Ht X) as [text Htext]. eexists [_; _; _], _, _, _, text.
         split; [reflexivity|]. split; [|done]. fine_ones. }
    apply envDuration_spec in E3.
    destruct (envDuration env "DB_CONN_MAX_IDLE_TIME" _) as [d|e4] eqn:E4; [done|].
    injection HL as ->. destruct (envDuration_error _ _ _ _ E4) as [Hn Ht].
    destruct (Ht X) as [text Htext]. eexists [_; _; _; _], _, _, _, text.
    split; [reflexivity|]. split; [|done]. fine_ones.
Qed.
(** ** The configurations there are *)

Record valid_config (cfg : Config) : Prop := mkValidConfig {
  valid_url : DatabaseURL cfg <> EmptyString;
  valid_addr : HTTPAddr cfg <> EmptyString;
  valid_open : 1 <= DBMaxOpenConns cfg <= int64_max;
  valid_idle : 1 <= DBMaxIdleConns cfg <= int64_max;
  valid_life : 1 <= DBConnMaxLifetime cfg <= int64_max;
  valid_idle_time : 1 <= DBConnMaxIdleTime cfg <= int64_max
}.

Lemma Atoi_range s n : Atoi s = Some n -> in_int64 n.
Proof. unfold Atoi. intros (m & _ & H)%bind_Some. case_decide; by simplify_eq. Qed.

Lemma setting_range parse env key def n :
  (forall s m, parse s = Some m -> in_int64 m) -> 1 <= def <= int64_max ->
  setting parse env key def n -> 1 <= n <= int64_max.
Proof.
  intros Hparse Hdef [_ -> | _ Hp Hn]; [done|]. apply Hparse in Hp. unfold in_int64 in Hp. lia.
Qed.

Lemma ParseDuration_value_range s n : ParseDuration_value s = Some n -> in_int64 n.
Proof.
  unfold ParseDuration_value. destruct (ParseDuration s) as [d|] eqn:E; [|done].
  intros [= <-]. by eapply ParseDuration_range.
Qed.

Lemma configured_valid env cfg : configured env cfg -> valid_config cfg.
Proof.
  intros [_ Hu Hh _ H1 H2 H3 H4]. split; [done| | | | |].
  - rewrite Hh. unfold http_addr. by destruct (String.eqb_spec (os_Getenv env "HTTP_ADDR") EmptyString).
  - by eapply setting_range; [exact Atoi_range| |exact H1].
  - by eapply setting_range; [exact Atoi_range| |exact H2].
  - by eapply setting_range; [exact ParseDuration_value_range| |exact H3].
  - by eapply setting_range; [exact ParseDuration_value_range| |exact H4].
Qed.

(** The environment that says what a configuration says. *)
Definition environ_of (cfg : Config) : environ :=
  <["DATABASE_URL" := DatabaseURL cfg]> (<["HTTP_ADDR" := HTTPAddr cfg]>
  (<["DEBUG_ADDR" := DebugAddr cfg]> (<["DB_MAX_OPEN_CONNS" := Itoa (DBMaxOpenConns cfg)]>
  (<["DB_MAX_IDLE_CONNS" := Itoa (DBMaxIdleConns cfg)]>
  (<["DB_CONN_MAX_LIFETIME" := Duration_String (DBConnMaxLifetime cfg)]>
  {["DB_CONN_MAX_IDLE_TIME" := Duration_String (DBConnMaxIdleTime cfg)]}))))).

Lemma setting_int env key def n :
  os_Getenv env key = Itoa n -> 1 <= n <= int64_max -> setting Atoi env key def n.
Proof.
  intros E Hn. assert (Atoi (Itoa n) = Some n) as Ha
    by (apply Atoi_Itoa; unfold in_int64, int64_min; lia).
  right; [|by rewrite E|lia]. rewrite E. intros E0. by rewrite E0 in Ha.
Qed.

Lemma setting_duration env key def n :
  os_Getenv env key = Duration_String n -> 1 <= n <= int64_max ->
  setting ParseDuration_value env key def n.
Proof.
  intros E Hn. assert (ParseDuration (Duration_String n) = Ok n) as Ha
    by (apply ParseDuration_String; unfold in_int64, int64_min; lia).
  right; [|by unfold ParseDuration_value; rewrite E, Ha|lia].
  rewrite E. intros E0. by rewrite E0 in Ha.
Qed.

(** C35: every valid configuration can be written down, and only those can be
    read.  What [Load] returns is valid (addresses that are not empty, positive
    int64 settings), and a valid configuration, printed variable by variable
    with [Itoa] and [Duration.String], is loaded back unchanged. *)
Theorem load_round_trip cfg :
  (forall env, Load env = Ok cfg -> valid_config cfg) /\
  (valid_config cfg -> Load (environ_of cfg) = Ok cfg).
Proof.
  split; [intros env HL; apply Load_configured in HL; by eapply configured_valid|].
  intros [Hu Hh H1 H2 H3 H4]. apply Load_configured. split; try done.
  - unfold http_addr. change (os_Getenv (environ_of cfg) "HTTP_ADDR") with (HTTPAddr cfg).
    by rewrite (proj2 (String.eqb_neq _ _) Hh).
  - by apply setting_int.
  - by apply setting_int.
  - by apply setting_duration.
  - by apply setting_duration.
Qed.
End config.

Definition shop_config : Config :=
  mkConfiguration "postgres://x" ":8080" "127.0.0.1:6060" 100 20 (10 * Minute) (30 * Second).

Lemma load_round_trip_witness :
  Load (fun s => s) (environ_of shop_config) = Ok shop_config.
Proof.
  apply (proj2 (load_round_trip (fun s => s) shop_config)). split; by vm_compute.
Defined.

(** The cases of [TestLoad_DBPoolRejectsBadValues]. *)
Example rejects_bad_values (Quote : string -> string) :
  forallb (fun kv => negb (good (Load Quote (<[kv.1 := kv.2]> {["DATABASE_URL" := "postgres://x"]}))))
    [("DB_MAX_OPEN_CONNS", "not-a-number"); ("DB_MAX_OPEN_CONNS", "0"); ("DB_MAX_OPEN_CONNS", "-5");
     ("DB_MAX_IDLE_CONNS", "abc"); ("DB_CONN_MAX_LIFETIME", "five minutes");
     ("DB_CONN_MAX_LIFETIME", "0s"); ("DB_CONN_MAX_IDLE_TIME", "1week")]%string = true.
Proof. by vm_compute. Qed.
