(* ===== verification/Net.v ===== *)
(** * net: host and port, IP addresses, and the loopback check of main.go

    [SplitHostPort] and [ParseIP] as the standard library has them, an address
    as eight 16-bit words, and [isLoopbackAddr], which decides whether the
    admin listener is announced with a warning. *)

From Stdlib Require Import Ascii.
From S2P Require Import Prelude Strconv Mux.

(** ** [net.SplitHostPort] *)

(** A host in brackets may hold colons, any other has none. *)
Definition SplitHostPort (hostport : string) : option (string * string) :=
  match hostport with
  | String "["%char s =>
      match cut "]"%char s with
      | (host, Some (String ":"%char port)) =>
          if contains ":"%char port || contains "["%char s || contains "]"%char port
          then None else Some (host, port)
      | _ => None
      end
  | _ =>
      match cut ":"%char hostport with
      | (host, Some port) =>
          if contains ":"%char port || contains "["%char hostport || contains "]"%char hostport
          then None else Some (host, port)
      | (_, None) => None
      end
  end.

(** ** [net.ParseIP] *)

Abbreviation ip := (list Z).  (** eight words *)

(** A decimal octet without a leading zero. *)
Definition octet (s : string) : option Z :=
  match s with
  | String "0"%char (String _ _) => None
  | _ => n ← all_digits s; if 255 <? n then None else Some n
  end.

Definition parseIPv4Fields (s : string) : option (Z * Z * Z * Z) :=
  match split "."%char s with
  | [a; b; c; d] =>
      a ← octet a; b ← octet b; c ← octet c; d ← octet d; Some (a, b, c, d)
  | _ => None
  end.

Definition hex_value (c : ascii) : option Z :=
  let n := Z.of_N (byte c) in
  if (48 <=? n) && (n <=? 57) then Some (n - 48)
  else if (97 <=? n) && (n <=? 102) then Some (n - 87)
  else if (65 <=? n) && (n <=? 70) then Some (n - 55)
  else None.

(** The hexadecimal digits at the head of a string: value, count, rest. *)
Fixpoint leading_hex (acc : Z) (off : nat) (s : string) : Z * nat * string :=
  match s with
  | String c s' =>
      match hex_value c with
      | Some d => leading_hex (acc * 16 + d) (S off) s'
      | None => (acc, off, s)
      end
  | EmptyString => (acc, off, s)
  end.

(** The fields of an IPv6 address, with the place of the ellipsis; [room] is
    how many words are still to fill. *)
Fixpoint parse_groups (room : nat) (words : ip) (ellipsis : option nat) (s : string)
  : option (ip * option nat) :=
  match room with
  | O => if String.eqb s EmptyString then Some (words, ellipsis) else None
  | S room' =>
      let '(acc, off, rest) := leading_hex 0 0 s in
      if Nat.eqb off 0 || Nat.ltb 4 off then None
      else
        match rest with
        | String "."%char _ =>
            if (match ellipsis with None => negb (Nat.eqb (length words) 6) | _ => false end)
               || Nat.ltb room 2 then None
            else
              '(a, b, c, d) ← parseIPv4Fields s;
              Some (words ++ [a * 256 + b; c * 256 + d], ellipsis)
        | EmptyString => Some (words ++ [acc], ellipsis)
        | String ":"%char EmptyString => None
        | String ":"%char (String ":"%char rest') =>
            match ellipsis with
            | Some _ => None
            | None =>
                let here := Some (S (length words)) in
                if String.eqb rest' EmptyString then Some (words ++ [acc], here)
                else parse_groups room' (words ++ [acc]) here rest'
            end
        | String ":"%char rest' => parse_groups room' (words ++ [acc]) ellipsis rest'
        | _ => None
        end
  end.

(** The ellipsis stands for at least one word of zeros. *)
Definition expand (words : ip) (ellipsis : option nat) : option ip :=
  match ellipsis with
  | Some i =>
      if Nat.ltb (length words) 8
      then Some (take i words ++ replicate (8 - length words) 0 ++ drop i words) else None
  | None => if Nat.ltb (length words) 8 then None else Some words
  end.

Definition parseIPv6 (s : string) : option ip :=
  match s with
  | String ":"%char (String ":"%char rest) =>
      if String.eqb rest EmptyString then Some (replicate 8 0)
      else '(words, ellipsis) ← parse_groups 8 [] (Some 0%nat) rest; expand words ellipsis
  | _ => '(words, ellipsis) ← parse_groups 8 [] None s; expand words ellipsis
  end.

(** An IPv4 address in its IPv6 form. *)
Definition ipv4 (a b c d : Z) : ip := [0; 0; 0; 0; 0; 65535; a * 256 + b; c * 256 + d].

(** The first period or colon says which kind the address is. *)
Fixpoint address_kind (s : string) : option bool :=
  match s with
  | String c s' =>
      if Ascii.eqb c "."%char then Some true
      else if Ascii.eqb c ":"%char then Some false
      else address_kind s'
  | EmptyString => None
  end.

(** [ParseIP]: no address with a zone. *)
Definition ParseIP (s : string) : option ip :=
  if contains "%"%char s then None
  else
    match address_kind s with
    | Some true => '(a, b, c, d) ← parseIPv4Fields s; Some (ipv4 a b c d)
    | Some false => parseIPv6 s
    | None => None
    end.

(** [IP.IsLoopback]: 127.0.0.0/8, or ::1. *)
Definition IsLoopback (a : ip) : bool :=
  match a with
  | [0; 0; 0; 0; 0; 65535; x; _] => x / 256 =? 127
  | _ => bool_decide (a = [0; 0; 0; 0; 0; 0; 0; 1])
  end.

(** ** [isLoopbackAddr] *)

Definition isLoopbackAddr (addr : string) : bool :=
  match SplitHostPort addr with
  | None => false
  | Some (host, _) =>
      if String.eqb host "localhost" || String.eqb host "127.0.0.1" || String.eqb host "::1"
      then true
      else match ParseIP host with
           | Some a => IsLoopback a
           | None => false
           end
  end.

(** The cases of [TestIsLoopbackAddr], and addresses in other forms. *)
Example loopback_cases :
  map isLoopbackAddr
    ["127.0.0.1:6060"; "localhost:6060"; "[::1]:6060"; ":6060"; "0.0.0.0:6060"; "10.0.0.1:6060";
     "not-an-addr"; "127.8.9.10:1"; "[0:0:0:0:0:0:0:1]:6060"; "[::ffff:127.0.0.1]:80";
     "[::ffff:7f00:1]:80"; "[::1%lo]:80"; "::1:80"; "[::]:80"; "127.0.0.01:80"; "[1::1]:80"]%string
  = [true; true; true; false; false; false; false; true; true; true; true; false; false; false;
     false; false].
Proof. by vm_compute. Qed.

(** ** Addresses that were printed *)

Definition dotted (a b c d : Z) : string :=
  Itoa a +:+ "." +:+ Itoa b +:+ "." +:+ Itoa c +:+ "." +:+ Itoa d.

Lemma free_contains sep s : free sep s = true -> contains sep s = false.
Proof.
  unfold free. induction s as [|c s IH]; [done|]. cbn [all_chars contains].
  rewrite andb_true_iff, negb_true_iff. intros [Hc Hs]. by rewrite (IH Hs), Ascii.eqb_sym, Hc.
Qed.

Lemma contains_app sep a b : contains sep (a +:+ b) = contains sep a || contains sep b.
Proof.
  induction a as [|c a IH]; [done|]. change (String c a +:+ b) with (String c (a +:+ b)).
  cbn [contains]. by rewrite IH, orb_assoc.
Qed.

Lemma cut_free sep a b : free sep a = true -> cut sep (a +:+ String sep b) = (a, Some b).
Proof.
  unfold free. induction a as [|c a IH].
  - intros _. change (EmptyString +:+ ?x) with x. cbn [cut]. by rewrite Ascii.eqb_refl.
  - cbn [all_chars]. rewrite andb_true_iff, negb_true_iff. intros [Hc Ha].
    change (String c a +:+ ?x) with (String c (a +:+ x)). cbn [cut]. by rewrite Hc, IH.
Qed.

(** A character of a decimal number or a period. *)
Definition dotted_char (c : ascii) : bool := Ascii.eqb c "."%char || between_bytes 48 57 c.

Lemma dotted_digit n : 0 <= n < 10 -> between_bytes 48 57 (digit n) = true.
Proof. exact (forall_below (fun d => between_bytes 48 57 (digit d)) 10 eq_refl n). Qed.

Lemma Itoa_decimal n : 0 <= n -> all_chars (between_bytes 48 57) (Itoa n) = true.
Proof. apply Itoa_chars, dotted_digit. Qed.

Lemma dotted_chars a b c d :
  0 <= a -> 0 <= b -> 0 <= c -> 0 <= d -> all_chars dotted_char (dotted a b c d) = true.
Proof.
  intros Ha Hb Hc Hd. unfold dotted.
  assert (forall n, 0 <= n -> all_chars dotted_char (Itoa n) = true) as H.
  { intros n Hn. eapply all_chars_weaken; [|by apply Itoa_decimal]. intros x Hx.
    unfold dotted_char. by rewrite Hx, orb_true_r. }
  rewrite !all_chars_app, !H by done. done.
Qed.

Lemma chars_free f sep s : f sep = false -> all_chars f s = true -> free sep s = true.
Proof.
  intros Hf. apply all_chars_weaken. intros c Hc. apply negb_true_iff.
  destruct (Ascii.eqb_spec c sep) as [->|]; [congruence|done].
Qed.

(** A port, as text: no colon and no bracket. *)
Definition port_text (port : string) : Prop :=
  contains ":"%char port = false /\ contains "["%char port = false /\ contains "]"%char port = false.

(** A host without colons and brackets, put in front of a port. *)
Lemma SplitHostPort_join host port :
  free ":"%char host = true -> free "["%char host = true -> free "]"%char host = true ->
  port_text port -> SplitHostPort (host +:+ ":" +:+ port) = Some (host, port).
Proof.
  intros H1 H2 H3 (P1 & P2 & P3).
  assert (cut ":"%char (host +:+ ":" +:+ port) = (host, Some port)) as Hcut by (by apply cut_free).
  assert (contains "["%char (host +:+ ":" +:+ port) = false) as Hl
    by (rewrite contains_app; change (":" +:+ port) with (String ":"%char port); cbn [contains];
        by rewrite P2, (free_contains _ _ H2)).
  assert (contains "]"%char (host +:+ ":" +:+ port) = false) as Hr
    by (rewrite contains_app; change (":" +:+ port) with (String ":"%char port); cbn [contains];
        by rewrite P3, (free_contains _ _ H3)).
  assert (forall (A : Type) (f : string -> A) (e : A),
    match host +:+ ":" +:+ port with String "["%char s => f s | _ => e end = e) as Hm.
  { intros A f e. destruct host as [|c s]; [done|].
    change (String c s +:+ ?x) with (String c (s +:+ x)). unfold free in H2. cbn [all_chars] in H2.
    apply andb_true_iff in H2 as [H2 _]. apply negb_true_iff, Ascii.eqb_neq in H2.
    clear -H2. each_byte c; done. }
  unfold SplitHostPort. rewrite Hm, Hcut, P1, Hl, Hr. done.
Qed.

Lemma octet_Itoa n : 0 <= n <= 255 -> octet (Itoa n) = Some n.
Proof.
  intros Hn.
  pose proof (forall_below (fun n => bool_decide (octet (Itoa n) = Some n)) 256
    ltac:(by vm_compute) n ltac:(lia)) as H. by apply bool_decide_eq_true in H.
Qed.

Lemma parseIPv4_dotted a b c d :
  0 <= a <= 255 -> 0 <= b <= 255 -> 0 <= c <= 255 -> 0 <= d <= 255 ->
  parseIPv4Fields (dotted a b c d) = Some (a, b, c, d).
Proof.
  intros Ha Hb Hc Hd. unfold parseIPv4Fields, dotted.
  assert (forall n, 0 <= n -> free "."%char (Itoa n) = true) as Hf
    by (intros n Hn; by eapply chars_free; [|by apply Itoa_decimal]).
  assert (forall x, "." +:+ x = String "."%char x) as Hdot by done. rewrite !Hdot.
  rewrite (split_cons _ (Itoa a)), (split_cons _ (Itoa b)), (split_cons _ (Itoa c)), split_single
    by (apply Hf; lia).
  by rewrite !octet_Itoa by done.
Qed.

Lemma address_kind_dotted n s :
  0 <= n -> address_kind (Itoa n +:+ "." +:+ s) = Some true.
Proof.
  intros Hn. pose proof (Itoa_decimal n Hn) as H. revert H. generalize (Itoa n). intros x.
  induction x as [|c x IH]; [done|]. cbn [all_chars]. rewrite andb_true_iff. intros [Hc Hx].
  change (String c x +:+ ?y) with (String c (x +:+ y)). cbn [address_kind]. rewrite (IH Hx).
  clear -Hc. each_byte c; done.
Qed.

Lemma ParseIP_dotted a b c d :
  0 <= a <= 255 -> 0 <= b <= 255 -> 0 <= c <= 255 -> 0 <= d <= 255 ->
  ParseIP (dotted a b c d) = Some (ipv4 a b c d).
Proof.
  intros Ha Hb Hc Hd. unfold ParseIP.
  rewrite (free_contains "%"%char) by (eapply (chars_free dotted_char); [done|apply dotted_chars; lia]).
  unfold dotted at 1. rewrite address_kind_dotted by lia. by rewrite parseIPv4_dotted.
Qed.

Lemma loopback_ipv4 a b c d : 0 <= b <= 255 -> IsLoopback (ipv4 a b c d) = (a =? 127).
Proof.
  intros Hb. unfold ipv4, IsLoopback. rewrite Z.div_add_l by lia. rewrite (Z.div_small b) by lia.
  by rewrite Z.add_0_r.
Qed.

(** The names in the code's switch are loopback addresses as texts. *)
Lemma isLoopbackAddr_iff addr :
  isLoopbackAddr addr = true <->
  exists host port, SplitHostPort addr = Some (host, port) /\
    (host = "localhost"%string \/ exists a, ParseIP host = Some a /\ IsLoopback a = true).
Proof.
  unfold isLoopbackAddr. split.
  - destruct (SplitHostPort addr) as [[host port]|]; [|done]. intros H. exists host, port.
    split; [done|]. destruct (String.eqb_spec host "localhost") as [->|]; [by left|]. right.
    destruct (String.eqb_spec host "127.0.0.1") as [->|]; [by eexists|].
    destruct (String.eqb_spec host "::1") as [->|]; [by eexists|]. simpl in H.
    destruct (ParseIP host) as [a|]; [by exists a|done].
  - intros (host & port & -> & [-> | (a & -> & Ha)]); [done|]. by case_match.
Qed.

(** The warning about an exposed admin listener is not missed.
    [isLoopbackAddr] is true exactly when the address splits into a host and a
    port and the host is "localhost" or parses as a loopback address: of the
    printed IPv4 addresses the block 127.0.0.0/8, never an empty host (which
    binds every interface), never an address that does not split. *)
Lemma loopback_detected :
  (forall addr, isLoopbackAddr addr = true <->
     exists host port, SplitHostPort addr = Some (host, port) /\
       (host = "localhost"%string \/ exists a, ParseIP host = Some a /\ IsLoopback a = true)) /\
  (forall a b c d port, 0 <= a <= 255 -> 0 <= b <= 255 -> 0 <= c <= 255 -> 0 <= d <= 255 ->
     port_text port -> isLoopbackAddr (dotted a b c d +:+ ":" +:+ port) = (a =? 127)) /\
  (forall port, isLoopbackAddr (":" +:+ port) = false).
Proof.
  split; [exact isLoopbackAddr_iff|]. split.
  - intros a b c d port Ha Hb Hc Hd Hp. apply eq_bool_prop_intro.
    assert (SplitHostPort (dotted a b c d +:+ ":" +:+ port) = Some (dotted a b c d, port)) as Hs.
    { apply SplitHostPort_join; [..|done];
        (eapply (chars_free dotted_char); [done|apply dotted_chars; lia]). }
    rewrite !Is_true_true, isLoopbackAddr_iff, <- (loopback_ipv4 a b c d Hb). split.
    + intros (host & p & E & H). rewrite Hs in E. injection E as <- <-.
      destruct H as [H|(x & Hx & HL)]; [|by rewrite ParseIP_dotted in Hx; simplify_eq].
      pose proof (parseIPv4_dotted a b c d Ha Hb Hc Hd) as Hf. by rewrite H in Hf.
    + intros HL. eexists _, _. split; [exact Hs|]. right. eexists. by rewrite ParseIP_dotted.
  - intros port. unfold isLoopbackAddr, SplitHostPort. change (":" +:+ port) with (String ":"%char port).
    cbn [cut]. rewrite Ascii.eqb_refl. by destruct (_ || _).
Qed.

Lemma loopback_detected_witness : isLoopbackAddr (dotted 127 0 0 1 +:+ ":" +:+ "6060") = true.
Proof. apply (proj1 (proj2 loopback_detected) 127 0 0 1 "6060"%string); done. Defined.
