(* ===== verification/Startup.v ===== *)
(** * internal/db, internal/tracing, cmd/server: starting and stopping

    The code that brings the service up and takes it down, as programs over the
    operations of the process ([sysE]): opening the pool, migrating, the
    listeners' goroutines, waiting for a signal, graceful shutdown, the deferred
    calls.  [Lifecycle] runs them. *)

From S2P Require Import Prelude GoRuntime Strconv GoDuration Handlers Config Net.
#[local] Open Scope go_scope.

Inductive server : Type := ApiServer | DebugServer.

#[global] Instance server_eq_dec : EqDecision server.
Proof. solve_decision. Defined.

(** [db.PoolConfig] *)
Record PoolConfig : Type := mkPoolConfig {
  MaxOpenConns : Z;
  MaxIdleConns : Z;
  ConnMaxLifetime : Z;
  ConnMaxIdleTime : Z
}.

(** What [select] found ready: the context, or a receive from [errCh], which
    gives nil once the channel is closed and empty. *)
Inductive wakeup : Type :=
| ContextDone
| Received (err : option error).

Inductive sysE : Type -> Type :=
| Stdouttrace_New : sysE (result unit)
| Resource_New (serviceName : string) : sysE (result unit)
| SetTracerProvider : sysE unit
| TracerShutdown : sysE (result unit)
| Sql_Open (driver dsn : string) : sysE (result unit)
| SetMaxOpenConns (n : Z) : sysE unit
| SetMaxIdleConns (n : Z) : sysE unit
| SetConnMaxLifetime (d : Z) : sysE unit
| SetConnMaxIdleTime (d : Z) : sysE unit
| Ping : sysE (result unit)
| DbClose : sysE unit
| Iofs_New : sysE (result unit)
| Migratepg_WithInstance : sysE (result unit)
| Migrate_NewWithInstance : sysE (result unit)
| Migrate_Up : sysE (result unit)
| GoListen (s : server)  : sysE unit     (** [go func() { ... ListenAndServe ... }()] *)
| Select : sysE wakeup                   (** [select] on [ctx.Done()] and [errCh] *)
| WithTimeout : sysE unit                (** the context of the shutdown: 10 seconds *)
| CloseListener (s : server) : sysE unit (** [Shutdown]: no new connections *)
| AwaitIdle (s : server) : sysE (result unit) (** [Shutdown]: until idle or the deadline *)
| Slog (level msg : string) : sysE unit.

Definition sys : Type -> Type := proc sysE.

(** [if err != nil { return fmt.Errorf(pre + "%w", err) }] *)
Definition check {A} (pre : string) (o : sysE (result unit)) (k : sys (result A)) : sys (result A) :=
  r ← perform o;
  match r with
  | Err err => Ret (Err (ErrWrap pre err))
  | Ok _ => k
  end.

(** [defer f()] *)
Definition defer {A B} (f : sys B) (p : sys A) : sys A :=
  proc_finally (fun o => _ ← f; match o with Returned a => Ret a | Panicked v => Panic v end) p.

(** ** internal/tracing/tracing.go *)

Definition ServiceName : string := "wallet-transfer-service".

Definition Setup : sys (result unit) :=
  check "stdouttrace.New: " Stdouttrace_New (
  check "resource.New: " (Resource_New ServiceName) (
  _ ← perform SetTracerProvider;
  _ ← perform (Slog "INFO" "tracing initialised");
  Ret (Ok tt))).

(** ** internal/db/db.go *)

Definition set_if (n : Z) (o : Z -> sysE unit) : sys unit :=
  if decide (0 < n) then perform (o n) else Ret tt.

Definition OpenWithPool (dsn : string) (pool : PoolConfig) : sys (result unit) :=
  check "sql.Open: " (Sql_Open "pgx" dsn) (
  _ ← set_if (MaxOpenConns pool) SetMaxOpenConns;
  _ ← set_if (MaxIdleConns pool) SetMaxIdleConns;
  _ ← set_if (ConnMaxLifetime pool) SetConnMaxLifetime;
  _ ← set_if (ConnMaxIdleTime pool) SetConnMaxIdleTime;
  r ← perform Ping;
  match r with
  | Err err =>
      _ ← perform DbClose;
      Ret (Err (ErrWrap "db.Ping: " err))
  | Ok _ => Ret (Ok tt)
  end).

Definition Open (dsn : string) : sys (result unit) := OpenWithPool dsn (mkPoolConfig 0 0 0 0).

Definition ErrNoChange : error := ErrVar "migrate.ErrNoChange" "no change".

Definition Migrate : sys (result unit) :=
  check "iofs source: " Iofs_New (
  check "migrate driver: " Migratepg_WithInstance (
  check "migrate new: " Migrate_NewWithInstance (
  r ← perform Migrate_Up;
  match r with
  | Err err => if same_error err ErrNoChange then Ret (Ok tt) else Ret (Err (ErrWrap "migrate up: " err))
  | Ok _ => Ret (Ok tt)
  end))).

(** ** cmd/server/main.go *)

(** [srv.Shutdown(ctx)] *)
Definition Shutdown (s : server) : sys (result unit) :=
  _ ← perform (CloseListener s);
  perform (AwaitIdle s).

Definition pool_of (cfg : Config) : PoolConfig :=
  mkPoolConfig (DBMaxOpenConns cfg) (DBMaxIdleConns cfg) (DBConnMaxLifetime cfg)
    (DBConnMaxIdleTime cfg).

Definition exposed_warning : string :=
  "debug listener bound to non-loopback address; pprof exposes runtime internals".

Definition debug_enabled (cfg : Config) : bool := negb (String.eqb (DebugAddr cfg) EmptyString).

(** Step 3 of [run]: the optional admin listener. *)
Definition start_debug (cfg : Config) : sys unit :=
  if debug_enabled cfg then
    _ ← (if negb (isLoopbackAddr (DebugAddr cfg)) then perform (Slog "WARN" exposed_warning)
         else Ret tt);
    perform (GoListen DebugServer)
  else Ret tt.

(** Steps 5 and 6: wait, then shut down; the result is the error returned. *)
Definition serve_until_stopped (cfg : Config) : sys (option error) :=
  _ ← perform (GoListen ApiServer);
  w ← perform Select;
  match w with
  | Received err => Ret err
  | ContextDone =>
      _ ← perform (Slog "INFO" "shutdown signal received");
      _ ← perform WithTimeout;
      _ ← (if debug_enabled cfg then r ← Shutdown DebugServer; Ret tt else Ret tt);
      r ← Shutdown ApiServer;
      Ret (match r with Ok _ => None | Err err => Some err end)
  end.

Definition run (cfg : Config) : sys (option error) :=
  r ← Setup;
  match r with
  | Err err => Ret (Some err)
  | Ok _ =>
      defer (perform TracerShutdown) (
        r ← OpenWithPool (DatabaseURL cfg) (pool_of cfg);
        match r with
        | Err err => Ret (Some err)
        | Ok _ =>
            defer (perform DbClose) (
              _ ← perform (Slog "INFO" "db pool configured");
              r ← Migrate;
              match r with
              | Err err => Ret (Some err)
              | Ok _ =>
                  _ ← start_debug cfg;
                  serve_until_stopped cfg
              end)
        end)
  end.

(** The exit status. *)
Definition main (Quote : string -> string) (env : environ) : sys Z :=
  match Load Quote env with
  | Err err => _ ← perform (Slog "ERROR" "fatal"); Ret 1
  | Ok cfg =>
      r ← run cfg;
      match r with
      | Some err => _ ← perform (Slog "ERROR" "fatal"); Ret 1
      | None => Ret 0
      end
  end.
