(* ===== verification/Lifecycle.v ===== *)
(** * The life of the process

    The semantics of [Startup]'s operations: the goroutine of [main], the
    goroutine of each listener, and what comes from outside (a signal,
    connections, a listener that fails, the deadline of the shutdown), in any
    order.  A request is counted from the time the listener accepted it until
    its handler has returned. *)

From S2P Require Import Prelude GoRuntime Strconv GoDuration Handlers Config Net Startup.
#[local] Open Scope go_scope.

Definition ErrServerClosed : error := ErrVar "http.ErrServerClosed" "http: Server closed".
Definition DeadlineExceeded : error := ErrVar "context.DeadlineExceeded" "context deadline exceeded".

(** A listener's goroutine. *)
Inductive goroutine : Type :=
| NotStarted
| Listening           (** in [ListenAndServe] *)
| Stopped (e : error) (** it returned *)
| Sent                (** the error, if any, is sent (or logged) *)
| Exited.

Inductive database : Type := NotOpened | Opened | Closed.

(** What only the main goroutine changes. *)
Record own : Type := mkOwn {
  own_tracing : bool;
  own_flushed : bool;
  own_db : database;
  own_pool : PoolConfig;      (** 0: the driver's default *)
  own_kept : nat;             (** connections of the pool the migration driver keeps *)
  own_migrated : bool;
  own_started : server -> bool;
  own_shut : server -> bool;  (** [Shutdown] was called *)
  own_deadline : bool;        (** the shutdown context exists *)
  own_log : list (string * string)
}.

(** What changes around it. *)
Record world : Type := mkWorld {
  w_ctx : bool;                    (** the signal has come *)
  w_expired : bool;                (** the 10 seconds are over *)
  w_go : server -> goroutine;
  w_inflight : server -> nat;
  w_errch : list error;            (** sent on [errCh], not received *)
  w_errch_closed : bool
}.

Definition set {B} (s : server) (b : B) (f : server -> B) : server -> B :=
  fun s' => if decide (s = s') then b else f s'.

#[global] Arguments set : simpl never.

Definition own0 : own :=
  mkOwn false false NotOpened (mkPoolConfig 0 0 0 0) 0 false (fun _ => false) (fun _ => false) false [].
Definition world0 : world :=
  mkWorld false false (fun _ => NotStarted) (fun _ => 0%nat) [] false.

Definition set_go (s : server) (g : goroutine) (w : world) : world :=
  mkWorld (w_ctx w) (w_expired w) (set s g (w_go w)) (w_inflight w) (w_errch w) (w_errch_closed w).
Definition set_inflight (s : server) (n : nat) (w : world) : world :=
  mkWorld (w_ctx w) (w_expired w) (w_go w) (set s n (w_inflight w)) (w_errch w) (w_errch_closed w).
Definition set_errch (l : list error) (closed : bool) (w : world) : world :=
  mkWorld (w_ctx w) (w_expired w) (w_go w) (w_inflight w) l closed.

(** ** Around the main goroutine *)

Inductive event : Type :=
| Signal
| Expire
| ListenFails (s : server) (e : error)
| ListenReturns (s : server)
| Accept (s : server)
| Finish (s : server)
| GoStep (s : server).

(** The listener takes connections. *)
Definition accepting (o : own) (w : world) (s : server) : bool :=
  match w_go w s with Listening => negb (own_shut o s) | _ => false end.

(** What a listener's goroutine does after [ListenAndServe] has returned. *)
Definition goroutine_step (s : server) (w : world) : option world :=
  match s, w_go w s with
  | ApiServer, Stopped e =>
      if errors_Is e ErrServerClosed then Some (set_go s Sent w)
      else match w_errch w with
           | [] => Some (set_go s Sent (set_errch [e] (w_errch_closed w) w))
           | _ => None
           end
  | ApiServer, Sent => Some (set_go s Exited (set_errch (w_errch w) true w))
  | DebugServer, Stopped _ => Some (set_go s Sent w)
  | DebugServer, Sent => Some (set_go s Exited w)
  | _, _ => None
  end.

Definition env_step (o : own) (ev : event) (w : world) : option world :=
  match ev with
  | Signal =>
      Some (mkWorld true (w_expired w) (w_go w) (w_inflight w) (w_errch w) (w_errch_closed w))
  | Expire =>
      if own_deadline o
      then Some (mkWorld (w_ctx w) true (w_go w) (w_inflight w) (w_errch w) (w_errch_closed w))
      else None
  | ListenFails s e =>
      match w_go w s with
      | Listening => if errors_Is e ErrServerClosed then None else Some (set_go s (Stopped e) w)
      | _ => None
      end
  | ListenReturns s =>
      match w_go w s with
      | Listening => if own_shut o s then Some (set_go s (Stopped ErrServerClosed) w) else None
      | _ => None
      end
  | Accept s => if accepting o w s then Some (set_inflight s (S (w_inflight w s)) w) else None
  | Finish s =>
      match w_inflight w s with S n => Some (set_inflight s n w) | O => None end
  | GoStep s => goroutine_step s w
  end.

(** ** The operations of the main goroutine *)

Record decision : Type := mkDecision {
  dec_fault : option error;  (** does the call fail; for a wait: did closing the listener fail *)
  dec_errch : bool;          (** when both channels are ready, which one *)
  dec_kept : nat             (** the connections [WithInstance] takes and keeps *)
}.

Definition outcome_of (d : decision) : result unit :=
  match dec_fault d with Some e => Err e | None => Ok tt end.

Definition set_db (db : database) (o : own) : own :=
  mkOwn (own_tracing o) (own_flushed o) db (own_pool o) (own_kept o) (own_migrated o)
    (own_started o) (own_shut o) (own_deadline o) (own_log o).
Definition set_pool (p : PoolConfig) (o : own) : own :=
  mkOwn (own_tracing o) (own_flushed o) (own_db o) p (own_kept o) (own_migrated o)
    (own_started o) (own_shut o) (own_deadline o) (own_log o).
Definition set_tracing (t f : bool) (o : own) : own :=
  mkOwn t f (own_db o) (own_pool o) (own_kept o) (own_migrated o) (own_started o) (own_shut o)
    (own_deadline o) (own_log o).
Definition set_kept (n : nat) (o : own) : own :=
  mkOwn (own_tracing o) (own_flushed o) (own_db o) (own_pool o) n (own_migrated o)
    (own_started o) (own_shut o) (own_deadline o) (own_log o).
Definition set_migrated (o : own) : own :=
  mkOwn (own_tracing o) (own_flushed o) (own_db o) (own_pool o) (own_kept o) true
    (own_started o) (own_shut o) (own_deadline o) (own_log o).
Definition set_started (s : server) (o : own) : own :=
  mkOwn (own_tracing o) (own_flushed o) (own_db o) (own_pool o) (own_kept o) (own_migrated o)
    (set s true (own_started o)) (own_shut o) (own_deadline o) (own_log o).
Definition set_shut (s : server) (o : own) : own :=
  mkOwn (own_tracing o) (own_flushed o) (own_db o) (own_pool o) (own_kept o) (own_migrated o)
    (own_started o) (set s true (own_shut o)) (own_deadline o) (own_log o).
Definition set_deadline (o : own) : own :=
  mkOwn (own_tracing o) (own_flushed o) (own_db o) (own_pool o) (own_kept o) (own_migrated o)
    (own_started o) (own_shut o) true (own_log o).
Definition add_line (l : string * string) (o : own) : own :=
  mkOwn (own_tracing o) (own_flushed o) (own_db o) (own_pool o) (own_kept o) (own_migrated o)
    (own_started o) (own_shut o) (own_deadline o) (own_log o ++ [l]).

(** A receive from [errCh]. *)
Definition receive (w : world) : option (wakeup * world) :=
  match w_errch w with
  | e :: rest => Some (Received (Some e), set_errch rest (w_errch_closed w) w)
  | [] => if w_errch_closed w then Some (Received None, w) else None
  end.

Definition do_select (d : decision) (w : world) : option (wakeup * world) :=
  if w_ctx w then
    match receive w with
    | Some r => if dec_errch d then Some r else Some (ContextDone, w)
    | None => Some (ContextDone, w)
    end
  else receive w.

(** [None]: the call blocks. *)
Definition sys_exec (d : decision) {X} (op : sysE X) (o : own) (w : world) : option (X * own * world) :=
  match op with
  | Stdouttrace_New | Resource_New _ | Iofs_New | Migrate_NewWithInstance
  | Ping => Some (outcome_of d, o, w)
  | Migratepg_WithInstance => Some (outcome_of d, set_kept (dec_kept d) o, w)
  | SetTracerProvider => Some (tt, set_tracing true (own_flushed o) o, w)
  | TracerShutdown => Some (outcome_of d, set_tracing (own_tracing o) true o, w)
  | Sql_Open _ _ =>
      Some (outcome_of d, match dec_fault d with None => set_db Opened o | Some _ => o end, w)
  | SetMaxOpenConns n =>
      let p := own_pool o in
      Some (tt, set_pool (mkPoolConfig n (MaxIdleConns p) (ConnMaxLifetime p) (ConnMaxIdleTime p)) o, w)
  | SetMaxIdleConns n =>
      let p := own_pool o in
      Some (tt, set_pool (mkPoolConfig (MaxOpenConns p) n (ConnMaxLifetime p) (ConnMaxIdleTime p)) o, w)
  | SetConnMaxLifetime n =>
      let p := own_pool o in
      Some (tt, set_pool (mkPoolConfig (MaxOpenConns p) (MaxIdleConns p) n (ConnMaxIdleTime p)) o, w)
  | SetConnMaxIdleTime n =>
      let p := own_pool o in
      Some (tt, set_pool (mkPoolConfig (MaxOpenConns p) (MaxIdleConns p) (ConnMaxLifetime p) n) o, w)
  | DbClose => Some (tt, set_db Closed o, w)
  | Migrate_Up =>
      Some (outcome_of d, match dec_fault d with
                          | None => set_migrated o
                          | Some e => if same_error e ErrNoChange then set_migrated o else o
                          end, w)
  | GoListen s => Some (tt, set_started s o, set_go s Listening w)
  | Select => r ← do_select d w; Some (r.1, o, r.2)
  | WithTimeout => Some (tt, set_deadline o, w)
  | CloseListener s => Some (tt, set_shut s o, w)
  | AwaitIdle s =>
      match w_inflight w s with
      | O => Some (outcome_of d, o, w)
      | _ => if w_expired w then Some (Err DeadlineExceeded, o, w) else None
      end
  | Slog level msg => Some (tt, add_line (level, msg) o, w)
  end%stdpp.

(** ** Runs *)

Record process (A : Type) : Type := mkProcess {
  ps_main : sys A;
  ps_own : own;
  ps_world : world
}.
Arguments mkProcess {A}.
Arguments ps_main {A}.
Arguments ps_own {A}.
Arguments ps_world {A}.

Inductive action : Type :=
| Main (d : decision)
| Env (ev : event).

Definition act {A} (a : action) (c : process A) : option (process A) :=
  match a with
  | Env ev =>
      match env_step (ps_own c) ev (ps_world c) with
      | Some w => Some (mkProcess (ps_main c) (ps_own c) w)
      | None => None
      end
  | Main d =>
      match ps_main c with
      | Vis op k =>
          match sys_exec d op (ps_own c) (ps_world c) with
          | Some (x, o, w) => Some (mkProcess (k x) o w)
          | None => None
          end
      | _ => None
      end
  end.

Fixpoint acts {A} (l : list action) (c : process A) : option (process A) :=
  match l with
  | [] => Some c
  | a :: rest => match act a c with Some c' => acts rest c' | None => None end
  end.

Lemma acts_app {A} l l' (c : process A) :
  acts (l ++ l') c = match acts l c with Some c' => acts l' c' | None => None end.
Proof. revert c. induction l as [|a l IH]; cbn; intros c; [done|]. by destruct (act a c). Qed.

Definition begin {A} (p : sys A) : process A := mkProcess p own0 world0.

Definition happens {A} (p : sys A) (c : process A) : Prop := exists l, acts l (begin p) = Some c.
