(* ===== verification/LifecycleLogic.v ===== *)
(** * Reasoning about the main goroutine

    [later]: what the goroutines of the listeners and the outside can have done
    since.  [mwp]: the weakest precondition of a program of the main goroutine
    among them, with an invariant [J] that holds at every moment. *)

From S2P Require Import Prelude GoRuntime Strconv GoDuration Handlers Config Net Startup Lifecycle.

(** ** What always holds of the goroutines *)

Record world_ok (o : own) (w : world) : Prop := mkWorldOk {
  ok_unstarted : forall s, own_started o s = false -> w_go w s = NotStarted /\ w_inflight w s = 0%nat;
  ok_closed : forall s e, w_go w s = Stopped e -> errors_Is e ErrServerClosed = true ->
    own_shut o s = true;
  ok_errch : Forall (fun e => errors_Is e ErrServerClosed = false) (w_errch w);
  ok_unsent : match w_go w ApiServer with
              | Sent | Exited => True
              | _ => w_errch w = []
              end;
  ok_open : w_errch_closed w = true -> w_go w ApiServer = Exited;
  ok_expired : w_expired w = true -> own_deadline o = true
}.

Definition rank (g : goroutine) : nat :=
  match g with NotStarted => 0 | Listening => 1 | Stopped _ => 2 | Sent => 3 | Exited => 4 end.

(** The error of the API listener, if it has stopped by itself, is still to be
    received. *)
Definition unread (w : world) : Prop :=
  match w_go w ApiServer with Sent | Exited => w_errch w <> [] | _ => True end.

Record later (o : own) (w w' : world) : Prop := mkLater {
  later_ok : world_ok o w';
  later_ctx : w_ctx w = true -> w_ctx w' = true;
  later_expired : w_expired w = true -> w_expired w' = true;
  later_idle : forall s, own_shut o s = true -> (w_inflight w' s <= w_inflight w s)%nat;
  later_rank : forall s, (rank (w_go w s) <= rank (w_go w' s))%nat;
  later_unread : own_shut o ApiServer = false -> unread w -> unread w'
}.

Lemma later_refl o w : world_ok o w -> later o w w.
Proof. by split. Qed.

#[export] Instance later_trans o : Transitive (later o).
Proof.
  intros w1 w2 w3 [] []. split; auto.
  - intros s Hs. transitivity (w_inflight w2 s); auto.
  - intros s. transitivity (rank (w_go w2 s)); auto.
Qed.

Lemma set_same {B} s (b : B) f : set s b f s = b.
Proof. unfold set. by rewrite decide_True. Qed.

Lemma set_other {B} s s' (b : B) f : s <> s' -> set s b f s' = f s'.
Proof. intros. unfold set. by rewrite decide_False. Qed.

(** Case analysis on whether a component is the one that was set. *)
Ltac by_server :=
  repeat match goal with
  | H : context [set ?s ?b ?f ?s'] |- _ =>
      destruct (decide (s = s')) as [?|?];
      [subst; rewrite ?set_same in *|rewrite ?(set_other s s') in * by done]
  | |- context [set ?s ?b ?f ?s'] =>
      destruct (decide (s = s')) as [?|?];
      [subst; rewrite ?set_same in *|rewrite ?(set_other s s') in * by done]
  end.

Section env.
Context (o : own).

(** A listener's goroutine moves on, and the channel with it. *)
Lemma go_later s g l c w :
  world_ok o w -> w_go w s <> NotStarted -> (rank (w_go w s) <= rank g)%nat ->
  (forall e, g = Stopped e -> errors_Is e ErrServerClosed = true -> own_shut o s = true) ->
  Forall (fun e => errors_Is e ErrServerClosed = false) l ->
  match set s g (w_go w) ApiServer with Sent | Exited => True | _ => l = [] end ->
  (c = true -> set s g (w_go w) ApiServer = Exited) ->
  (own_shut o ApiServer = false -> unread w -> unread (set_go s g (set_errch l c w))) ->
  later o w (set_go s g (set_errch l c w)).
Proof.
  intros [H1 H2 H3 H4 H5 H6] Hs Hr Hg Hl Hch Hc Hun. split; [|done|done|done| |done].
  - split; cbn [set_go set_errch w_ctx w_expired w_go w_inflight w_errch w_errch_closed]; try done.
    + intros s' Hs'. destruct (H1 s' Hs') as [Hn Hi]. split; [|done].
      rewrite set_other; [done|]. by intros ->.
    + intros s' e. clear Hch Hc Hun. by_server; eauto.
  - intros s'. cbn [set_go set_errch w_go]. clear Hch Hc Hun. by_server; [lia|done].
Qed.

Lemma inflight_later s n w :
  world_ok o w -> (own_shut o s = true -> (n <= w_inflight w s)%nat) -> own_started o s = true ->
  later o w (set_inflight s n w).
Proof.
  intros [H1 H2 H3 H4 H5 H6] Hn Hs. split; try done.
  - split; try done. intros s' Hs'. destruct (H1 s' Hs') as [Hg Hi]. split; [done|].
    cbn [set_inflight w_inflight]. rewrite set_other; [done|]. intros ->. congruence.
  - intros s' Hs'. cbn [set_inflight w_inflight]. by_server; [auto|done].
Qed.

(** The rest of a listener's goroutine. *)
Lemma goroutine_later s w w' :
  world_ok o w -> goroutine_step s w = Some w' -> later o w w'.
Proof.
  intros Hok. pose proof Hok as [H1 H2 H3 H4 H5 H6]. unfold goroutine_step.
  destruct s; [destruct (w_go w ApiServer) as [| |e| |] eqn:Eg; try done|].
  - destruct (errors_Is e ErrServerClosed) eqn:Ee.
    + intros [= <-]. pose proof (H2 ApiServer e Eg Ee) as Hshut.
      apply (go_later ApiServer Sent (w_errch w) (w_errch_closed w)); rewrite ?Eg, ?set_same;
        try done; [simpl; lia|intros Hc; by specialize (H5 Hc)|congruence].
    + destruct (w_errch w) eqn:Ech; [|done]. intros [= <-].
      apply (go_later ApiServer Sent [e] (w_errch_closed w)); rewrite ?Eg, ?set_same; try done;
        [simpl; lia|by apply Forall_singleton|intros Hc; by specialize (H5 Hc)].
  - intros [= <-]. apply (go_later ApiServer Exited (w_errch w) true);
      rewrite ?Eg, ?set_same; try done; [simpl; lia|].
    intros _. unfold unread. cbn [set_go set_errch w_go w_errch]. by rewrite set_same, Eg.
  - intros E.
    assert (exists g, w' = set_go DebugServer g w /\ w_go w DebugServer <> NotStarted /\
      (rank (w_go w DebugServer) <= rank g)%nat /\ forall e, g <> Stopped e) as (g & -> & Hn & Hr & Hg).
    { destruct (w_go w DebugServer) eqn:Eg; try done; injection E as <-; eexists; split_and!; try done;
        simpl; lia. }
    apply (go_later DebugServer g (w_errch w) (w_errch_closed w)); try done.
    intros e ->. by destruct (Hg e).
Qed.

Lemma stops_later s e w :
  world_ok o w -> w_go w s = Listening ->
  (errors_Is e ErrServerClosed = true -> own_shut o s = true) ->
  later o w (set_go s (Stopped e) w).
Proof.
  intros Hok Eg He. pose proof Hok as [H1 H2 H3 H4 H5 H6].
  apply (go_later s (Stopped e) (w_errch w) (w_errch_closed w)); rewrite ?Eg; try done.
  - simpl. lia.
  - by intros e' [= <-].
  - by_server; [by rewrite Eg in H4|done].
  - intros Hc. specialize (H5 Hc). by_server; congruence.
  - intros _. unfold unread. cbn [set_go set_errch w_go w_errch]. by_server; done.
Qed.

Lemma env_later ev w w' : world_ok o w -> env_step o ev w = Some w' -> later o w w'.
Proof.
  intros Hok. pose proof Hok as [H1 H2 H3 H4 H5 H6]. destruct ev as [| |s e|s|s|s|s]; cbn [env_step].
  - intros [= <-]. by split; [split|..].
  - destruct (own_deadline o) eqn:Hd; [|done]. intros [= <-]. by split; [split|..].
  - destruct (w_go w s) eqn:Eg; try done. destruct (errors_Is e ErrServerClosed) eqn:Ee; [done|].
    intros [= <-]. apply (stops_later s e w); [done..|congruence].
  - destruct (w_go w s) eqn:Eg; try done. destruct (own_shut o s) eqn:Hs; [|done].
    intros [= <-]. by apply stops_later.
  - unfold accepting. destruct (w_go w s) eqn:Eg; try done.
    destruct (own_shut o s) eqn:Hs; [done|]. intros [= <-].
    apply inflight_later; [done|congruence|].
    destruct (own_started o s) eqn:Hst; [done|]. destruct (H1 s Hst). congruence.
  - destruct (w_inflight w s) as [|n] eqn:En; [done|]. intros [= <-].
    apply inflight_later; [done|lia|].
    destruct (own_started o s) eqn:Hst; [done|]. destruct (H1 s Hst). lia.
  - by apply goroutine_later.
Qed.
End env.

(** ** The weakest precondition *)

Section mwp.
Variable J : own -> world -> Prop.

(** The wait of a shutdown has a deadline, and the admin listener is waited for
    before the API listener is shut. *)
Definition allowed {X} (op : sysE X) (o : own) : Prop :=
  match op with
  | AwaitIdle s => own_deadline o = true /\ (s = DebugServer -> own_shut o ApiServer = false)
  | _ => True
  end.

Fixpoint mwp {A} (p : sys A) (o : own) (w : world) (Q : A -> own -> world -> Prop) : Prop :=
  match p with
  | Ret a => forall w', later o w w' -> J o w' /\ Q a o w'
  | Panic _ => False
  | Vis op k => forall w', later o w w' -> J o w' /\ allowed op o /\
      forall d x o' w'', sys_exec d op o w' = Some (x, o', w'') ->
        world_ok o' w'' /\ mwp (k x) o' w'' Q
  end.

Lemma mwp_later {A} (p : sys A) o w w' Q : mwp p o w Q -> later o w w' -> mwp p o w' Q.
Proof. destruct p; simpl; intros H HL; [|done|]; intros w'' HL'; apply H; by etrans. Qed.

Lemma mwp_mono {A} (p : sys A) o w (Q Q' : A -> own -> world -> Prop) :
  mwp p o w Q -> (forall a o w, Q a o w -> Q' a o w) -> mwp p o w Q'.
Proof.
  intros H HQ. revert o w H. induction p as [a|v|X op k IH]; simpl; intros o w H; [|done|].
  - intros w' HL. destruct (H w' HL). auto.
  - intros w' HL. destruct (H w' HL) as (HJ & Ha & Hk). split_and!; [done..|].
    intros d x o' w'' E. destruct (Hk d x o' w'' E). auto.
Qed.

(** A postcondition holds from the end of the program on. *)
Lemma mwp_close {A} (p : sys A) o w (Q : A -> own -> world -> Prop) :
  mwp p o w Q -> mwp p o w (fun a o w => forall w', later o w w' -> J o w' /\ Q a o w').
Proof.
  revert o w. induction p as [a|v|X op k IH]; simpl; intros o w H; [|done|].
  - intros w' HL. split; [by apply H|]. intros w'' HL'. apply H. by etrans.
  - intros w' HL. destruct (H w' HL) as (HJ & Ha & Hk). split_and!; [done..|].
    intros d x o' w'' E. destruct (Hk d x o' w'' E). auto.
Qed.

Lemma mwp_bind {A B} (f : A -> sys B) (p : sys A) o w Q :
  mwp p o w (fun a o' w' => mwp (f a) o' w' Q) -> world_ok o w -> mwp (proc_bind f p) o w Q.
Proof.
  revert o w. induction p as [a|v|X op k IH]; simpl; intros o w H Hok; [|done|].
  - by apply (H w (later_refl o w Hok)).
  - intros w' HL. destruct (H w' HL) as (HJ & Ha & Hk). split_and!; [done..|].
    intros d x o' w'' E. destruct (Hk d x o' w'' E). auto.
Qed.

Lemma mwp_defer {A B} (f : sys B) (p : sys A) o w (Q : A -> own -> world -> Prop) :
  mwp p o w (fun a o' w' => mwp f o' w' (fun _ o'' w'' => Q a o'' w'')) -> world_ok o w ->
  mwp (defer f p) o w Q.
Proof.
  unfold defer. revert o w. induction p as [a|v|X op k IH]; simpl; intros o w H Hok; [|done|].
  - apply mwp_bind; [|done].
    eapply mwp_mono; [exact (mwp_close _ _ _ _ (proj2 (H w (later_refl o w Hok))))|].
    intros b o' w' HQ. exact HQ.
  - intros w' HL. destruct (H w' HL) as (HJ & Ha & Hk). split_and!; [done..|].
    intros d x o' w'' E. destruct (Hk d x o' w'' E). auto.
Qed.

Lemma mwp_perform {X} (op : sysE X) o w (Q : X -> own -> world -> Prop) :
  (forall w', later o w w' -> J o w' /\ allowed op o /\
     forall d x o' w'', sys_exec d op o w' = Some (x, o', w'') ->
       world_ok o' w'' /\ forall w3, later o' w'' w3 -> J o' w3 /\ Q x o' w3) ->
  mwp (perform op) o w Q.
Proof. exact id. Qed.

(** ** Every reachable state *)

Lemma mwp_act {A} (Q : A -> own -> world -> Prop) a c c' :
  world_ok (ps_own c) (ps_world c) -> mwp (ps_main c) (ps_own c) (ps_world c) Q ->
  act a c = Some c' ->
  world_ok (ps_own c') (ps_world c') /\ mwp (ps_main c') (ps_own c') (ps_world c') Q.
Proof.
  intros Hok H. destruct a as [d|ev]; cbn [act].
  - destruct (ps_main c) as [a|v|X op k]; try done.
    destruct (H _ (later_refl _ _ Hok)) as (_ & _ & Hk).
    destruct (sys_exec d op _ _) as [[[x o] w]|] eqn:E; [|done]. intros [= <-]. by apply (Hk d).
  - destruct (env_step _ ev _) as [w|] eqn:E; [|done]. intros [= <-]. cbn [ps_main ps_own ps_world].
    pose proof (env_later _ _ _ _ Hok E) as HL. split; [apply HL|]. by eapply mwp_later.
Qed.

Lemma mwp_acts {A} (Q : A -> own -> world -> Prop) l c c' :
  world_ok (ps_own c) (ps_world c) -> mwp (ps_main c) (ps_own c) (ps_world c) Q ->
  acts l c = Some c' ->
  world_ok (ps_own c') (ps_world c') /\ mwp (ps_main c') (ps_own c') (ps_world c') Q.
Proof.
  revert c. induction l as [|a l IH]; cbn [acts]; intros c Hok H; [by intros [= <-]|].
  destruct (act a c) as [c1|] eqn:E; [|done]. destruct (mwp_act Q a c c1 Hok H E). by apply IH.
Qed.

Lemma world0_ok : world_ok own0 world0.
Proof. by split. Qed.

Lemma mwp_happens {A} (p : sys A) (Q : A -> own -> world -> Prop) c :
  mwp p own0 world0 Q -> happens p c ->
  world_ok (ps_own c) (ps_world c) /\ mwp (ps_main c) (ps_own c) (ps_world c) Q.
Proof. intros H [l Hl]. eapply mwp_acts; [| |exact Hl]; [exact world0_ok|exact H]. Qed.

Lemma mwp_holds {A} (p : sys A) o w (Q : A -> own -> world -> Prop) :
  world_ok o w -> mwp p o w Q ->
  match p with Ret a => J o w /\ Q a o w | Panic _ => False | Vis op k => J o w /\ allowed op o end.
Proof.
  intros Hok H. pose proof (later_refl o w Hok) as HL. destruct p; simpl in H; [by apply H|done|].
  destruct (H w HL) as (? & ? & _). done.
Qed.

Lemma mwp_invariant {A} (p : sys A) o w (Q : A -> own -> world -> Prop) :
  world_ok o w -> mwp p o w Q -> J o w.
Proof. intros Hok H. apply mwp_holds in H; [|done]. destruct p; [apply H|done|apply H]. Qed.
End mwp.
