(* ===== verification/LifecycleCorrect.v ===== *)
(** * Starting and stopping, proved

    [mwp] for each function of the start and for [run]: the invariant
    [service_ok] at every moment, the classified outcome at the end. *)

From S2P Require Import Prelude GoRuntime Strconv GoDuration Handlers Config Net Startup.
From S2P Require Import Lifecycle LifecycleLogic.
#[local] Open Scope go_scope.

(** ** The invariant *)

Definition warned (o : own) : Prop := ("WARN"%string, exposed_warning) ∈ own_log o.

(** The admin listener runs only when asked for, and not exposed silently. *)
Definition debug_ok (cfg : Config) (o : own) : Prop :=
  own_started o DebugServer = true ->
  debug_enabled cfg = true /\ (isLoopbackAddr (DebugAddr cfg) = true \/ warned o).

Lemma warned_line l o : warned o -> warned (add_line l o).
Proof. unfold warned. cbn [add_line own_log]. set_solver. Qed.

Lemma debug_ok_line cfg l o : debug_ok cfg o -> debug_ok cfg (add_line l o).
Proof.
  intros H Hs. destruct (H Hs) as [H1 [H2|H2]]; split; auto. right. by apply warned_line.
Qed.

Record service_ok (cfg : Config) (o : own) (w : world) : Prop := mkServiceOk {
  (** Connections are taken only when the database is there: open, migrated,
      with the pool as configured. *)
  svc_accepting : accepting o w ApiServer = true ->
    own_db o = Opened /\ own_migrated o = true /\ own_pool o = pool_of cfg;
  (** A request outlives the database only when the drain ran out of time, or
      the listener had failed: it returned though nobody had shut it down. *)
  svc_inflight : (0 < w_inflight w ApiServer)%nat ->
    own_db o = Opened \/ w_expired w = true \/
    (own_shut o ApiServer = false /\ (3 <= rank (w_go w ApiServer))%nat);
  svc_debug : debug_ok cfg o
}.

(** How [run] can end. *)
Definition outcome_ok (cfg : Config) (r : option error) (o : own) (w : world) : Prop :=
  match r with
  | None => w_ctx w = true /\ own_shut o ApiServer = true /\
      (debug_enabled cfg = true -> own_shut o DebugServer = true) /\
      w_inflight w ApiServer = 0%nat /\ own_migrated o = true
  | Some e =>
      (own_started o ApiServer = false /\ own_started o DebugServer = false) \/
      (own_shut o ApiServer = false /\ own_shut o DebugServer = false /\
       errors_Is e ErrServerClosed = false /\ (3 <= rank (w_go w ApiServer))%nat) \/
      (w_ctx w = true /\ own_shut o ApiServer = true /\
       (e = DeadlineExceeded /\ w_expired w = true \/ w_inflight w ApiServer = 0%nat))
  end.

(** The parts of [own] that [service_ok] and the goroutines look at. *)
Record same_control (o o' : own) : Prop := mkSameControl {
  same_started : own_started o' = own_started o;
  same_shut : own_shut o' = own_shut o;
  same_deadline : own_deadline o = true -> own_deadline o' = true
}.

Lemma same_control_ok o o' w : same_control o o' -> world_ok o w -> world_ok o' w.
Proof. intros [H1 H2 H3] []. split; rewrite ?H1, ?H2; auto. Qed.

Section run.
Context (cfg : Config) (Hcfg : valid_config cfg).
Abbreviation J := (service_ok cfg).
Abbreviation mwp := (mwp J).

Lemma rank_listening g : (3 <= rank g)%nat -> g <> Listening.
Proof. intros H ->. simpl in H. lia. Qed.

Lemma outcome_later r o w w' : outcome_ok cfg r o w -> later o w w' -> outcome_ok cfg r o w'.
Proof.
  intros H HL. destruct r as [e|]; cbn [outcome_ok] in *.
  - destruct H as [H | [(H1 & H2 & H3 & H4) | (H1 & H2 & H3)]]; [by left|right; left|right; right].
    + pose proof (later_rank _ _ _ HL ApiServer). split_and!; [done..|lia].
    + pose proof (later_idle _ _ _ HL ApiServer H2). split_and!; [by eapply later_ctx|done|].
      destruct H3 as [[H3 H4]|H3]; [left|right; lia]. split; [done|by eapply later_expired].
  - destruct H as (H1 & H2 & H3 & H4 & H5). pose proof (later_idle _ _ _ HL ApiServer H2).
    split_and!; [by eapply later_ctx|done|done|lia|done].
Qed.

Lemma outcome_same r o o' w :
  same_control o o' -> own_migrated o' = own_migrated o ->
  outcome_ok cfg r o w -> outcome_ok cfg r o' w.
Proof. intros [H1 H2 H3] H4. unfold outcome_ok. by rewrite H1, H2, H4. Qed.

(** Once [run] is about to end, [service_ok] does not depend on the database. *)
Lemma outcome_service r o w :
  world_ok o w -> outcome_ok cfg r o w -> debug_ok cfg o -> J o w.
Proof.
  intros Hok H Hd. unfold accepting in *. split; [| |done].
  - intros Ha. exfalso. unfold accepting in Ha. destruct (w_go w ApiServer) eqn:Eg; try done.
    apply negb_true_iff in Ha. destruct r as [e|]; cbn [outcome_ok] in H.
    + destruct H as [[Hs _] | [(_ & _ & _ & Hr) | (_ & Hs & _)]]; [| |congruence].
      * destruct (ok_unstarted _ _ Hok ApiServer Hs). congruence.
      * rewrite Eg in Hr. simpl in Hr. lia.
    + destruct H as (_ & Hs & _). congruence.
  - intros Hi. destruct r as [e|]; cbn [outcome_ok] in H.
    + destruct H as [[Hs _] | [(Hs & _ & _ & Hr) | (_ & _ & [[_ He]|H0])]]; [|auto..|lia].
      destruct (ok_unstarted _ _ Hok ApiServer Hs). lia.
    + destruct H as (_ & _ & _ & H0 & _). lia.
Qed.

(** ** Before the listeners *)

Record quiet (o : own) : Prop := mkQuiet {
  quiet_started : forall s, own_started o s = false;
  quiet_shut : forall s, own_shut o s = false
}.

Lemma quiet_service o w : quiet o -> world_ok o w -> J o w.
Proof.
  intros [H1 H2] Hok. destruct (ok_unstarted _ _ Hok _ (H1 ApiServer)) as [Hg Hi]. split.
  - unfold accepting. by rewrite Hg.
  - lia.
  - intros Hs. by rewrite H1 in Hs.
Qed.

Lemma quiet_same o o' : same_control o o' -> quiet o -> quiet o'.
Proof. intros [E1 E2 _] [H1 H2]. split; intros s; [by rewrite E1|by rewrite E2]. Qed.

Lemma quiet_outcome e o w : quiet o -> outcome_ok cfg (Some e) o w.
Proof. intros [H _]. by left. Qed.

(** An operation that touches neither the listeners nor the world. *)
Definition plain {X} (op : sysE X) : Prop :=
  match op with
  | GoListen _ | Select | CloseListener _ | AwaitIdle _ => False
  | _ => True
  end.

Lemma plain_exec {X} (op : sysE X) d o :
  plain op -> exists x o', same_control o o' /\ forall w, sys_exec d op o w = Some (x, o', w).
Proof.
  destruct op; intros Hp; try (by destruct Hp); eexists _, _; (split; [|intros w; reflexivity]);
    split; try done; by repeat case_match.
Qed.

Lemma plain_allowed {X} (op : sysE X) o : plain op -> allowed op o.
Proof. by destruct op. Qed.

(** Such an operation before the listeners are started. *)
Lemma mwp_quiet {X A} (op : sysE X) (k : X -> sys A) o w Q :
  plain op -> quiet o -> world_ok o w ->
  (forall d w', match sys_exec d op o w' with
                | Some (x, o', _) => quiet o' -> world_ok o' w' -> mwp (k x) o' w' Q
                | None => True
                end) ->
  mwp (Vis op k) o w Q.
Proof.
  intros Hp Hq Hok Hk w' HL. split; [by apply quiet_service, HL|]. split; [by apply plain_allowed|].
  intros d x o' w'' E. specialize (Hk d w').
  destruct (plain_exec op d o Hp) as (x1 & o1 & Hs & Hx). rewrite Hx in E, Hk. simplify_eq.
  pose proof (same_control_ok _ _ _ Hs (later_ok _ _ _ HL)) as Hok'. split; [done|].
  apply Hk; [by eapply quiet_same|done].
Qed.

Lemma mwp_quiet_ret {A} (a : A) o w (Q : A -> own -> world -> Prop) :
  quiet o -> (forall w', world_ok o w' -> Q a o w') -> mwp (Ret a) o w Q.
Proof. intros Hq HQ w' HL. split; [by apply quiet_service, HL|]. apply HQ, HL. Qed.

(** A check that returns early. *)
Lemma mwp_check {A} pre (op : sysE (result unit)) (k : sys (result A)) o w
    (Q : result A -> own -> world -> Prop) :
  plain op -> quiet o -> world_ok o w ->
  (forall d w', match sys_exec d op o w' with
                | Some (Ok _, o', _) => quiet o' -> world_ok o' w' -> mwp k o' w' Q
                | Some (Err e, o', _) => quiet o' -> world_ok o' w' -> Q (Err (ErrWrap pre e)) o' w'
                | None => True
                end) ->
  mwp (check pre op k) o w Q.
Proof.
  intros Hp Hq Hok Hk. unfold check, perform. cbn [proc_bind]. apply mwp_quiet; [done..|].
  intros d w'. pose proof (Hk d) as Hd. destruct (plain_exec op d o Hp) as (x & o' & _ & Hx).
  rewrite Hx. destruct x as [u|e].
  - specialize (Hd w'). by rewrite Hx in Hd.
  - intros Hq' _. apply mwp_quiet_ret; [done|]. intros w3. specialize (Hd w3). rewrite Hx in Hd. auto.
Qed.

(** ** The functions of the start *)

(** What the start has done so far. *)
Record started (db : database) (pool : PoolConfig) (tracing : bool) (o : own) : Prop := mkStarted {
  st_quiet : quiet o;
  st_db : own_db o = db;
  st_pool : own_pool o = pool;
  st_tracing : own_tracing o = tracing;
  st_flushed : own_flushed o = false
}.

(** Next operation, its answer in hand. *)
Ltac op_step := apply mwp_quiet; [done..|]; intros ? ?; cbn [sys_exec]; intros ? ?.

Ltac check_step :=
  apply mwp_check; [done..|]; let d := fresh "d" in intros d ?; cbn [sys_exec];
  unfold outcome_of; destruct (dec_fault d); intros ? ?.

Lemma mwp_Setup db pool o w :
  started db pool false o -> world_ok o w ->
  mwp Setup o w (fun r o' w' => world_ok o' w' /\ started db pool (good r) o').
Proof.
  intros [Hq Hd Hp Ht Hf] Hok. unfold Setup.
  check_step; [done|]. check_step; [done|]. op_step. op_step. by apply mwp_quiet_ret.
Qed.

Lemma mwp_set_if n (op : Z -> sysE unit) (k : unit -> sys (result unit)) o w Q :
  0 < n -> plain (op n) -> quiet o -> world_ok o w ->
  (forall d w', match sys_exec d (op n) o w' with
                | Some (x, o', _) => quiet o' -> world_ok o' w' -> mwp (k x) o' w' Q
                | None => True
                end) ->
  mwp (proc_bind k (set_if n op)) o w Q.
Proof.
  intros Hn Hp Hq Hok Hk. unfold set_if. rewrite decide_True by done. by apply mwp_quiet.
Qed.

Lemma mwp_OpenWithPool dsn o w :
  started NotOpened (mkPoolConfig 0 0 0 0) true o -> world_ok o w ->
  mwp (OpenWithPool dsn (pool_of cfg)) o w (fun r o' w' => world_ok o' w' /\
    match r with
    | Ok _ => started Opened (pool_of cfg) true o'
    | Err _ => quiet o' /\ own_db o' <> Opened /\ own_tracing o' = true /\ own_flushed o' = false
    end).
Proof using Hcfg.
  intros [Hq Hd Hp Ht Hf] Hok. destruct Hcfg as [_ _ H1 H2 H3 H4]. unfold OpenWithPool.
  check_step; [split_and!; [done..|by rewrite Hd|done|done]|].
  do 4 (apply mwp_set_if; [cbn; lia|done..|]; intros ? ?; cbn [sys_exec]; intros ? ?).
  apply mwp_quiet; [done..|]. intros d' ?. cbn [sys_exec]. unfold outcome_of. intros ? ?.
  destruct (dec_fault d').
  - op_step. by apply mwp_quiet_ret.
  - by apply mwp_quiet_ret.
Qed.

Lemma mwp_Migrate o w :
  started Opened (pool_of cfg) true o -> world_ok o w ->
  mwp Migrate o w (fun r o' w' => world_ok o' w' /\ started Opened (pool_of cfg) true o' /\
    (good r = true -> own_migrated o' = true)).
Proof.
  intros [Hq Hd Hp Ht Hf] Hok. unfold Migrate.
  check_step; [done|]. check_step; [done|]. check_step; [done|].
  apply mwp_quiet; [done..|]. intros d' ?. cbn [sys_exec]. unfold outcome_of.
  destruct (dec_fault d') as [e|]; intros ? ?; [|by apply mwp_quiet_ret].
  destruct (same_error e ErrNoChange); by apply mwp_quiet_ret.
Qed.

(** ** The listeners *)

(** The database is there; the admin listener is as it should be. *)
Record ready (o : own) : Prop := mkReady {
  rd_db : own_db o = Opened;
  rd_pool : own_pool o = pool_of cfg;
  rd_migrated : own_migrated o = true;
  rd_tracing : own_tracing o = true;
  rd_flushed : own_flushed o = false;
  rd_debug : debug_ok cfg o
}.

Lemma ready_service o w : ready o -> J o w.
Proof. intros []. split; auto. Qed.

Lemma mwp_ready {X A} (op : sysE X) (k : X -> sys A) o w Q :
  ready o -> allowed op o ->
  (forall d w', later o w w' ->
     match sys_exec d op o w' with
     | Some (x, o', w'') => world_ok o' w'' /\ mwp (k x) o' w'' Q
     | None => True
     end) ->
  mwp (Vis op k) o w Q.
Proof.
  intros Hr Ha Hk w' HL. split; [by apply ready_service|]. split; [done|].
  intros d x o' w'' E. specialize (Hk d w' HL). by rewrite E in Hk.
Qed.

Lemma mwp_slog {A} level msg (k : unit -> sys A) o w Q :
  ready o ->
  (forall w', later o w w' -> world_ok (add_line (level, msg) o) w' -> ready (add_line (level, msg) o) ->
    mwp (k tt) (add_line (level, msg) o) w' Q) ->
  mwp (Vis (Slog level msg) k) o w Q.
Proof.
  intros Hr Hk. apply mwp_ready; [done..|]. intros d w' HL. cbn [sys_exec].
  pose proof (same_control_ok o (add_line (level, msg) o) w' ltac:(done) (later_ok _ _ _ HL)).
  split; [done|]. apply Hk; [done..|]. destruct Hr. split; try done. by apply debug_ok_line.
Qed.

(** Starting a listener. *)
Lemma listen_ok s o w :
  world_ok o w -> own_started o s = false -> own_shut o s = false ->
  world_ok (set_started s o) (set_go s Listening w).
Proof.
  intros [H1 H2 H3 H4 H5 H6] Hs Hsh. destruct (H1 s Hs) as [Hg Hi].
  split; cbn [set_started set_go own_started own_shut own_deadline w_ctx w_expired w_go w_inflight
    w_errch w_errch_closed]; try done.
  - intros s' Hs'. by_server; [done|auto].
  - intros s' e Hg'. by_server; [done|eauto].
  - by_server; [by rewrite Hg in H4|done].
  - intros Hc. specialize (H5 Hc). by_server; congruence.
Qed.

Lemma mwp_listen {A} s (k : unit -> sys A) o w Q :
  ready o -> own_started o s = false -> own_shut o s = false ->
  (s = DebugServer -> debug_enabled cfg = true /\ (isLoopbackAddr (DebugAddr cfg) = true \/ warned o)) ->
  (forall w', world_ok (set_started s o) w' -> w_go w' s = Listening -> ready (set_started s o) ->
     mwp (k tt) (set_started s o) w' Q) ->
  mwp (Vis (GoListen s) k) o w Q.
Proof.
  intros Hr Hs Hsh Hd Hk. apply mwp_ready; [done..|]. intros d w' HL. cbn [sys_exec].
  pose proof (listen_ok s o w' (later_ok _ _ _ HL) Hs Hsh) as Hok. split; [done|].
  apply Hk; [done|by apply set_same|]. destruct Hr as [??????]. split; try done.
  intros Hst. cbn [set_started own_started] in Hst. by_server; [by apply Hd|by apply rd_debug0].
Qed.

(** What [select] finds. *)
Definition found (x : wakeup) (w : world) : Prop :=
  match x with
  | ContextDone => w_ctx w = true
  | Received None => False
  | Received (Some e) => errors_Is e ErrServerClosed = false /\ (3 <= rank (w_go w ApiServer))%nat
  end.

Lemma receive_found o w x w' :
  world_ok o w -> unread w -> receive w = Some (x, w') -> world_ok o w' /\ found x w'.
Proof.
  intros [H1 H2 H3 H4 H5 H6] Hu. unfold receive, unread in *.
  destruct (w_errch w) as [|e rest] eqn:Ech.
  - destruct (w_errch_closed w); [|done]. by rewrite H5 in Hu.
  - intros [= <- <-]. apply Forall_cons in H3 as [He Hrest]. split.
    + split; try done. cbn [set_errch w_go w_errch]. by destruct (w_go w ApiServer).
    + split; [done|]. cbn [set_errch w_go]. destruct (w_go w ApiServer); simpl; try done; lia.
Qed.

Lemma select_found d o w x w' :
  world_ok o w -> unread w -> do_select d w = Some (x, w') -> world_ok o w' /\ found x w'.
Proof.
  intros Hok Hu. unfold do_select. destruct (w_ctx w) eqn:Hc; [|by apply receive_found].
  destruct (receive w) as [r|] eqn:Er; [destruct (dec_errch d)|]; intros E; simplify_eq; try done.
  by eapply receive_found.
Qed.

(** ** Graceful shutdown *)

Lemma mwp_Shutdown {A} s (k : result unit -> sys A) o w Q :
  ready o -> own_deadline o = true -> (s = DebugServer -> own_shut o ApiServer = false) ->
  w_ctx w = true ->
  (forall r w', world_ok (set_shut s o) w' -> ready (set_shut s o) -> w_ctx w' = true ->
     match r with
     | Ok _ => w_inflight w' s = 0%nat
     | Err e => e = DeadlineExceeded /\ w_expired w' = true \/ w_inflight w' s = 0%nat
     end -> mwp (k r) (set_shut s o) w' Q) ->
  mwp (proc_bind k (Shutdown s)) o w Q.
Proof.
  intros Hr Hd Hs Hc Hk. unfold Shutdown. cbn [perform proc_bind].
  apply mwp_ready; [done..|]. intros d w1 HL1. cbn [sys_exec].
  pose proof (later_ctx _ _ _ HL1 Hc) as Hc1.
  assert (world_ok (set_shut s o) w1) as Hok1.
  { destruct (later_ok _ _ _ HL1). split; try done. intros s' e Hg He.
    cbn [set_shut own_shut]. by_server; eauto. }
  assert (ready (set_shut s o)) as Hr1 by (by destruct Hr).
  split; [done|]. apply mwp_ready; [done|split; [done|]|].
  { intros ->. cbn [set_shut own_shut]. rewrite set_other by done. by apply Hs. }
  intros d' w2 HL2. cbn [sys_exec]. pose proof (later_ok _ _ _ HL2) as Hok2. pose proof (later_ctx _ _ _ HL2 Hc1) as Hc2.
  destruct (w_inflight w2 s) eqn:Ei; [|destruct (w_expired w2) eqn:Ee; [|done]];
    (split; [done|]); apply Hk; try done; [by unfold outcome_of; destruct (dec_fault d'); [right|]|by left].
Qed.

(** The end of a program that has left the listeners in order. *)
Lemma mwp_ready_ret r o w Q :
  ready o -> outcome_ok cfg r o w ->
  (forall w', world_ok o w' -> outcome_ok cfg r o w' -> Q r o w') ->
  mwp (Ret r) o w Q.
Proof.
  intros Hr Ho HQ w' HL. split; [by apply ready_service|]. apply HQ; [apply HL|].
  by eapply outcome_later.
Qed.

(** Step 6: both listeners, on one deadline. *)
Definition drain_api : sys (option error) :=
  r ← Shutdown ApiServer;
  Ret (match r with Ok _ => None | Err err => Some err end).

Definition ended (r : option error) (o : own) (w : world) : Prop :=
  world_ok o w /\ outcome_ok cfg r o w /\ ready o.

Lemma mwp_drain_api o w :
  ready o -> own_deadline o = true -> w_ctx w = true ->
  (debug_enabled cfg = true -> own_shut o DebugServer = true) ->
  mwp drain_api o w ended.
Proof.
  intros Hr Hd Hc Hdb. apply mwp_Shutdown; [done..|]. intros r w' Hok' Hr' Hc' Hx.
  apply mwp_ready_ret; [done| |by intros w'' Hok'' Ho]. destruct r as [u|e]; cbn [outcome_ok].
  - split_and!; [done|by apply set_same| |done|by apply rd_migrated].
    intros Hde. cbn [set_shut own_shut]. rewrite set_other; [by apply Hdb|done].
  - right; right. split_and!; [done|by apply set_same|done].
Qed.

Lemma mwp_drain o w :
  ready o -> own_deadline o = true -> own_shut o ApiServer = false -> w_ctx w = true ->
  mwp (_ ← (if debug_enabled cfg then r ← Shutdown DebugServer; Ret tt else Ret tt); drain_api)
    o w ended.
Proof.
  intros Hr Hd Hs Hc. destruct (debug_enabled cfg) eqn:Ede.
  - apply (mwp_Shutdown DebugServer (fun _ => drain_api)); [done..|].
    intros r w' Hok' Hr' Hc' _. apply mwp_drain_api; [done..|]. intros _. by apply set_same.
  - apply mwp_drain_api; [done..|congruence].
Qed.

Lemma mwp_serve o w :
  ready o -> own_started o ApiServer = false -> (forall s, own_shut o s = false) ->
  mwp (serve_until_stopped cfg) o w ended.
Proof.
  intros Hr Hs Hsh. unfold serve_until_stopped. cbn [perform proc_bind].
  apply mwp_listen; [done..|]. clear Hr. intros w1 Hok1 Hg Hr.
  assert (unread w1) as Hu by (unfold unread; by rewrite Hg).
  apply mwp_ready; [done..|]. intros d w2 HL. cbn [sys_exec].
  pose proof (later_unread _ _ _ HL (Hsh ApiServer) Hu) as Hu2.
  destruct (do_select d w2) as [[x w3]|] eqn:Es; [|done].
  destruct (select_found _ _ _ _ _ (later_ok _ _ _ HL) Hu2 Es) as [Hok3 Hx]. split; [done|].
  destruct x as [|[e|]]; cbn [found fst snd] in Hx |- *; [|destruct Hx as [He Hrk]|done].
  - apply mwp_slog; [done|]. intros w4 HL4 Hok4 Hr4.
    apply mwp_ready; [done..|]. intros d5 w5 HL5. cbn [sys_exec].
    split; [by eapply same_control_ok; [|exact (later_ok _ _ _ HL5)]|].
    apply mwp_drain; [by destruct Hr4|done|apply Hsh|].
    eapply later_ctx; [exact HL5|]. by eapply later_ctx.
  - apply mwp_ready_ret; [done| |by intros w'' Hok'' Ho]. right; left.
    split_and!; [apply Hsh|apply Hsh|done|done].
Qed.

Lemma mwp_start_debug {A} (k : unit -> sys A) o w Q :
  ready o -> quiet o -> world_ok o w ->
  (forall o' w', world_ok o' w' -> ready o' -> own_started o' ApiServer = false ->
     (forall s, own_shut o' s = false) -> mwp (k tt) o' w' Q) ->
  mwp (proc_bind k (start_debug cfg)) o w Q.
Proof.
  intros Hr [Hs Hsh] Hok Hk. unfold start_debug.
  destruct (debug_enabled cfg) eqn:Ede; [|by apply Hk].
  destruct (isLoopbackAddr (DebugAddr cfg)) eqn:El; cbn [negb perform proc_bind].
  - apply mwp_listen; [done..|by split; [|left]|].
    intros w' Hok' _ Hr'. apply Hk; [done|done| |done].
    cbn [set_started own_started]. by rewrite set_other.
  - apply mwp_slog; [done|]. intros w1 HL Hok1 Hr1.
    apply mwp_listen; [done|apply Hs|apply Hsh| |].
    + intros _. split; [done|right]. unfold warned. cbn [add_line own_log]. set_solver.
    + intros w' Hok' _ Hr'. apply Hk; [done|done| |done].
      cbn [set_started own_started]. rewrite set_other; [apply Hs|done].
Qed.

(** ** The whole of [run] *)

(** At the end: the resources are given back. *)
Definition released (r : option error) (o : own) (w : world) : Prop :=
  outcome_ok cfg r o w /\ own_db o <> Opened /\ own_flushed o = own_tracing o.

(** What the deferred calls find and leave. *)
Record returning (r : option error) (o : own) (w : world) : Prop := mkReturning {
  rt_ok : world_ok o w;
  rt_outcome : outcome_ok cfg r o w;
  rt_debug : debug_ok cfg o
}.

Lemma returning_later r o w w' : returning r o w -> later o w w' -> returning r o w' /\ J o w'.
Proof.
  intros [H1 H2 H3] HL. pose proof (later_ok _ _ _ HL). pose proof (outcome_later _ _ _ _ H2 HL).
  split; [done|by eapply outcome_service].
Qed.

Lemma mwp_returning {X A} (op : sysE X) (k : X -> sys A) r o w (Q : A -> own -> world -> Prop) :
  plain op -> returning r o w ->
  (forall d w', match sys_exec d op o w' with
                | Some (x, o', _) => own_migrated o' = own_migrated o /\ (warned o -> warned o') /\
                    (returning r o' w' -> mwp (k x) o' w' Q)
                | None => True
                end) ->
  mwp (Vis op k) o w Q.
Proof.
  intros Hp Hrt Hk w' HL.
  destruct (returning_later _ _ _ _ Hrt HL) as [[H1 H2 H3] HJ]. split; [done|].
  split; [by apply plain_allowed|].
  intros d x o' w'' E. destruct (plain_exec op d o Hp) as (x1 & o1 & Hs & Hx).
  specialize (Hk d w'). rewrite Hx in E, Hk. simplify_eq. destruct Hk as (Hm & Hl & HQ).
  pose proof (same_control_ok _ _ _ Hs H1) as Hok1. split; [done|]. apply HQ.
  split; [done|by eapply outcome_same|]. intros Hd. rewrite (same_started _ _ Hs) in Hd.
  destruct (H3 Hd) as [H4 [H5|H5]]; auto.
Qed.

Lemma mwp_returning_ret {A} (a : A) r o w (Q : A -> own -> world -> Prop) :
  returning r o w -> (forall w', returning r o w' -> Q a o w') -> mwp (Ret a) o w Q.
Proof. intros Hrt HQ w' HL. destruct (returning_later _ _ _ _ Hrt HL). auto. Qed.

Lemma quiet_returning e o w : quiet o -> world_ok o w -> returning (Some e) o w.
Proof.
  intros Hq Hok. split; [done|by apply quiet_outcome|]. destruct Hq as [Hs _]. intros Hd.
  by rewrite Hs in Hd.
Qed.

Lemma ended_returning r o w : ended r o w -> returning r o w.
Proof. intros (H1 & H2 & H3). split; [done|done|apply H3]. Qed.

Lemma mwp_run w :
  world_ok own0 w -> mwp (run cfg) own0 w (fun r o' w' => returning r o' w' /\ released r o' w').
Proof using Hcfg.
  intros Hok. unfold run. apply mwp_bind; [|done].
  eapply mwp_mono; [apply (mwp_Setup NotOpened (mkPoolConfig 0 0 0 0)); done|].
  intros [u|e] o1 w1 [Hok1 Hst1]; [|].
  2: { destruct Hst1 as [Hq1 Hd1 _ Ht1 Hf1]. apply mwp_quiet_ret; [done|]. intros w' Hok'.
       split; [by apply quiet_returning|]. split_and!; [by apply quiet_outcome|by rewrite Hd1|by rewrite Hf1, Ht1]. }
  apply mwp_defer; [|done].
  assert (forall r o w, returning r o w -> own_db o <> Opened -> own_tracing o = true ->
    mwp (perform TracerShutdown) o w (fun _ o' w' => returning r o' w' /\ released r o' w')) as Hflush.
  { intros r o w2 Hrt Hdb Ht. apply (mwp_returning _ _ r); [done..|]. intros d w3. cbn [sys_exec].
    split_and!; [done..|]. intros Hrt3. apply (mwp_returning_ret _ r); [done|]. intros w4 Hrt4. split; [done|]. by split; [apply Hrt4|]. }
  apply mwp_bind; [|done]. eapply mwp_mono; [by apply mwp_OpenWithPool|].
  intros [u2|e] o2 w2 [Hok2 H2]; cbv beta iota in H2.
  2: { destruct H2 as (Hq & Hdb & Ht & Hf). apply mwp_quiet_ret; [done|]. intros w' Hok'.
       by apply Hflush; [apply quiet_returning|..]. }
  apply mwp_defer; [|done].
  assert (forall r o w, returning r o w -> own_tracing o = true ->
    mwp (perform DbClose) o w (fun _ o' w' => mwp (perform TracerShutdown) o' w'
      (fun _ o'' w'' => returning r o'' w'' /\ released r o'' w''))) as Hclose.
  { intros r o w3 Hrt Ht. apply (mwp_returning _ _ r); [done..|]. intros d w4. cbn [sys_exec].
    split_and!; [done..|]. intros Hrt4. apply (mwp_returning_ret _ r); [done|]. intros w5 Hrt5.
    by apply Hflush. }
  cbn [perform proc_bind]. destruct H2 as [Hq Hd Hp Ht Hf].
  apply mwp_quiet; [done..|]. intros d ?. cbn [sys_exec]. intros ? ?.
  apply mwp_bind; [|done]. eapply mwp_mono; [by apply mwp_Migrate|].
  intros [u3|e] o3 w3 (Hok3 & [Hq3 Hd3 Hp3 Ht3 Hf3] & Hm3).
  2: { apply mwp_quiet_ret; [done|]. intros w4 Hok4. by apply Hclose; [apply quiet_returning|]. }
  assert (ready o3) as Hr3.
  { split; try done; [by apply Hm3|]. destruct Hq3 as [Hs _]. intros Hdb. by rewrite Hs in Hdb. }
  apply mwp_start_debug; [done..|]. intros o4 w4 Hok4 Hr4 Hs4 Hsh4.
  eapply mwp_mono; [by apply mwp_serve|]. intros r o5 w5 He.
  apply Hclose; [by apply ended_returning|]. apply He.
Qed.
End run.
