(* ===== verification/Routes.v ===== *)
(** * The routes of the public listener

    Which handler a method and a path lead to, written out as a table, and the
    proof that the patterns given to the mux amount to that table. *)

From Stdlib Require Import Ascii.
From S2P Require Import Prelude GoRuntime Domain Repository Service Strconv Json Web Mux.
From S2P Require Import Handlers Router.

(** ** The table *)

Inductive endpoint : Type :=
| EPostTransfers
| EGetTransfer (id : string)
| EPostWallets
| EGetWallet (id : string)
| EListTransfers (id : string)
| EHealthz.

(** The segments after the first slash, percent-decoded; a trailing slash is
    the segment ["/"], which stands for no id. *)
Definition get_endpoint (segs : list string) : option endpoint :=
  match segs with
  | [a] => if String.eqb a "healthz" then Some EHealthz else None
  | [a; b] =>
      if String.eqb b "/" then None
      else if String.eqb a "transfers" then Some (EGetTransfer b)
      else if String.eqb a "wallets" then Some (EGetWallet b) else None
  | [a; b; c] =>
      if String.eqb a "wallets" && negb (String.eqb b "/") && String.eqb c "transfers"
      then Some (EListTransfers b) else None
  | _ => None
  end.

Definition post_endpoint (segs : list string) : option endpoint :=
  match segs with
  | [a] => if String.eqb a "transfers" then Some EPostTransfers
           else if String.eqb a "wallets" then Some EPostWallets else None
  | _ => None
  end.

Inductive route : Type :=
| Found (e : endpoint)
| Elsewhere (path : string)              (** the clean path *)
| WrongMethod (allowed : list string)
| NoRoute.

Definition segments_of (path : string) : list string := path_segments (tail (split "/"%char path)).

Definition endpoint_of (method : string) (segs : list string) : option endpoint :=
  if String.eqb method "POST" then post_endpoint segs
  else if String.eqb method "GET" || String.eqb method "HEAD" then get_endpoint segs
  else None.

Definition route_to (method escaped : string) : route :=
  let path := if String.eqb method "CONNECT" then escaped else cleanPath escaped in
  if negb (String.eqb path escaped) then Elsewhere path
  else
    match endpoint_of method (segments_of path) with
    | Some e => Found e
    | None =>
        match post_endpoint (segments_of path), get_endpoint (segments_of path) with
        | Some _, _ => WrongMethod ["POST"]
        | None, Some _ => WrongMethod ["GET"; "HEAD"]
        | None, None => NoRoute
        end
    end.

Lemma matchPath_nil segs : matchPath [] segs = None.
Proof. induction segs as [|s segs IH]; [done|]. simpl. rewrite IH. by destruct (String.eqb s "/"). Qed.

(** Decide the string tests of the goal, one by one. *)
Ltac split_eqb :=
  cbn -[String.eqb];
  repeat (match goal with
    | |- context [String.eqb ?a ?b] =>
        let r := eval vm_compute in (String.eqb a b) in
        match r with
        | true => change (String.eqb a b) with true
        | false => change (String.eqb a b) with false
        end
    | |- context [String.eqb ?a ?b] => destruct (String.eqb_spec a b); subst
    end; cbn -[String.eqb]; try done).

(** ** The mux *)

Section routes.
Context (X : externals) (th : TransferHandler) (wh : WalletHandler).

Definition handler_of (e : endpoint) : Handler :=
  match e with
  | EPostTransfers => TransferHandler_Create X th
  | EGetTransfer _ => TransferHandler_Get X th
  | EPostWallets => WalletHandler_Create X wh
  | EGetWallet _ => WalletHandler_Get X wh
  | EListTransfers _ => WalletHandler_ListTransfers X wh
  | EHealthz => healthz
  end.

Definition pattern_of (e : endpoint) : string :=
  match e with
  | EPostTransfers => "POST /transfers"
  | EGetTransfer _ => "GET /transfers/{id}"
  | EPostWallets => "POST /wallets"
  | EGetWallet _ => "GET /wallets/{id}"
  | EListTransfers _ => "GET /wallets/{id}/transfers"
  | EHealthz => "GET /healthz"
  end.

Definition values_of (e : endpoint) : list (string * string) :=
  match e with
  | EGetTransfer id | EGetWallet id | EListTransfers id => [("id", id)]
  | _ => []
  end.

Definition candidate_of (e : endpoint) : candidate :=
  ([], values_of e, (parsePattern (pattern_of e), handler_of e)).

Definition route_for (e : endpoint) : pattern * Handler := (parsePattern (pattern_of e), handler_of e).

Lemma candidates_get :
  candidates (api_mux X th wh) "GET" =
  [([Lit "transfers"; Wild "id"], [], route_for (EGetTransfer EmptyString));
   ([Lit "wallets"; Wild "id"], [], route_for (EGetWallet EmptyString));
   ([Lit "wallets"; Wild "id"; Lit "transfers"], [], route_for (EListTransfers EmptyString));
   ([Lit "healthz"], [], route_for EHealthz)].
Proof. done. Qed.

Lemma candidates_post :
  candidates (api_mux X th wh) "POST" =
  [([Lit "transfers"], [], route_for EPostTransfers);
   ([Lit "wallets"], [], route_for EPostWallets)].
Proof. done. Qed.

Lemma candidates_other method :
  method <> "GET" -> method <> "POST" -> candidates (api_mux X th wh) method = [].
Proof.
  intros Hg Hp. unfold candidates, api_mux. cbn -[String.eqb].
  by rewrite (proj2 (String.eqb_neq "POST" method)), (proj2 (String.eqb_neq "GET" method)) by congruence.
Qed.

Lemma match_get path :
  match_method (api_mux X th wh) "GET" path = candidate_of <$> get_endpoint (segments_of path).
Proof.
  unfold match_method. rewrite candidates_get. fold (segments_of path).
  assert (forall r1 r2 r3 r4, matchPath
    [([Lit "transfers"; Wild "id"], [], r1); ([Lit "wallets"; Wild "id"], [], r2);
     ([Lit "wallets"; Wild "id"; Lit "transfers"], [], r3); ([Lit "healthz"], [], r4)]
    (segments_of path) =
    (fun e => ([], values_of e, match e with
                                | EGetTransfer _ => r1
                                | EGetWallet _ => r2
                                | EListTransfers _ => r3
                                | _ => r4
                                end)) <$> get_endpoint (segments_of path)) as H.
  { intros r1 r2 r3 r4. destruct (segments_of path) as [|a [|b [|c [|d segs]]]]; split_eqb;
      by rewrite ?matchPath_nil. }
  rewrite H. destruct (get_endpoint (segments_of path)) as [[]|] eqn:E; try done;
    unfold get_endpoint in E; repeat case_match; congruence.
Qed.

Lemma match_post path :
  match_method (api_mux X th wh) "POST" path = candidate_of <$> post_endpoint (segments_of path).
Proof.
  unfold match_method. rewrite candidates_post. fold (segments_of path).
  destruct (segments_of path) as [|a [|b segs]]; split_eqb; by rewrite ?matchPath_nil.
Qed.

Lemma match_other method path :
  method <> "GET" -> method <> "POST" -> match_method (api_mux X th wh) method path = None.
Proof.
  intros Hg Hp. unfold match_method. rewrite candidates_other by done. apply matchPath_nil.
Qed.

Lemma mux_match_endpoint method path :
  mux_match (api_mux X th wh) method path = candidate_of <$> endpoint_of method (segments_of path).
Proof.
  unfold mux_match, endpoint_of. rewrite (match_other EmptyString) by done.
  destruct (String.eqb_spec method "POST") as [->|Hp].
  { rewrite match_post. by destruct (post_endpoint _). }
  destruct (String.eqb_spec method "GET") as [->|Hg].
  { rewrite match_get. by destruct (get_endpoint _). }
  rewrite match_other by done. destruct (String.eqb_spec method "HEAD"); [|done].
  simpl. rewrite match_get. by destruct (get_endpoint _).
Qed.

(** ** A slash at the end never matches *)

Lemma split_app_slash s : exists x l, split "/"%char (s +:+ "/") = x :: l ++ [EmptyString].
Proof.
  induction s as [|c s (x & l & IH)]; [by exists EmptyString, []|].
  change (String c s +:+ "/") with (String c (s +:+ "/")). cbn [split]. rewrite IH.
  destruct (Ascii.eqb c "/"%char); [by exists EmptyString, (x :: l)|by exists (String c x), l].
Qed.

Lemma path_segments_app l : path_segments (l ++ [EmptyString]) = map unescape_segment l ++ ["/"].
Proof. induction l as [|x [|y l] IH]; [done..|]. cbn. by f_equal. Qed.

Lemma segments_of_slash path : exists l, segments_of (path +:+ "/") = l ++ ["/"].
Proof.
  unfold segments_of. destruct (split_app_slash path) as (x & l & ->). cbn [tail].
  rewrite path_segments_app. eauto.
Qed.

Lemma endpoint_slash path method : endpoint_of method (segments_of (path +:+ "/")) = None.
Proof.
  destruct (segments_of_slash path) as [l ->]. unfold endpoint_of, get_endpoint, post_endpoint.
  destruct l as [|a [|b [|c [|d l]]]]; split_eqb; by repeat case_match.
Qed.

Lemma no_slash_redirect method path m :
  slash_redirect (api_mux X th wh) method path m = false.
Proof.
  unfold slash_redirect. rewrite mux_match_endpoint, endpoint_slash. simpl. apply andb_false_r.
Qed.

Lemma allowed_methods path :
  matchingMethods (api_mux X th wh) path =
  (match get_endpoint (segments_of path) with Some _ => ["GET"; "HEAD"] | None => [] end) ++
  (match post_endpoint (segments_of path) with Some _ => ["POST"] | None => [] end).
Proof.
  unfold matchingMethods. change (methods_of (api_mux X th wh)) with ["GET"; "HEAD"; "POST"].
  assert (forall m, m = "GET" \/ m = "POST" ->
    match_method (api_mux X th wh) m (path +:+ "/") = None) as Hslash.
  { intros m Hm. pose proof (endpoint_slash path m) as He. unfold endpoint_of in He.
    destruct Hm as [-> | ->]; rewrite ?match_get, ?match_post; simpl in He; by rewrite He. }
  assert (forall m, m = "GET" \/ m = "POST" -> allows (api_mux X th wh) path m =
    bool_decide (is_Some (match_method (api_mux X th wh) m path))) as Hallows.
  { intros m Hm. unfold allows. destruct Hm as [-> | ->]; cbn -[match_method api_mux String.append];
      rewrite Hslash by auto; by rewrite andb_false_r, orb_false_r. }
  rewrite !filter_cons. change (allows (api_mux X th wh) path "HEAD")
    with (allows (api_mux X th wh) path "GET").
  rewrite !Hallows, match_get, match_post by auto.
  by destruct (get_endpoint _), (post_endpoint _).
Qed.

(** ** What the mux does with a request *)

Lemma get_post_disjoint segs e : get_endpoint segs = Some e -> post_endpoint segs = None.
Proof. destruct segs as [|a [|b segs]]; [done| |done]. by split_eqb. Qed.

Lemma findHandler_route q :
  exists pat, findHandler (redirect_location X) (redirect_body X) (api_mux X th wh) q =
  match route_to (Method q) (URL_EscapedPath q) with
  | Found e => (handler_of e, pattern_of e, values_of e)
  | Elsewhere path =>
      (Redirect (redirect_location X) (redirect_body X) path (URL_RawQuery q) 301, pat, [])
  | WrongMethod allowed => (MethodNotAllowed allowed, EmptyString, [])
  | NoRoute => (NotFound, EmptyString, [])
  end.
Proof.
  unfold findHandler, route_to. rewrite no_slash_redirect, mux_match_endpoint, allowed_methods.
  set (path := if String.eqb (Method q) "CONNECT" then _ else _).
  destruct (negb (String.eqb path (URL_EscapedPath q))); [by eexists|].
  exists EmptyString. destruct (endpoint_of _ _) as [[]|]; [done..|]. simpl.
  destruct (get_endpoint _) as [e|] eqn:Eg; [|by destruct (post_endpoint _)].
  by rewrite (get_post_disjoint _ _ Eg).
Qed.
End routes.

(** ** Path values are not empty *)

Definition proper (s : string) : Prop := free "/"%char s = true /\ s <> EmptyString.

Lemma rooted_cons x segs : rooted (x :: segs) = "/" +:+ x +:+ rooted segs.
Proof. reflexivity. Qed.

(** The segments of a path put together from segments. *)
Lemma split_rooted x segs :
  Forall proper (x :: segs) ->
  split "/"%char (x +:+ rooted segs) = x :: segs /\
  split "/"%char (x +:+ rooted segs +:+ "/") = x :: segs ++ [EmptyString].
Proof.
  revert x. induction segs as [|y segs IH]; intros x Hf; inversion Hf as [|? ? [Hx _] Hrest]; subst.
  - cbn [rooted map concat_strings foldr]. rewrite app_nil_string. split; [by apply split_single|].
    by apply (split_cons "/"%char x EmptyString).
  - destruct (IH y Hrest) as [H1 H2]. rewrite rooted_cons.
    change ("/" +:+ ?s) with (String "/"%char s). split.
    + by rewrite split_cons, H1.
    + change (String "/"%char ?s +:+ "/") with (String "/"%char (s +:+ "/")).
      rewrite !app_assoc_string, split_cons by done. by rewrite H2.
Qed.

Lemma clean_proper l stack :
  Forall (fun x => free "/"%char x = true) l -> Forall proper stack ->
  Forall proper (foldl clean_segment stack l).
Proof.
  intros Hl. revert stack. induction Hl as [|x l Hx _ IH]; intros stack Hs; [done|].
  simpl. apply IH. unfold clean_segment.
  destruct (String.eqb_spec x EmptyString); [done|]. destruct (String.eqb_spec x "."); [done|].
  simpl. destruct (String.eqb_spec x ".."); [by destruct Hs|]. by constructor.
Qed.

Lemma percent_decode_ne plus c s t : percent_decode plus (String c s) = Some t -> t <> EmptyString.
Proof.
  assert (forall o : option string, match o with
    | Some t => Some (String (if plus && Ascii.eqb c "+"%char then " "%char else c) t)
    | None => None
    end = Some t -> t <> EmptyString) as Hplain by (by intros [?|] [= <-]).
  assert (match s with
    | String a (String b s2) =>
        match unhex a b, percent_decode plus s2 with
        | Some c, Some t => Some (String c t)
        | _, _ => None
        end
    | _ => None
    end = Some t -> t <> EmptyString) as Hhex
    by (intros H; repeat case_match; by simplify_eq).
  each_byte c; simpl; first [exact Hhex|apply Hplain].
Qed.

Lemma unescape_ne s : s <> EmptyString -> unescape_segment s <> EmptyString.
Proof.
  destruct s as [|c s]; [done|]. intros _. unfold unescape_segment, PathUnescape.
  destruct (percent_decode false (String c s)) as [t|] eqn:E; [|done].
  by apply percent_decode_ne in E.
Qed.

(** A clean path has no empty segment before its last. *)
Lemma cleanPath_segments p :
  cleanPath p = p -> Forall (fun x => x <> EmptyString) (segments_of p).
Proof.
  unfold cleanPath. destruct (String.eqb_spec p EmptyString) as [->|Hp]; [done|].
  set (p' := if starts_with_slash p then p else "/" +:+ p).
  assert (Forall proper (rev (foldl clean_segment [] (split "/"%char p')))) as Hprop.
  { apply Forall_rev, clean_proper; [apply split_free|constructor]. }
  destruct (rev _) as [|x segs]; [by intros <-; repeat constructor|].
  destruct (split_rooted x segs Hprop) as [H1 H2]. unfold segments_of. intros Hp'.
  assert (tail (split "/"%char p) = x :: segs \/ tail (split "/"%char p) = x :: segs ++ [EmptyString])
    as Htail.
  { destruct (ends_with_slash p'); rewrite <- Hp', rooted_cons, ?app_assoc_string;
      change ("/" +:+ ?s) with (String "/"%char s); cbn [split]; rewrite Ascii.eqb_refl; cbn [tail].
    - by right.
    - by left. }
  assert (Forall (fun y => unescape_segment y <> EmptyString) (x :: segs)) as Hun.
  { eapply Forall_impl; [exact Hprop|]. intros y [_ Hy]. by apply unescape_ne. }
  destruct Htail as [-> | ->].
  - clear - Hprop Hun. revert x Hprop Hun. induction segs as [|y segs IH]; intros x Hp Hu;
      inversion Hp as [|? ? [_ Hx] Hp']; inversion Hu; subst.
    + cbn. destruct (String.eqb_spec x EmptyString); [done|by repeat constructor].
    + constructor; [done|by apply IH].
  - change (x :: segs ++ [EmptyString]) with ((x :: segs) ++ [EmptyString]).
    rewrite path_segments_app. apply Forall_app. split; [by apply Forall_map|by repeat constructor].
Qed.

(** The ids the handlers see are not empty. *)
Lemma route_id_nonempty method escaped e :
  route_to method escaped = Found e ->
  match e with
  | EGetTransfer id | EGetWallet id | EListTransfers id => id <> EmptyString
  | _ => True
  end.
Proof.
  unfold route_to. destruct (String.eqb_spec method "CONNECT") as [->|_].
  { destruct (negb _); [done|]. simpl. by repeat case_match. }
  destruct (String.eqb_spec (cleanPath escaped) escaped) as [E|E]; [simpl|done].
  pose proof (cleanPath_segments _ E) as Hne. rewrite E.
  destruct (endpoint_of method (segments_of escaped)) as [e'|] eqn:He; [|by repeat case_match].
  intros [= ->]. revert He. unfold endpoint_of.
  destruct (String.eqb method "POST").
  { unfold post_endpoint. repeat case_match; intros; by simplify_eq. }
  destruct (_ || _); [|done]. unfold get_endpoint.
  destruct (segments_of escaped) as [|a [|b [|c [|d segs]]]]; [done|..|done];
    inversion Hne as [|? ? _ Hne']; subst; [by case_match; intros; simplify_eq|..];
    inversion Hne' as [|? ? Hb _]; subst; repeat case_match; intros; by simplify_eq.
Qed.

(** C22: the public mux is a table.  For every request, the routing of [ServeMux]
    over the patterns of [NewRouter] (methods, HEAD for GET, literal segments
    before wildcards, the redirect to a path's clean form, 405 with the methods
    the path allows, 404) is the lookup [route_to]; the id a handler is given is
    never empty. *)
Theorem api_mux_is_table X th wh q :
  (exists pat, findHandler (redirect_location X) (redirect_body X) (api_mux X th wh) q =
   match route_to (Method q) (URL_EscapedPath q) with
   | Found e => (handler_of X th wh e, pattern_of e, values_of e)
   | Elsewhere path =>
       (Redirect (redirect_location X) (redirect_body X) path (URL_RawQuery q) 301, pat, [])
   | WrongMethod allowed => (MethodNotAllowed allowed, EmptyString, [])
   | NoRoute => (NotFound, EmptyString, [])
   end) /\
  forall e, route_to (Method q) (URL_EscapedPath q) = Found e ->
    match values_of e with (_, id) :: _ => id <> EmptyString | [] => True end.
Proof.
  split; [apply findHandler_route|]. intros e He. apply route_id_nonempty in He. by destruct e.
Qed.
