(* ===== verification/Debug.v ===== *)
(** * internal/handler/debug.go: the admin mux

    The routes of the admin listener, the proof that the patterns given to the
    mux amount to a table, and that none of them is a route of the public
    listener.  The profiler's handlers and the exposition of the metrics are
    parameters. *)

From Stdlib Require Import Ascii.
From S2P Require Import Prelude GoRuntime Domain Repository Service Strconv Json Web Mux.
From S2P Require Import Handlers Router Routes.

(** [net/http/pprof], and the handler [promhttp] makes for the registry. *)
Record admin_handlers : Type := mkAdmin {
  pprof_Index : Handler;
  pprof_Cmdline : Handler;
  pprof_Profile : Handler;
  pprof_Symbol : Handler;
  pprof_Trace : Handler;
  metrics_Handler : Handler
}.

Definition debug_mux (A : admin_handlers) : ServeMux :=
  let mux := NewServeMux in
  let mux := HandleFunc mux "/debug/pprof/" (pprof_Index A) in
  let mux := HandleFunc mux "/debug/pprof/cmdline" (pprof_Cmdline A) in
  let mux := HandleFunc mux "/debug/pprof/profile" (pprof_Profile A) in
  let mux := HandleFunc mux "/debug/pprof/symbol" (pprof_Symbol A) in
  let mux := HandleFunc mux "/debug/pprof/trace" (pprof_Trace A) in
  HandleFunc mux "/metrics" (metrics_Handler A).

Definition NewDebugMux (X : externals) (A : admin_handlers) : Handler :=
  mux_ServeHTTP (redirect_location X) (redirect_body X) (debug_mux A).

(** ** The table *)

Inductive admin_endpoint : Type :=
| AIndex (** every other path under /debug/pprof/ *)
| ACmdline
| AProfile
| ASymbol
| ATrace
| AMetrics.

Definition admin_endpoint_of (segs : list string) : option admin_endpoint :=
  match segs with
  | [a] => if String.eqb a "metrics" then Some AMetrics else None
  | a :: b :: rest =>
      if String.eqb a "debug" && String.eqb b "pprof" then
        match rest with
        | [] => None
        | [c] => if String.eqb c "cmdline" then Some ACmdline
                 else if String.eqb c "profile" then Some AProfile
                 else if String.eqb c "symbol" then Some ASymbol
                 else if String.eqb c "trace" then Some ATrace else Some AIndex
        | _ => Some AIndex
        end
      else None
  | [] => None
  end.

(** The paths that lack the slash. *)
Definition admin_index_path (segs : list string) : bool :=
  match segs with [a; b] => String.eqb a "debug" && String.eqb b "pprof" | _ => false end.

Definition admin_pattern (e : admin_endpoint) : string :=
  match e with
  | AIndex => "/debug/pprof/"
  | ACmdline => "/debug/pprof/cmdline"
  | AProfile => "/debug/pprof/profile"
  | ASymbol => "/debug/pprof/symbol"
  | ATrace => "/debug/pprof/trace"
  | AMetrics => "/metrics"
  end.

Definition admin_handler (A : admin_handlers) (e : admin_endpoint) : Handler :=
  match e with
  | AIndex => pprof_Index A
  | ACmdline => pprof_Cmdline A
  | AProfile => pprof_Profile A
  | ASymbol => pprof_Symbol A
  | ATrace => pprof_Trace A
  | AMetrics => metrics_Handler A
  end.

Inductive admin_route : Type :=
| AFound (e : admin_endpoint)
| ASlash                      (** the path, with its slash *)
| AElsewhere (path : string)  (** the clean path *)
| ANoRoute.

Definition admin_route_to (method escaped : string) : admin_route :=
  let path := if String.eqb method "CONNECT" then escaped else cleanPath escaped in
  if admin_index_path (segments_of path) then ASlash
  else if negb (String.eqb path escaped) then AElsewhere path
  else
    match admin_endpoint_of (segments_of path) with
    | Some e => AFound e
    | None => ANoRoute
    end.

Section admin.
Context (X : externals) (A : admin_handlers).

Definition admin_candidate (e : admin_endpoint) : candidate :=
  (match e with AIndex => [Multi] | _ => [] end, [], (parsePattern (admin_pattern e), admin_handler A e)).

Lemma admin_match_other method path :
  method <> EmptyString -> match_method (debug_mux A) method path = None.
Proof.
  intros Hm. unfold match_method, candidates, debug_mux. cbn -[String.eqb matchPath path_segments split].
  rewrite (proj2 (String.eqb_neq EmptyString method)) by congruence. apply matchPath_nil.
Qed.

Lemma admin_candidates :
  candidates (debug_mux A) EmptyString =
  map (fun e => (pat_segments (parsePattern (admin_pattern e)), [],
                 (parsePattern (admin_pattern e), admin_handler A e)))
    [AIndex; ACmdline; AProfile; ASymbol; ATrace; AMetrics].
Proof. done. Qed.

Lemma matchPath_multi r segs :
  matchPath [([Multi], [], r)] segs = match segs with [] => None | _ => Some ([Multi], [], r) end.
Proof. destruct segs as [|s segs]; [done|]. simpl. rewrite matchPath_nil. by destruct (String.eqb s "/"). Qed.

Lemma admin_match path :
  match_method (debug_mux A) EmptyString path = admin_candidate <$> admin_endpoint_of (segments_of path).
Proof.
  unfold match_method. rewrite admin_candidates. fold (segments_of path).
  assert (forall r1 r2 r3 r4 r5 r6, matchPath
    [([Lit "debug"; Lit "pprof"; Multi], [], r1); ([Lit "debug"; Lit "pprof"; Lit "cmdline"], [], r2);
     ([Lit "debug"; Lit "pprof"; Lit "profile"], [], r3);
     ([Lit "debug"; Lit "pprof"; Lit "symbol"], [], r4);
     ([Lit "debug"; Lit "pprof"; Lit "trace"], [], r5); ([Lit "metrics"], [], r6)]
    (segments_of path) =
    (fun e => match e with
              | AIndex => ([Multi], [], r1)
              | ACmdline => ([], [], r2)
              | AProfile => ([], [], r3)
              | ASymbol => ([], [], r4)
              | ATrace => ([], [], r5)
              | AMetrics => ([], [], r6)
              end) <$> admin_endpoint_of (segments_of path)) as H.
  { intros r1 r2 r3 r4 r5 r6.
    destruct (segments_of path) as [|a [|b [|c [|d segs]]]]; split_eqb;
      by rewrite ?matchPath_nil, ?matchPath_multi. }
  cbn [map]. etrans; [apply H|]. by destruct (admin_endpoint_of (segments_of path)) as [[]|].
Qed.

(** ** The slash at the end *)

Lemma split_slash s : split "/"%char (s +:+ "/") = split "/"%char s ++ [EmptyString].
Proof.
  induction s as [|c s IH]; [done|]. change (String c s +:+ "/") with (String c (s +:+ "/")).
  cbn [split]. rewrite IH. destruct (Ascii.eqb c "/"%char); [done|].
  pose proof (split_nonempty "/"%char s). by destruct (split "/"%char s).
Qed.

Lemma path_segments_map l : last l <> Some EmptyString -> path_segments l = map unescape_segment l.
Proof.
  induction l as [|x [|y l] IH]; [done| |].
  - cbn. destruct (String.eqb_spec x EmptyString); [by subst|done].
  - intros H. cbn [map path_segments]. f_equal. by apply IH.
Qed.

Lemma split_last_nonempty s : ends_with_slash s = false -> s <> EmptyString -> last (split "/"%char s) <> Some EmptyString.
Proof.
  induction s as [|c s IH]; [done|]. intros He _. destruct s as [|c' s].
  - cbn in *. by rewrite He.
  - specialize (IH He ltac:(done)). pose proof (split_nonempty "/"%char (String c' s)) as Hl.
    change (split "/"%char (String c (String c' s))) with
      (if Ascii.eqb c "/"%char then EmptyString :: split "/"%char (String c' s)
       else match split "/"%char (String c' s) with
            | x :: l => String c x :: l
            | [] => [str1 c]
            end).
    destruct (split "/"%char (String c' s)) as [|x l]; [done|].
    destruct (Ascii.eqb c "/"%char); [exact IH|]. by destruct l.
Qed.

(** A path without a slash at its end, and with one. *)
Lemma segments_app_slash path :
  ends_with_slash path = false -> path <> EmptyString ->
  segments_of (path +:+ "/") = segments_of path ++ ["/"] /\
  length (tail (split "/"%char (path +:+ "/"))) = S (length (segments_of path)).
Proof.
  intros He Hp. pose proof (split_last_nonempty path He Hp) as Hl. unfold segments_of. rewrite split_slash.
  destruct (split "/"%char path) as [|x l] eqn:E; [by apply split_nonempty in E|].
  cbn [tail app]. assert (last l <> Some EmptyString) as Hl' by (destruct l; [done|exact Hl]).
  rewrite path_segments_app, path_segments_map, length_map, length_app by done. simpl. split; [done|lia].
Qed.

Lemma admin_mux_match method path :
  mux_match (debug_mux A) method path = admin_candidate <$> admin_endpoint_of (segments_of path).
Proof.
  unfold mux_match. rewrite admin_match.
  destruct (decide (method = EmptyString)) as [->|Hm].
  - rewrite admin_match. by destruct (admin_endpoint_of (segments_of path)).
  - rewrite !admin_match_other by done. by destruct (String.eqb method "HEAD").
Qed.

Lemma ends_slash_app s : ends_with_slash (s +:+ "/") = true.
Proof. induction s as [|c [|c' s] IH]; done. Qed.

Lemma ends_slash_inv s : ends_with_slash s = true -> exists s', s = s' +:+ "/".
Proof.
  induction s as [|c [|c' s] IH]; [done| |].
  - cbn. intros ->%Ascii.eqb_eq. by exists EmptyString.
  - intros H. destruct (IH H) as [s' E]. exists (String c s'). cbn. by rewrite E.
Qed.

Lemma admin_slash_redirect method path :
  slash_redirect (debug_mux A) method path (mux_match (debug_mux A) method path) =
  admin_index_path (segments_of path).
Proof.
  unfold slash_redirect. destruct (ends_with_slash path) eqn:He.
  { rewrite andb_false_r. destruct (ends_slash_inv _ He) as [p ->].
    destruct (segments_of_slash p) as [l ->]. destruct l as [|a [|b [|c l]]]; try done.
    cbn. by rewrite andb_false_r. }
  destruct (String.eqb_spec path EmptyString) as [->|Hp]; [by rewrite andb_false_r|].
  destruct (segments_app_slash path He Hp) as [Hs Hl].
  rewrite !admin_mux_match, Hs. unfold exactMatch. rewrite Hl, ends_slash_app.
  destruct (segments_of path) as [|a [|b [|c [|d segs]]]]; split_eqb; apply andb_false_r.
Qed.

(** ** The theorems *)

(** The admin mux is a table.  For every request, the routing of [ServeMux]
    over the patterns of [NewDebugMux] (matching segment by segment, the redirect
    to a path's clean form or to its trailing slash, 404) is the lookup
    [admin_route_to], whatever the method. *)
Lemma admin_mux_is_table q :
  exists pat, findHandler (redirect_location X) (redirect_body X) (debug_mux A) q =
  match admin_route_to (Method q) (URL_EscapedPath q) with
  | AFound e => (admin_handler A e, admin_pattern e, [])
  | ASlash =>
      let path := cleanPath (URL_Path q) +:+ "/" in
      (Redirect (redirect_location X) (redirect_body X) path (URL_RawQuery q) 301, path, [])
  | AElsewhere path =>
      (Redirect (redirect_location X) (redirect_body X) path (URL_RawQuery q) 301, pat, [])
  | ANoRoute => (NotFound, EmptyString, [])
  end.
Proof.
  unfold findHandler, admin_route_to. rewrite admin_slash_redirect, admin_mux_match.
  set (path := if String.eqb (Method q) "CONNECT" then _ else _).
  destruct (admin_index_path (segments_of path)); [by exists EmptyString|].
  destruct (negb (String.eqb path (URL_EscapedPath q))); [by eexists|].
  exists EmptyString. by destruct (admin_endpoint_of (segments_of path)) as [[]|].
Qed.
End admin.

Lemma no_endpoint a rest : a <> "transfers" -> a <> "wallets" -> a <> "healthz" ->
  get_endpoint (a :: rest) = None /\ post_endpoint (a :: rest) = None.
Proof.
  intros H1 H2 H3. unfold get_endpoint, post_endpoint.
  rewrite (proj2 (String.eqb_neq a "transfers")), (proj2 (String.eqb_neq a "wallets")),
    (proj2 (String.eqb_neq a "healthz")) by done.
  by destruct rest as [|b [|c [|d rest]]]; repeat case_match.
Qed.

(** What [admin_endpoint_of] asks of the first segment. *)
Lemma admin_first segs :
  is_Some (admin_endpoint_of segs) \/ admin_index_path segs = true ->
  exists a rest, segs = a :: rest /\ (a = "metrics" \/ a = "debug").
Proof.
  destruct segs as [|a segs]; [by intros [[? H]|H]|]. intros H. exists a, segs. split; [done|].
  destruct (String.eqb_spec a "metrics") as [->|Hm]; [by left|].
  destruct (String.eqb_spec a "debug") as [->|Hd]; [by right|]. exfalso.
  destruct segs as [|b rest]; cbn in H.
  - rewrite (proj2 (String.eqb_neq a "metrics") Hm) in H. by destruct H as [[? H]|H].
  - rewrite (proj2 (String.eqb_neq a "debug") Hd) in H. cbn in H.
    destruct H as [[? H]|H]; [done|by destruct rest].
Qed.

(** No route of the admin listener is on the public port.  A request for
    which the admin mux has a handler, or redirects to the profiler's index, is
    answered 404 by the public mux (or redirected to its clean path). *)
Lemma admin_not_public method escaped :
  match admin_route_to method escaped with
  | AFound _ => route_to method escaped = NoRoute
  | ASlash => route_to method escaped = NoRoute \/ exists path, route_to method escaped = Elsewhere path
  | _ => True
  end.
Proof.
  unfold admin_route_to, route_to. set (path := if String.eqb method "CONNECT" then _ else _).
  assert (is_Some (admin_endpoint_of (segments_of path)) \/ admin_index_path (segments_of path) = true ->
    endpoint_of method (segments_of path) = None /\ get_endpoint (segments_of path) = None /\
    post_endpoint (segments_of path) = None) as H.
  { intros (a & rest & -> & Ha)%admin_first. destruct (no_endpoint a rest) as [Hg Hp];
      [by destruct Ha as [-> | ->]..|]. unfold endpoint_of. rewrite Hg, Hp. split; [|done].
    by repeat case_match. }
  destruct (admin_index_path (segments_of path)) eqn:Ei.
  - destruct (H ltac:(by right)) as (-> & -> & ->). destruct (negb _); [right; by eexists|by left].
  - destruct (negb _); [done|]. destruct (admin_endpoint_of (segments_of path)) eqn:Ea; [|done].
    by destruct (H ltac:(left; by eexists)) as (-> & -> & ->).
Qed.

(** The paths of the tests. *)
Example admin_paths :
  map (admin_route_to "GET") ["/debug/pprof/"; "/debug/pprof/heap"; "/debug/pprof/trace"; "/debug/pprof";
    "/debug//pprof/cmdline"; "/metrics"; "/metrics/"; "/healthz"] =
  [AFound AIndex; AFound AIndex; AFound ATrace; ASlash; AElsewhere "/debug/pprof/cmdline"; AFound AMetrics;
   ANoRoute; ANoRoute].
Proof. by vm_compute. Qed.
