(* ===== verification/Logic.v ===== *)
(** * What the HTTP layer needs to know about running a program

    The handlers call the service and otherwise compute.  What they answer is
    proved once, against any way of running service programs that has the laws
    of [Logic]: all answers of the environment at once ([everything]), and a
    request run alone on the database ([alone]). *)

From S2P Require Import Prelude GoRuntime Domain Database Repository Machine Sequential.

Definition outcome_map {A B} (f : A -> B) (o : outcome A) : outcome B :=
  match o with Returned a => Returned (f a) | Panicked v => Panicked v end.

Class Logic : Type := mkLogic {
  St : Type;
  holds : forall {A : Type}, svc A -> St -> (outcome A -> St -> Prop) -> Prop;
  holds_ret : forall {A} (a : A) s (P : outcome A -> St -> Prop),
    P (Returned a) s -> holds (Ret a) s P;
  holds_bind : forall {A B} (f : A -> svc B) (p : svc A) s (P : outcome B -> St -> Prop),
    holds p s (fun o s' => match o with
                           | Returned a => holds (f a) s' P
                           | Panicked v => P (Panicked v) s'
                           end) -> holds (proc_bind f p) s P;
  holds_finally : forall {A B} (h : outcome A -> svc B) (p : svc A) s (P : outcome B -> St -> Prop),
    holds p s (fun o s' => holds (h o) s' P) -> holds (proc_finally h p) s P;
  holds_mono : forall {A} (p : svc A) s (P P' : outcome A -> St -> Prop),
    holds p s P -> (forall o s', P o s' -> P' o s') -> holds p s P';
  holds_map : forall {A B} (f : A -> B) (p : svc A) s (P : outcome B -> St -> Prop),
    holds (proc_bind (fun a => Ret (f a)) p) s P ->
    holds p s (fun o s' => P (outcome_map f o) s');
  holds_now : forall {A} (k : Time -> svc A) s (P : outcome A -> St -> Prop),
    (forall t, holds (k t) s P) -> holds (Vis TimeNow k) s P;
  holds_uuid : forall {A} (k : UUID -> svc A) s (P : outcome A -> St -> Prop),
    (forall u, holds (k u) s P) -> holds (Vis NewUUID k) s P
}.

(** ** Whatever the environment answers *)

Fixpoint always {A} (p : svc A) (P : outcome A -> Prop) : Prop :=
  match p with
  | Ret a => P (Returned a)
  | Panic v => P (Panicked v)
  | Vis o k => forall x, always (k x) P
  end.

Lemma always_finally {A B} (h : outcome A -> svc B) (p : svc A) P :
  always p (fun o => always (h o) P) -> always (proc_finally h p) P.
Proof. induction p; simpl; auto. Qed.

Lemma always_bind {A B} (f : A -> svc B) (p : svc A) P :
  always p (fun o => match o with Returned a => always (f a) P | Panicked v => P (Panicked v) end) ->
  always (proc_bind f p) P.
Proof. induction p; simpl; auto. Qed.

Lemma always_mono {A} (p : svc A) (P P' : outcome A -> Prop) :
  always p P -> (forall o, P o -> P' o) -> always p P'.
Proof. induction p; simpl; eauto. Qed.

Lemma always_map {A B} (f : A -> B) (p : svc A) P :
  always (proc_bind (fun a => Ret (f a)) p) P -> always p (fun o => P (outcome_map f o)).
Proof. induction p; simpl; auto. Qed.

Lemma always_total {A} (p : svc A) P : (forall o, P o) -> always p P.
Proof. intros H. by induction p; simpl. Qed.

(** [always] speaks of every run. *)
Lemma always_run {A} (p : svc A) P cs S T :
  always p P -> let '(o, _, _) := run cs p S T in P o.
Proof.
  revert cs S T. induction p as [a|v|X o k IH]; simpl; intros cs S T H; [done..|].
  destruct (local_exec _ _ _ _) as [[x S'] T']. by apply IH.
Qed.

#[refine] Definition everything : Logic := {|
  St := unit;
  holds A p _ P := always p (fun o => P o tt)
|}.
Proof.
  - intros A a [] P H. exact H.
  - intros A B f p [] P H. apply always_bind. eapply always_mono; [exact H|]. by intros [].
  - intros A B h p [] P H. by apply always_finally.
  - intros A p [] P P' H HP. eapply always_mono; [exact H|]. auto.
  - intros A B f p [] P H. exact (always_map f p (fun o => P o tt) H).
  - intros A k [] P H. exact H.
  - intros A k [] P H. exact H.
Defined.

(** ** Alone, with the decisions of the world restricted *)

Lemma run_map {A B} (f : A -> B) (p : svc A) cs S T :
  run cs (proc_bind (fun a => Ret (f a)) p) S T =
  let '(o, S', T') := run cs p S T in (outcome_map f o, S', T').
Proof.
  revert cs S T. induction p as [a|v|X o k IH]; simpl; intros cs S T; [done..|].
  by destruct (local_exec _ _ _ _) as [[x S'] T'].
Qed.

Section alone.
Variable ok : choice -> Prop.

#[refine] Definition alone : Logic := {|
  St := shared * option txn;
  holds A p s P := ends ok p s.1 s.2 (fun o S' T' => P o (S', T'))
|}.
Proof.
  - intros A a [S T] P H. by apply ends_ret.
  - intros A B f p [S T] P H. apply ends_bind. eapply ends_mono; [exact H|]. by intros [].
  - intros A B h p [S T] P H. by apply ends_finally.
  - intros A p [S T] P P' H HP. eapply ends_mono; [exact H|]. auto.
  - intros A B f p [S T] P H cs Hcs. specialize (H cs Hcs). rewrite run_map in H.
    by destruct (run cs p _ _) as [[o S'] T'].
  - intros A k [S T] P H. apply ends_vis. intros ch _. apply H.
  - intros A k [S T] P H. apply ends_vis. intros ch _. apply H.
Defined.
End alone.
