(* ===== verification/Http.v ===== *)
(** * What the public listener answers

    The handlers behind the middleware chain, for any [Logic]: a service call
    that ends as [o] gives the response its result stands for, one access log
    line and one count with the status the client got, the request id in the
    response; a panic gives a 500. *)

From S2P Require Import Prelude GoRuntime Domain Database Repository Service.
From S2P Require Import Concurrency Strconv GoTime Json Web Mux Handlers Router Routes Logic.
#[local] Open Scope web_scope.

(** ** Answers *)

(** What a handler behind [Recover] has written and logged. *)
Record answer : Type := mkAnswer {
  an_status : Z;
  an_header : list (string * string);  (** set by the handler, in order *)
  an_body : string;
  an_log : list log_line
}.

Definition json_type : list (string * string) := [("Content-Type", "application/json")].

Definition json_answer (code : Z) (text : string) : answer :=
  mkAnswer code json_type (text +:+ newline) [].

Definition set_headers (l : list (string * string)) (m : gmap string string) : gmap string string :=
  foldl (fun m kv => <[kv.1 := kv.2]> m) m l.

Definition sent_body (head : bool) (code : Z) (body : string) : string :=
  if bodyAllowedForStatus code && negb head then body else EmptyString.

(** The recorders of the two middlewares around [Recover]. *)
Definition W0 : ResponseWriter := AccessRecorder 1 (MetricsRecorder 0 Conn).

(** Nothing is written. *)
Definition pending (head : bool) (hdr : gmap string string) (reqs : list Request) : webstate :=
  mkWeb (mkConn head hdr None EmptyString) [mkRecorder 200 false; mkRecorder 200 false] reqs [] ∅ [].

(** The answer is. *)
Definition answered (head : bool) (hdr : gmap string string) (reqs : list Request) (a : answer)
  : webstate :=
  let hdr' := set_headers (an_header a) hdr in
  mkWeb (mkConn head hdr' (Some (an_status a, hdr')) (sent_body head (an_status a) (an_body a)))
    [mkRecorder (an_status a) true; mkRecorder (an_status a) true] reqs (an_log a) ∅ [].

(** The statuses the program writes. *)
Definition statuses : list Z := [200; 201; 301; 400; 404; 405; 409; 500].

Ltac code_ok := rewrite list_elem_of_In; unfold statuses; simpl; auto 10.

Section http.
Context (X : externals).

(** A request that failed in the service: [writeError]. *)
Definition error_log (q : Request) (err : error) : log_line :=
  mkLog "ERROR" "request failed"
    [("path", URL_Path q); ("method", Method q); ("error", Error X err)].

Definition error_answer (q : Request) (err : error) : answer :=
  mkAnswer (classify X err).1 json_type (errorBody (classify X err).2 +:+ newline)
    (if decide (500 <= (classify X err).1) then [error_log q err] else []).

Definition panic_answer (q : Request) (v : string) : answer :=
  mkAnswer 500 json_type recover_body
    [mkLog "ERROR" "panic recovered"
      [("panic", v); ("stack", debug_Stack X); ("request_id", RequestIDFromContext (ctx q));
       ("method", Method q); ("path", URL_Path q)]].

(** ** Writing *)

Lemma classify_status err :
  (classify X err).1 = 400 \/ (classify X err).1 = 409 \/ (classify X err).1 = 404 \/
  (classify X err).1 = 500.
Proof. unfold classify. repeat case_match; auto. Qed.

Lemma read_step {A B} (f : webstate -> A) (k : A -> web B) s : web_bind k (read f) s = k (f s) s.
Proof. done. Qed.

Lemma ret_step {A B} (k : A -> web B) a s : web_bind k (ret a) s = k a s.
Proof. done. Qed.

Lemma bind_ret_step {A B} (k : A -> web B) m s s' a :
  m s = Ret (Returned a, s') -> web_bind k m s = k a s'.
Proof. unfold web_bind. by intros ->. Qed.

Lemma header_step {B} (m : web B) w k v c rs reqs l tot dur :
  (_ ← Header_Set w k v; m) (mkWeb c rs reqs l tot dur)
  = m (mkWeb (mkConn (conn_head c) (<[k := v]> (conn_header c)) (conn_sent c) (conn_body c))
         rs reqs l tot dur).
Proof. done. Qed.

(** Headers, status, body on a pending response. *)
Lemma respond_pending head hdr reqs l code text :
  code ∈ statuses ->
  (_ ← WriteHeader W0 code; Write W0 text)
    (mkWeb (mkConn head hdr None EmptyString) [mkRecorder 200 false; mkRecorder 200 false] reqs l
       ∅ [])
  = Ret (Returned tt,
      mkWeb (mkConn head hdr (Some (code, hdr)) (sent_body head code text))
        [mkRecorder code true; mkRecorder code true] reqs l ∅ []).
Proof. rewrite !list_elem_of_In. simpl. intros Hc. destruct_or! Hc; subst; by destruct head. Qed.

Lemma sent_body_empty head code : sent_body head code EmptyString = EmptyString.
Proof. unfold sent_body. by destruct (_ && _). Qed.

Lemma status_pending head hdr reqs l code :
  code ∈ statuses ->
  WriteHeader W0 code
    (mkWeb (mkConn head hdr None EmptyString) [mkRecorder 200 false; mkRecorder 200 false] reqs l
       ∅ [])
  = Ret (Returned tt,
      mkWeb (mkConn head hdr (Some (code, hdr)) (sent_body head code EmptyString))
        [mkRecorder code true; mkRecorder code true] reqs l ∅ []).
Proof.
  rewrite sent_body_empty, !list_elem_of_In. simpl. intros Hc. by destruct_or! Hc; subst.
Qed.

Lemma writeJSON_pending head hdr reqs l code text :
  code ∈ statuses ->
  writeJSON W0 code (Some text)
    (mkWeb (mkConn head hdr None EmptyString) [mkRecorder 200 false; mkRecorder 200 false] reqs l
       ∅ [])
  = Ret (Returned tt, answered head hdr reqs (mkAnswer code json_type (text +:+ newline) l)).
Proof. intros Hc. unfold writeJSON. rewrite header_step. by rewrite respond_pending. Qed.

Lemma error_status err : (classify X err).1 ∈ statuses.
Proof.
  rewrite list_elem_of_In. unfold statuses. simpl.
  destruct (classify_status err) as [-> | [-> | [-> | ->]]]; auto 10.
Qed.

Lemma writeError_pending head hdr q0 q1 err :
  writeError X W0 1 err (pending head hdr [q0; q1])
  = Ret (Returned tt, answered head hdr [q0; q1] (error_answer q1 err)).
Proof.
  pose proof (error_status err) as Hs. unfold writeError, error_answer.
  destruct (classify X err) as [code msg]. simpl in Hs. cbn [fst snd].
  case_decide; by apply writeJSON_pending.
Qed.

Lemma http_Error_pending head hdr reqs text code :
  code ∈ statuses ->
  http_Error W0 text code (pending head hdr reqs)
  = Ret (Returned tt, answered head hdr reqs
      (mkAnswer code [("Content-Type", "text/plain; charset=utf-8");
                      ("X-Content-Type-Options", "nosniff")] (text +:+ newline) [])).
Proof.
  intros Hc. unfold http_Error, pending. rewrite !header_step. by rewrite respond_pending.
Qed.

(** ** Handlers behind the chain *)

Context (L : Logic).
Implicit Types (P : answer -> St -> Prop) (s : St).

(** [h] answers the request, or panics before it has written anything. *)
Definition answers (h : Handler) (head : bool) (hdr : gmap string string) (q0 q1 : Request)
    s P : Prop :=
  holds (h W0 1%nat (pending head hdr [q0; q1])) s (fun o s' =>
    exists pat vals, let reqs := [q0; set_match pat vals q1] in
    (exists a, o = Returned (Returned tt, answered head hdr reqs a) /\ P a s') \/
    (exists v, o = Returned (Panicked v, pending head hdr reqs) /\ P (panic_answer q1 v) s')).

Lemma set_match_self q : set_match (Pattern q) (PathValues q) q = q.
Proof. by destruct q. Qed.

Lemma answers_ret (h : Handler) head hdr q0 q1 s P a :
  h W0 1%nat (pending head hdr [q0; q1]) = Ret (Returned tt, answered head hdr [q0; q1] a) ->
  P a s -> answers h head hdr q0 q1 s P.
Proof.
  intros E HP. unfold answers. rewrite E. apply holds_ret.
  exists (Pattern q1), (PathValues q1). rewrite set_match_self. left. eauto.
Qed.

Lemma answers_panic (h : Handler) head hdr q0 q1 s P v :
  h W0 1%nat (pending head hdr [q0; q1]) = Ret (Panicked v, pending head hdr [q0; q1]) ->
  P (panic_answer q1 v) s -> answers h head hdr q0 q1 s P.
Proof.
  intros E HP. unfold answers. rewrite E. apply holds_ret.
  exists (Pattern q1), (PathValues q1). rewrite set_match_self. right. eauto.
Qed.

(** A call into the service, then what the handler does with its result. *)
Lemma answers_call {A} (h : Handler) (p : svc A) (k : A -> web unit) head hdr q0 q1 s P :
  h W0 1%nat (pending head hdr [q0; q1]) = web_bind k (call p) (pending head hdr [q0; q1]) ->
  holds p s (fun o s' => match o with
                         | Returned a => answers (fun _ _ => k a) head hdr q0 q1 s' P
                         | Panicked v => P (panic_answer q1 v) s'
                         end) ->
  answers h head hdr q0 q1 s P.
Proof.
  intros E H. unfold answers. rewrite E. apply holds_bind, holds_finally.
  eapply holds_mono; [exact H|]. intros [a|v] s' H'; apply holds_ret; [exact H'|].
  apply holds_ret. exists (Pattern q1), (PathValues q1). rewrite set_match_self. right. eauto.
Qed.

Lemma answers_mono h head hdr q0 q1 s P P' :
  answers h head hdr q0 q1 s P -> (forall a s', P a s' -> P' a s') ->
  answers h head hdr q0 q1 s P'.
Proof.
  intros H HP. eapply holds_mono; [exact H|]. intros o s' (pat & vals & H').
  exists pat, vals. destruct H' as [(a & -> & Ha) | (v & -> & Hv)]; [left|right]; eauto.
Qed.

(** The router writes the match to the request struct it was given. *)
Lemma answers_mux mux head hdr q0 q1 s P :
  RequestURI q1 <> "*" ->
  (let '(h, pat, vals) := findHandler (redirect_location X) (redirect_body X) mux q1 in
   answers h head hdr q0 (set_match pat vals q1) s P) ->
  answers (mux_ServeHTTP (redirect_location X) (redirect_body X) mux) head hdr q0 q1 s P.
Proof.
  intros Hu. unfold answers at 2, mux_ServeHTTP. cbn -[findHandler String.eqb].
  destruct (String.eqb_spec (RequestURI q1) "*"); [done|].
  destruct (findHandler _ _ mux q1) as [[h pat] vals]. intros H.
  eapply holds_mono; [exact H|]. intros o s' (pat' & vals' & H'). by exists pat', vals'.
Qed.

Lemma answers_recover h head hdr q0 q1 s P :
  answers h head hdr q0 q1 s P ->
  holds (Recover X h W0 1%nat (pending head hdr [q0; q1])) s (fun o s' => exists pat vals a,
    o = Returned (Returned tt, answered head hdr [q0; set_match pat vals q1] a) /\ P a s').
Proof.
  intros H. apply holds_bind. eapply holds_mono; [exact H|].
  intros o s' (pat & vals & [(a & -> & HP) | (v & -> & HP)]).
  - apply holds_ret. eauto.
  - assert (forall m, m = Ret (Returned tt, answered head hdr [q0; set_match pat vals q1]
        (panic_answer q1 v)) ->
      holds m s' (fun o s' => exists pat vals a,
        o = Returned (Returned tt, answered head hdr [q0; set_match pat vals q1] a) /\ P a s'))
      as Hm by (intros m ->; apply holds_ret; eauto).
    apply Hm. by destruct head.
Qed.

(** ** The whole chain *)

Definition access_line (q : Request) (code d : Z) : log_line :=
  mkLog "INFO" "http_request"
    [("request_id", RequestIDFromContext (ctx q)); ("method", Method q); ("path", URL_Path q);
     ("status", Itoa code); ("duration_ms", Itoa d)].

Lemma access_log_answers h head hdr q0 q1 s P :
  answers h head hdr q0 q1 s P ->
  holds (AccessLog (Recover X h) (MetricsRecorder 0 Conn) 1%nat
           (mkWeb (mkConn head hdr None EmptyString) [mkRecorder 200 false] [q0; q1] [] ∅ [])) s
    (fun o s' => exists pat vals a d,
      o = Returned (Returned tt, add_log (access_line q1 (an_status a) d)
            (answered head hdr [q0; set_match pat vals q1] a)) /\ P a s').
Proof.
  intros H. unfold AccessLog. cbn -[Recover]. apply holds_now. intros start.
  apply holds_bind. eapply holds_mono; [by apply answers_recover|].
  intros o s' (pat & vals & a & -> & HP). cbn. apply holds_now. intros now. apply holds_ret.
  exists pat, vals, a, (Z.quot (now - start) 1000). done.
Qed.

(** The request as the server hands it over, and as the handlers see it. *)
Definition arrived (q : Request) : Request := set_match EmptyString [] (set_context ∅ q).
Definition identified (id : string) (q : Request) : Request :=
  set_context {[requestIDKey := id]} (arrived q).

Definition is_head (q : Request) : bool := String.eqb (Method q) "HEAD".

(** The id of the caller, or a generated one. *)
Definition request_id (q : Request) (id : string) : Prop :=
  if decide (Header_Get q requestIDHeader = EmptyString) then exists u, id = uuid_String X u
  else id = Header_Get q requestIDHeader.

(** The request is over: what the client got, what was logged and counted. *)
Record closed (q : Request) (id : string) (a : answer) (ws : webstate) : Prop := mkClosed {
  closed_response : response_of ws =
    mkResponse (an_status a) (set_headers (an_header a) {[requestIDHeader := id]})
      (sent_body (is_head q) (an_status a) (an_body a));
  closed_log : exists d, ws_log ws = an_log a ++ [access_line (identified id q) (an_status a) d];
  closed_total : ws_total ws = {[ (Method q, "_unmatched_"%string, Itoa (an_status a)) := 1%nat ]}
}.

Definition chained (h : Handler) : Handler :=
  HTTPMiddleware (Chain h [RequestID X; AccessLog; Recover X]).

Lemma request_id_answers h q s (P : string -> answer -> St -> Prop) :
  (forall id, request_id q id ->
     answers h (is_head q) {[requestIDHeader := id]} (arrived q) (identified id q) s (P id)) ->
  holds (RequestID X (AccessLog (Recover X h)) (MetricsRecorder 0 Conn) 0%nat
           (set_recorders [mkRecorder 200 false] (arrive q))) s (fun o s' =>
    exists pat vals id a d,
      o = Returned (Returned tt, add_log (access_line (identified id q) (an_status a) d)
            (answered (is_head q) {[requestIDHeader := id]}
               [arrived q; set_match pat vals (identified id q)] a)) /\
      request_id q id /\ P id a s').
Proof.
  intros H. unfold RequestID.
  assert (forall m id, request_id q id ->
    m = AccessLog (Recover X h) (MetricsRecorder 0 Conn) 1%nat
           (mkWeb (mkConn (is_head q) {[requestIDHeader := id]} None EmptyString)
              [mkRecorder 200 false] [arrived q; identified id q] [] ∅ []) ->
    holds m s (fun o s' => exists pat vals id a d,
      o = Returned (Returned tt, add_log (access_line (identified id q) (an_status a) d)
            (answered (is_head q) {[requestIDHeader := id]}
               [arrived q; set_match pat vals (identified id q)] a)) /\
      request_id q id /\ P id a s')) as Hid.
  { intros m id Hid ->. eapply holds_mono; [by apply access_log_answers, H|].
    intros o s' (pat & vals & a & d & -> & HP). by exists pat, vals, id, a, d. }
  cbn -[AccessLog Recover Header_Get].
  change (Header_Get (set_match EmptyString [] (set_context ∅ q)) requestIDHeader)
    with (Header_Get q requestIDHeader).
  unfold request_id in *.
  destruct (String.eqb_spec (Header_Get q requestIDHeader) EmptyString) as [E|E].
  - apply holds_uuid. intros u. apply (Hid _ (uuid_String X u)); [|done].
    rewrite decide_True by done. eauto.
  - apply (Hid _ (Header_Get q requestIDHeader)); [|done]. by rewrite decide_False.
Qed.

Lemma chained_answers h q s (P : string -> answer -> St -> Prop) :
  (forall id, request_id q id ->
     answers h (is_head q) {[requestIDHeader := id]} (arrived q) (identified id q) s (P id)) ->
  holds (serve_http (chained h) q) s (fun o s' =>
    exists ws id a, o = Returned (Returned tt, ws) /\ closed q id a ws /\ request_id q id /\
      P id a s').
Proof.
  intros H. unfold serve_http, chained, HTTPMiddleware. cbn -[AccessLog Recover].
  apply holds_now. intros start. apply holds_bind.
  eapply holds_mono; [by apply (request_id_answers h q s P)|].
  intros o s' (pat & vals & id & a & d & -> & Hid & HP).
  cbn -[Itoa]. apply holds_now. intros now. apply holds_ret.
  eexists _, id, a. split; [done|]. split; [|done]. split; [done|by exists d|done].
Qed.

(** ** What a request means *)

Definition bad_request (msg : string) : answer := json_answer 400 (errorBody msg).

(** The service request of an HTTP request, or the answer it gets without. *)
Definition dispatch_endpoint (q : Request) (e : endpoint) : api + answer :=
  match e with
  | EPostTransfers =>
      match decode_createTransferRequest (Body q) with
      | Some req => inl (CreateTransfer (mkCreateTransferRequest (ctr_IdempotencyKey req)
                      (ctr_FromWalletID req) (ctr_ToWalletID req) (ctr_Amount req)))
      | None => inr (bad_request ("invalid json: " +:+ json_error_text X (Body q)))
      end
  | EGetTransfer id =>
      match uuid_Parse X id with
      | Some u => inl (ReadTransfer u)
      | None => inr (bad_request "invalid transfer id")
      end
  | EPostWallets =>
      match decode_createWalletRequest (Body q) with
      | Some req => inl (CreateWallet (cwr_ID req) (cwr_Balance req))
      | None => inr (bad_request ("invalid json: " +:+ json_error_text X (Body q)))
      end
  | EGetWallet id => inl (ReadWallet id)
  | EListTransfers id =>
      match parseListQuery q with
      | Ok (limit, before) => inl (Concurrency.ListTransfers id limit before)
      | Err err => inr (bad_request (Error X err))
      end
  | EHealthz => inr (mkAnswer 200 [] "ok" [])
  end.

Definition plain_error (text : string) (code : Z) (headers : list (string * string)) : answer :=
  mkAnswer code (headers ++ [("Content-Type", "text/plain; charset=utf-8");
                             ("X-Content-Type-Options", "nosniff")]) (text +:+ newline) [].

Definition is_get (q : Request) : bool := String.eqb (Method q) "GET".

Definition moved (q : Request) (path : string) : answer :=
  mkAnswer 301
    (("Location", redirect_location X path (URL_RawQuery q)) ::
     (if is_get q || is_head q then [("Content-Type", "text/html; charset=utf-8")] else []))
    (if is_get q then redirect_body X path (URL_RawQuery q) else EmptyString) [].

Definition dispatch (q : Request) : api + answer :=
  if String.eqb (RequestURI q) "*" then inr (mkAnswer 400 [("Connection", "close")] EmptyString [])
  else
    match route_to (Method q) (URL_EscapedPath q) with
    | Found e => dispatch_endpoint q e
    | Elsewhere path => inr (moved q path)
    | WrongMethod allowed =>
        inr (plain_error "Method Not Allowed" 405 [("Allow", join ", " allowed)])
    | NoRoute => inr (plain_error "404 page not found" 404 [])
    end.

(** ** What a reply of the service becomes *)

Definition transfer_json (t : Transfer) : answer :=
  json_answer 200 (json_transferResponse (toTransferResponse X t)).

Definition wallet_json (code : Z) (w : Wallet) : answer :=
  json_answer code (json_walletResponse (toWalletResponse w)).

Definition render_reply (q : Request) (a : api) (r : reply) : answer :=
  match r with
  | TransferCreated (Ok (Some t)) | TransferRead (Ok t) => transfer_json t
  | TransferCreated (Ok None) => panic_answer q nil_dereference
  | TransfersListed (Ok (rows, next)) =>
      json_answer 200 (json_transferListResponse (map (toTransferResponse X) rows)
        match next with Some t => format_nano t | None => EmptyString end)
  | WalletReplied (Ok w) =>
      wallet_json (match a with CreateWallet _ _ => 201 | _ => 200 end) w
  | TransferCreated (Err err) | TransferRead (Err err) | TransfersListed (Err err)
  | WalletReplied (Err err) => error_answer q err
  end.

Definition render (q : Request) (a : api) (o : outcome reply) : answer :=
  match o with
  | Returned r => render_reply q a r
  | Panicked v => panic_answer q v
  end.

(** ** The handlers answer so *)

Section endpoints.
Context (head : bool) (hdr : gmap string string) (q0 q1 : Request).

Lemma answers_json (h : Handler) s code text P :
  code ∈ statuses ->
  h W0 1%nat (pending head hdr [q0; q1]) = writeJSON W0 code (Some text) (pending head hdr [q0; q1]) ->
  P (json_answer code text) s -> answers h head hdr q0 q1 s P.
Proof.
  intros Hc E HP. eapply answers_ret; [|exact HP]. rewrite E. by apply writeJSON_pending.
Qed.

Lemma answers_error (h : Handler) s err P :
  h W0 1%nat (pending head hdr [q0; q1]) = writeError X W0 1 err (pending head hdr [q0; q1]) ->
  P (error_answer q1 err) s -> answers h head hdr q0 q1 s P.
Proof. intros E HP. eapply answers_ret; [|exact HP]. rewrite E. apply writeError_pending. Qed.

Lemma deref_step {B} (k : Request -> web B) :
  web_bind k (deref 1) (pending head hdr [q0; q1]) = k q1 (pending head hdr [q0; q1]).
Proof. done. Qed.

(** Call the service, answer as its reply is rendered. *)
Lemma answers_serve {A} (h : Handler) (p : svc A) (f : A -> reply) (k : A -> web unit) a s
    (P : outcome reply -> St -> Prop) :
  serve a = proc_bind (fun x => Ret (f x)) p ->
  h W0 1%nat (pending head hdr [q0; q1]) = web_bind k (call p) (pending head hdr [q0; q1]) ->
  (forall x s', P (Returned (f x)) s' ->
     answers (fun _ _ => k x) head hdr q0 q1 s' (fun ans s'' =>
       ans = render_reply q1 a (f x) /\ s'' = s')) ->
  holds (serve a) s P ->
  answers h head hdr q0 q1 s (fun ans s' => exists o, ans = render q1 a o /\ P o s').
Proof.
  intros Hs E Hk H. rewrite Hs in H. apply holds_map in H. apply (answers_call h p k); [exact E|].
  eapply holds_mono; [exact H|]. intros [x|v] s' HP; [|by exists (Panicked v)].
  eapply answers_mono; [by apply Hk|]. intros ans s'' [-> ->]. by exists (Returned (f x)).
Qed.

Lemma path_value id : PathValues q1 = [("id"%string, id)] -> PathValue q1 "id" = id.
Proof. unfold PathValue. by intros ->. Qed.

(** The handlers with the services of the program. *)
Definition endpoint_handler (e : endpoint) : Handler :=
  handler_of X (NewTransferHandler transferSvc) (NewWalletHandler walletSvc transferSvc) e.

Lemma answers_write (k : web unit) s code text (Q : answer -> St -> Prop) :
  k = writeJSON W0 code (Some text) -> code ∈ statuses -> Q (json_answer code text) s ->
  answers (fun _ _ => k) head hdr q0 q1 s Q.
Proof. intros -> Hc HQ. by apply (answers_json _ s code text). Qed.

Lemma answers_write_error (k : web unit) s err (Q : answer -> St -> Prop) :
  k = writeError X W0 1 err -> Q (error_answer q1 err) s ->
  answers (fun _ _ => k) head hdr q0 q1 s Q.
Proof. intros -> HQ. by apply (answers_error _ s err). Qed.

Section served.
Context (s : St) (P : outcome reply -> St -> Prop).

Definition served (e : endpoint) (a : api) : Prop :=
  holds (serve a) s P ->
  answers (endpoint_handler e) head hdr q0 q1 s (fun ans s' =>
    exists o, ans = render q1 a o /\ P o s').

Lemma serves_create req :
  decode_createTransferRequest (Body q1) = Some req ->
  served EPostTransfers (CreateTransfer (mkCreateTransferRequest (ctr_IdempotencyKey req)
    (ctr_FromWalletID req) (ctr_ToWalletID req) (ctr_Amount req))).
Proof.
  intros Hd Hs. eapply answers_serve; [reflexivity| | |exact Hs].
  - unfold endpoint_handler, handler_of, TransferHandler_Create. rewrite deref_step, Hd. reflexivity.
  - intros [[t|]|err] s' _; cbn beta iota.
    + by eapply answers_write; [reflexivity|code_ok|].
    + by eapply answers_panic.
    + by eapply answers_write_error.
Qed.

Lemma serves_read id u :
  PathValues q1 = values_of (EGetTransfer id) -> uuid_Parse X id = Some u ->
  served (EGetTransfer id) (ReadTransfer u).
Proof.
  intros Hv Hu Hs. eapply answers_serve; [reflexivity| | |exact Hs].
  - unfold endpoint_handler, handler_of, TransferHandler_Get. rewrite deref_step.
    rewrite (path_value id Hv), Hu. reflexivity.
  - intros [t|err] s' _; cbn beta iota.
    + by eapply answers_write; [reflexivity|code_ok|].
    + by eapply answers_write_error.
Qed.

Lemma serves_create_wallet req :
  decode_createWalletRequest (Body q1) = Some req ->
  served EPostWallets (CreateWallet (cwr_ID req) (cwr_Balance req)).
Proof.
  intros Hd Hs. eapply answers_serve; [reflexivity| | |exact Hs].
  - unfold endpoint_handler, handler_of, WalletHandler_Create. rewrite deref_step, Hd. reflexivity.
  - intros [w|err] s' _; cbn beta iota.
    + by eapply answers_write; [reflexivity|code_ok|].
    + by eapply answers_write_error.
Qed.

Lemma serves_read_wallet id :
  PathValues q1 = values_of (EGetWallet id) -> served (EGetWallet id) (ReadWallet id).
Proof.
  intros Hv Hs. eapply answers_serve; [reflexivity| | |exact Hs].
  - unfold endpoint_handler, handler_of, WalletHandler_Get. rewrite deref_step.
    rewrite (path_value id Hv). reflexivity.
  - intros [w|err] s' _; cbn beta iota.
    + by eapply answers_write; [reflexivity|code_ok|].
    + by eapply answers_write_error.
Qed.

Lemma serves_list id limit before :
  id <> EmptyString ->
  PathValues q1 = values_of (EListTransfers id) -> parseListQuery q1 = Ok (limit, before) ->
  served (EListTransfers id) (Concurrency.ListTransfers id limit before).
Proof.
  intros Hid Hv Hq Hs. eapply answers_serve; [reflexivity| | |exact Hs].
  - unfold endpoint_handler, handler_of, WalletHandler_ListTransfers. rewrite deref_step, Hq.
    rewrite (path_value id Hv). reflexivity.
  - intros [[rows next]|err] s' _; cbn beta iota.
    + by eapply answers_write; [reflexivity|code_ok|].
    + rewrite (proj2 (String.eqb_neq id EmptyString)) by done.
      rewrite andb_false_r. by eapply answers_write_error.
Qed.
End served.

(** Requests that do not reach the service. *)
Lemma refuses e s ans :
  PathValues q1 = values_of e -> dispatch_endpoint q1 e = inr ans ->
  answers (endpoint_handler e) head hdr q0 q1 s (fun ans' s' => ans' = ans /\ s' = s).
Proof.
  intros Hv Hd. destruct e as [|id| |id|id|]; cbn [dispatch_endpoint] in Hd.
  - destruct (decode_createTransferRequest (Body q1)) eqn:E; [done|]. injection Hd as <-.
    eapply (answers_json _ s 400); [code_ok| |split; reflexivity].
    unfold endpoint_handler, handler_of, TransferHandler_Create. by rewrite deref_step, E.
  - destruct (uuid_Parse X id) eqn:E; [done|]. injection Hd as <-.
    eapply (answers_json _ s 400); [code_ok| |split; reflexivity].
    unfold endpoint_handler, handler_of, TransferHandler_Get. rewrite deref_step.
    by rewrite (path_value id Hv), E.
  - destruct (decode_createWalletRequest (Body q1)) eqn:E; [done|]. injection Hd as <-.
    eapply (answers_json _ s 400); [code_ok| |split; reflexivity].
    unfold endpoint_handler, handler_of, WalletHandler_Create. by rewrite deref_step, E.
  - done.
  - destruct (parseListQuery q1) as [[limit before]|err] eqn:E; [done|]. injection Hd as <-.
    eapply (answers_json _ s 400); [code_ok| |split; reflexivity].
    unfold endpoint_handler, handler_of, WalletHandler_ListTransfers. by rewrite deref_step, E.
  - injection Hd as <-. eapply answers_ret; [|done].
    cbn [endpoint_handler handler_of]. unfold healthz.
    change (pending head hdr [q0; q1]) with
      (mkWeb (mkConn head hdr None EmptyString) [mkRecorder 200 false; mkRecorder 200 false]
         [q0; q1] [] ∅ []).
    rewrite (respond_pending head hdr [q0; q1] [] 200 "ok") by code_ok. done.
Qed.
End endpoints.

(** ** The mux, then the whole listener *)

Definition api_ServeHTTP : Handler :=
  mux_ServeHTTP (redirect_location X) (redirect_body X)
    (api_mux X (NewTransferHandler transferSvc) (NewWalletHandler walletSvc transferSvc)).

(** Routing does not change what is logged. *)
Lemma render_match pat vals q a o : render (set_match pat vals q) a o = render q a o.
Proof. reflexivity. Qed.

Section listener.
Context (head : bool) (id : string) (q0 q1 : Request) (s : St).
Let hdr : gmap string string := {[requestIDHeader := id]}.

(** The answers of the mux itself. *)
Lemma redirects path pat :
  answers (Redirect (redirect_location X) (redirect_body X) path (URL_RawQuery q1) 301)
    head hdr q0 (set_match pat [] q1) s (fun ans s' => ans = moved q1 path /\ s' = s).
Proof.
  eapply answers_ret; [|done]. unfold Redirect. rewrite deref_step. unfold moved, is_get, is_head.
  change (Method (set_match pat [] q1)) with (Method q1). unfold hdr, pending. rewrite read_step.
  cbn [conn_header ws_conn].
  rewrite (bool_decide_eq_false_2 (is_Some _))
    by (rewrite lookup_singleton_ne by done; by intros []).
  cbn [negb andb]. rewrite header_step. cbn [conn_head conn_header conn_sent conn_body].
  destruct (String.eqb_spec (Method q1) "GET") as [Eg|Eg]; cbn [orb].
  - rewrite header_step. cbn [conn_head conn_header conn_sent conn_body].
    by rewrite respond_pending by code_ok.
  - destruct (String.eqb (Method q1) "HEAD"); [rewrite header_step|rewrite ret_step];
      cbn [conn_head conn_header conn_sent conn_body];
      by rewrite (bind_ret_step _ _ _ _ _ (status_pending _ _ _ _ 301 ltac:(code_ok))).
Qed.

Lemma not_allowed allowed pat :
  answers (MethodNotAllowed allowed) head hdr q0 (set_match pat [] q1) s (fun ans s' =>
    ans = plain_error "Method Not Allowed" 405 [("Allow", join ", " allowed)] /\ s' = s).
Proof.
  eapply answers_ret; [|done]. unfold MethodNotAllowed, pending. rewrite header_step.
  cbn [conn_head conn_header conn_sent conn_body].
  fold (pending head (<["Allow" := join ", " allowed]> hdr) [q0; set_match pat [] q1]).
  by rewrite (http_Error_pending _ _ _ "Method Not Allowed" 405) by code_ok.
Qed.

Lemma not_found pat :
  answers NotFound head hdr q0 (set_match pat [] q1) s (fun ans s' =>
    ans = plain_error "404 page not found" 404 [] /\ s' = s).
Proof.
  eapply answers_ret; [|done]. unfold NotFound.
  by rewrite (http_Error_pending _ _ _ "404 page not found" 404) by code_ok.
Qed.

Lemma bad_uri :
  RequestURI q1 = "*" ->
  answers api_ServeHTTP head hdr q0 q1 s (fun ans s' =>
    ans = mkAnswer 400 [("Connection", "close")] EmptyString [] /\ s' = s).
Proof.
  intros Hu. eapply answers_ret; [|done]. unfold api_ServeHTTP, mux_ServeHTTP.
  rewrite deref_step, Hu. change (String.eqb "*" "*") with true. cbn iota.
  unfold pending. rewrite header_step. cbn [conn_head conn_header conn_sent conn_body].
  by rewrite status_pending by code_ok.
Qed.

(** The mux and the handlers answer as [dispatch] says. *)
Lemma answers_dispatch :
  match dispatch q1 with
  | inl a => forall P : outcome reply -> St -> Prop, holds (serve a) s P ->
      answers api_ServeHTTP head hdr q0 q1 s (fun ans s' => exists o, ans = render q1 a o /\ P o s')
  | inr ans =>
      answers api_ServeHTTP head hdr q0 q1 s (fun ans' s' => ans' = ans /\ s' = s)
  end.
Proof.
  unfold dispatch. destruct (String.eqb_spec (RequestURI q1) "*") as [Hu|Hu]; [by apply bad_uri|].
  destruct (findHandler_route X (NewTransferHandler transferSvc)
    (NewWalletHandler walletSvc transferSvc) q1) as [pat Hf].
  destruct (route_to (Method q1) (URL_EscapedPath q1)) as [e|path|allowed|] eqn:Hr.
  - pose proof (route_id_nonempty _ _ _ Hr) as Hid.
    assert (forall P, answers (endpoint_handler e) head hdr q0
      (set_match (pattern_of e) (values_of e) q1) s P -> answers api_ServeHTTP head hdr q0 q1 s P)
      as Hmux by (intros P H; apply answers_mux; [done|by rewrite Hf]).
    destruct (dispatch_endpoint q1 e) as [a|ans] eqn:Hd; [|by apply Hmux, refuses].
    intros P HP. apply Hmux. pose (q := set_match (pattern_of e) (values_of e) q1).
    enough (served head hdr q0 q s P e a) as Hserved.
    { eapply answers_mono; [by apply Hserved|]. intros ans s' (o & -> & Ho).
      exists o. by rewrite <- (render_match (pattern_of e) (values_of e)). }
    destruct e as [|i| |i|i|]; cbn [dispatch_endpoint] in Hd.
    + destruct (decode_createTransferRequest (Body q1)) eqn:E; [|done]. injection Hd as <-.
      by apply serves_create.
    + destruct (uuid_Parse X i) eqn:E; [|done]. injection Hd as <-. by apply serves_read.
    + destruct (decode_createWalletRequest (Body q1)) eqn:E; [|done]. injection Hd as <-.
      by apply serves_create_wallet.
    + injection Hd as <-. by apply serves_read_wallet.
    + destruct (parseListQuery q1) as [[limit before]|err] eqn:E; [|done]. injection Hd as <-.
      by apply serves_list.
    + done.
  - apply answers_mux; [done|]. rewrite Hf. apply redirects.
  - apply answers_mux; [done|]. rewrite Hf. apply not_allowed.
  - apply answers_mux; [done|]. rewrite Hf. apply not_found.
Qed.
End listener.

(** The listener is the chain around the mux. *)
Lemma apiHandler_chained : apiHandler X = chained api_ServeHTTP.
Proof. reflexivity. Qed.

Lemma dispatch_identified id q : dispatch (identified id q) = dispatch q.
Proof. reflexivity. Qed.

(** A request that means [a] is answered as the reply to [a] is rendered. *)
Lemma listener_serves q a s (P : outcome reply -> St -> Prop) :
  dispatch q = inl a -> holds (serve a) s P ->
  holds (serve_http (apiHandler X) q) s (fun o s' => exists ws id r,
    o = Returned (Returned tt, ws) /\ closed q id (render (identified id q) a r) ws /\
    request_id q id /\ P r s').
Proof.
  intros Hd H. rewrite apiHandler_chained. eapply holds_mono.
  - apply (chained_answers api_ServeHTTP q s (fun id ans s' =>
      exists r, ans = render (identified id q) a r /\ P r s')).
    intros id _. pose proof (answers_dispatch (is_head q) id (arrived q) (identified id q) s) as HA.
    rewrite dispatch_identified, Hd in HA. by apply HA.
  - intros o s' (ws & id & ans & -> & Hc & Hid & r & -> & HP). by exists ws, id, r.
Qed.

(** A request that means nothing to the service gets its answer. *)
Lemma listener_refuses q ans s :
  dispatch q = inr ans ->
  holds (serve_http (apiHandler X) q) s (fun o s' => exists ws id,
    o = Returned (Returned tt, ws) /\ closed q id ans ws /\ request_id q id /\ s' = s).
Proof.
  intros Hd. rewrite apiHandler_chained. eapply holds_mono.
  - apply (chained_answers api_ServeHTTP q s (fun id ans' s' => ans' = ans /\ s' = s)).
    intros id _. pose proof (answers_dispatch (is_head q) id (arrived q) (identified id q) s) as HA.
    by rewrite dispatch_identified, Hd in HA.
  - intros o s' (ws & id & ans' & -> & Hc & Hid & -> & ->). by exists ws, id.
Qed.
End http.
