(* ===== verification/HttpCorrect.v ===== *)
(** * Properties of the HTTP interface *)

From Stdlib Require Import Ascii.
From S2P Require Import Prelude GoRuntime Domain Database Repository Service Spec Machine.
From S2P Require Import RepositoryCorrect ServiceCorrect Workload Concurrency Scenario Sequential.
From S2P Require Import Strconv GoTime Json Web Mux Handlers Router Routes Logic Http.

(** ** Every answer the interface can give *)

Definition generic_bodies : list string := [errorBody internal_error +:+ newline; recover_body].

Record answer_ok (a : answer) : Prop := mkAnswerOk {
  ok_status : an_status a ∈ statuses;
  ok_header : Forall (fun kv => kv.1 <> requestIDHeader) (an_header a);
  ok_log : Forall (fun l => log_msg l <> "http_request"%string) (an_log a);
  ok_internal : 500 <= an_status a ->
    an_body a ∈ generic_bodies /\ an_header a = json_type /\
    Exists (fun l => log_level l = "ERROR"%string) (an_log a)
}.

Section answers.
Context (X : externals).

Ltac answer_tac := split; cbn -[Z.le];
  [code_ok|repeat constructor; done|repeat constructor; done|intros; lia].

Lemma json_answer_ok code text :
  code ∈ statuses -> code < 500 -> answer_ok (json_answer code text).
Proof. intros Hc Hlt. split; [done|repeat constructor; done|constructor|simpl; lia]. Qed.

Lemma panic_answer_ok q v : answer_ok (panic_answer X q v).
Proof.
  split; [cbn; code_ok|repeat constructor; done|repeat constructor; done|]. intros _.
  split_and!; [apply list_elem_of_In; simpl; auto|done|by repeat constructor].
Qed.

Lemma classify_internal err : 500 <= (classify X err).1 -> (classify X err).2 = internal_error.
Proof. unfold classify. repeat case_match; simpl; intros; try lia; done. Qed.

Lemma error_answer_ok q err : answer_ok (error_answer X q err).
Proof.
  unfold error_answer. split; cbn [an_status an_header an_log an_body].
  - apply error_status.
  - by repeat constructor.
  - case_decide; by repeat constructor.
  - intros H. rewrite decide_True by done. rewrite classify_internal by done.
    split_and!; [apply list_elem_of_In; simpl; auto|done|by repeat constructor].
Qed.

Lemma render_ok q a o : answer_ok (render X q a o).
Proof.
  destruct o as [r|v]; [|apply panic_answer_ok].
  destruct r as [[[t|]|err]|[t|err]|[[rows next]|err]|[w|err]]; cbn [render render_reply];
    try apply error_answer_ok; try apply panic_answer_ok; try (apply json_answer_ok; [code_ok|lia]).
  unfold wallet_json. destruct a; apply json_answer_ok; try code_ok; lia.
Qed.

Lemma dispatch_ok q ans : dispatch X q = inr ans -> answer_ok ans.
Proof.
  unfold dispatch. destruct (String.eqb _ "*"); [intros [= <-]; answer_tac|].
  destruct (route_to _ _) as [e|path|allowed|]; [|intros [= <-]..].
  - destruct e; cbn [dispatch_endpoint]; intros H; repeat case_match; simplify_eq;
      try (apply json_answer_ok; [code_ok|lia]); answer_tac.
  - unfold moved. destruct (_ || _); answer_tac.
  - answer_tac.
  - answer_tac.
Qed.
End answers.

(** ** Every request, whatever the database answers *)

Section every.
Context (X : externals) (q : Request).

(** Any run of the listener on [q] ends with an answer of the interface. *)
Lemma always_answered :
  always (serve_http (apiHandler X) q) (fun o => exists ws id a,
    o = Returned (Returned tt, ws) /\ closed q id a ws /\ request_id X q id /\ answer_ok a).
Proof.
  destruct (dispatch X q) as [a|ans] eqn:Hd.
  - pose proof (listener_serves X everything q a tt (fun _ _ => True) Hd) as H.
    eapply always_mono; [apply H; by apply always_total|].
    intros o (ws & id & r & -> & Hc & Hid & _). exists ws, id, (render X (identified id q) a r).
    split_and!; try done. apply render_ok.
  - eapply always_mono; [exact (listener_refuses X everything q ans tt Hd)|].
    intros o (ws & id & -> & Hc & Hid & _). exists ws, id, ans. split_and!; try done.
    by eapply dispatch_ok.
Qed.

Lemma set_headers_other l (m : gmap string string) k :
  Forall (fun kv => kv.1 <> k) l -> set_headers l m !! k = m !! k.
Proof.
  intros Hl. revert m. induction Hl as [|kv l Hk _ IH]; intros m; [done|].
  simpl. by rewrite IH, lookup_insert_ne.
Qed.

(** C14: every request is answered.  Whatever the database answers and whatever
    panics inside the handlers, the chain returns normally: the client gets one
    of eight statuses and the request's id, its own or a generated one, in
    [X-Request-Id]. *)
Theorem every_request_is_answered :
  always (serve_http (apiHandler X) q) (fun o => exists ws id,
    o = Returned (Returned tt, ws) /\
    rsp_status (response_of ws) ∈ [200; 201; 301; 400; 404; 405; 409; 500] /\
    rsp_header (response_of ws) !! "X-Request-Id"%string = Some id /\ request_id X q id).
Proof.
  eapply always_mono; [apply always_answered|].
  intros o (ws & id & a & -> & [Hr _ _] & Hid & Ha). exists ws, id. rewrite Hr. simpl.
  split_and!; [done|apply Ha| |done].
  rewrite set_headers_other by apply Ha. apply lookup_singleton_eq.
Qed.

(** C15: nothing internal leaks.  Whatever goes wrong, an answer of 500 or more
    has one of two fixed bodies with the text "internal error" (none for a
    HEAD), and what went wrong is in an ERROR line of the log. *)
Theorem internals_stay_hidden :
  always (serve_http (apiHandler X) q) (fun o => exists ws,
    o = Returned (Returned tt, ws) /\
    (500 <= rsp_status (response_of ws) ->
       rsp_body (response_of ws) ∈ [EmptyString; errorBody internal_error;
                                    errorBody internal_error +:+ newline] /\
       rsp_header (response_of ws) !! "Content-Type"%string = Some "application/json"%string /\
       Exists (fun l => log_level l = "ERROR"%string) (ws_log ws))).
Proof.
  eapply always_mono; [apply always_answered|].
  intros o (ws & id & a & -> & [Hr [d Hl] _] & Hid & Ha). exists ws. split; [done|].
  rewrite Hr, Hl. cbn [rsp_status rsp_body rsp_header]. intros H5.
  destruct (ok_internal a Ha H5) as (Hb & Hh & He). rewrite Hh. split_and!.
  - unfold sent_body. destruct (_ && _); [|apply list_elem_of_In; simpl; auto].
    apply list_elem_of_In in Hb. simpl in Hb. apply list_elem_of_In. simpl.
    destruct Hb as [<- | [<- | []]]; auto.
  - simpl. apply lookup_insert_eq.
  - apply Exists_app. by left.
Qed.

(** C21: one access line and one count, with the status the client got.  The
    counter's route label is always the one for unmatched requests: the route
    is written to the copy of the request that [RequestID] made. *)
Theorem logged_and_counted :
  always (serve_http (apiHandler X) q) (fun o => exists ws code lines id d,
    o = Returned (Returned tt, ws) /\ rsp_status (response_of ws) = code /\
    ws_log ws = lines ++ [mkLog "INFO" "http_request"
      [("request_id", id); ("method", Method q); ("path", URL_Path q); ("status", Itoa code);
       ("duration_ms", Itoa d)]] /\ request_id X q id /\
    Forall (fun l => log_msg l <> "http_request"%string) lines /\
    ws_total ws = {[ (Method q, "_unmatched_"%string, Itoa code) := 1%nat ]}).
Proof.
  eapply always_mono; [apply always_answered|].
  intros o (ws & id & a & -> & [Hr [d Hl] Ht] & Hid & Ha).
  exists ws, (an_status a), (an_log a), id, d. rewrite Hr, Hl, Ht.
  split_and!; try done. apply Ha.
Qed.
End every.

(** C13: HTTP refines the service's requests.  [dispatch] reads off a request
    what it asks of the service, or the answer it gets without the service.
    However service programs are run ([Logic]): when running the service
    request ends as [P] says, so does the listener, and the client gets that
    reply rendered as JSON, a classified error, or the 500 of a panic; a
    request that asks nothing leaves the state as it was. *)
Theorem http_refines_api X (L : Logic) q s :
  match dispatch X q with
  | inl a => forall P : outcome reply -> St -> Prop, holds (serve a) s P ->
      holds (serve_http (apiHandler X) q) s (fun o s' => exists ws id r,
        o = Returned (Returned tt, ws) /\ closed q id (render X (identified id q) a r) ws /\
        request_id X q id /\ P r s')
  | inr ans =>
      holds (serve_http (apiHandler X) q) s (fun o s' => exists ws id,
        o = Returned (Returned tt, ws) /\ closed q id ans ws /\ request_id X q id /\ s' = s)
  end.
Proof.
  destruct (dispatch X q) as [a|ans] eqn:Hd; [|by apply listener_refuses].
  intros P. by apply listener_serves.
Qed.

(** Only the API is served.  A path whose first segment is none of the
    three the API has (such as the [debug] and [metrics] of the admin listener)
    gets 404 from every method, or 301 when the path is not clean. *)
Lemma only_api_paths_are_served X q seg rest :
  let path := if String.eqb (Method q) "CONNECT" then URL_EscapedPath q
              else cleanPath (URL_EscapedPath q) in
  RequestURI q <> "*" -> segments_of path = seg :: rest ->
  seg ∉ ["transfers"; "wallets"; "healthz"] ->
  always (serve_http (apiHandler X) q) (fun o => exists ws, o = Returned (Returned tt, ws) /\
    rsp_status (response_of ws) = if decide (path = URL_EscapedPath q) then 404 else 301).
Proof.
  intros path Hu Hseg Hno.
  assert (seg <> "transfers" /\ seg <> "wallets" /\ seg <> "healthz") as (Ht & Hw & Hh)
    by (rewrite list_elem_of_In in Hno; simpl in Hno; naive_solver).
  apply String.eqb_neq in Ht, Hw, Hh.
  assert (get_endpoint (segments_of path) = None /\ post_endpoint (segments_of path) = None)
    as [Hg Hp].
  { rewrite Hseg. unfold get_endpoint, post_endpoint.
    destruct rest as [|b [|c [|d rest]]]; rewrite ?Ht, ?Hw, ?Hh; by repeat case_match. }
  assert (dispatch X q = inr (if decide (path = URL_EscapedPath q)
    then plain_error "404 page not found" 404 [] else moved X q path)) as Hd.
  { unfold dispatch. rewrite (proj2 (String.eqb_neq _ _) Hu). unfold route_to. fold path.
    destruct (String.eqb_spec path (URL_EscapedPath q)) as [E|E]; cbn [negb];
      [rewrite decide_True by done|by rewrite decide_False].
    unfold endpoint_of. rewrite Hg, Hp. by repeat case_match. }
  eapply always_mono; [exact (listener_refuses X everything q _ tt Hd)|].
  intros o (ws & id & -> & [Hr _ _] & _). exists ws. split; [done|]. rewrite Hr. by case_decide.
Qed.

(** ** Round trips *)

(** A request body as a client writes it. *)
Definition encode_createTransferRequest (key from to : string) (amount : Z) : string :=
  json_object [("idempotencyKey", json_string key); ("fromWalletId", json_string from);
               ("toWalletId", json_string to); ("amount", json_int amount)].

(** A transfer request is read as it was written.  The decoder reads the
    encoding of any key, ids and int64 amount back, with the replacement
    character for bytes that are not UTF-8, and does not look at what follows. *)
Lemma request_round_trip key from to amount rest :
  in_int64 amount ->
  decode_createTransferRequest (encode_createTransferRequest key from to amount +:+ rest)
  = Some (mk_createTransferRequest (to_valid key) (to_valid from) (to_valid to) amount).
Proof.
  intros Ha. unfold decode_createTransferRequest, encode_createTransferRequest.
  pose proof (Decode_encode createTransferRequest_fields
    [("idempotencyKey", VString key); ("fromWalletId", VString from); ("toWalletId", VString to);
     ("amount", VInt64 amount)] rest) as H.
  cbn [encode_fields map fst snd encode_value] in H. rewrite H; [done| |done].
  repeat constructor; try done; apply Ha.
Qed.

Lemma request_round_trip_witness :
  decode_createTransferRequest (encode_createTransferRequest "k1" alice bob 30 +:+ newline)
  = Some (mk_createTransferRequest (to_valid "k1") (to_valid alice) (to_valid bob) 30).
Proof. apply request_round_trip. split; by vm_compute. Defined.

(** What a query setting has to be free of. *)
Definition query_char (c : ascii) : bool :=
  literal_char c && negb (Ascii.eqb c "&"%char) && negb (Ascii.eqb c ";"%char).

Lemma query_char_digit d : 0 <= d < 10 -> query_char (digit d) = true.
Proof. exact (forall_below (fun d => query_char (digit d)) 10 eq_refl d). Qed.

Lemma query_char_time c : time_char c = true -> query_char c = true.
Proof. each_byte c; done. Qed.

Lemma query_setting_plain k v :
  all_chars query_char (k +:+ "=" +:+ v) = true -> k <> EmptyString ->
  free "="%char k = true ->
  query_setting (k +:+ "=" +:+ v) = [(k, v)].
Proof.
  intros Hq Hk Hf. unfold query_setting.
  assert (contains ";"%char (k +:+ "=" +:+ v) = false) as ->.
  { revert Hq. generalize (k +:+ "=" +:+ v). intros s. induction s as [|c s IH]; [done|].
    cbn [all_chars contains]. rewrite andb_true_iff. intros [Hc Hs]. rewrite (IH Hs), orb_false_r.
    unfold query_char in Hc. apply andb_true_iff in Hc as [_ Hc]. apply negb_true_iff in Hc.
    by rewrite Ascii.eqb_sym. }
  assert (forall s, String.eqb (k +:+ s) EmptyString = false) as -> by (by destruct k).
  assert (cut "="%char (k +:+ "=" +:+ v) = (k, Some v)) as ->.
  { clear Hq Hk. revert Hf. unfold free. induction k as [|c k IH]; [done|].
    cbn [all_chars]. rewrite andb_true_iff, negb_true_iff. intros [Hc Hk].
    change (String c k +:+ ?s) with (String c (k +:+ s)). cbn [cut]. by rewrite Hc, IH. }
  assert (forall s, all_chars query_char s = true -> QueryUnescape s = Some s) as Hun.
  { intros s Hs. apply percent_decode_literal. revert Hs. apply all_chars_weaken.
    intros c. unfold query_char. rewrite !andb_true_iff. tauto. }
  rewrite all_chars_app in Hq. apply andb_true_iff in Hq as [H1 H2].
  simpl in H2. change (default EmptyString (Some v)) with v. by rewrite (Hun k H1), (Hun v H2).
Qed.

(** C34: the cursor of a page asks for the next one.  The [nextCursor] of a
    history response, put into the query with a limit, is parsed back as
    exactly the creation time it stands for, in the years 0 to 9999. *)
Theorem cursor_round_trip q n t :
  URL_RawQuery q = "limit=" +:+ Itoa n +:+ "&before=" +:+ format_nano t ->
  0 <= n <= int64_max -> 0 <= year_of t <= 9999 ->
  parseListQuery q = Ok (n, Some t).
Proof.
  intros Hq Hn Hy. unfold parseListQuery, parseQuery.
  assert (all_chars query_char (Itoa n) = true) as Hcn
    by (apply Itoa_chars; [exact query_char_digit|lia]).
  assert (all_chars query_char (format_nano t) = true) as Hct
    by (eapply all_chars_weaken; [exact query_char_time|apply format_nano_chars]).
  assert (forall s, all_chars query_char s = true -> free "&"%char s = true) as Hfree.
  { intros s. apply all_chars_weaken. intros c. unfold query_char. rewrite !andb_true_iff. tauto. }
  assert (split "&"%char (URL_RawQuery q) = ["limit=" +:+ Itoa n; "before=" +:+ format_nano t]) as ->.
  { rewrite Hq. change ("&before=" +:+ ?s) with (String "&"%char ("before=" +:+ s)).
    rewrite <- app_assoc_string.
    rewrite split_cons by (apply Hfree; by rewrite all_chars_app, Hcn).
    rewrite split_single by (apply Hfree; by rewrite all_chars_app, Hct). done. }
  cbn [map concat].
  change ("limit=" +:+ ?s) with ("limit" +:+ "=" +:+ s).
  change ("before=" +:+ ?s) with ("before" +:+ "=" +:+ s).
  rewrite (query_setting_plain "limit" (Itoa n)) by (rewrite ?all_chars_app, ?Hcn; done).
  rewrite (query_setting_plain "before" (format_nano t)) by (rewrite ?all_chars_app, ?Hct; done).
  unfold Query_Get. cbn -[Itoa format_nano parse_limit parse_before].
  unfold parse_limit, parse_before.
  assert (forall s, s <> EmptyString -> String.eqb s EmptyString = false) as Hne
    by (intros s; apply String.eqb_neq).
  rewrite Hne by (intros E; pose proof (Atoi_Itoa n) as H; rewrite E in H;
    specialize (H ltac:(unfold in_int64, int64_min; lia)); by vm_compute in H).
  rewrite Atoi_Itoa by (unfold in_int64, int64_min; lia). rewrite decide_False by lia.
  rewrite Hne by (intros E; pose proof (parse_format_nano t Hy) as H; by rewrite E in H).
  by rewrite parse_format_nano.
Qed.

Definition cursor_request : Request :=
  mkRequest "GET" "/wallets/alice/transfers" "/wallets/alice/transfers" "/wallets/alice/transfers"
    "limit=2&before=2024-05-27T12:00:00.00012Z" ∅ EmptyString ∅ EmptyString [].

Lemma cursor_round_trip_witness :
  parseListQuery cursor_request = Ok (2, Some 1716811200000120).
Proof. apply cursor_round_trip; [by vm_compute|done|by vm_compute]. Defined.

(** ** POST /transfers, end to end *)

(** [listener_serves] for a request run alone. *)
Lemma listener_alone X q ok a S (P : outcome reply -> shared -> option txn -> Prop) :
  dispatch X q = inl a -> ends ok (serve a) S None P ->
  ends ok (serve_http (apiHandler X) q) S None (fun o S' T' => exists ws id r,
    o = Returned (Returned tt, ws) /\ closed q id (render X (identified id q) a r) ws /\
    request_id X q id /\ P r S' T').
Proof.
  intros Hd H.
  exact (listener_serves X (alone ok) q a (S, None) (fun o s' => P o s'.1 s'.2) Hd H).
Qed.

Definition service_request (c : createTransferRequest) : CreateTransferRequest :=
  mkCreateTransferRequest (ctr_IdempotencyKey c) (ctr_FromWalletID c) (ctr_ToWalletID c)
    (ctr_Amount c).

(** [q] is a POST to /transfers whose body reads as [c]. *)
Record posts_transfer (q : Request) (c : createTransferRequest) : Prop := mkPosts {
  posts_method : Method q = "POST";
  posts_path : URL_EscapedPath q = "/transfers";
  posts_uri : RequestURI q <> "*";
  posts_body : decode_createTransferRequest (Body q) = Some c
}.

Section post.
Context (X : externals) (q : Request) (c : createTransferRequest) (Hq : posts_transfer q c).
Let req : CreateTransferRequest := service_request c.

Lemma dispatch_post : dispatch X q = inl (CreateTransfer req).
Proof using Hq.
  destruct Hq as [Hm Hp Hu Hb]. unfold dispatch. rewrite Hm, Hp.
  destruct (String.eqb_spec (RequestURI q) "*"); [done|].
  change (route_to "POST" "/transfers") with (Found EPostTransfers).
  cbn [dispatch_endpoint]. by rewrite Hb.
Qed.

(** The response to a request that is not a HEAD. *)
Lemma response_post id a ws :
  closed q id a ws -> bodyAllowedForStatus (an_status a) = true ->
  response_of ws = mkResponse (an_status a) (set_headers (an_header a) {[requestIDHeader := id]})
                     (an_body a).
Proof using Hq.
  intros [-> _ _] Hb. f_equal. unfold sent_body, is_head. rewrite Hb, (posts_method _ _ Hq). done.
Qed.

(** The headers of a JSON response. *)
Definition json_headers (id : string) : gmap string string :=
  <["Content-Type" := "application/json"]> {["X-Request-Id" := id]}.

(** C23: a funded transfer over HTTP.  With both wallets there, the key unused,
    enough money and room, POST /transfers alone and without faults answers 200
    with the JSON of a PROCESSED transfer with a fresh id, and the database
    changes by exactly that transfer. *)
Theorem post_transfer_moves_money S cs src dst :
  db_inv (sh_db S) -> Validate req = None -> in_int64 (Amount req) -> fresh_world S cs ->
  wallets (sh_db S) !! FromWalletID req = Some src ->
  wallets (sh_db S) !! ToWalletID req = Some dst ->
  idempotency_records (sh_db S) !! IdempotencyKey req = None ->
  Amount req <= Wallet_Balance src -> Wallet_Balance dst + Amount req <= int64_max ->
  exists u now id ws S', transfers (sh_db S) !! u = None /\ request_id X q id /\
    run cs (serve_http (apiHandler X) q) S None = (Returned (Returned tt, ws), S', None) /\
    response_of ws = mkResponse 200 (json_headers id)
      (json_transferResponse (toTransferResponse X
         (select_transfer (transfer_row (run_inputs S req u now) StateProcessed None)))
       +:+ newline) /\
    sh_db S' = processed_effect (run_inputs S req u now) src dst (sh_db S).
Proof using Hq.
  intros Hinv Hv Ha Hw Hs Hd Hk Hle Hfit.
  assert (ends (usable S) (serve (CreateTransfer req)) S None (fun o S' T' => T' = None /\
    exists u now, transfers (sh_db S) !! u = None /\
      o = Returned (TransferCreated (Ok (Some
        (select_transfer (transfer_row (run_inputs S req u now) StateProcessed None))))) /\
      sh_db S' = processed_effect (run_inputs S req u now) src dst (sh_db S))) as Hserve.
  { apply ends_bind. eapply ends_mono; [by apply (ends_funded S req cs Hinv Hv Ha Hw src dst)|].
    intros o S' T' (-> & r & -> & u & now & Hu & -> & Hdb & _). apply ends_ret. eauto 10. }
  pose proof (run_ends S cs Hw _ _ (listener_alone X q _ _ S _ dispatch_post Hserve)) as H.
  destruct (run cs _ S None) as [[o S'] T'].
  destruct H as (ws & id & r & -> & Hc & Hid & -> & u & now & Hu & -> & Hdb).
  exists u, now, id, ws, S'. split_and!; try done. by rewrite (response_post _ _ _ Hc).
Qed.

(** C24: an invalid transfer over HTTP.  Whatever the world does nothing changes
    and the answer is 400 with the text of the validation error; except for an
    empty wallet id, whose error is none that [classify] knows: it is answered
    as an internal error. *)
Theorem invalid_transfer_status S cs e :
  Validate req = Some e ->
  exists ws, run cs (serve_http (apiHandler X) q) S None = (Returned (Returned tt, ws), S, None) /\
    rsp_status (response_of ws) = (if decide (e = ErrWalletIDRequired) then 500 else 400) /\
    rsp_body (response_of ws) =
      errorBody (if decide (e = ErrWalletIDRequired) then internal_error else Error X e) +:+ newline.
Proof using Hq.
  intros Hv.
  assert (ends (fun _ => True) (serve (CreateTransfer req)) S None (fun o S' T' =>
    o = Returned (TransferCreated (Err e)) /\ S' = S /\ T' = None)) as Hserve.
  { apply ends_bind, ends_vis. intros ch _. cbn [local_exec]. rewrite Hv.
    apply ends_ret. by apply ends_ret. }
  pose proof (listener_alone X q _ _ S _ dispatch_post Hserve cs (fun _ => I)) as H.
  destruct (run cs _ S None) as [[o S'] T'].
  destruct H as (ws & id & r & -> & Hc & _ & -> & -> & ->).
  exists ws. split; [done|].
  assert (classify X e = if decide (e = ErrWalletIDRequired) then (500, internal_error)
                         else (400, Error X e)) as Hcl.
  { unfold Validate in Hv. repeat case_decide; by simplify_eq. }
  cbn [render render_reply] in Hc. rewrite (response_post _ _ _ Hc);
    unfold error_answer; cbn [an_status an_body rsp_status rsp_body]; rewrite Hcl;
    by case_decide.
Qed.
End post.

(** ** The theorems at a concrete request *)

(** Stand-ins for the code outside the repository. *)
Definition demo : externals :=
  mkExternals (fun u => pretty u) (fun s => Z.to_N <$> Atoi s) (fun code _ => code)
    (fun _ => "unexpected input"%string) "stack" (fun path _ => path) (fun path _ => path).

Definition pay_request (amount : Z) (to : string) : Request :=
  mkRequest "POST" "/transfers" "/transfers" "/transfers" EmptyString
    {["X-Request-Id" := "req-1"]} (encode_createTransferRequest "k1" alice to amount) ∅ EmptyString [].

Definition pay_wire (amount : Z) (to : string) : createTransferRequest :=
  mk_createTransferRequest "k1" alice to amount.

Lemma pay_posts : posts_transfer (pay_request 30 bob) (pay_wire 30 bob).
Proof. split; [done..|by vm_compute]. Qed.

Lemma post_transfer_moves_money_witness :
  exists u now id ws S', transfers bank !! u = None /\ request_id demo (pay_request 30 bob) id /\
    run bank_world (serve_http (apiHandler demo) (pay_request 30 bob)) bank_shared None
    = (Returned (Returned tt, ws), S', None) /\
    response_of ws = mkResponse 200 (json_headers id)
      (json_transferResponse (toTransferResponse demo
         (select_transfer (transfer_row (run_inputs bank_shared (pay "k1" 30) u now)
                             StateProcessed None))) +:+ newline) /\
    sh_db S' = processed_effect (run_inputs bank_shared (pay "k1" 30) u now)
                 (mkWallet alice 100 1 1) (mkWallet bob 50 2 2) bank.
Proof.
  apply (post_transfer_moves_money demo (pay_request 30 bob) (pay_wire 30 bob) pay_posts
    bank_shared bank_world (mkWallet alice 100 1 1) (mkWallet bob 50 2 2));
    [exact bank_ok|done|done|exact bank_fresh|by vm_compute..].
Defined.

Lemma empty_wallet_posts : posts_transfer (pay_request 30 EmptyString) (pay_wire 30 EmptyString).
Proof. split; [done..|by vm_compute]. Qed.

Lemma invalid_transfer_status_witness :
  exists ws, run bank_world (serve_http (apiHandler demo) (pay_request 30 EmptyString)) bank_shared None
    = (Returned (Returned tt, ws), bank_shared, None) /\
    rsp_status (response_of ws) = 500 /\
    rsp_body (response_of ws) = errorBody internal_error +:+ newline.
Proof.
  exact (invalid_transfer_status demo (pay_request 30 EmptyString) (pay_wire 30 EmptyString)
    empty_wallet_posts bank_shared bank_world ErrWalletIDRequired eq_refl).
Defined.

(** The response of the example, written out. *)
Example pay_response :
  exists ws S', run bank_world (serve_http (apiHandler demo) (pay_request 30 bob)) bank_shared None
    = (Returned (Returned tt, ws), S', None) /\ rsp_status (response_of ws) = 200 /\
    (Wallet_Balance <$> wallets (sh_db S') !! alice) = Some 70 /\
    (Wallet_Balance <$> wallets (sh_db S') !! bob) = Some 80.
Proof. eexists _, _. split; [by vm_compute|]. by vm_compute. Qed.

Definition debug_request : Request :=
  mkRequest "GET" "/debug/pprof/heap" "/debug/pprof/heap" "/debug/pprof/heap" EmptyString ∅
    EmptyString ∅ EmptyString [].

Lemma only_api_paths_are_served_witness :
  always (serve_http (apiHandler demo) debug_request) (fun o => exists ws,
    o = Returned (Returned tt, ws) /\ rsp_status (response_of ws) = 404).
Proof.
  apply (only_api_paths_are_served demo debug_request "debug" ["pprof"; "heap"]);
    [done|by vm_compute|]. intros H. apply list_elem_of_In in H. simpl in H. by destruct_or! H.
Defined.
