(* ===== verification/HttpConcurrent.v ===== *)
(** * Many HTTP requests at once

    The requests of the public listener as a [Workload]: any bytes in the
    request line, headers and body, any number of requests, interleaved on one
    database through handlers, service and repositories.  What [dispatch] reads
    off a request meets its specification among the others ([among], a [Logic]),
    so the theorems of [Workload] are about the whole program. *)

From S2P Require Import Prelude GoRuntime Domain Database Repository Service Spec Machine Rely.
From S2P Require Import Workload RepositoryCorrect ServiceCorrect Concurrency Scenario Sequential.
From S2P Require Import Strconv GoTime Json Web Mux Handlers Router Routes Logic Http HttpCorrect.

(** ** A program among others, as a [Logic] *)

(** The rely may have moved the tables since the state the program left. *)
Definition wp_from {A} (p : svc A) (s : tables * option txn)
    (P : outcome A -> tables * option txn -> Prop) : Prop :=
  wp p s.1 s.2 (fun a C T => exists C0, rely (txn_locks T) C0 C /\ P (Returned a) (C0, T)).

Lemma wp_from_map {A B} (f : A -> B) (p : svc A) s (P : outcome B -> tables * option txn -> Prop) :
  wp_from (proc_bind (fun a => Ret (f a)) p) s P ->
  wp_from p s (fun o s' => P (outcome_map f o) s').
Proof.
  unfold wp_from. destruct s as [C T]. cbn [fst snd]. revert C T.
  induction p as [a|v|X o k IH]; intros C T H; [exact H|exact H|].
  intros S ch HR. destruct (H S ch HR) as [Ho H']. split; [done|].
  destruct (local_exec ch o S T) as [[x S'] T']. destruct H'. auto.
Qed.

#[refine] Definition among : Logic := {|
  St := tables * option txn;
  holds A p s P := wp_from p s P
|}.
Proof.
  - intros A a [C T] P H C' HR. by exists C.
  - intros A B f p [C T] P H. apply wp_bind. eapply wp_mono; [|exact H].
    intros a C' T' (C0 & HR & Hf). by eapply wp_stable.
  - intros A B h p [C T] P H. apply wp_finally. eapply wp_mono; [|exact H].
    intros a C' T' (C0 & HR & Hf). by eapply wp_stable.
  - intros A p [C T] P P' H HP. eapply wp_mono; [|exact H].
    intros a C' T' (C0 & HR & Hf). eauto.
  - intros A B f p s P H. by apply wp_from_map.
  - intros A k [C T] P H. by apply wp_TimeNow.
  - intros A k [C T] P H. by apply wp_NewUUID.
Defined.

(** ** The specification of an HTTP request *)

Section http.
Context (X : externals).

(** Whatever the body says, amounts and balances are int64. *)
Lemma dispatch_api_ok q a : dispatch X q = inl a -> api_ok a.
Proof.
  unfold dispatch. case_match; [done|]. destruct (route_to _ _) as [e| | |]; [|done..].
  destruct e; cbn [dispatch_endpoint];
    unfold decode_createTransferRequest, decode_createWalletRequest.
  - destruct (Decode _ _) as [l|] eqn:E; [|done]. intros [= <-].
    by eapply field_int64_range, Decode_ok.
  - case_match; by intros [= <-].
  - destruct (Decode _ _) as [l|] eqn:E; [|done]. intros [= <-].
    by eapply field_int64_range, Decode_ok.
  - by intros [= <-].
  - repeat case_match; by intros [= <-].
  - done.
Qed.

(** A response, with its request's id, log and count, that stands for the
    reply of the service, or for a request that never reached it. *)
Definition http_post (q : Request) (o : outcome unit * webstate) (C : tables) (T : option txn)
  : Prop :=
  T = None /\ exists ws id, o = (Returned tt, ws) /\ request_id X q id /\
  match dispatch X q with
  | inl a => exists r, closed q id (render X (identified id q) a (Returned r)) ws /\
                       reply_post a r C None
  | inr ans => closed q id ans ws
  end.

Lemma wp_http q C : wp (serve_http (apiHandler X) q) C None (http_post q).
Proof.
  destruct (dispatch X q) as [a|ans] eqn:Hd.
  - pose proof (listener_serves X among q a (C, None) (fun o s => exists r, o = Returned r /\
      s.2 = None /\ forall C', rely ∅ s.1 C' -> reply_post a r C' None) Hd) as H.
    eapply wp_mono; [|apply H].
    + intros o C' T (C0 & HR & ws & id & r & E & Hc & Hid & r' & -> & HT & Hpost).
      simpl in HT, Hpost. subst T. injection E as ->. split; [done|].
      exists ws, id. split_and!; [done..|]. rewrite Hd. exists r'. auto.
    + eapply wp_mono; [|apply wp_settled, wp_close, wp_serve; by eapply dispatch_api_ok].
      intros r C' T [Hi Hpost]. exists C'. split; [by apply rely_refl|].
      exists r. split; [done|]. pose proof (Hpost C' (rely_refl _ _ Hi)) as [-> _]. auto.
  - eapply wp_mono; [|exact (listener_refuses X among q ans (C, None) Hd)].
    intros o C' T (C0 & HR & ws & id & E & Hc & Hid & Es). injection Es as _ ->.
    injection E as ->. split; [done|]. exists ws, id. rewrite Hd. done.
Qed.

#[export] Instance http_workload : Workload Request (outcome unit * webstate) := {|
  wl_prog := serve_http (apiHandler X);
  wl_ok _ _ := True;
  wl_post := http_post;
  wl_spec q C _ := wp_http q C;
  wl_closed q o C T H := proj1 H
|}.
End http.

(** ** What any HTTP traffic reaches *)

Definition http_start (X : externals) : tables -> Z -> list Request -> config (outcome unit * webstate) :=
  start (WL := http_workload X).

Definition http_reachable (X : externals) (pool : nat) (t : tables) (seq : Z) (qs : list Request)
  (c : config (outcome unit * webstate)) : Prop := reachable (WL := http_workload X) pool t seq qs c.

(** Request [i] has its response. *)
Definition responded (c : config (outcome unit * webstate)) (i : nat) (rsp : response) : Prop :=
  exists ws, Workload.answered c i (Returned tt, ws) /\ rsp = response_of ws.

(** The body of a transfer's 200. *)
Definition transfer_body (X : externals) (tr : Transfer) : string :=
  json_transferResponse (toTransferResponse X tr) +:+ newline.

Section theorems.
Context (X : externals).
Variables (pool : nat) (t : tables) (seq : Z) (qs : list Request).
Hypothesis Hinv : db_inv t.

Lemma http_conf_ok c :
  http_reachable X pool t seq qs c -> conf_ok (WL := http_workload X) qs c.
Proof. apply reachable_conf_ok; [done|]. by apply Forall_forall. Qed.

(** The answer behind a response that is not to a HEAD. *)
Lemma responded_answer c i q a rsp :
  conf_ok (WL := http_workload X) qs c -> qs !! i = Some q -> dispatch X q = inl a ->
  responded c i rsp ->
  exists id r, request_id X q id /\ reply_post a r (committed c) None /\
    rsp = mkResponse (an_status (render X (identified id q) a (Returned r)))
      (set_headers (an_header (render X (identified id q) a (Returned r))) {[requestIDHeader := id]})
      (sent_body (is_head q) (an_status (render X (identified id q) a (Returned r)))
         (an_body (render X (identified id q) a (Returned r)))).
Proof.
  intros Hc Hi Hd (ws & Ha & ->).
  destruct (answered_post _ _ _ _ Hc Ha) as (q' & Hi' & [_ Hp] & _).
  simplify_eq. destruct Hp as (ws' & id & [= ->] & Hid & Hp). rewrite Hd in Hp.
  destruct Hp as (r & Hcl & Hpost). exists id, r. split_and!; [done..|apply Hcl].
Qed.

Lemma error_not_200 q err : an_status (error_answer X q err) <> 200.
Proof.
  unfold error_answer. cbn [an_status].
  destruct (classify_status X err) as [-> | [-> | [-> | ->]]]; done.
Qed.

(** A 200 to POST /transfers shows a committed transfer of its key. *)
Lemma posted c i q ctr rsp :
  conf_ok (WL := http_workload X) qs c -> qs !! i = Some q -> posts_transfer q ctr ->
  responded c i rsp -> rsp_status rsp = 200 ->
  exists tr, rsp_body rsp = transfer_body X tr /\ reply_ok (service_request ctr) tr (committed c).
Proof.
  intros Hc Hi Hq Hr H200. pose proof (dispatch_post X q ctr Hq) as Hd.
  destruct (responded_answer _ _ _ _ _ Hc Hi Hd Hr) as (id & r & _ & [_ Hpost] & ->).
  cbn [rsp_status rsp_body] in *. destruct r as [[[tr|]|err]|[]|[[]|]|[]]; try done.
  - exists tr. destruct Hpost as [_ Hok]. split; [|done].
    unfold sent_body, is_head. by rewrite (posts_method _ _ Hq).
  - by destruct (error_not_200 (identified id q) err).
Qed.

(** A 200 to GET /transfers/{id} shows the committed transfer. *)
Lemma fetched c i q u rsp :
  conf_ok (WL := http_workload X) qs c -> qs !! i = Some q -> Method q = "GET" ->
  dispatch X q = inl (ReadTransfer u) -> responded c i rsp -> rsp_status rsp = 200 ->
  exists tr, rsp_body rsp = transfer_body X tr /\ Transfer_ID tr = u /\
    shows_transfer (committed c) tr.
Proof.
  intros Hc Hi Hm Hd Hr H200.
  destruct (responded_answer _ _ _ _ _ Hc Hi Hd Hr) as (id & r & _ & [_ Hpost] & ->).
  cbn [rsp_status rsp_body] in *. destruct r as [[[]|]|[tr|err]|[[]|]|[]]; try done.
  - exists tr. split; [|done]. unfold sent_body, is_head. by rewrite Hm.
  - by destruct (error_not_200 (identified id q) err).
Qed.

Lemma reachable_later c c' :
  http_reachable X pool t seq qs c -> rtc (steps pool) c c' ->
  http_reachable X pool t seq qs c' /\ grows (committed c) (committed c').
Proof.
  intros Hc Hcc. split; [unfold http_reachable, reachable in *; by etrans|].
  eapply (steps_grows (WL := http_workload X)); [by apply http_conf_ok|done].
Qed.

(** The program refines its specification.  Whatever requests arrive, with
    any bytes in them, however their handlers interleave and whatever fails:
    the committed tables go through steps of the specification only (a wallet
    is created, a whole transfer happens, or nothing), so they stay well
    formed. *)
Lemma http_refines_specification c :
  http_reachable X pool t seq qs c ->
  rtc atomic_step t (committed c) /\ db_inv (committed c) /\
  forall i ch c', step pool i ch c = Some c' -> atomic_step (committed c) (committed c').
Proof.
  intros Hc. pose proof (http_conf_ok c Hc) as Hok. split_and!; [|apply Hok|].
  - exact (steps_atomic pool qs _ c (http_conf_ok _ (rtc_refl _ _)) Hc).
  - intros i ch c' Hs. by eapply step_conf_ok.
Qed.

(** C1: exactly once, byte for byte.  Two POST /transfers with one idempotency
    key that are both answered 200, now or later, get the same body: the JSON
    of one transfer, committed under that key. *)
Theorem http_exactly_once c c' i j q q' ctr ctr' rsp rsp' :
  http_reachable X pool t seq qs c -> rtc (steps pool) c c' ->
  qs !! i = Some q -> qs !! j = Some q' -> posts_transfer q ctr -> posts_transfer q' ctr' ->
  ctr_IdempotencyKey ctr = ctr_IdempotencyKey ctr' ->
  responded c i rsp -> responded c' j rsp' -> rsp_status rsp = 200 -> rsp_status rsp' = 200 ->
  rsp_body rsp = rsp_body rsp' /\
  exists tr, rsp_body rsp = transfer_body X tr /\ reply_ok (service_request ctr) tr (committed c').
Proof.
  intros Hc Hcc Hi Hj Hq Hq' Hkey Hr Hr' H1 H2.
  destruct (reachable_later _ _ Hc Hcc) as [Hc' Hg].
  destruct (posted _ _ _ _ _ (http_conf_ok _ Hc) Hi Hq Hr H1) as (tr & Hb & Hok).
  destruct (posted _ _ _ _ _ (http_conf_ok _ Hc') Hj Hq' Hr' H2) as (tr' & Hb' & Hok').
  apply (reply_ok_grows _ _ _ _ Hg) in Hok.
  assert (tr = tr') as <-; [|split; [congruence|by exists tr]].
  destruct Hok as [_ Ht (k & Hk & Hu & _)], Hok' as [_ Ht' (k' & Hk' & Hu' & _)].
  unfold service_request in Hk, Hk'. cbn [IdempotencyKey] in Hk, Hk'. rewrite Hkey in Hk.
  congruence.
Qed.

(** What was answered can be read back.  A 200 to POST /transfers is for a
    transfer with some id; a GET of that id that is answered 200, now or later,
    is answered with the same bytes. *)
Lemma http_reads_back c i q ctr rsp :
  http_reachable X pool t seq qs c -> qs !! i = Some q -> posts_transfer q ctr ->
  responded c i rsp -> rsp_status rsp = 200 ->
  exists u, forall c' j q' rsp', rtc (steps pool) c c' -> qs !! j = Some q' ->
    Method q' = "GET" -> dispatch X q' = inl (ReadTransfer u) -> responded c' j rsp' ->
    rsp_status rsp' = 200 -> rsp_body rsp' = rsp_body rsp.
Proof.
  intros Hc Hi Hq Hr H1. destruct (posted _ _ _ _ _ (http_conf_ok _ Hc) Hi Hq Hr H1) as (tr & Hb & [_ Hs _]).
  exists (Transfer_ID tr). intros c' j q' rsp' Hcc Hj Hm Hd Hr' H2.
  destruct (reachable_later _ _ Hc Hcc) as [Hc' Hg].
  destruct (fetched _ _ _ _ _ (http_conf_ok _ Hc') Hj Hm Hd Hr' H2) as (tr' & Hb' & Hu' & Hs').
  apply (shows_transfer_grows _ _ _ Hg) in Hs. rewrite Hb, Hb'. f_equal.
  unfold shows_transfer in Hs, Hs'. congruence.
Qed.
End theorems.

(** ** Witnesses: two POSTs race with one key, then the transfer is read *)

Definition fetch_request (path : string) : Request :=
  mkRequest "GET" path path path EmptyString {["X-Request-Id" := "req-2"]} EmptyString ∅
    EmptyString [].

Definition http_race : list Request :=
  [pay_request 30 bob; pay_request 30 bob; fetch_request "/transfers/142"].

Definition http_schedule : list (nat * choice) :=
  moves 0 0 7 ++ moves 1 20 5 ++ moves 0 40 16 ++ moves 1 60 15 ++ moves 2 80 5.

Definition http_after (sched : list (nat * choice)) : config (outcome unit * webstate) :=
  default (http_start demo bank 1 http_race)
    (run_schedule 2 sched (http_start demo bank 1 http_race)).

Lemma http_after_reachable sched :
  (match run_schedule 2 sched (http_start demo bank 1 http_race) with
   | Some _ => true | None => false end) = true ->
  http_reachable demo 2 bank 1 http_race (http_after sched).
Proof.
  unfold http_after. intros H. apply reachable_schedule. exists sched.
  change (start (WL := http_workload demo) bank 1 http_race) with (http_start demo bank 1 http_race).
  by destruct (run_schedule _ _ _).
Qed.

Lemma http_race_reachable : http_reachable demo 2 bank 1 http_race (http_after http_schedule).
Proof. apply http_after_reachable. by vm_compute. Qed.

(** The response of a finished thread. *)
Definition response_at (c : config (outcome unit * webstate)) (i : nat) : option response :=
  match cf_threads c !! i with Some (Ret (Returned tt, ws), _) => Some (response_of ws) | _ => None end.

Lemma response_at_responded c i rsp : response_at c i = Some rsp -> responded c i rsp.
Proof.
  unfold response_at. destruct (cf_threads c !! i) as [[[[[[]|]]|?|? ? ?] T]|] eqn:E; try done.
  intros [= <-]. eexists. split; [|done]. by exists T.
Qed.

Definition race_body : string := transfer_body demo race_transfer.

Definition race_response : response :=
  mkResponse 200 (json_headers "req-1") race_body.

Lemma http_race_responses :
  response_at (http_after http_schedule) 0 = Some race_response /\
  response_at (http_after http_schedule) 1 = Some race_response /\
  (rsp_body <$> response_at (http_after http_schedule) 2) = Some race_body.
Proof. split_and!; by vm_compute. Qed.

Lemma http_refines_specification_witness :
  rtc atomic_step bank (committed (http_after http_schedule)) /\
  db_inv (committed (http_after http_schedule)).
Proof.
  destruct (http_refines_specification demo 2 bank 1 http_race bank_ok _ http_race_reachable)
    as (H1 & H2 & _).
  exact (conj H1 H2).
Defined.

Lemma http_exactly_once_witness :
  race_body = race_body /\
  exists tr, race_body = transfer_body demo tr /\
    reply_ok (pay "k1" 30) tr (committed (http_after http_schedule)).
Proof.
  exact (http_exactly_once demo 2 bank 1 http_race bank_ok _ _ 0 1 _ _ _ _ race_response race_response
    http_race_reachable (rtc_refl _ _) eq_refl eq_refl pay_posts pay_posts eq_refl
    (response_at_responded _ _ _ (proj1 http_race_responses))
    (response_at_responded _ _ _ (proj1 (proj2 http_race_responses))) eq_refl eq_refl).
Defined.

Lemma http_reads_back_witness :
  exists u, forall c' j q' rsp', rtc (steps 2) (http_after http_schedule) c' ->
    http_race !! j = Some q' -> Method q' = "GET" -> dispatch demo q' = inl (ReadTransfer u) ->
    responded c' j rsp' -> rsp_status rsp' = 200 -> rsp_body rsp' = race_body.
Proof.
  exact (http_reads_back demo 2 bank 1 http_race bank_ok _ 0 _ _ race_response
    http_race_reachable eq_refl pay_posts
    (response_at_responded _ _ _ (proj1 http_race_responses)) eq_refl).
Defined.
