(* ===== verification/HttpProgress.v ===== *)
(** * Every HTTP request is answered

    A request to the public listener performs at most [max_http_ops] operations
    (22 of the service, four clock readings and a generated id of the
    middleware), so any HTTP traffic, under any schedule, ends; without faults
    it ends with a response to every request. *)

From S2P Require Import Prelude GoRuntime Domain Database Repository Service Spec Machine Rely.
From S2P Require Import Workload Scheduling RepositoryCorrect ServiceCorrect Concurrency Scenario.
From S2P Require Import Progress Sequential.
From S2P Require Import Strconv GoTime Json Web Mux Handlers Router Routes Logic Http HttpCorrect.
From S2P Require Import HttpConcurrent.
#[local] Open Scope web_scope.

(** ** Handlers with a bounded number of operations *)

Definition web_le {A} (n : nat) (m : web A) : Prop := forall s, proc_le n (m s).

Definition handler_le (n : nat) (h : Handler) : Prop := forall w r, web_le n (h w r).

Section rules.
Context {A B : Type}.
Implicit Types m : web A.

Lemma web_le_mono n k m : (n <= k)%nat -> web_le n m -> web_le k m.
Proof. intros Hle H s. by eapply proc_le_mono. Qed.

Lemma web_le_bind n k m (f : A -> web B) :
  web_le n m -> (forall a, web_le k (f a)) -> web_le (n + k) (web_bind f m).
Proof. intros Hm Hf s. apply proc_le_bind; [apply Hm|]. intros [[a|v] s']; [apply Hf|done]. Qed.

Lemma web_le_call n (p : svc A) : proc_le n p -> web_le n (call p).
Proof.
  intros Hp s. rewrite <- (Nat.add_0_r n). by apply proc_le_finally.
Qed.
End rules.

Lemma web_le_perform {A} (o : svcE A) : web_le 1 (call (perform o)).
Proof. apply web_le_call. by intros x. Qed.

Lemma web_le_seq {A B} n m (f : A -> web B) :
  web_le 0 m -> (forall a, web_le n (f a)) -> web_le n (web_bind f m).
Proof. by apply (web_le_bind 0). Qed.

Lemma on_panic_le n k h m :
  web_le n m -> (forall v, web_le k (h v)) -> web_le (n + k) (on_panic h m).
Proof. intros Hm Hh s. apply proc_le_bind; [apply Hm|]. intros [[a|v] s']; [done|apply Hh]. Qed.

Lemma web_le_mono0 {A} n (m : web A) : web_le 0 m -> web_le n m.
Proof. apply web_le_mono. lia. Qed.

(** What touches the request and the response only. *)
Ltac no_ops :=
  repeat first
    [ done
    | apply web_le_seq; [|intros ?]
    | case_match
    | progress unfold deref, get_recorder, record_status, new_recorder, Header_Set, log, modify,
        read, ret, panic, WithContext ].

Lemma deref_le r : web_le 0 (deref r).
Proof. unfold deref. no_ops. Qed.

Lemma record_status_le p code : web_le 0 (record_status p code).
Proof. unfold record_status, get_recorder. no_ops. Qed.

Lemma WriteHeader_le w code : web_le 0 (WriteHeader w code).
Proof.
  induction w as [|p w IH|p w IH]; cbn [WriteHeader].
  - unfold conn_WriteHeader. no_ops.
  - apply web_le_seq; [apply record_status_le|done].
  - apply web_le_seq; [apply record_status_le|done].
Qed.

Lemma Write_le w b : web_le 0 (Write w b).
Proof.
  induction w as [|p w IH|p w IH]; cbn [Write].
  - unfold conn_Write. apply web_le_seq; [no_ops|intros c].
    apply web_le_seq; [case_match; [done|apply (WriteHeader_le Conn)]|intros _]. no_ops.
  - apply web_le_seq; [apply record_status_le|done].
  - apply web_le_seq; [apply record_status_le|done].
Qed.

#[local] Hint Resolve WriteHeader_le Write_le deref_le record_status_le web_le_perform : wallet.

(** One command after the other, by the rules above. *)
Ltac web_ops :=
  repeat first
    [ done
    | solve [eauto with wallet]
    | apply web_le_seq; [solve [no_ops|eauto with wallet]|intros ?]
    | case_match ].

Lemma writeJSON_le w code body : web_le 0 (writeJSON w code body).
Proof. unfold writeJSON. web_ops. Qed.

#[local] Hint Resolve writeJSON_le : wallet.

Lemma http_Error_le w text code : web_le 0 (http_Error w text code).
Proof. unfold http_Error. web_ops. Qed.

#[local] Hint Resolve http_Error_le : wallet.

(** ** The handlers, the chain, the listener *)

Section bounds.
Context (X : externals).

Lemma writeError_le w r err : web_le 0 (writeError X w r err).
Proof. unfold writeError. destruct (classify X err). web_ops. Qed.

#[local] Hint Resolve writeError_le : wallet.

(** A handler: it looks at the request, calls the service once, answers. *)
Lemma web_le_service {A B} n k (p : svc A) (f : A -> web B) :
  proc_le k p -> (k <= n)%nat -> (forall a, web_le 0 (f a)) -> web_le n (web_bind f (call p)).
Proof.
  intros Hp Hk Hf. apply (web_le_mono (k + 0)); [lia|]. apply web_le_bind; [by apply web_le_call|done].
Qed.

Ltac service_call lem :=
  eapply web_le_service; [apply lem|unfold max_ops; lia|intros []; web_ops].

Lemma endpoint_le e : handler_le max_ops (endpoint_handler X e).
Proof.
  intros w r. destruct e; cbn [endpoint_handler handler_of].
  - apply web_le_seq; [apply deref_le|]. intros q.
    case_match; [|apply web_le_mono0; web_ops]. service_call Create_le.
  - apply web_le_seq; [apply deref_le|]. intros q.
    case_match; [|apply web_le_mono0; web_ops]. service_call GetTransfer_le.
  - apply web_le_seq; [apply deref_le|]. intros q.
    case_match; [|apply web_le_mono0; web_ops]. service_call WalletService_Create_le.
  - apply web_le_seq; [apply deref_le|]. intros q. service_call WalletService_Get_le.
  - apply web_le_seq; [apply deref_le|]. intros q.
    case_match; [case_match|apply web_le_mono0; web_ops]. service_call ListTransfersByWallet_le.
  - apply web_le_mono0. unfold healthz. web_ops.
Qed.

Lemma api_ServeHTTP_le : handler_le max_ops (api_ServeHTTP X).
Proof.
  intros w r. apply web_le_seq; [apply deref_le|]. intros q.
  case_match; [apply web_le_mono0; web_ops|].
  destruct (findHandler_route X (NewTransferHandler transferSvc)
    (NewWalletHandler walletSvc transferSvc) q) as [pat Hf].
  destruct (findHandler _ _ _ q) as [[h pat'] vals].
  apply web_le_seq; [unfold modify; no_ops|intros _].
  destruct (route_to _ _) as [e|path|allowed|]; injection Hf as -> -> ->.
  - apply endpoint_le.
  - apply web_le_mono0. unfold Redirect. web_ops.
  - apply web_le_mono0. unfold MethodNotAllowed. web_ops.
  - apply web_le_mono0. unfold NotFound. web_ops.
Qed.

Lemma Recover_le n h : handler_le n h -> handler_le n (Recover X h).
Proof.
  intros Hh w r. rewrite <- (Nat.add_0_r n). apply on_panic_le; [apply Hh|]. intros v. web_ops.
Qed.

(** Two clock readings around [next]. *)
Lemma AccessLog_le n h : handler_le n h -> handler_le (S (S n)) (AccessLog h).
Proof.
  intros Hh w r. apply (web_le_bind 1 (S n)); [apply web_le_perform|]. intros start.
  apply web_le_seq; [unfold new_recorder; no_ops|]. intros rec.
  replace (S n) with (n + 1)%nat by lia. apply web_le_bind; [apply Hh|]. intros _.
  apply web_le_seq; [apply deref_le|]. intros q.
  apply web_le_seq; [unfold get_recorder; no_ops|]. intros x.
  apply (web_le_bind 1 0); [apply web_le_perform|]. intros now. unfold log, modify. no_ops.
Qed.

Lemma HTTPMiddleware_le n h : handler_le n h -> handler_le (S (S n)) (HTTPMiddleware h).
Proof.
  intros Hh w r. apply (web_le_bind 1 (S n)); [apply web_le_perform|]. intros start.
  apply web_le_seq; [unfold new_recorder; no_ops|]. intros rec.
  replace (S n) with (n + 1)%nat by lia. apply web_le_bind; [apply Hh|]. intros _.
  apply web_le_seq; [apply deref_le|]. intros q.
  apply web_le_seq; [unfold get_recorder; no_ops|]. intros x.
  apply web_le_seq; [unfold modify; no_ops|]. intros _.
  apply (web_le_bind 1 0); [apply web_le_perform|]. intros now. unfold modify. no_ops.
Qed.

(** An id is generated, if the caller has none. *)
Lemma RequestID_le n h : handler_le n h -> handler_le (S n) (RequestID X h).
Proof.
  intros Hh w r. apply web_le_seq; [apply deref_le|]. intros q. apply (web_le_bind 1 n).
  - case_match; [|by apply web_le_mono0].
    apply (web_le_bind 1 0); [apply web_le_perform|]. by intros u.
  - intros id. apply web_le_seq; [unfold Header_Set, modify; no_ops|intros _].
    apply web_le_seq; [|intros r'; apply Hh]. unfold WithContext.
    apply web_le_seq; [apply deref_le|intros q']. unfold read, modify. no_ops.
Qed.

Definition max_http_ops : nat := 27.

Lemma serve_http_le q : proc_le max_http_ops (serve_http (apiHandler X) q).
Proof.
  apply (HTTPMiddleware_le 25), RequestID_le, AccessLog_le, Recover_le, api_ServeHTTP_le.
Qed.
End bounds.

(** ** The theorems *)

(** The status of a response is one the program writes. *)
Lemma http_post_status X q o C T :
  http_post X q o C T -> exists ws, o = (Returned tt, ws) /\ rsp_status (response_of ws) ∈ statuses.
Proof.
  intros [_ (ws & id & -> & _ & H)]. exists ws. split; [done|].
  destruct (dispatch X q) as [a|ans] eqn:Hd.
  - destruct H as (r & [-> _ _] & _). apply render_ok.
  - destruct H as [-> _ _]. by eapply dispatch_ok.
Qed.

Section theorems.
Context (X : externals).
Variables (pool : nat) (t : tables) (seq : Z) (qs : list Request).

(** Every HTTP request is answered.  Wherever any traffic has come to, with
    any pool size, nothing is stuck: without further faults the requests can
    all be run to their responses, each with one of the eight statuses of the
    API, in no more than 27 steps per request. *)
Lemma http_requests_finish c ch :
  db_inv t -> http_reachable X pool t seq qs c -> ch_fault ch = None ->
  exists sched c', Forall (fun s => snd s = ch) sched /\ run_schedule pool sched c = Some c' /\
    (length sched <= length qs * max_http_ops)%nat /\
    forall i, (i < length qs)%nat -> exists rsp, responded c' i rsp /\
      rsp_status rsp ∈ [200; 201; 301; 400; 404; 405; 409; 500].
Proof.
  intros Hi Hc Hch. pose proof (http_conf_ok X pool t seq qs Hi c Hc) as Hok.
  assert (Forall (fun q => wl_ok (Workload := http_workload X) q t) qs) as Hqs by (by apply Forall_forall).
  destruct (run_finishes (WL := http_workload X) max_http_ops (serve_http_le X)
    pool t seq qs c ch Hi Hqs Hc Hch) as (sched & c' & Hall & Hrun & Hfin).
  exists sched, c'. split_and!; [done..| |].
  - apply reachable_schedule in Hc as [sched0 Hs0].
    pose proof (run_bounded (WL := http_workload X) max_http_ops (serve_http_le X)
      pool t seq qs (sched0 ++ sched) c') as Hb.
    rewrite run_schedule_app, Hs0 in Hb. specialize (Hb Hrun). rewrite length_app in Hb. lia.
  - intros i Hlt. assert (http_reachable X pool t seq qs c') as Hc'.
    { apply reachable_schedule in Hc as [sched0 Hs0]. apply reachable_schedule.
      exists (sched0 ++ sched). by rewrite run_schedule_app, Hs0. }
    pose proof (http_conf_ok X pool t seq qs Hi c' Hc') as Hok'.
    destruct (finished_answered _ _ _ Hok' Hfin Hlt) as [o Ho].
    destruct (answered_post _ _ _ _ Hok' Ho) as (q & _ & Hpost & _).
    destruct (http_post_status _ _ _ _ _ Hpost) as (ws & -> & Hs).
    exists (response_of ws). split; [by exists ws|done].
Qed.

(** Every schedule of HTTP requests ends, whatever the faults. *)
Theorem http_schedules_bounded sched c :
  run_schedule pool sched (http_start X t seq qs) = Some c ->
  (length sched <= length qs * max_http_ops)%nat.
Proof. apply (run_bounded (WL := http_workload X) max_http_ops (serve_http_le X)). Qed.
End theorems.

(** From the middle of the race, where the second request waits. *)
Lemma http_requests_finish_witness :
  exists sched c', Forall (fun s => snd s = calm 30) sched /\
    run_schedule 2 sched (http_after (moves 0 0 7 ++ moves 1 20 5)) = Some c' /\
    (length sched <= 81)%nat /\
    forall i, (i < 3)%nat -> exists rsp, responded c' i rsp /\
      rsp_status rsp ∈ [200; 201; 301; 400; 404; 405; 409; 500].
Proof.
  exact (http_requests_finish demo 2 bank 1 http_race _ (calm 30) bank_ok
    (http_after_reachable (moves 0 0 7 ++ moves 1 20 5) ltac:(by vm_compute)) eq_refl).
Defined.
