(* ===== verification/MainCorrect.v ===== *)
(** * The process, proved

    For [main], over every run: what holds at every moment, what the exit status
    says, that a signal always ends the process; and two ways to stop in which
    the shutdown differs from what its comments say. *)

From S2P Require Import Prelude GoRuntime Strconv GoDuration Handlers Config Net Startup.
From S2P Require Import Lifecycle LifecycleLogic LifecycleCorrect.
#[local] Open Scope go_scope.

Definition exit_status (r : option error) : Z := match r with Some _ => 1 | None => 0 end.

Section main.
Context (Quote : string -> string) (env : environ).

Lemma mwp_main cfg :
  Load Quote env = Ok cfg ->
  mwp (service_ok cfg) (main Quote env) own0 world0
    (fun status o w => exists r, released cfg r o w /\ status = exit_status r).
Proof.
  intros HL. unfold main. rewrite HL.
  apply Load_configured, configured_valid in HL as Hcfg.
  apply mwp_bind; [|exact world0_ok].
  eapply mwp_mono; [by apply mwp_run, world0_ok|]. intros [e|] o w [Hrt Hrel].
  - destruct Hrel as (_ & Hdb & Hf). apply (mwp_returning _ _ _ (Some e)); [done..|].
    intros d w'. cbn [sys_exec]. split_and!; [done|by apply warned_line|]. intros Hrt'.
    apply (mwp_returning_ret _ _ (Some e)); [done|]. intros w3 Hrt3. exists (Some e).
    split; [|done]. by split; [apply Hrt3|].
  - destruct Hrel as (_ & Hdb & Hf). apply (mwp_returning_ret _ _ None); [done|]. intros w' Hrt'.
    exists None. split; [|done]. by split; [apply Hrt'|].
Qed.

Lemma mwp_main_misconfigured e :
  Load Quote env = Err e ->
  mwp (fun o _ => quiet o) (main Quote env) own0 world0 (fun status _ _ => status = 1).
Proof.
  intros HL. unfold main. rewrite HL. intros w' HL'. split; [done|]. split; [done|].
  intros d x o' w'' E. simplify_eq/=. split; [|by intros w3 _].
  by eapply same_control_ok; [|exact (later_ok _ _ _ HL')].
Qed.

(** ** Every moment *)

Lemma main_service_ok cfg c :
  Load Quote env = Ok cfg -> happens (main Quote env) c ->
  service_ok cfg (ps_own c) (ps_world c).
Proof.
  intros HL Hc. destruct (mwp_happens _ _ _ _ (mwp_main cfg HL) Hc) as [Hok H].
  by eapply mwp_invariant.
Qed.

Lemma main_misconfigured e c :
  Load Quote env = Err e -> happens (main Quote env) c -> quiet (ps_own c).
Proof.
  intros HL Hc. destruct (mwp_happens _ _ _ _ (mwp_main_misconfigured e HL) Hc) as [Hok H].
  exact (mwp_invariant _ _ _ _ _ Hok H).
Qed.

Lemma main_returns c :
  happens (main Quote env) c ->
  match ps_main c with
  | Ret status =>
      match Load Quote env with
      | Ok cfg => exists r, released cfg r (ps_own c) (ps_world c) /\ status = exit_status r
      | Err _ => status = 1
      end
  | Panic _ => False
  | Vis _ _ => True
  end.
Proof.
  intros Hc. destruct (Load Quote env) as [cfg|e] eqn:HL.
  - destruct (mwp_happens _ _ _ _ (mwp_main cfg HL) Hc) as [Hok H].
    apply mwp_holds in H; [|done]. destruct (ps_main c); [apply H|done|done].
  - destruct (mwp_happens _ _ _ _ (mwp_main_misconfigured e HL) Hc) as [Hok H].
    apply mwp_holds in H; [|done]. destruct (ps_main c); [apply H|done|done].
Qed.

(** C16: at every moment of every run of the process, whatever the listeners,
    the clients and the calls it makes do: connections are taken only while the
    database is open, migrated and its pool bounded as configured; a request
    outlives the database only if the drain ran out of time or the listener
    returned though nobody had shut it down; the admin listener runs only if
    asked for, and not on an exposed address without the warning.  With a
    configuration [Load] refuses, nothing is started at all. *)
Theorem main_serves_safely c :
  happens (main Quote env) c ->
  match Load Quote env with
  | Ok cfg => service_ok cfg (ps_own c) (ps_world c) /\ 1 <= MaxOpenConns (pool_of cfg)
  | Err _ => forall s, own_started (ps_own c) s = false
  end.
Proof.
  intros Hc. destruct (Load Quote env) as [cfg|e] eqn:HL.
  - split; [by apply main_service_ok|]. apply Load_configured, configured_valid in HL. destruct HL.
    cbn. lia.
  - apply (main_misconfigured e c HL Hc).
Qed.

(** C18: what the exit status says.  The process never panics.  It exits 1 when
    the configuration is refused; otherwise it has closed the database and
    flushed the spans it set up, and exits 0 only after a graceful stop: the
    signal came, the listeners were shut, no request is in flight.  It exits 1
    otherwise, and then either nothing was ever started, or the listener failed
    on its own and neither listener was shut down, or it was shut down after the
    signal and the drain ran out of time or closing its socket failed. *)
Theorem main_exit_status c :
  happens (main Quote env) c ->
  match ps_main c with
  | Ret status =>
      match Load Quote env with
      | Ok cfg => exists r, released cfg r (ps_own c) (ps_world c) /\ status = exit_status r
      | Err _ => status = 1
      end
  | Panic _ => False
  | Vis _ _ => True
  end.
Proof. apply main_returns. Qed.

(** ** The end *)

Definition is_main (a : action) : bool := match a with Main _ => true | Env _ => false end.

(** The operations of the main goroutine in a run. *)
Definition main_steps (l : list action) : nat := length (List.filter is_main l).

Definition max_main_ops : nat := 30.

Lemma acts_budget {A} l (c c' : process A) n :
  proc_le n (ps_main c) -> acts l c = Some c' -> (main_steps l <= n)%nat.
Proof.
  unfold main_steps. revert c n. induction l as [|a l IH]; cbn [acts]; intros c n Hn H; [simpl; lia|].
  destruct (act a c) as [c1|] eqn:E; [|done]. destruct a as [d|ev]; cbn [act] in E; simpl.
  - destruct (ps_main c) as [x|v|X op k]; try done.
    destruct (sys_exec d op _ _) as [[[x o] w]|]; [|done]. injection E as <-.
    destruct n as [|n]; [done|]. apply le_n_S. by apply (IH (mkProcess (k x) o w) n (Hn x) H).
  - destruct (env_step _ _ _); [|done]. injection E as <-.
    by apply (IH (mkProcess (ps_main c) (ps_own c) w) n Hn H).
Qed.

(** Every operation takes place at most once. *)
Ltac ops_le :=
  repeat first [progress intros | progress cbn [proc_le proc_bind perform] | done | case_match].

Lemma check_le {A} pre op (k : sys (result A)) n : proc_le n k -> proc_le (S n) (check pre op k).
Proof. intros Hk. unfold check. cbn. intros [u|e]; [done|by destruct n]. Qed.

Lemma set_if_le n op : proc_le 1 (set_if n op).
Proof. unfold set_if. by case_decide. Qed.

Lemma Setup_le : proc_le 4 Setup.
Proof. do 2 apply check_le. ops_le. Qed.

Lemma OpenWithPool_le dsn pool : proc_le 7 (OpenWithPool dsn pool).
Proof.
  apply check_le. do 4 (apply (proc_le_bind _ _ 1); [apply set_if_le|intros _]). ops_le.
Qed.

Lemma Migrate_le : proc_le 4 Migrate.
Proof. do 3 apply check_le. ops_le. Qed.

Lemma serve_until_stopped_le cfg : proc_le 9 (serve_until_stopped cfg).
Proof. unfold serve_until_stopped, Shutdown. ops_le. Qed.

Lemma defer_le {A B} (f : sys B) (p : sys A) n m :
  proc_le n p -> proc_le m f -> proc_le (n + m) (defer f p).
Proof.
  intros Hp Hf. apply proc_le_finally; [done|]. intros o. rewrite <- (Nat.add_0_r m).
  apply proc_le_bind; [done|]. by destruct o.
Qed.

Lemma run_le cfg : proc_le 29 (run cfg).
Proof.
  apply (proc_le_bind _ _ 4 25); [apply Setup_le|]. intros [u|e]; [|done].
  apply (defer_le _ _ 24 1); [|ops_le].
  apply (proc_le_bind _ _ 7 17); [apply OpenWithPool_le|]. intros [u1|e]; [|done].
  apply (defer_le _ _ 16 1); [|ops_le].
  apply (proc_le_bind _ _ 1 15); [ops_le|]. intros _.
  apply (proc_le_bind _ _ 4 11); [apply Migrate_le|]. intros [u2|e]; [|done].
  apply (proc_le_bind _ _ 2 9); [unfold start_debug; ops_le|]. intros _. apply serve_until_stopped_le.
Qed.

Lemma main_le : proc_le max_main_ops (main Quote env).
Proof.
  unfold main. destruct (Load Quote env) as [cfg|e]; [|ops_le].
  apply (proc_le_bind _ _ 29 1); [apply run_le|]. intros [e|]; ops_le.
Qed.

(** Once the signal has come, only a drain can block. *)
Lemma sys_blocks {X} (op : sysE X) d o w :
  w_ctx w = true -> sys_exec d op o w = None ->
  exists s, (0 < w_inflight w s)%nat /\ (allowed op o -> own_deadline o = true) /\
    forall w', w_expired w' = true -> exists r, sys_exec d op o w' = Some r.
Proof.
  intros Hc. destruct op; cbn [sys_exec]; try done.
  - unfold do_select. rewrite Hc. destruct (receive w); [by destruct (dec_errch d)|done].
  - destruct (w_inflight w s) eqn:E; [done|]. intros _. exists s. split; [lia|]. split; [by intros [? _]|].
    intros w' ->. destruct (w_inflight w' s); by eexists.
Qed.

(** Main only waits where it may. *)
Lemma main_allowed c :
  happens (main Quote env) c ->
  match ps_main c with
  | Ret _ => True | Panic _ => False | Vis op _ => allowed op (ps_own c)
  end.
Proof.
  intros Hh. destruct (Load Quote env) as [cfg|e] eqn:HL;
    [destruct (mwp_happens _ _ _ _ (mwp_main cfg HL) Hh) as [Hok H]
    |destruct (mwp_happens _ _ _ _ (mwp_main_misconfigured e HL) Hh) as [Hok H]];
    apply mwp_holds in H; try done; destruct (ps_main c); try done; apply H.
Qed.

(** C17: a signal ends the process.  In every run the main goroutine performs at
    most [max_main_ops] operations.  Once the signal has come it is either done
    or can perform its next one, whatever that answers; only while it drains
    with a request in flight may it have to wait, and then the end of the ten
    seconds lets it go on, even if no handler ever returns. *)
Theorem main_stops l c d :
  acts l (begin (main Quote env)) = Some c ->
  (main_steps l <= max_main_ops)%nat /\
  (w_ctx (ps_world c) = true ->
     (exists status, ps_main c = Ret status) \/
     (exists c', act (Main d) c = Some c') \/
     ((exists s, (0 < w_inflight (ps_world c) s)%nat) /\
      exists c1 c2, act (Env Expire) c = Some c1 /\ act (Main d) c1 = Some c2)).
Proof.
  intros Hl. split; [exact (acts_budget l (begin (main Quote env)) c _ main_le Hl)|]. intros Hc.
  pose proof (main_allowed c (ex_intro _ l Hl)) as Ha.
  destruct c as [[status|v|X op k] o w]; cbn [ps_main ps_own ps_world act] in *;
    [left; by exists status|done|right].
  destruct (sys_exec d op o w) as [[[x o'] w']|] eqn:E; [left; by eexists|right].
  destruct (sys_blocks op d o w Hc E) as (s & Hs & Hd & Hr). split; [by exists s|].
  cbn [env_step]. rewrite (Hd Ha).
  destruct (Hr (mkWorld (w_ctx w) true (w_go w) (w_inflight w) (w_errch w) (w_errch_closed w)) eq_refl)
    as [[[x o'] w'] Hx].
  eexists _, _. split; [done|]. cbn [ps_main ps_own ps_world]. by rewrite Hx.
Qed.

(** ** Ends that are not graceful *)

(** Time does not run back. *)
Lemma act_expired {A} a (c c' : process A) :
  act a c = Some c' -> w_expired (ps_world c) = true -> w_expired (ps_world c') = true.
Proof.
  intros E He. destruct a as [d|ev]; cbn [act] in E.
  - destruct (ps_main c) as [|v|X op k]; try done.
    destruct (sys_exec d op _ _) as [[[x o] w]|] eqn:Ex; [|done]. injection E as <-. cbn [ps_world].
    destruct op; cbn [sys_exec] in Ex; try (by simplify_eq);
      unfold do_select, receive in Ex; by repeat (case_match; simplify_eq/=).
  - destruct (env_step _ ev _) as [w|] eqn:Ev; [|done]. injection E as <-. cbn [ps_world].
    destruct ev; cbn [env_step] in Ev; unfold goroutine_step in Ev;
      repeat case_match; by simplify_eq/=.
Qed.

(** The listener main waits for. *)
Definition awaits {A} (p : sys A) : option server :=
  match p with Vis (AwaitIdle s) _ => Some s | _ => None end.

(** Main waits for an admin request that does not end. *)
Definition stuck (k : result unit -> sys Z) (o : own) (c : process Z) : Prop :=
  w_expired (ps_world c) = true \/
  (ps_main c = Vis (AwaitIdle DebugServer) k /\ ps_own c = o /\
   (0 < w_inflight (ps_world c) DebugServer)%nat).

Lemma stuck_act k o a c c' :
  stuck k o c -> a <> Env (Finish DebugServer) -> act a c = Some c' -> stuck k o c'.
Proof.
  intros [He|(Hm & Ho & Hi)] Ha E; [left; by eapply act_expired|].
  destruct (w_expired (ps_world c)) eqn:Hx; [left; by eapply act_expired|].
  destruct a as [d|ev]; cbn [act] in E.
  - rewrite Hm in E. cbn [sys_exec] in E. rewrite Hx in E.
    destruct (w_inflight (ps_world c) DebugServer); [lia|done].
  - destruct (env_step _ ev _) as [w|] eqn:Ev; [|done]. injection E as <-. right.
    cbn [ps_main ps_own ps_world]. split; [done|]. split; [done|].
    destruct ev as [| |s e|s|s|[]|s]; cbn [env_step] in Ev; unfold goroutine_step in Ev;
      repeat case_match; simplify_eq/=; try done; unfold set; case_decide; subst; lia || done.
Qed.

Lemma stuck_acts k o l c c' :
  stuck k o c -> Forall (fun a => a <> Env (Finish DebugServer)) l -> acts l c = Some c' ->
  stuck k o c'.
Proof.
  revert c. induction l as [|a l IH]; cbn [acts]; intros c H Hl E; [by simplify_eq|].
  apply Forall_cons in Hl as [Ha Hl]. destruct (act a c) as [c1|] eqn:E1; [|done].
  eapply (IH c1); [by eapply stuck_act|done..].
Qed.

(** Requests in flight at the exit: the status is 1 and the database is gone. *)
Lemma abandoned c status :
  happens (main Quote env) c -> ps_main c = Ret status ->
  (0 < w_inflight (ps_world c) ApiServer)%nat -> status = 1 /\ own_db (ps_own c) <> Opened.
Proof.
  intros Hh Hm Hi. pose proof (main_returns c Hh) as H. rewrite Hm in H.
  destruct (Load Quote env) as [cfg|e] eqn:HL.
  - destruct H as (r & (Hr & Hdb & _) & ->). split; [|done].
    destruct r as [e|]; [done|]. destruct Hr as (_ & _ & _ & Hr & _). lia.
  - pose proof (main_misconfigured e c HL Hh) as Hq.
    destruct (mwp_happens _ _ _ _ (mwp_main_misconfigured e HL) Hh) as [Hok _].
    destruct (ok_unstarted _ _ Hok ApiServer (quiet_started _ Hq ApiServer)). lia.
Qed.
(** C19: two ends that are not graceful, for any configuration and any run.
    First, the ten seconds are spent on the admin listener: when main waits for
    an admin request, the API has not been shut down; as long as that request
    does not end and the ten seconds are not over, whatever else happens main
    does not move, so the API listener goes on taking connections; when the API
    listener is shut the ten seconds are over and its shutdown waits for nobody;
    and if API requests are in flight when main returns, the status is 1 and the
    database is not open under them.  Second, an error of the API's listener is
    returned at once: if main returns after starting it and no signal has come,
    the status is 1, neither listener was shut down (an admin listener that
    listens still takes connections), and the database is not open, whatever is
    in flight. *)
Theorem shutdown_not_graceful c :
  happens (main Quote env) c ->
  (forall k l c', ps_main c = Vis (AwaitIdle DebugServer) k ->
     (0 < w_inflight (ps_world c) DebugServer)%nat -> acts l c = Some c' ->
     Forall (fun a => a <> Env (Finish DebugServer)) l ->
     own_shut (ps_own c) ApiServer = false /\
     (w_expired (ps_world c') = false ->
        ps_main c' = ps_main c /\ own_shut (ps_own c') ApiServer = false /\
        forall d, act (Main d) c' = None) /\
     (own_shut (ps_own c') ApiServer = true -> w_expired (ps_world c') = true) /\
     (forall k' d, ps_main c' = Vis (AwaitIdle ApiServer) k' -> exists c2, act (Main d) c' = Some c2) /\
     (forall status, ps_main c' = Ret status -> (0 < w_inflight (ps_world c') ApiServer)%nat ->
        status = 1 /\ own_db (ps_own c') <> Opened)) /\
  (forall status, ps_main c = Ret status -> own_started (ps_own c) ApiServer = true ->
     w_ctx (ps_world c) = false ->
     status = 1 /\ own_db (ps_own c) <> Opened /\
     forall s, own_shut (ps_own c) s = false /\
       (w_go (ps_world c) s = Listening -> accepting (ps_own c) (ps_world c) s = true)).
Proof.
  intros Hh. split.
  - intros k l c' Hm Hi Hl Hnf. pose proof (main_allowed c Hh) as Ha. rewrite Hm in Ha.
    destruct Ha as [_ Ha]. specialize (Ha eq_refl).
    assert (happens (main Quote env) c') as Hh'.
    { destruct Hh as [l0 Hl0]. exists (l0 ++ l). by rewrite acts_app, Hl0. }
    assert (stuck k (ps_own c) c') as Hst by (eapply stuck_acts; [by right|done..]).
    split; [done|]. split; [|split; [|split]].
    + intros Hx. destruct Hst as [Hst|(Hm' & Ho & Hi')]; [congruence|].
      rewrite Hm', Ho, Hm. split_and!; [done..|]. intros d. cbn [act]. rewrite Hm'.
      cbn [sys_exec]. rewrite Hx. by destruct (w_inflight (ps_world c') DebugServer); [lia|].
    + intros Hs. destruct Hst as [Hst|(_ & Ho & _)]; [done|congruence].
    + intros k' d Hm'. destruct Hst as [Hst|(Hm2 & _ & _)]; [|].
      2: { rewrite Hm' in Hm2. by apply (f_equal awaits) in Hm2. }
      cbn [act]. rewrite Hm'. cbn [sys_exec]. rewrite Hst.
      destruct (w_inflight (ps_world c') ApiServer); by eexists.
    + intros status Hm'. by apply abandoned.
  - intros status Hm Hs Hc. pose proof (main_returns c Hh) as H. rewrite Hm in H.
    destruct (Load Quote env) as [cfg|e] eqn:HL;
      [|by rewrite (quiet_started _ (main_misconfigured e c HL Hh)) in Hs].
    destruct H as (r & (Hr & Hdb & _) & ->). destruct r as [e|]; cbn [outcome_ok] in Hr;
      [|destruct Hr; congruence].
    destruct Hr as [[Hr _]|[(H1 & H2 & _)|(Hr & _)]]; [congruence| |congruence].
    split_and!; [done..|]. intros s. assert (own_shut (ps_own c) s = false) as E by (by destruct s).
    split; [done|]. unfold accepting. intros ->. by rewrite E.
Qed.
End main.

(** ** Runs *)

(** Nothing fails, and the migration driver keeps the connection it takes. *)
Definition calm : action := Main (mkDecision None false 1).

(** Up to the [select]: both listeners are in [ListenAndServe]. *)
Definition start_up : list action := replicate 17 calm.

Definition shop_env : environ := environ_of shop_config.

(** The process after [l], with the shop's configuration. *)
Definition shop_after (l : list action) : option (process Z) :=
  acts l (begin (main (fun s => s) shop_env)).

(** What an operator can see: the exit status, the database, the requests in
    flight and which listeners still take connections. *)
Definition look (c : process Z) : option Z * database * (nat * nat) * (bool * bool) :=
  (match ps_main c with Ret status => Some status | _ => None end, own_db (ps_own c),
   (w_inflight (ps_world c) ApiServer, w_inflight (ps_world c) DebugServer),
   (accepting (ps_own c) (ps_world c) ApiServer, accepting (ps_own c) (ps_world c) DebugServer)).

(** A request is in flight when the signal comes, and finishes. *)
Definition graceful : list action :=
  start_up ++ [Env (Accept ApiServer); Env Signal] ++ replicate 6 calm ++
  [Env (ListenReturns ApiServer); Env (Finish ApiServer); Env (GoStep ApiServer)] ++ replicate 3 calm.

(** The signal comes while a profile of 30 seconds is taken on the admin
    listener and a request is in flight; another request comes after that. *)
Definition profiling : list action :=
  start_up ++ [Env (Accept DebugServer); Env (Accept ApiServer); Env Signal] ++ replicate 4 calm ++
  [Env (Accept ApiServer)].

(** The port of the API is taken. *)
Definition port_taken : list action :=
  start_up ++ [Env (ListenFails ApiServer (ErrDriver "bind: address already in use"));
               Env (GoStep ApiServer)] ++ replicate 4 calm.

Example graceful_exit :
  look <$> shop_after graceful = Some (Some 0, Closed, (0%nat, 0%nat), (false, false)).
Proof. by vm_compute. Qed.

(** What an operator sees of these runs. *)
Example profiling_end :
  look <$> shop_after profiling = Some (None, Opened, (2%nat, 1%nat), (true, false)) /\
  look <$> shop_after (profiling ++ [Env Expire] ++ replicate 6 calm) =
    Some (Some 1, Closed, (2%nat, 1%nat), (false, false)).
Proof. split; by vm_compute. Qed.

Example port_taken_end :
  look <$> shop_after port_taken = Some (Some 1, Closed, (0%nat, 0%nat), (false, true)).
Proof. by vm_compute. Qed.

(** ** The theorems at these runs *)

Definition state_after (l : list action) : process Z := default (begin (Ret 0)) (shop_after l).

Definition runs (l : list action) : bool := match shop_after l with Some _ => true | None => false end.

Lemma state_after_run l : runs l = true -> shop_after l = Some (state_after l).
Proof. unfold runs, state_after. by destruct (shop_after l). Qed.

Lemma state_after_app l l' :
  runs l = true -> runs (l ++ l') = true -> acts l' (state_after l) = Some (state_after (l ++ l')).
Proof.
  intros H1 H2. pose proof (state_after_run _ H2) as H. unfold shop_after in H.
  rewrite acts_app in H. pose proof (state_after_run _ H1) as E. unfold shop_after in E.
  by rewrite E in H.
Qed.

Lemma state_happens l : runs l = true -> happens (main (fun s => s) shop_env) (state_after l).
Proof. intros H. exists l. by apply state_after_run. Qed.

Lemma Load_shop : Load (fun s => s) shop_env = Ok shop_config.
Proof. by vm_compute. Qed.

Definition serving : list action := start_up ++ [Env (Accept ApiServer); Env Signal].

Lemma main_serves_safely_witness :
  service_ok shop_config (ps_own (state_after serving)) (ps_world (state_after serving)) /\
  accepting (ps_own (state_after serving)) (ps_world (state_after serving)) ApiServer = true.
Proof.
  assert (happens (main (fun s => s) shop_env) (state_after serving)) as Hh
    by (by apply state_happens; vm_compute).
  pose proof (main_serves_safely (fun s => s) shop_env (state_after serving) Hh) as H.
  rewrite Load_shop in H. split; [apply H|by vm_compute].
Defined.

Lemma main_exit_status_witness :
  exists r, released shop_config r (ps_own (state_after graceful)) (ps_world (state_after graceful)) /\
    0 = exit_status r.
Proof.
  assert (happens (main (fun s => s) shop_env) (state_after graceful)) as Hh
    by (by apply state_happens; vm_compute).
  pose proof (main_exit_status (fun s => s) shop_env (state_after graceful) Hh) as H.
  assert (ps_main (state_after graceful) = Ret 0) as E by (by vm_compute).
  rewrite E, Load_shop in H. exact H.
Defined.

Lemma main_stops_witness :
  exists c1 c2, act (Env Expire) (state_after profiling) = Some c1 /\ act calm c1 = Some c2.
Proof.
  pose proof (state_after_run profiling ltac:(by vm_compute)) as Hl.
  destruct (main_stops (fun s => s) shop_env profiling (state_after profiling)
    (mkDecision None false 1) Hl) as [_ H].
  destruct H as [[status H] | [[c' H] | [_ H]]]; [by vm_compute| | |exact H]; exfalso.
  - assert ((look (state_after profiling)).1.1.1 = None) as E by (by vm_compute).
    unfold look in E. by rewrite H in E.
  - assert (runs (profiling ++ [calm]) = false) as E by (by vm_compute).
    unfold runs, shop_after in E. unfold shop_after in Hl. rewrite acts_app, Hl in E.
    cbn [acts] in E. unfold calm in E. by rewrite H in E.
Defined.

(** The runs above, as instances. *)
Definition waiting_for_profile : list action :=
  start_up ++ [Env (Accept DebugServer); Env (Accept ApiServer); Env Signal] ++ replicate 4 calm.

Definition still_waiting : list action := [Env (Accept ApiServer)].
Definition time_over : list action := still_waiting ++ [Env Expire] ++ replicate 6 calm.

Lemma awaits_Some (p : sys Z) s : awaits p = Some s -> exists k, p = Vis (AwaitIdle s) k.
Proof. destruct p as [a|v|Y op k]; try done. destruct op; try done. intros [= ->]. by exists k. Qed.

Lemma profile_goes_on :
  Forall (fun a => a <> Env (Finish DebugServer)) still_waiting /\
  Forall (fun a => a <> Env (Finish DebugServer)) time_over.
Proof. split; by repeat constructor. Qed.

Lemma shutdown_not_graceful_witness :
  (forall d, act (Main d) (state_after (waiting_for_profile ++ still_waiting)) = None) /\
  own_db (ps_own (state_after (waiting_for_profile ++ time_over))) <> Opened /\
  own_shut (ps_own (state_after port_taken)) DebugServer = false.
Proof.
  destruct (awaits_Some (ps_main (state_after waiting_for_profile)) DebugServer
    ltac:(by vm_compute)) as [k Hk].
  assert (0 < w_inflight (ps_world (state_after waiting_for_profile)) DebugServer)%nat as Hi
    by (apply Nat.ltb_lt; by vm_compute).
  destruct (shutdown_not_graceful (fun s => s) shop_env _
    (state_happens waiting_for_profile ltac:(by vm_compute))) as [H _].
  destruct (shutdown_not_graceful (fun s => s) shop_env _
    (state_happens port_taken ltac:(by vm_compute))) as [_ H3].
  split; [|split].
  - destruct (H k still_waiting _ Hk Hi (state_after_app waiting_for_profile still_waiting
      ltac:(by vm_compute) ltac:(by vm_compute)) (proj1 profile_goes_on)) as (_ & H1 & _).
    apply H1. by vm_compute.
  - destruct (H k time_over _ Hk Hi (state_after_app waiting_for_profile time_over
      ltac:(by vm_compute) ltac:(by vm_compute)) (proj2 profile_goes_on)) as (_ & _ & _ & _ & H2).
    apply (H2 1); [by vm_compute|].
    apply Nat.ltb_lt. by vm_compute.
  - destruct (H3 1 ltac:(by vm_compute) ltac:(by vm_compute) ltac:(by vm_compute)) as (_ & _ & H4).
    exact (proj1 (H4 DebugServer)).
Defined.
