(* ===== verification/Stopping.v ===== *)
(** * From the select to the end

    Main waits in its [select] most of its life.  Here: wherever main has come
    to, once the [select] finds the context done and no call fails, it goes on
    to [Ret 0], when no request is in flight. *)

From S2P Require Import Prelude GoRuntime Config Net Startup Lifecycle LifecycleLogic MainCorrect.

(** The answer of a call that does not fail. *)
Definition unfailing {X} (op : sysE X) : option X :=
  match op with
  | Stdouttrace_New | Resource_New _ | TracerShutdown | Sql_Open _ _ | Ping | Iofs_New
  | Migratepg_WithInstance | Migrate_NewWithInstance | Migrate_Up | AwaitIdle _ => Some (Ok tt)
  | SetTracerProvider | SetMaxOpenConns _ | SetMaxIdleConns _ | SetConnMaxLifetime _
  | SetConnMaxIdleTime _ | DbClose | GoListen _ | WithTimeout | CloseListener _ | Slog _ _ => Some tt
  | Select => None
  end.

(** What a program gives when no call fails. *)
Fixpoint ends_with {A} (p : sys A) : option A :=
  match p with
  | Ret a => Some a
  | Panic _ => None
  | Vis op k => match unfailing op with Some x => ends_with (k x) | None => None end
  end.

(** Whatever the calls before it answer, [P] holds of what follows a [select]
    that found the context done. *)
Definition found_done {A X} (P : sys A -> Prop) (op : sysE X) : (X -> sys A) -> Prop :=
  match op with Select => fun k => P (k ContextDone) | _ => fun _ => True end.

Fixpoint on_select {A} (P : sys A -> Prop) (p : sys A) : Prop :=
  match p with
  | Vis op k => found_done P op k /\ forall x, on_select P (k x)
  | _ => True
  end.

Lemma on_select_bind {A B} (P : sys B -> Prop) (f : A -> sys B) (p : sys A) :
  on_select (fun q => P (proc_bind f q)) p -> (forall a, on_select P (f a)) ->
  on_select P (proc_bind f p).
Proof.
  intros Hp Hf. induction p as [a|v|X op k IH]; [apply Hf|done|].
  destruct Hp as [Ho Hk]. split; [by destruct op|]. intros x. by apply IH.
Qed.

Lemma on_select_finally {A B} (P : sys B -> Prop) (h : outcome A -> sys B) (p : sys A) :
  on_select (fun q => P (proc_finally h q)) p -> (forall o, on_select P (h o)) ->
  on_select P (proc_finally h p).
Proof.
  intros Hp Hh. induction p as [a|v|X op k IH]; [apply Hh..|].
  destruct Hp as [Ho Hk]. split; [by destruct op|]. intros x. by apply IH.
Qed.

Lemma on_select_acts {A} (P : sys A -> Prop) l (c c' : process A) :
  on_select P (ps_main c) -> acts l c = Some c' -> on_select P (ps_main c').
Proof.
  revert c. induction l as [|a l IH]; cbn [acts]; intros c H E; [by simplify_eq|].
  destruct (act a c) as [c1|] eqn:Ea; [|done]. apply (IH c1); [|done].
  destruct a as [d|ev]; cbn [act] in Ea.
  - destruct (ps_main c) as [|v|X op k]; try done.
    destruct (sys_exec d op _ _) as [[[x o] w]|]; [|done]. injection Ea as <-. apply H.
  - destruct (env_step _ _ _); [|done]. by injection Ea as <-.
Qed.

(** Calls with no [select] among them. *)
Ltac no_select :=
  repeat first [progress intros | progress cbn [on_select found_done proc_bind perform] | done
               | split | case_match].

Section main.
Context (Quote : string -> string) (env : environ).

Lemma Setup_selects P : on_select P Setup.
Proof. unfold Setup, check. no_select. Qed.

Lemma set_if_selects P n op : (forall k, found_done P (op n) k) -> on_select P (set_if n op).
Proof. intros H. unfold set_if. case_decide; [|done]. split; [apply H|done]. Qed.

Lemma OpenWithPool_selects P dsn pool : on_select P (OpenWithPool dsn pool).
Proof.
  unfold OpenWithPool, check. cbn. split; [done|]. intros [u|e]; [|done].
  do 4 (apply on_select_bind; [by apply set_if_selects|intros _]). no_select.
Qed.

Lemma Migrate_selects P : on_select P Migrate.
Proof. unfold Migrate, check. no_select. Qed.

(** After the signal nothing but a failure keeps main from exiting with 0. *)
Lemma main_selects : on_select (fun q => ends_with q = Some 0) (main Quote env).
Proof.
  unfold main. destruct (Load Quote env) as [cfg|e]; [|no_select].
  apply on_select_bind; [|intros [e|]; no_select]. unfold run.
  apply on_select_bind; [apply Setup_selects|]. intros [u|e]; [|done]. unfold defer at 1.
  apply on_select_finally; [|intros [a|v]; no_select].
  apply on_select_bind; [apply OpenWithPool_selects|]. intros [u1|e]; [|done]. unfold defer at 1.
  apply on_select_finally; [|intros [a|v]; no_select].
  apply on_select_bind; [no_select|]. intros _.
  apply on_select_bind; [apply Migrate_selects|]. intros [u2|e]; [|done].
  apply on_select_bind; [unfold start_debug; no_select|]. intros _.
  unfold serve_until_stopped, Shutdown. cbn [proc_bind perform on_select found_done].
  split; [done|]. intros _. split; [|intros [|err]; no_select].
  cbn. by destruct (debug_enabled cfg).
Qed.

(** Main in its [select], from any run. *)
Lemma select_then_exit l c k :
  acts l (begin (main Quote env)) = Some c -> ps_main c = Vis Select k ->
  ends_with (k ContextDone) = Some 0.
Proof.
  intros Hl Hk. pose proof (on_select_acts _ l (begin (main Quote env)) c main_selects Hl) as H.
  rewrite Hk in H. apply H.
Qed.
End main.

(** ** Running on *)

Definition no_fault : decision := mkDecision None false 0.

Lemma unfailing_exec {X} (op : sysE X) x o w :
  unfailing op = Some x -> (forall s, w_inflight w s = 0%nat) ->
  exists o' w', sys_exec no_fault op o w = Some (x, o', w') /\ w_inflight w' = w_inflight w.
Proof.
  intros Hx Hi. destruct op; cbn [unfailing] in Hx; simplify_eq; cbn [sys_exec]; try by eexists _, _.
  rewrite Hi. by eexists _, _.
Qed.

Lemma ends_with_acts {A} (p : sys A) o w a :
  ends_with p = Some a -> (forall s, w_inflight w s = 0%nat) ->
  exists n o' w', acts (replicate n (Main no_fault)) (mkProcess p o w) = Some (mkProcess (Ret a) o' w').
Proof.
  revert o w. induction p as [a'|v|X op k IH]; intros o w E Hi; cbn [ends_with] in E; simplify_eq.
  - by exists 0%nat, o, w.
  - destruct (unfailing op) as [x|] eqn:Ex; [|done].
    destruct (unfailing_exec op x o w Ex Hi) as (o1 & w1 & Hs & Hw).
    destruct (IH x o1 w1 E) as (n & o' & w' & Hn); [by rewrite Hw|].
    exists (S n), o', w'. cbn [replicate acts act ps_main ps_own ps_world]. by rewrite Hs.
Qed.

(** With the signal come and nobody to wait for, a [select] leads to the exit. *)
Lemma select_exits {A} (k : wakeup -> sys A) o w a :
  ends_with (k ContextDone) = Some a -> w_ctx w = true -> (forall s, w_inflight w s = 0%nat) ->
  exists n o' w', acts (replicate n (Main no_fault)) (mkProcess (Vis Select k) o w) =
    Some (mkProcess (Ret a) o' w').
Proof.
  intros E Hc Hi. destruct (ends_with_acts (k ContextDone) o w a E Hi) as (n & o' & w' & Hn).
  exists (S n), o', w'. cbn [replicate acts act ps_main ps_own ps_world sys_exec].
  unfold do_select. rewrite Hc. by destruct (receive w).
Qed.
