(* ===== verification/Site.v ===== *)
(** * The process and its requests

    [Lifecycle]'s process with [Machine]'s requests in it: the API listener
    accepts a request while it accepts at all, its handler works on the database
    through the pool the process has opened, the response ends it; main goes on
    around them, and when it has returned nothing moves any more. *)

From S2P Require Import Prelude GoRuntime Domain Database Repository Service Spec Machine Rely.
From S2P Require Import Workload Scheduling Strconv GoDuration Json Web Mux Handlers Router Http.
From S2P Require Import HttpCorrect HttpConcurrent HttpProgress Config Net Startup Lifecycle.
From S2P Require Import LifecycleLogic LifecycleCorrect MainCorrect Stopping.
#[local] Open Scope go_scope.

Record site : Type := mkSite {
  st_proc : process Z;
  st_conf : config (outcome unit * webstate);
  st_reqs : list Request;  (** accepted so far *)
  st_open : gset nat       (** of those, without a response *)
}.

Inductive site_action : Type :=
| Process (a : action)
| Arrive (q : Request)          (** the API listener accepts a request *)
| Work (i : nat) (ch : choice)  (** its handler goes on *)
| Respond (i : nat).            (** its handler has returned *)

(** The bound on connections (0: none). *)
Definition pool_size (o : own) : nat := Z.to_nat (MaxOpenConns (own_pool o)).

(** What of it is left to the handlers: the migration driver may keep some. *)
Definition handler_pool (o : own) : nat := (pool_size o - own_kept o)%nat.

(** The pool is bounded and nothing of it is left. *)
Definition starved (o : own) : bool :=
  bool_decide (0 < pool_size o <= own_kept o)%nat.

(** The next operation of a handler needs a connection of its own. *)
Definition takes_conn {A} (c : config A) (i : nat) : bool :=
  match lookup_thread c i with
  | Some (Vis o _, _) => match o with BeginTx => true | Exec DB _ => true | _ => false end
  | _ => false
  end.

(** A pool that is closed or has nothing left gives no connection: the operation
    waits, or fails without having been performed; one that is in use goes on. *)
Definition db_allows (o : own) (c : config (outcome unit * webstate)) (i : nat) (ch : choice) : bool :=
  match own_db o, starved o with
  | Opened, false => true
  | _, _ => negb (takes_conn c i) ||
         match ch_fault ch with Some _ => negb (ch_applied ch) | None => false end
  end.

(** The process is gone. *)
Definition exited {A} (p : process A) : bool :=
  match ps_main p with Vis _ _ => false | _ => true end.

Section site.
Context (X : externals) (Quote : string -> string) (env : environ).

Definition with_proc (p : process Z) (s : site) : site :=
  mkSite p (st_conf s) (st_reqs s) (st_open s).

Definition site_step (a : site_action) (s : site) : option site :=
  if exited (st_proc s) then None
  else match a with
  | Process (Env (Accept ApiServer)) | Process (Env (Finish ApiServer)) => None
  | Process a => p ← act a (st_proc s); Some (with_proc p s)
  | Arrive q =>
      p ← act (Env (Accept ApiServer)) (st_proc s);
      Some (mkSite p (enter (WL := http_workload X) q (st_conf s)) (st_reqs s ++ [q])
                   ({[length (st_reqs s)]} ∪ st_open s))
  | Work i ch =>
      if db_allows (ps_own (st_proc s)) (st_conf s) i ch then
        c ← step (handler_pool (ps_own (st_proc s))) i ch (st_conf s);
        Some (mkSite (st_proc s) c (st_reqs s) (st_open s))
      else None
  | Respond i =>
      if decide (i ∈ st_open s) then
        match lookup_thread (st_conf s) i with
        | Some (Ret _, _) =>
            p ← act (Env (Finish ApiServer)) (st_proc s);
            Some (mkSite p (st_conf s) (st_reqs s) (st_open s ∖ {[i]}))
        | _ => None
        end
      else None
  end%stdpp.

Fixpoint site_steps (l : list site_action) (s : site) : option site :=
  match l with
  | [] => Some s
  | a :: rest => match site_step a s with Some s' => site_steps rest s' | None => None end
  end.

Lemma site_steps_app l l' s :
  site_steps (l ++ l') s = match site_steps l s with Some s' => site_steps l' s' | None => None end.
Proof. revert s. induction l as [|a l IH]; cbn; intros s; [done|]. by destruct (site_step a s). Qed.

(** [main] starts on a database. *)
Definition site_begin (t : tables) (seq : Z) : site :=
  mkSite (begin (main Quote env)) (mkConfig (mkShared t seq 0 ∅) []) [] ∅.

Definition site_reaches (t : tables) (seq : Z) (s : site) : Prop :=
  exists l, site_steps l (site_begin t seq) = Some s.

(** ** What always holds *)

Record site_ok (t : tables) (s : site) : Prop := mkSiteOk {
  site_proc : happens (main Quote env) (st_proc s);
  site_conf : conf_ok (WL := http_workload X) (st_reqs s) (st_conf s);
  site_atomic : rtc atomic_step t (committed (st_conf s));
  site_count : size (st_open s) = w_inflight (ps_world (st_proc s)) ApiServer;
  site_open : forall i, i ∈ st_open s -> (i < length (st_reqs s))%nat;
  site_done : forall i, (i < length (st_reqs s))%nat -> i ∉ st_open s ->
    exists o, Workload.answered (st_conf s) i o;
  site_budget : exists ns, budget_ok ns (st_conf s)
}.

Lemma happens_act {A} (p : sys A) a c c' : happens p c -> act a c = Some c' -> happens p c'.
Proof.
  intros [l Hl] Ha. exists (l ++ [a]). rewrite acts_app, Hl. cbn [acts]. by rewrite Ha.
Qed.

(** Only accepting and finishing a request changes how many are in flight. *)
Definition api_traffic (a : action) : bool :=
  match a with Env (Accept ApiServer) | Env (Finish ApiServer) => true | _ => false end.

Lemma sys_exec_inflight d {Y} (op : sysE Y) o w x o' w' :
  sys_exec d op o w = Some (x, o', w') -> w_inflight w' = w_inflight w.
Proof.
  destruct op; cbn [sys_exec]; intros E; try (injection E as _ _ <-; done).
  - unfold do_select, receive in E. by repeat (case_match; simplify_eq/=).
  - by repeat (case_match; simplify_eq/=).
Qed.

Lemma goroutine_inflight s w w' : goroutine_step s w = Some w' -> w_inflight w' = w_inflight w.
Proof. unfold goroutine_step. intros E. by repeat (case_match; simplify_eq/=). Qed.

Lemma act_inflight {A} a (c c' : process A) :
  api_traffic a = false -> act a c = Some c' ->
  w_inflight (ps_world c') ApiServer = w_inflight (ps_world c) ApiServer.
Proof.
  intros Ha E. destruct a as [d|ev]; cbn [act] in E.
  - destruct (ps_main c); try done. destruct (sys_exec d o _ _) as [[[x o'] w']|] eqn:Ex; [|done].
    injection E as <-. cbn [ps_world]. by rewrite (sys_exec_inflight _ _ _ _ _ _ _ Ex).
  - destruct (env_step _ ev _) as [w'|] eqn:Ev; [|done]. injection E as <-. cbn [ps_world].
    destruct ev as [| |s e|s|s|s|s]; cbn [env_step] in Ev; [by simplify_eq/=| | | | | |].
    + by repeat (case_match; simplify_eq/=).
    + by repeat (case_match; simplify_eq/=).
    + by repeat (case_match; simplify_eq/=).
    + destruct (accepting _ _ _); [|done]. destruct s; [done|]. injection Ev as <-.
      cbn [set_inflight w_inflight]. by rewrite set_other.
    + destruct s; [done|]. destruct (w_inflight _ DebugServer); [done|]. injection Ev as <-.
      cbn [set_inflight w_inflight]. by rewrite set_other.
    + by rewrite (goroutine_inflight _ _ _ Ev).
Qed.

Lemma act_begin_inflight (p : sys Z) : w_inflight (ps_world (begin p)) ApiServer = 0%nat.
Proof. done. Qed.

Lemma site_begin_ok t seq : db_inv t -> site_ok t (site_begin t seq).
Proof.
  intros Hi. split; cbn [site_begin st_proc st_conf st_reqs st_open].
  - by exists [].
  - exact (start_conf_ok (WL := http_workload X) t seq [] Hi (Forall_nil_2 _)).
  - done.
  - by rewrite size_empty.
  - set_solver.
  - simpl. lia.
  - exists []. constructor.
Qed.

(** Main and what is around it, the requests left alone. *)
Lemma with_proc_ok t s a p :
  site_ok t s -> api_traffic a = false -> act a (st_proc s) = Some p -> site_ok t (with_proc p s).
Proof.
  intros [H1 H2 H3 H4 H5 H6 H7] Ha E. split; try done.
  - by eapply happens_act.
  - cbn [with_proc st_open st_proc]. by rewrite (act_inflight _ _ _ Ha E).
Qed.

Lemma accept_inflight (c c' : process Z) :
  act (Env (Accept ApiServer)) c = Some c' ->
  w_inflight (ps_world c') ApiServer = S (w_inflight (ps_world c) ApiServer).
Proof.
  cbn [act env_step]. destruct (accepting _ _ _); [|done]. intros [= <-].
  cbn [ps_world set_inflight w_inflight]. by rewrite set_same.
Qed.

Lemma finish_inflight (c c' : process Z) :
  act (Env (Finish ApiServer)) c = Some c' ->
  w_inflight (ps_world c) ApiServer = S (w_inflight (ps_world c') ApiServer).
Proof.
  cbn [act env_step]. destruct (w_inflight (ps_world c) ApiServer) eqn:E; [done|]. intros [= <-].
  cbn [ps_world set_inflight w_inflight]. by rewrite set_same.
Qed.

Lemma arrive_ok t s q p :
  site_ok t s -> act (Env (Accept ApiServer)) (st_proc s) = Some p ->
  site_ok t (mkSite p (enter (WL := http_workload X) q (st_conf s)) (st_reqs s ++ [q])
               ({[length (st_reqs s)]} ∪ st_open s)).
Proof.
  intros [H1 H2 H3 H4 H5 H6 [ns H7]] E.
  split; cbn [st_proc st_conf st_reqs st_open]; rewrite ?length_app; cbn [length].
  - by eapply happens_act.
  - by apply enter_conf_ok.
  - done.
  - rewrite (accept_inflight _ _ E), <- H4, size_union, size_singleton; [done|].
    intros i Hi Ho. apply elem_of_singleton in Hi as ->. specialize (H5 _ Ho). lia.
  - intros i Hi. apply elem_of_union in Hi as [Hi%elem_of_singleton|Hi]; [lia|].
    specialize (H5 _ Hi). lia.
  - intros i Hi Ho. assert (i < length (st_reqs s))%nat as Hlt by set_solver by lia.
    destruct (H6 i Hlt ltac:(set_solver)) as (o & T & Ht). exists o, T.
    cbn [enter cf_threads]. by apply lookup_app_l_Some.
  - exists (ns ++ [max_http_ops]). apply Forall2_app; [done|]. constructor; [|done].
    apply serve_http_le.
Qed.

Lemma step_answered {A} pool i ch (c c' : config A) j r :
  step pool i ch c = Some c' -> Workload.answered c j r -> Workload.answered c' j r.
Proof.
  intros Hs [T HT]. destruct (step_inv _ _ _ _ _ Hs) as (Y & o & k & T' & x & S' & T2 & Hi & _ & _ & ->).
  exists T. cbn [cf_threads]. rewrite list_lookup_insert_ne; [done|]. intros ->. congruence.
Qed.

Lemma work_ok t s pool i ch c :
  site_ok t s -> step pool i ch (st_conf s) = Some c ->
  site_ok t (mkSite (st_proc s) c (st_reqs s) (st_open s)).
Proof.
  intros [H1 H2 H3 H4 H5 H6 [ns H7]] E.
  destruct (step_conf_ok _ _ _ _ _ _ H2 E) as [Ha Hc]. split; try done.
  - eapply rtc_r; [exact H3|exact Ha].
  - intros j Hj Ho. destruct (H6 j Hj Ho) as [o Hr]. exists o. by eapply step_answered.
  - destruct (step_budget _ _ _ _ _ _ H7 E) as (ns' & Hns & _). by exists ns'.
Qed.

Lemma respond_ok t s i p o T :
  site_ok t s -> i ∈ st_open s -> cf_threads (st_conf s) !! i = Some (Ret o, T) ->
  act (Env (Finish ApiServer)) (st_proc s) = Some p ->
  site_ok t (mkSite p (st_conf s) (st_reqs s) (st_open s ∖ {[i]})).
Proof.
  intros [H1 H2 H3 H4 H5 H6 H7] Hi Ht E. split; cbn [st_proc st_conf st_reqs st_open]; try done.
  - by eapply happens_act.
  - pose proof (finish_inflight _ _ E) as Hf. rewrite <- H4 in Hf.
    rewrite size_difference by set_solver. rewrite size_singleton. lia.
  - set_solver.
  - intros j Hj Ho. destruct (decide (j = i)) as [->|Hne]; [by exists o, T|].
    apply H6; [done|set_solver].
Qed.

Lemma site_step_ok t a s s' : site_ok t s -> site_step a s = Some s' -> site_ok t s'.
Proof.
  intros Hok. unfold site_step. destruct (exited (st_proc s)); [done|]. destruct a as [a|q|i ch|i].
  - intros E. assert (api_traffic a = false /\
      exists p, act a (st_proc s) = Some p /\ s' = with_proc p s) as (Ha & p & Hp & ->).
    { destruct a as [d|[| |srv e|srv|srv|srv|srv]]; try destruct srv; try done;
        (apply bind_Some in E as (p & Hp & [= <-]); eauto). }
    by eapply with_proc_ok.
  - intros (p & Hp & [= <-])%bind_Some. by apply arrive_ok.
  - destruct (db_allows _ _ _ _); [|done]. intros (c & Hc & [= <-])%bind_Some. by eapply work_ok.
  - case_decide as Hi; [|done]. unfold lookup_thread.
    destruct (cf_threads (st_conf s) !! i) as [[[o|v|Y op k] T]|] eqn:Ht; try done.
    intros (p & Hp & [= <-])%bind_Some. by eapply respond_ok.
Qed.

Lemma site_steps_ok t l s s' : site_ok t s -> site_steps l s = Some s' -> site_ok t s'.
Proof.
  revert s. induction l as [|a l IH]; cbn [site_steps]; intros s Hok E; [by simplify_eq|].
  destruct (site_step a s) as [s1|] eqn:E1; [|done]. eapply IH; [|exact E]. by eapply site_step_ok.
Qed.

Lemma site_reaches_ok t seq s : db_inv t -> site_reaches t seq s -> site_ok t s.
Proof. intros Hi [l Hl]. eapply site_steps_ok; [|exact Hl]. by apply site_begin_ok. Qed.

(** ** What the requests see of the process *)

Lemma arrive_serving t s q s' :
  site_ok t s -> site_step (Arrive q) s = Some s' ->
  exists cfg, Load Quote env = Ok cfg /\ own_db (ps_own (st_proc s)) = Opened /\
    own_migrated (ps_own (st_proc s)) = true /\
    pool_size (ps_own (st_proc s)) = Z.to_nat (DBMaxOpenConns cfg).
Proof.
  intros Hok. unfold site_step. destruct (exited _); [done|]. intros (p & Hp & _)%bind_Some.
  cbn [act env_step] in Hp. destruct (accepting _ _ _) eqn:Ha; [|done]. clear Hp.
  pose proof (site_proc _ _ Hok) as Hh. destruct (Load Quote env) as [cfg|e] eqn:HL.
  - exists cfg. destruct (svc_accepting _ _ _ (main_service_ok _ _ _ _ HL Hh) Ha) as (H1 & H2 & H3).
    split_and!; [done..|]. unfold pool_size. by rewrite H3.
  - pose proof (main_misconfigured _ _ _ _ HL Hh) as Hq.
    exfalso. destruct Hh as [l Hl].
    pose proof (mwp_acts (fun o _ => quiet o) (fun status _ _ => status = 1) l (begin (main Quote env))
      (st_proc s) world0_ok (mwp_main_misconfigured _ _ _ HL) Hl) as [Hw _].
    destruct (ok_unstarted _ _ Hw ApiServer (quiet_started _ Hq ApiServer)) as [Hg _].
    unfold accepting in Ha. by rewrite Hg in Ha.
Qed.

(** How a step changes the requests. *)
Lemma site_step_conf a s s' :
  site_step a s = Some s' ->
  (st_conf s' = st_conf s /\ st_reqs s' = st_reqs s) \/
  (exists q, st_conf s' = enter (WL := http_workload X) q (st_conf s) /\
     st_reqs s' = st_reqs s ++ [q]) \/
  (exists pool i ch, step pool i ch (st_conf s) = Some (st_conf s') /\ st_reqs s' = st_reqs s).
Proof.
  unfold site_step. destruct (exited (st_proc s)); [done|]. destruct a as [a|q|i ch|i].
  - intros E. left. assert (exists p, s' = with_proc p s) as [p ->]; [|done].
    destruct a as [d|[| |srv e|srv|srv|srv|srv]]; try destruct srv; try done;
      (apply bind_Some in E as (p & Hp & [= <-]); eauto).
  - intros (p & Hp & [= <-])%bind_Some. right. left. by exists q.
  - destruct (db_allows _ _ _ _); [|done]. intros (c & Hc & [= <-])%bind_Some.
    right. right. by eexists _, i, ch.
  - case_decide; [|done]. destruct (lookup_thread (st_conf s) i) as [[[o|v|Y op k] T]|]; try done.
    intros (p & Hp & [= <-])%bind_Some. by left.
Qed.

Lemma site_step_atomic t a s s' :
  site_ok t s -> site_step a s = Some s' -> atomic_step (committed (st_conf s)) (committed (st_conf s')).
Proof.
  intros Hok E.
  destruct (site_step_conf _ _ _ E) as [[-> _]|[(q & -> & _)|(pool & i & ch & Hc & _)]];
    [constructor..|].
  exact (proj1 (step_conf_ok _ _ _ _ _ _ (site_conf _ _ Hok) Hc)).
Qed.

(** ** Draining *)

(** Handlers at work, nothing else. *)
Definition works (sched : list (nat * choice)) : list site_action :=
  map (fun m => Work m.1 m.2) sched.

Lemma site_works s sched c :
  exited (st_proc s) = false -> own_db (ps_own (st_proc s)) = Opened ->
  starved (ps_own (st_proc s)) = false ->
  run_schedule (handler_pool (ps_own (st_proc s))) sched (st_conf s) = Some c ->
  site_steps (works sched) s = Some (mkSite (st_proc s) c (st_reqs s) (st_open s)).
Proof.
  intros He Hd Hp. remember (st_conf s) as c0 eqn:E. revert s c0 E He Hd Hp.
  induction sched as [|[i ch] sched IH]; intros s c0 -> He Hd Hp.
  - intros [= <-]. by destruct s.
  - cbn [run_schedule works map site_steps]. intros (c1 & Hc & Hr)%bind_Some.
    unfold site_step. rewrite He. unfold db_allows. rewrite Hd, Hp. cbn [fst snd]. rewrite Hc.
    cbn [mbind option_bind].
    exact (IH (mkSite (st_proc s) c1 (st_reqs s) (st_open s)) c1 eq_refl He Hd Hp Hr).
Qed.

Definition same_main (p p' : process Z) : Prop :=
  ps_main p' = ps_main p /\ ps_own p' = ps_own p /\
  w_ctx (ps_world p') = w_ctx (ps_world p) /\
  w_inflight (ps_world p') DebugServer = w_inflight (ps_world p) DebugServer.

Lemma finish_api (p : process Z) n :
  w_inflight (ps_world p) ApiServer = S n ->
  exists p', act (Env (Finish ApiServer)) p = Some p' /\ same_main p p'.
Proof.
  intros E. cbn [act env_step]. rewrite E. eexists. split; [done|].
  split_and!; [done..|]. cbn [ps_world set_inflight w_inflight]. by rewrite set_other.
Qed.

(** Main on its own. *)
Lemma site_acts n d s p :
  acts (replicate n (Main d)) (st_proc s) = Some p ->
  site_steps (map Process (replicate n (Main d))) s = Some (with_proc p s).
Proof.
  revert s. induction n as [|n IH]; intros s E; [injection E as <-; by destruct s|].
  cbn [replicate acts] in E. destruct (act (Main d) (st_proc s)) as [p1|] eqn:E1; [|done].
  cbn [replicate map site_steps]. unfold site_step.
  assert (exited (st_proc s) = false) as ->
    by (unfold exited; cbn [act] in E1; by destruct (ps_main (st_proc s))).
  rewrite E1. exact (IH (with_proc p1 s) E).
Qed.

(** Main in its [select] with no request in flight: the signal, and then the
    exit. *)
Lemma signal_exits t s k :
  site_ok t s -> ps_main (st_proc s) = Vis Select k ->
  (forall srv, w_inflight (ps_world (st_proc s)) srv = 0%nat) ->
  exists l s', Forall (fun a => exists a', a = Process a') l /\ site_steps l s = Some s' /\
    ps_main (st_proc s') = Ret 0 /\ st_reqs s' = st_reqs s /\ st_conf s' = st_conf s.
Proof.
  intros Hok Hk Hi. destruct (site_proc _ _ Hok) as [l0 Hl0].
  pose proof (select_then_exit Quote env l0 _ k Hl0 Hk) as Hend.
  set (p := st_proc s) in *. set (w := ps_world p).
  set (w1 := mkWorld true (w_expired w) (w_go w) (w_inflight w) (w_errch w) (w_errch_closed w)).
  destruct (select_exits k (ps_own p) w1 0 Hend eq_refl Hi) as (n & o' & w' & Hn).
  rewrite <- Hk in Hn. set (s1 := with_proc (mkProcess (ps_main p) (ps_own p) w1) s).
  exists (Process (Env Signal) :: map Process (replicate n (Main no_fault))).
  eexists. split; [|split].
  - constructor; [by eexists|]. apply Forall_map, Forall_forall. by eexists.
  - cbn [site_steps]. assert (site_step (Process (Env Signal)) s = Some s1) as ->.
    { unfold site_step, exited. fold p. by rewrite Hk. }
    by apply site_acts.
  - by cbn.
Qed.

(** When every handler has returned the responses can all go out. *)
Lemma all_respond t s :
  site_ok t s -> exited (st_proc s) = false -> finished (st_conf s) = true ->
  exists l s', Forall (fun a => exists i, a = Respond i) l /\ site_steps l s = Some s' /\
    st_open s' = ∅ /\ st_conf s' = st_conf s /\ st_reqs s' = st_reqs s /\
    same_main (st_proc s) (st_proc s').
Proof.
  remember (size (st_open s)) as n eqn:Hn. revert s Hn. induction n as [|n IH]; intros s Hn Hok He Hf.
  - exists [], s. split_and!; try done. by apply leibniz_equiv, size_empty_inv.
  - destruct (size_pos_elem_of (st_open s) ltac:(lia)) as [i Hi].
    pose proof (site_open _ _ Hok i Hi) as Hlt.
    destruct (finished_answered _ _ _ (site_conf _ _ Hok) Hf Hlt) as (o & T & Ht).
    destruct (finish_api (st_proc s) n) as (p & Hp & (Hm & Ho & Hc & Hd));
      [by rewrite <- (site_count _ _ Hok)|].
    set (s1 := mkSite p (st_conf s) (st_reqs s) (st_open s ∖ {[i]})).
    assert (site_step (Respond i) s = Some s1) as Hs.
    { unfold site_step. rewrite He. rewrite decide_True by done. unfold lookup_thread.
      rewrite Ht, Hp. done. }
    destruct (IH s1) as (l & s2 & Hl & Hr & H1 & H2 & H3 & (H4 & H5 & H6 & H7)).
    + cbn [s1 st_open]. rewrite size_difference by set_solver. rewrite size_singleton. lia.
    + by eapply site_step_ok.
    + unfold exited in *. cbn [s1 st_proc]. by rewrite Hm.
    + done.
    + exists (Respond i :: l), s2. split; [by constructor; [eexists|]|].
      cbn [site_steps]. rewrite Hs. cbn [s1 st_proc st_conf st_reqs] in *.
      split_and!; try done. split_and!; congruence.
Qed.

Lemma can_drain t s ch :
  site_ok t s -> exited (st_proc s) = false -> own_db (ps_own (st_proc s)) = Opened ->
  starved (ps_own (st_proc s)) = false -> ch_fault ch = None ->
  exists sched l s', Forall (fun m => snd m = ch) sched /\ Forall (fun a => exists i, a = Respond i) l /\
    site_steps (works sched ++ l) s = Some s' /\ st_open s' = ∅ /\ st_reqs s' = st_reqs s /\
    finished (st_conf s') = true /\ same_main (st_proc s) (st_proc s').
Proof.
  intros Hok He Hd Hst Hch. destruct (site_budget _ _ Hok) as [ns Hns].
  destruct (calm_run (handler_pool (ps_own (st_proc s))) _ _ _ ch (site_conf _ _ Hok) Hns Hch)
    as (sched & c & Hall & Hr & Hf).
  pose proof (site_works s sched c He Hd Hst Hr) as Hw.
  assert (site_ok t (mkSite (st_proc s) c (st_reqs s) (st_open s))) as Hok1 by (by eapply site_steps_ok).
  destruct (all_respond t _ Hok1 He Hf) as (l & s' & Hl & Hs & H1 & H2 & H3 & H4).
  exists sched, l, s'. split_and!; try done.
  - rewrite site_steps_app, Hw. exact Hs.
  - rewrite H2. exact Hf.
Qed.
End site.
