(* ===== verification/SiteCorrect.v ===== *)
(** * The process and its requests, proved

    For every run of the process with any traffic: the committed tables follow
    the specification, whatever happens to the process; an exit with status 0
    leaves no request unanswered; and the requests in flight can always be
    drained. *)

From S2P Require Import Prelude GoRuntime Domain Database Repository Service Spec Machine Rely.
From S2P Require Import Workload ServiceCorrect Scenario Strconv GoDuration Json Web Mux Handlers.
From S2P Require Import Router Http HttpCorrect HttpConcurrent HttpProgress Config Net Startup Lifecycle.
From S2P Require Import LifecycleLogic LifecycleCorrect MainCorrect Site.

Section theorems.
Context (X : externals) (Quote : string -> string) (env : environ).
Variables (t : tables) (seq : Z).
Hypothesis Hinv : db_inv t.

(** C2: the whole process refines the specification.  From the first line of
    [main] to the moment the process is gone, whatever the listeners, the
    clients, the database and the signals do: every step of the process or of
    one of its handlers changes the committed tables by one step of the
    specification (nothing, a new wallet, a FAILED transfer, a whole PROCESSED
    transfer), so they are well formed at every moment, also when the process
    is gone with requests in flight; and a request is accepted only on an open,
    migrated database, with the pool bounded as the environment says. *)
Theorem process_refines_specification s :
  site_reaches X Quote env t seq s ->
  rtc atomic_step t (committed (st_conf s)) /\ db_inv (committed (st_conf s)) /\
  (forall a s', site_step X a s = Some s' ->
     atomic_step (committed (st_conf s)) (committed (st_conf s'))) /\
  (forall q s', site_step X (Arrive q) s = Some s' ->
     exists cfg, Load Quote env = Ok cfg /\ own_db (ps_own (st_proc s)) = Opened /\
       own_migrated (ps_own (st_proc s)) = true /\
       pool_size (ps_own (st_proc s)) = Z.to_nat (DBMaxOpenConns cfg)).
Proof.
  intros Hs. pose proof (site_reaches_ok X Quote env t seq s Hinv Hs) as Hok.
  split_and!; [apply Hok|apply (site_conf _ _ _ _ _ Hok)| |]; intros.
  - by eapply site_step_atomic.
  - by eapply arrive_serving.
Qed.

(** C3: a graceful stop loses nothing.  When the process exits with status 0
    every request its API listener ever accepted has been answered, with one of
    the eight statuses; no transaction is left open; and each transfer that was
    answered 200 is committed as answered. *)
Theorem graceful_exit_answers_all s :
  site_reaches X Quote env t seq s -> ps_main (st_proc s) = Ret 0 ->
  Forall (fun pT => pT.2 = None) (cf_threads (st_conf s)) /\
  forall i q, st_reqs s !! i = Some q ->
    exists rsp, responded (st_conf s) i rsp /\
      rsp_status rsp ∈ [200; 201; 301; 400; 404; 405; 409; 500] /\
      forall ctr, posts_transfer q ctr -> rsp_status rsp = 200 ->
        exists tr, rsp_body rsp = transfer_body X tr /\
          reply_ok (service_request ctr) tr (committed (st_conf s)).
Proof.
  intros Hs Hm. pose proof (site_reaches_ok X Quote env t seq s Hinv Hs) as Hok.
  assert (st_open s = ∅) as Ho.
  { apply leibniz_equiv, size_empty_inv. rewrite (site_count _ _ _ _ _ Hok).
    pose proof (main_returns _ _ _ (site_proc _ _ _ _ _ Hok)) as Hr. rewrite Hm in Hr.
    destruct (Load Quote env) as [cfg|e]; [|done].
    destruct Hr as (r & (Hr & _) & E). destruct r as [e|]; [done|apply Hr]. }
  pose proof (site_conf _ _ _ _ _ Hok) as Hc.
  assert (forall i, (i < length (st_reqs s))%nat -> exists o,
    cf_threads (st_conf s) !! i = Some (Ret o, None)) as Hall.
  { intros i Hi. destruct (site_done _ _ _ _ _ Hok i Hi) as [o Ha]; [set_solver|].
    destruct (answered_post _ _ _ _ Hc Ha) as (_ & _ & _ & H). eauto. }
  pose proof (Forall2_length _ _ _ (conf_threads _ _ Hc)) as Hlen. split.
  - apply Forall_lookup. intros i pT Hi. apply lookup_lt_Some in Hi as Hlt.
    destruct (Hall i ltac:(lia)) as [o Ho']. by simplify_eq.
  - intros i q Hi. destruct (Hall i ltac:(by eapply lookup_lt_Some)) as [o Hth].
    destruct (answered_post _ _ _ _ Hc (ex_intro _ None Hth)) as (q' & _ & Hpost & _).
    destruct (http_post_status _ _ _ _ _ Hpost) as (ws & -> & Hst).
    exists (response_of ws). assert (responded (st_conf s) i (response_of ws)) as Hrsp
      by (exists ws; split; [by exists None|done]).
    split_and!; [done..|]. intros ctr Hq H200. by eapply posted.
Qed.

(** C11: the requests in flight can always be drained.  Wherever the process and
    its traffic have come to, as long as the process lives, its database is open
    and its pool is unbounded or larger than what the migration driver keeps of
    it: without further faults the handlers alone can run every accepted request
    to its response, whatever is left of the pool.  If no admin request is
    in flight, then main does not have to wait once the signal has come; and if
    main is waiting in its select, the signal can come and lead it to exit
    status 0. *)
Theorem requests_can_drain s ch :
  site_reaches X Quote env t seq s -> exited (st_proc s) = false ->
  own_db (ps_own (st_proc s)) = Opened ->
  (pool_size (ps_own (st_proc s)) = 0 \/
   own_kept (ps_own (st_proc s)) < pool_size (ps_own (st_proc s)))%nat -> ch_fault ch = None ->
  exists l s', site_steps X l s = Some s' /\
    Forall (fun a => match a with
                     | Work _ ch' => ch' = ch
                     | Respond _ => True
                     | _ => False
                     end) l /\
    st_open s' = ∅ /\ st_reqs s' = st_reqs s /\ ps_main (st_proc s') = ps_main (st_proc s) /\
    (w_inflight (ps_world (st_proc s)) DebugServer = 0%nat ->
     (w_ctx (ps_world (st_proc s)) = true -> forall d, exists p, act (Main d) (st_proc s') = Some p) /\
     forall k, ps_main (st_proc s) = Vis Select k -> exists l' s'',
       Forall (fun a => exists a', a = Process a') l' /\ site_steps X l' s' = Some s'' /\
       ps_main (st_proc s'') = Ret 0 /\ st_reqs s'' = st_reqs s).
Proof.
  intros Hs He Hd Hpool Hch. pose proof (site_reaches_ok X Quote env t seq s Hinv Hs) as Hok.
  assert (starved (ps_own (st_proc s)) = false) as Hst
    by (apply bool_decide_eq_false; lia).
  destruct (can_drain X Quote env t s ch Hok He Hd Hst Hch) as
    (sched & l & s' & Hall & Hl & Hsteps & Ho & Hr & _ & (Hm & Hown & Hc & Hi)).
  exists (works sched ++ l), s'. split_and!; [done| |done|done|done|].
  - apply Forall_app. split; [by apply Forall_map|]. eapply Forall_impl; [exact Hl|].
    by intros a [i ->].
  - intros Hdbg. pose proof (site_steps_ok _ _ _ _ _ _ _ Hok Hsteps) as Hok'.
    assert (forall srv, w_inflight (ps_world (st_proc s')) srv = 0%nat) as Hidle.
    { intros []; [|by rewrite Hi].
      rewrite <- (site_count _ _ _ _ _ Hok'), Ho. apply size_empty. }
    split.
    + intros Hctx d. unfold exited in He. cbn [act]. rewrite Hm.
      destruct (ps_main (st_proc s)) as [a|v|Y op k]; try done.
      destruct (sys_exec d op _ _) as [[[x o'] w']|] eqn:E; [by eexists|].
      destruct (sys_blocks op d _ _ ltac:(by rewrite Hc) E) as (srv & Hlt & _).
      rewrite Hidle in Hlt. lia.
    + intros k Hk. rewrite <- Hm in Hk.
      destruct (signal_exits _ _ _ _ _ _ Hok' Hk Hidle) as (l' & s2 & Hl' & H1 & H2 & H3 & _).
      exists l', s2. split_and!; [done..|]. congruence.
Qed.
End theorems.

(** ** A run of the site

    The server starts on the small bank, a client pays, the signal comes while
    the payment is being made, and the server drains. *)

Definition ident (v : string) : string := v.

Definition site_after (l : list site_action) : site :=
  default (site_begin ident shop_env bank 1) (site_steps demo l (site_begin ident shop_env bank 1)).

Definition site_runs (l : list site_action) : bool :=
  match site_steps demo l (site_begin ident shop_env bank 1) with Some _ => true | None => false end.

Lemma site_after_reaches l :
  site_runs l = true -> site_reaches demo ident shop_env bank 1 (site_after l).
Proof.
  unfold site_runs, site_after. intros H. exists l. by destruct (site_steps demo l _).
Qed.

(** The request is in the middle of its transaction when the signal comes. *)
Definition paying : list site_action :=
  map Process start_up ++ [Arrive (pay_request 30 bob)] ++ works (moves 0 0 15) ++
  [Process (Env Signal)].

Definition site_graceful : list site_action :=
  paying ++ map Process (replicate 6 calm) ++ [Process (Env (ListenReturns ApiServer))] ++
  works (moves 0 15 8) ++ [Respond 0; Process (Env (GoStep ApiServer))] ++
  map Process (replicate 3 calm).

(** A second client is not let in: the listener is closed. *)
Example site_refuses :
  site_runs (site_graceful ++ [Arrive (pay_request 30 bob)]) = false.
Proof. by vm_compute. Qed.

Lemma process_refines_specification_witness :
  db_inv (committed (st_conf (site_after paying))) /\
  rtc atomic_step bank (committed (st_conf (site_after site_graceful))).
Proof.
  destruct (process_refines_specification demo ident shop_env bank 1 bank_ok _
    (site_after_reaches paying ltac:(by vm_compute))) as (_ & H1 & _).
  destruct (process_refines_specification demo ident shop_env bank 1 bank_ok _
    (site_after_reaches site_graceful ltac:(by vm_compute))) as (H2 & _ & _).
  exact (conj H1 H2).
Defined.

Lemma graceful_exit_answers_all_witness :
  exists rsp, responded (st_conf (site_after site_graceful)) 0 rsp /\
    rsp_status rsp ∈ [200; 201; 301; 400; 404; 405; 409; 500].
Proof.
  destruct (graceful_exit_answers_all demo ident shop_env bank 1 bank_ok _
    (site_after_reaches site_graceful ltac:(by vm_compute)) ltac:(by vm_compute)) as [_ H].
  destruct (H 0%nat (pay_request 30 bob) ltac:(by vm_compute)) as (rsp & H1 & H2 & _).
  exact (ex_intro _ rsp (conj H1 H2)).
Defined.

(** In the middle of the payment, before any signal. *)
Definition serving_payment : list site_action :=
  map Process start_up ++ [Arrive (pay_request 30 bob)] ++ works (moves 0 0 15).

(** One connection, which [Load] accepts, and the driver keeps it: a request that
    was let in waits for a connection for good. *)
Definition narrow_config : Config :=
  mkConfiguration "postgres://x" ":8080" "127.0.0.1:6060" 1 1 (10 * Minute) (30 * Second).
Definition one_connection : environ := environ_of narrow_config.

Lemma starved_waits X s i ch :
  starved (ps_own (st_proc s)) = true -> takes_conn (st_conf s) i = true -> ch_fault ch = None ->
  site_step X (Work i ch) s = None.
Proof.
  intros Hs Ht Hch. unfold site_step. destruct (exited _); [done|].
  unfold db_allows. rewrite Hs, Ht, Hch. by destruct (own_db _).
Qed.

Definition narrow_site : site :=
  default (site_begin ident one_connection bank 1)
    (site_steps demo (map Process start_up ++ [Arrive (pay_request 30 bob)] ++ works (moves 0 0 3))
       (site_begin ident one_connection bank 1)).

Example narrow_site_waits :
  Load ident one_connection = Ok narrow_config /\
  st_reqs narrow_site = [pay_request 30 bob] /\
  forall ch, ch_fault ch = None -> site_step demo (Work 0 ch) narrow_site = None.
Proof.
  split; [by vm_compute|]. split; [by vm_compute|].
  intros ch Hch. apply starved_waits; [by vm_compute..|done].
Qed.

Lemma requests_can_drain_witness :
  exists l s' l' s'', site_steps demo l (site_after serving_payment) = Some s' /\ st_open s' = ∅ /\
    site_steps demo l' s' = Some s'' /\ ps_main (st_proc s'') = Ret 0.
Proof.
  destruct (requests_can_drain demo ident shop_env bank 1 bank_ok (site_after serving_payment)
    (Scenario.calm 30) (site_after_reaches serving_payment ltac:(by vm_compute)) ltac:(by vm_compute)
    ltac:(by vm_compute) ltac:(right; vm_compute; lia) eq_refl) as (l & s' & H1 & _ & H2 & _ & _ & H3).
  destruct (H3 ltac:(by vm_compute)) as [_ H4].
  assert (exists k, ps_main (st_proc (site_after serving_payment)) = Vis Select k) as [k Hk].
  { assert ((match ps_main (st_proc (site_after serving_payment)) with
             | Vis Select _ => true | _ => false end) = true) as E by (by vm_compute).
    destruct (ps_main (st_proc (site_after serving_payment))) as [a|v|Y op k]; try done.
    destruct op; try done. by exists k. }
  destruct (H4 k Hk) as (l' & s2 & _ & H5 & H6 & _).
  exists l, s', l', s2. exact (conj H1 (conj H2 (conj H5 H6))).
Defined.
