(* ===== verification/Counters.v ===== *)
(** * The transfer counters and the responses

    [wallet_transfers_total] is counted by a closure that [Create] defers, far
    from the response.  A request's increments are followed as a trace of its
    program ([traced]), verified with the same [wp] as the rest, and the traced
    requests run in lockstep with the real ones: so at any moment of any run of
    the process the counters stand in a known relation to the responses. *)

From S2P Require Import Prelude GoRuntime Domain Database Repository Service Spec Machine Rely.
From S2P Require Import Workload RepositoryCorrect ServiceCorrect Concurrency Scenario Sequential.
From S2P Require Import Json Web Mux Handlers Router Routes Logic Http HttpCorrect HttpConcurrent.
From S2P Require Import Config Net Startup Lifecycle MainCorrect Site SiteCorrect.

(** ** The increments a program makes *)

Definition tally {X} (o : svcE X) (acc : list TransferState) : list TransferState :=
  match o with TransfersTotal_Inc state => acc ++ [state] | _ => acc end.

(** The program, and the labels it has counted at its end. *)
Fixpoint traced {A} (p : svc A) (acc : list TransferState) : svc (A * list TransferState) :=
  match p with
  | Ret a => Ret (a, acc)
  | Panic v => Panic v
  | Vis o k => Vis o (fun x => traced (k x) (tally o acc))
  end.

(** Whatever the environment answers, the labels counted fit the result. *)
Fixpoint tallies {A} (p : svc A) (acc : list TransferState) (P : A -> list TransferState -> Prop)
  : Prop :=
  match p with
  | Ret a => P a acc
  | Panic _ => True
  | Vis o k => forall x, tallies (k x) (tally o acc) P
  end.

(** Nothing is counted. *)
Fixpoint silent {A} (p : svc A) : Prop :=
  match p with
  | Vis o k => (forall acc, tally o acc = acc) /\ forall x, silent (k x)
  | _ => True
  end.

Lemma silent_bind {A B} (f : A -> svc B) (p : svc A) :
  silent p -> (forall a, silent (f a)) -> silent (proc_bind f p).
Proof. intros Hp Hf. induction p; simpl in *; naive_solver. Qed.

Lemma silent_finally {A B} (h : outcome A -> svc B) (p : svc A) :
  silent p -> (forall o, silent (h o)) -> silent (proc_finally h p).
Proof. intros Hp Hf. induction p; simpl in *; naive_solver. Qed.

Lemma tallies_silent {A} (p : svc A) acc (P : A -> list TransferState -> Prop) :
  silent p -> (forall a, P a acc) -> tallies p acc P.
Proof.
  intros Hp HP. induction p as [a|v|X o k IH]; simpl in *; [done..|].
  destruct Hp as [Ho Hk]. intros x. rewrite Ho. auto.
Qed.

Lemma tallies_bind {A B} (f : A -> svc B) (p : svc A) acc P :
  tallies p acc (fun a acc' => tallies (f a) acc' P) -> tallies (proc_bind f p) acc P.
Proof. revert acc. induction p; simpl; auto. Qed.

(** Steps that count nothing. *)
Ltac hushed :=
  repeat first
    [ progress intros | done
    | apply silent_bind | apply silent_finally
    | progress cbn [silent try_bind perform proc_bind scan_row] | split | case_match ].

Lemma replay_silent key hash : silent (replayIfExists transferSvc DB key hash).
Proof. unfold replayIfExists. hushed. Qed.

Lemma executeTransfer_silent exec req hash : silent (executeTransfer transferSvc exec req hash).
Proof. unfold executeTransfer. destruct (orderedPair _ _). unfold try_bind. hushed. Qed.

Lemma RunInTx_silent {A} (fn : Executor -> svc (result A)) :
  (forall exec, silent (fn exec)) -> silent (RunInTx fn).
Proof.
  intros Hf. unfold RunInTx. apply silent_bind; [done|]. intros [tx|e]; [|done].
  apply silent_finally; [apply Hf|]. unfold RunInTx_exit. hushed.
Qed.

(** The transfer a reply shows to the caller of [Create]. *)
Definition shown (r : reply) : option Transfer :=
  match r with TransferCreated (Ok (Some t)) => Some t | _ => None end.

Definition states_of (told : list (option Transfer)) : list TransferState :=
  concat (map (fun o => match o with Some t => [Transfer_State t] | None => [] end) told).

(** The value [Create_body] returns carries the state its closure counts. *)
Definition state_shown (x : result (option Transfer) * TransferState) : Prop :=
  match x.1 with
  | Ok (Some t) => x.2 = Transfer_State t
  | _ => x.2 = EmptyString
  end.

Lemma Create_body_tallies req hash acc :
  tallies (Create_body transferSvc req hash) acc (fun x acc' => acc' = acc /\ state_shown x).
Proof.
  unfold Create_body. apply tallies_bind, tallies_silent; [apply replay_silent|].
  intros [[t|]|e]; [done| |done]. apply tallies_bind, tallies_silent.
  - apply RunInTx_silent. intros exec. apply executeTransfer_silent.
  - intros [t|e]; [done|]. case_match; [|done].
    apply tallies_bind, tallies_silent; [apply replay_silent|]. by intros [[t|]|e2].
Qed.

Lemma record_outcome_tallies start state acc :
  tallies (record_outcome start state) acc (fun _ acc' =>
    acc' = acc ++ (if decide (state = EmptyString) then [] else [state])).
Proof.
  unfold record_outcome. destruct (decide (state = EmptyString)); simpl; [by rewrite app_nil_r|done].
Qed.

Lemma tallies_mono {A} (p : svc A) acc (P P' : A -> list TransferState -> Prop) :
  (forall a acc', P a acc' -> P' a acc') -> tallies p acc P -> tallies p acc P'.
Proof. revert acc. induction p; simpl; eauto. Qed.

(** [Create] counts the state it shows, once; nothing else is counted. *)
Lemma serve_tallies a :
  tallies (serve a) [] (fun r acc => acc =
    match shown r with
    | Some t => if decide (Transfer_State t = EmptyString) then [] else [Transfer_State t]
    | None => []
    end).
Proof.
  destruct a as [req|id|w limit before|id|id balance]; cbn [serve];
    try (apply tallies_bind, tallies_silent; [|done]; cbv [ListTransfersByWallet WalletService_Create
      GetTransfer WalletService_Get try_bind]; hushed).
  apply tallies_bind. unfold Create. apply tallies_bind. cbn [perform tallies tally]. intros start.
  destruct (Validate req); [done|]. apply tallies_bind.
  eapply tallies_mono; [|apply Create_body_tallies].
  intros [r state] acc [-> Hs]. apply tallies_bind.
  eapply tallies_mono; [|apply record_outcome_tallies]. intros _ acc' ->.
  unfold state_shown in Hs. simpl in *. destruct r as [[t|]|e]; simpl; by subst state.
Qed.

(** ** Counted among others *)

Lemma wp_traced {A} (p : svc A) C T acc Q P :
  wp p C T Q -> tallies p acc P -> wp (traced p acc) C T (fun x C T => Q x.1 C T /\ P x.1 x.2).
Proof.
  revert C T acc. induction p as [a|v|X o k IH]; intros C T acc H HP.
  - intros C' HR. split; [by apply H|done].
  - exact H.
  - intros S ch HR. destruct (H S ch HR) as [Ho H']. split; [done|].
    destruct (local_exec ch o S T) as [[x S'] T']. destruct H' as [Hg Hw]. split; [done|].
    apply IH; [done|apply HP].
Qed.

Definition wp_counted {A} (p : svc A) (s : tables * option txn * list TransferState)
    (P : outcome A -> tables * option txn * list TransferState -> Prop) : Prop :=
  wp (traced p s.2) s.1.1 s.1.2 (fun x C T =>
    exists C0, rely (txn_locks T) C0 C /\ P (Returned x.1) (C0, T, x.2)).

Lemma wp_traced_bind {A B} (f : A -> svc B) (p : svc A) C T acc Q :
  wp (traced p acc) C T (fun x C' T' => wp (traced (f x.1) x.2) C' T' Q) ->
  wp (traced (proc_bind f p) acc) C T Q.
Proof.
  revert C T acc. induction p as [a|v|X o k IH]; intros C T acc H.
  - by apply wp_rely.
  - exact H.
  - intros S ch HR. destruct (H S ch HR) as [Ho H']. split; [done|].
    destruct (local_exec ch o S T) as [[x S'] T']. destruct H'. split; [done|]. by apply IH.
Qed.

Lemma wp_traced_finally {A B} (h : outcome A -> svc B) (p : svc A) C T acc Q :
  wp (traced p acc) C T (fun x C' T' => wp (traced (h (Returned x.1)) x.2) C' T' Q) ->
  wp (traced (proc_finally h p) acc) C T Q.
Proof.
  revert C T acc. induction p as [a|v|X o k IH]; intros C T acc H.
  - by apply wp_rely.
  - apply wp_rely. intros C' HR. by destruct (H C' HR).
  - intros S ch HR. destruct (H S ch HR) as [Ho H']. split; [done|].
    destruct (local_exec ch o S T) as [[x S'] T']. destruct H'. split; [done|]. by apply IH.
Qed.

Lemma wp_counted_map {A B} (f : A -> B) (p : svc A) s
    (P : outcome B -> tables * option txn * list TransferState -> Prop) :
  wp_counted (proc_bind (fun a => Ret (f a)) p) s P ->
  wp_counted p s (fun o s' => P (outcome_map f o) s').
Proof.
  unfold wp_counted. destruct s as [[C T] acc]. cbn [fst snd]. revert C T acc.
  induction p as [a|v|X o k IH]; intros C T acc H; [exact H|exact H|].
  intros S ch HR. destruct (H S ch HR) as [Ho H']. split; [done|].
  destruct (local_exec ch o S T) as [[x S'] T']. destruct H'. split; [done|]. by apply IH.
Qed.

#[refine] Definition counting : Logic := {|
  St := tables * option txn * list TransferState;
  holds A p s P := wp_counted p s P
|}.
Proof.
  - intros A a [[C T] acc] P H C' HR. by exists C.
  - intros A B f p [[C T] acc] P H. apply wp_traced_bind. eapply wp_mono; [|exact H].
    intros [a acc'] C' T' (C0 & HR & Hf). by eapply wp_stable.
  - intros A B h p [[C T] acc] P H. apply wp_traced_finally. eapply wp_mono; [|exact H].
    intros [a acc'] C' T' (C0 & HR & Hf). by eapply wp_stable.
  - intros A p [[C T] acc] P P' H HP. eapply wp_mono; [|exact H].
    intros [a acc'] C' T' (C0 & HR & Hf). eauto.
  - intros A B f p s P H. by apply wp_counted_map.
  - intros A k [[C T] acc] P H. apply wp_TimeNow. exact H.
  - intros A k [[C T] acc] P H. apply wp_NewUUID. exact H.
Defined.

(** ** The traced requests as a workload *)

Section counted.
Context (X : externals).

Definition http_counted (q : Request) (x : (outcome unit * webstate) * list TransferState)
    (C : tables) (T : option txn) : Prop :=
  T = None /\ exists ws id, x.1 = (Returned tt, ws) /\
  match dispatch X q with
  | inl a => exists r, closed q id (render X (identified id q) a (Returned r)) ws /\
                       reply_post a r C None /\ x.2 = states_of [shown r]
  | inr ans => closed q id ans ws /\ x.2 = []
  end.

Lemma shown_state a r C t :
  db_inv C -> reply_post a r C None -> shown r = Some t ->
  (exists req, a = CreateTransfer req /\ reply_ok req t C) /\
  (Transfer_State t = StateProcessed \/ Transfer_State t = StateFailed).
Proof.
  intros Hi [_ Hp] Hs. destruct r as [[[t'|]|]|[]|[[]|]|[]]; try done. injection Hs as ->.
  destruct a as [req|id|w l b|id|id b]; try done. destruct Hp as [_ Hok].
  split; [by exists req|]. destruct Hok as [_ Ht _].
  apply fmap_Some in Ht as (row & Hrow & ->). unfold select_transfer. cbn [Transfer_State].
  destruct (transfer_ok_settled _ _ _ (inv_transfers _ Hi _ _ Hrow)) as [[-> _]|[-> _]]; auto.
Qed.

Lemma wp_counted_http q C :
  wp (traced (serve_http (apiHandler X) q) []) C None (http_counted q).
Proof.
  destruct (dispatch X q) as [a|ans] eqn:Hd.
  - pose proof (listener_serves X counting q a (C, None, []) (fun o s => exists r, o = Returned r /\
      s.1.2 = None /\ s.2 = states_of [shown r] /\
      forall C', rely ∅ s.1.1 C' -> reply_post a r C' None) Hd) as H.
    eapply wp_mono; [|apply H].
    + intros o C' T (C0 & HR & ws & id & r & E & Hc & Hid & r' & -> & HT & Hs & Hpost).
      simpl in HT, Hs, Hpost. subst T. injection E as E. split; [done|].
      exists ws, id. split; [done|]. rewrite Hd. exists r'. auto.
    + eapply wp_mono; [|apply (wp_traced (serve a) C None [] _ _
        (wp_settled _ _ _ _ (wp_close _ _ _ _ (wp_serve _ _ (dispatch_api_ok _ _ _ Hd))))
        (serve_tallies a))].
      intros [r acc] C' T [[Hi Hpost] Hacc]. exists C'. split; [by apply rely_refl|].
      exists r. split; [done|]. pose proof (Hpost C' (rely_refl _ _ Hi)) as Hnow.
      pose proof Hnow as [-> _]. split; [done|]. split; [|done]. cbn [fst snd] in *. rewrite Hacc.
      unfold states_of. simpl. rewrite app_nil_r. destruct (shown r) as [t|] eqn:Hsh; [|done].
      destruct (shown_state _ _ _ _ Hi Hnow Hsh) as [_ [-> | ->]]; done.
  - eapply wp_mono; [|exact (listener_refuses X counting q ans (C, None, []) Hd)].
    intros o C' T (C0 & HR & ws & id & E & Hc & Hid & Es). injection Es as _ -> Hacc.
    injection E as E. split; [done|]. exists ws, id. by rewrite Hd.
Qed.

#[export] Instance counted_workload :
  Workload Request ((outcome unit * webstate) * list TransferState) := {|
  wl_prog q := traced (serve_http (apiHandler X) q) [];
  wl_ok _ _ := True;
  wl_post := http_counted;
  wl_spec q C _ := wp_counted_http q C;
  wl_closed q o C T H := proj1 H
|}.
End counted.

(** ** In lockstep with the real ones *)

(** The threads with what each has counted. *)
Definition annotate {A} (accs : list (list TransferState)) (c : config A)
  : config (A * list TransferState) :=
  mkConfig (cf_shared c) (zip_with (fun acc pT => (traced pT.1 acc, pT.2)) accs (cf_threads c)).

Definition occurrences (state : TransferState) (l : list TransferState) : nat :=
  length (base.filter (fun s => s = state) l).

Definition metric (c : config (outcome unit * webstate)) (state : TransferState) : nat :=
  default 0%nat (sh_metrics (cf_shared c) !! state).

Lemma occurrences_app state l l' :
  occurrences state (l ++ l') = (occurrences state l + occurrences state l')%nat.
Proof. unfold occurrences. by rewrite filter_app, length_app. Qed.

Lemma local_exec_metric ch {X} (o : svcE X) S T x S' T' state :
  local_exec ch o S T = (x, S', T') ->
  default 0%nat (sh_metrics S' !! state) =
  (default 0%nat (sh_metrics S !! state) + occurrences state (tally o []))%nat.
Proof.
  destruct o as [|Y exec s|tx|tx| | |st|]; cbn [local_exec tally]; intros E.
  8: by injection E as _ <- _.
  7: { injection E as _ <- _. unfold occurrences. cbn [count_transfer sh_metrics app].
       destruct (decide (st = state)) as [->|Hne].
       - rewrite lookup_partial_alter_eq, filter_cons_True by done. by destruct (sh_metrics S !! state).
       - rewrite lookup_partial_alter_ne, filter_cons_False by done. symmetry. apply Nat.add_0_r. }
  all: rewrite Nat.add_0_r.
  - unfold do_begin in E. by destruct T, (ch_fault ch); injection E as _ <- _.
  - assert (forall S0, sh_metrics (next_seq s S0) = sh_metrics S0) as Hn
      by (intros S0; unfold next_seq; by destruct (draws_sequence s)).
    destruct exec as [|tx].
    + unfold do_autocommit in E. destruct (exec_stmt _ _ _ _) as [res d].
      destruct (ch_fault ch); [destruct (ch_applied ch)|]; injection E as _ <- _; by rewrite ?Hn.
    + destruct (live_tx tx T) as [t|]; [|by injection E as _ <- _].
      unfold do_tx_stmt in E. destruct (tx_aborted t); [by injection E as _ <- _|].
      destruct (ch_fault ch); [by injection E as _ <- _|].
      destruct (exec_stmt _ _ _ _) as [res d]. injection E as _ <- _. by rewrite Hn.
  - destruct (live_tx tx T) as [t|]; [|by injection E as _ <- _].
    unfold do_commit in E. by destruct (tx_aborted t), (ch_fault ch), (ch_applied ch);
      injection E as _ <- _.
  - by destruct (live_tx tx T); injection E as _ <- _.
  - by injection E as _ <- _.
  - by injection E as _ <- _.
Qed.

(** What is known of a running configuration and its counters. *)
Record counted (X : externals) (qs : list Request) (c : config (outcome unit * webstate))
    (accs : list (list TransferState)) : Prop := mkCounted {
  counted_length : length accs = length (cf_threads c);
  counted_conf : conf_ok (WL := counted_workload X) qs (annotate accs c);
  counted_metric : forall state, metric c state = occurrences state (concat accs)
}.

Lemma others_annotate {A} i accs (c : config A) :
  length accs = length (cf_threads c) -> others i (annotate accs c) = others i c.
Proof.
  intros Hlen. unfold others, annotate. cbn [cf_threads]. do 2 f_equal.
  revert accs Hlen. induction (cf_threads c) as [|pT l IH]; intros [|acc accs] Hlen; try done.
  simpl in *. f_equal. apply IH. lia.
Qed.

Lemma occurrences_insert state i acc st accs :
  accs !! i = Some acc ->
  occurrences state (concat (<[i := acc ++ st]> accs)) =
  (occurrences state (concat accs) + occurrences state st)%nat.
Proof.
  intros Hi. rewrite <- (take_drop_middle _ _ _ Hi) at 2.
  rewrite insert_take_drop by (by eapply lookup_lt_Some).
  rewrite !concat_app. simpl. rewrite !occurrences_app. lia.
Qed.

Lemma step_counted X qs pool i ch c c' accs :
  counted X qs c accs -> step pool i ch c = Some c' -> exists accs', counted X qs c' accs'.
Proof.
  intros [Hlen Hok Hm] Hs.
  destruct (step_inv _ _ _ _ _ Hs) as (Y & o & k & T & x & S' & T' & Hi & He & Hx & ->).
  destruct (lookup_lt_is_Some_2 accs i) as [acc Hacc];
    [rewrite Hlen; by eapply lookup_lt_Some|].
  exists (<[i := tally o acc]> accs).
  assert (tally o acc = acc ++ tally o []) as Ht
    by (destruct o; simpl; by rewrite ?app_nil_r).
  set (c1 := mkConfig S' (<[i := (k x, T')]> (cf_threads c))).
  assert (step pool i ch (annotate accs c) = Some (annotate (<[i := tally o acc]> accs) c1)) as Hst.
  { unfold step, lookup_thread, annotate. cbn [cf_threads cf_shared].
    rewrite lookup_zip_with, Hacc, Hi. cbn [mbind option_bind fst snd traced].
    fold (annotate accs c). rewrite (others_annotate i accs c Hlen), He, Hx.
    unfold set_thread. cbn [c1 cf_shared cf_threads annotate]. do 2 f_equal.
    exact (insert_zip_with (fun acc (pT : svc (outcome unit * webstate) * option txn) =>
      (traced pT.1 acc, pT.2)) accs (cf_threads c) i (tally o acc) (k x, T')). }
  split.
  - cbn [c1 cf_threads]. by rewrite !length_insert.
  - by eapply (step_conf_ok (WL := counted_workload X)).
  - intros state. unfold metric. cbn [c1 cf_shared].
    rewrite (local_exec_metric _ _ _ _ _ _ _ state Hx), Ht, (occurrences_insert _ _ _ _ _ Hacc).
    by rewrite <- Hm.
Qed.

Lemma enter_counted X qs q c accs :
  counted X qs c accs -> counted X (qs ++ [q]) (enter (WL := http_workload X) q c) (accs ++ [[]]).
Proof.
  intros [Hlen Hok Hm].
  assert (annotate (accs ++ [[]]) (enter (WL := http_workload X) q c) =
          enter (WL := counted_workload X) q (annotate accs c)) as E.
  { unfold annotate, enter. cbn [cf_shared cf_threads]. by rewrite zip_with_app. }
  split.
  - cbn [enter cf_threads]. rewrite !length_app. simpl. lia.
  - rewrite E. by apply enter_conf_ok.
  - intros state. rewrite concat_app. simpl. rewrite app_nil_r. apply Hm.
Qed.

Lemma site_counted X Quote env t seq s :
  db_inv t -> site_reaches X Quote env t seq s ->
  exists accs, counted X (st_reqs s) (st_conf s) accs.
Proof.
  intros Hi [l Hl]. assert (exists accs, counted X [] (st_conf (site_begin Quote env t seq)) accs) as H.
  { exists []. split; [done| |done].
    exact (start_conf_ok (WL := counted_workload X) t seq [] Hi (Forall_nil_2 _)). }
  revert Hl H. change [] with (st_reqs (site_begin Quote env t seq)) at 1.
  generalize (site_begin Quote env t seq) as s0.
  induction l as [|a l IH]; cbn [site_steps]; intros s0 Hl H; [by simplify_eq|].
  destruct (site_step X a s0) as [s1|] eqn:E; [|done]. apply (IH s1 Hl). destruct H as [accs H].
  destruct (site_step_conf _ _ _ _ E) as [[-> ->]|[(q & -> & ->)|(pool & i & ch & Hc & ->)]].
  - by exists accs.
  - exists (accs ++ [[]]). by apply enter_counted.
  - by eapply step_counted.
Qed.

(** ** What the clients were told *)

(** Request [i] was answered 200 with transfer [o], or is no transfer that was
    answered 200. *)
Record tells (X : externals) (qs : list Request) (c : config (outcome unit * webstate)) (i : nat)
    (o : option Transfer) : Prop := mkTells {
  tells_some : forall tr, o = Some tr ->
    (exists q req rsp, qs !! i = Some q /\ dispatch X q = inl (CreateTransfer req) /\
      responded c i rsp /\ rsp_status rsp = 200 /\ rsp_body rsp = transfer_body X tr /\
      reply_ok req tr (committed c)) /\
    (Transfer_State tr = StateProcessed \/ Transfer_State tr = StateFailed);
  tells_none : o = None -> forall q req rsp, qs !! i = Some q ->
    dispatch X q = inl (CreateTransfer req) -> responded c i rsp -> rsp_status rsp <> 200
}.

Lemma dispatch_create X q req : dispatch X q = inl (CreateTransfer req) -> is_head q = false.
Proof.
  unfold dispatch, is_head. destruct (String.eqb_spec (Method q) "HEAD") as [Hm|]; [|done].
  case_match; [done|]. rewrite Hm. unfold route_to.
  destruct (negb _); [done|]. unfold endpoint_of. simpl.
  destruct (get_endpoint _) as [e|] eqn:E; [|by repeat case_match].
  unfold get_endpoint in E. intros Hd. repeat case_match; simplify_eq/=; by repeat case_match.
Qed.

Lemma counted_tells X qs c accs i q acc :
  counted X qs c accs -> qs !! i = Some q -> accs !! i = Some acc ->
  exists o, tells X qs c i o /\
    ((exists r, Workload.answered c i r) -> acc = states_of [o]) /\
    forall state, (occurrences state (states_of [o]) <= occurrences state acc)%nat.
Proof.
  intros [Hlen Hok _] Hq Hacc.
  destruct (lookup_lt_is_Some_2 (cf_threads c) i) as [[p T] Hth];
    [rewrite <- Hlen; by eapply lookup_lt_Some|].
  assert ((exists x, p = Ret x) \/ forall r, ~ Workload.answered c i r) as [[x ->]|Hno].
  { destruct p as [x|v|Y op k]; [left; by exists x|right..]; intros r [T' H]; congruence. }
  2: { exists None. split; [split; [done|]|split; [|intros state; apply Nat.le_0_l]].
       - intros _ q' req rsp _ _ (ws & Ha & _). by destruct (Hno _ Ha).
       - intros [r Hr]. by destruct (Hno _ Hr). }
  assert (Workload.answered (annotate accs c) i (x, acc)) as Ha.
  { exists T. unfold annotate. cbn [cf_threads]. by rewrite lookup_zip_with, Hacc, Hth. }
  destruct (answered_post _ _ _ _ Hok Ha) as (q' & Hq' & [_ Hp] & _). simplify_eq.
  destruct Hp as (ws & id & E & Hp). cbn [fst snd] in E, Hp. subst x.
  assert (forall rsp, responded c i rsp -> rsp = response_of ws) as Hrsp.
  { intros rsp (ws' & [T' H'] & ->). congruence. }
  assert (responded c i (response_of ws)) as Hres by (exists ws; split; [by exists T|done]).
  pose proof (conf_inv _ _ Hok : db_inv (committed c)) as Hi.
  destruct (dispatch X q) as [a|ans] eqn:Hd.
  - destruct Hp as (r & Hc & Hpost & ->). change (committed (annotate accs c)) with (committed c) in Hpost.
    exists (shown r). split; [|by split]. split.
    + intros tr Htr. destruct (shown_state _ _ _ _ Hi Hpost Htr) as [(req & -> & Hr) Hst].
      split; [|done]. exists q, req, (response_of ws). split_and!; [done..| | |done].
      * rewrite (closed_response _ _ _ _ Hc). destruct r as [[[t|]|]|[]|[[]|]|[]]; by simplify_eq/=.
      * rewrite (closed_response _ _ _ _ Hc). unfold sent_body. rewrite (dispatch_create _ _ _ Hd).
        destruct r as [[[t|]|]|[]|[[]|]|[]]; by simplify_eq/=.
    + intros Htr q1 req rsp Hq1 Hd1 Hr. assert (q1 = q) as -> by congruence.
      assert (a = CreateTransfer req) as -> by congruence.
      rewrite (Hrsp _ Hr), (closed_response _ _ _ _ Hc).
      destruct Hpost as [_ Hpost]. destruct r as [[[t|]|e]|[]|[[]|]|[]]; try done.
      apply error_not_200.
  - destruct Hp as [Hc ->]. exists None. split; [|by split]. split; [done|].
    intros _ q1 req rsp Hq1 Hd1. congruence.
Qed.

Lemma states_of_cons o told : states_of (o :: told) = states_of [o] ++ states_of told.
Proof. unfold states_of. simpl. by rewrite app_nil_r. Qed.

Lemma occurrences_le told accs state :
  Forall2 (fun o acc => (occurrences state (states_of [o]) <= occurrences state acc)%nat) told accs ->
  (occurrences state (states_of told) <= occurrences state (concat accs))%nat.
Proof.
  induction 1 as [|o acc told accs H _ IH]; [done|].
  rewrite (states_of_cons o told). simpl. rewrite !occurrences_app. lia.
Qed.

Lemma states_eq told accs :
  Forall2 (fun o acc => acc = states_of [o]) told accs -> concat accs = states_of told.
Proof.
  induction 1 as [|o acc told accs -> _ IH]; [done|]. rewrite (states_of_cons o told), <- IH. done.
Qed.

(** C4: the counters agree with the responses.  At every moment of every run of
    the process, with any traffic and any failures, the counter of a state is at
    least the number of transfers in that state its clients have been told of
    (answered 200 with the transfer as it is committed: the repetitions of one
    key count each, as the responses do), and whenever no request is in flight,
    exactly that number.  So nothing is ever counted but PROCESSED and FAILED. *)
Theorem counters_agree_with_responses X Quote env t seq s :
  db_inv t -> site_reaches X Quote env t seq s ->
  exists told, length told = length (st_reqs s) /\
    (forall i o, told !! i = Some o -> tells X (st_reqs s) (st_conf s) i o) /\
    (forall state, (occurrences state (states_of told) <= metric (st_conf s) state)%nat) /\
    (st_open s = ∅ -> forall state, metric (st_conf s) state = occurrences state (states_of told)).
Proof.
  intros Hi Hs. destruct (site_counted _ _ _ _ _ _ Hi Hs) as [accs Hc].
  pose proof (site_reaches_ok _ _ _ _ _ _ Hi Hs) as Hok.
  pose proof (Forall2_length _ _ _ (conf_threads _ _ (counted_conf _ _ _ _ Hc))) as Hlen.
  unfold annotate in Hlen. cbn [cf_threads] in Hlen.
  rewrite length_zip_with, (counted_length _ _ _ _ Hc), Nat.min_id in Hlen.
  destruct (list_choice (length (st_reqs s)) (fun i o => tells X (st_reqs s) (st_conf s) i o /\
    forall acc, accs !! i = Some acc ->
      ((exists r, Workload.answered (st_conf s) i r) -> acc = states_of [o]) /\
      forall state, (occurrences state (states_of [o]) <= occurrences state acc)%nat))
    as (told & Htold & HR).
  { intros i Hlt. destruct (lookup_lt_is_Some_2 _ _ Hlt) as [q Hq].
    destruct (lookup_lt_is_Some_2 accs i) as [acc Hacc];
      [rewrite (counted_length _ _ _ _ Hc); lia|].
    destruct (counted_tells _ _ _ _ _ _ _ Hc Hq Hacc) as (o & H1 & H2).
    exists o. split; [done|]. intros acc' Hacc'. by simplify_eq. }
  assert (length told = length accs) as Hsame by (rewrite (counted_length _ _ _ _ Hc); lia).
  exists told. split; [done|]. split; [intros i o Ho; apply (HR i o Ho)|]. split.
  - intros state. rewrite (counted_metric _ _ _ _ Hc). apply occurrences_le.
    apply Forall2_same_length_lookup. split; [done|]. intros i o acc Ho Hacc.
    apply (HR i o Ho); done.
  - intros Hopen state. rewrite (counted_metric _ _ _ _ Hc). f_equal. apply states_eq.
    apply Forall2_same_length_lookup. split; [done|]. intros i o acc Ho Hacc.
    apply (HR i o Ho); [done|]. apply (site_done _ _ _ _ _ Hok); [|set_solver].
    rewrite <- Htold. by eapply lookup_lt_Some.
Qed.

(** The payment of [site_graceful], and its counter. *)
Lemma counters_agree_with_responses_witness :
  exists told, length told = 1%nat /\ occurrences StateProcessed (states_of told) = 1%nat.
Proof.
  destruct (counters_agree_with_responses demo ident shop_env bank 1 (site_after site_graceful) bank_ok
    (site_after_reaches site_graceful ltac:(by vm_compute))) as (told & H1 & _ & _ & H2).
  exists told. split.
  - assert (length (st_reqs (site_after site_graceful)) = 1%nat) as E by (by vm_compute).
    exact (eq_trans H1 E).
  - assert (metric (st_conf (site_after site_graceful)) StateProcessed = 1%nat) as E
      by (by vm_compute).
    exact (eq_trans (eq_sym (H2 ltac:(by vm_compute) StateProcessed)) E).
Defined.
