(* ===== verification/Schema.v ===== *)
(** * The schema as its migrations build it

    The statements of [migrations/*.sql] as data, and what they do to the
    catalog of the database: the tables with their columns and constraints, and
    the indexes.  INSERT and UPDATE are then defined once for any catalog, by
    its NOT NULL, CHECK, PRIMARY KEY, UNIQUE, REFERENCES and DEFAULT clauses.
    [Database] writes the constraints of each table out by hand; [SchemaCorrect]
    proves that the two agree on every statement of the program. *)

From S2P Require Import Prelude GoRuntime Domain Database.

(** ** Values and columns *)

Inductive sql_type : Type := TEXT | BIGINT | BIGSERIAL | UUID_ | TIMESTAMPTZ.

Inductive sql_value : Type :=
| VText (s : string)
| VInt (z : Z)
| VUuid (u : UUID)
| VTime (t : Time).

#[global] Instance sql_value_eq_dec : EqDecision sql_value.
Proof. solve_decision. Defined.

Definition has_type (ty : sql_type) (v : sql_value) : bool :=
  match ty, v with
  | TEXT, VText _ | UUID_, VUuid _ | TIMESTAMPTZ, VTime _ => true
  | BIGINT, VInt z | BIGSERIAL, VInt z => bool_decide (in_int64 z)
  | _, _ => false
  end.

(** The expressions of the CHECK constraints. *)
Inductive sql_check_expr : Type :=
| AtLeast (col : string) (n : Z)               (** [col >= n] *)
| MoreThan (col : string) (n : Z)              (** [col > n] *)
| OneOf (col : string) (values : list string)  (** [col IN (...)] *)
| Differ (col col' : string).                  (** [col <> col'] *)

Inductive sql_default : Type := DefaultNull | DefaultNow | DefaultNextval.

Record column : Type := mkColumn {
  col_name : string;
  col_type : sql_type;
  col_not_null : bool;
  col_primary_key : bool;
  col_default : sql_default;
  col_references : option (string * string);
  col_check : list sql_check_expr
}.

Inductive table_constraint : Type :=
| CHECK (e : sql_check_expr)
| UNIQUE (cols : list string).

#[global] Instance sql_type_eq_dec : EqDecision sql_type.
Proof. solve_decision. Defined.
#[global] Instance sql_check_expr_eq_dec : EqDecision sql_check_expr.
Proof. solve_decision. Defined.
#[global] Instance sql_default_eq_dec : EqDecision sql_default.
Proof. solve_decision. Defined.
#[global] Instance column_eq_dec : EqDecision column.
Proof. solve_decision. Defined.
#[global] Instance table_constraint_eq_dec : EqDecision table_constraint.
Proof. solve_decision. Defined.

(** ** The catalog *)

Inductive relation : Type :=
| Table (name : string) (cols : list column) (cs : list table_constraint)
| Index (name table : string) (keys : list (string * bool)).  (** column, DESC *)

#[global] Instance relation_eq_dec : EqDecision relation.
Proof. solve_decision. Defined.

(** In the order of creation; tables and indexes share their names. *)
Abbreviation catalog := (list relation).

Definition relation_name (r : relation) : string :=
  match r with Table name _ _ | Index name _ _ => name end.

Definition columns_of (cat : catalog) (table : string) : option (list column) :=
  head (omap (fun r => match r with
                       | Table name cols _ => if String.eqb name table then Some cols else None
                       | Index _ _ _ => None
                       end) cat).

Definition has_column (cat : catalog) (table col : string) : bool :=
  match columns_of cat table with
  | Some cols => existsb (fun c => String.eqb (col_name c) col) cols
  | None => false
  end.

Definition fresh_name (cat : catalog) (name : string) : bool :=
  forallb (fun r => negb (String.eqb (relation_name r) name)) cat.

(** The tables a relation depends on. *)
Definition depends_on (table : string) (r : relation) : bool :=
  match r with
  | Table _ cols _ =>
      existsb (fun c => match col_references c with
                        | Some (t, _) => String.eqb t table
                        | None => false
                        end) cols
  | Index _ t _ => String.eqb t table
  end.

Definition is_table (r : relation) : bool := match r with Table _ _ _ => true | _ => false end.

(** ** Statements *)

Inductive ddl : Type :=
| CREATE_TABLE (name : string) (cols : list column) (cs : list table_constraint)
| CREATE_INDEX (name table : string) (keys : list (string * bool))
| DROP_TABLE_IF_EXISTS (name : string)
| DROP_INDEX_IF_EXISTS (name : string).

(** A foreign key names an existing column; the table may refer to itself. *)
Definition references_ok (cat : catalog) (cols : list column) : bool :=
  forallb (fun c => match col_references c with
                    | Some (t, k) => has_column cat t k
                    | None => true
                    end) cols.

(** DROP without CASCADE is refused while another table refers to the table;
    the indexes of the table go with it. *)
Definition exec_ddl (d : ddl) (cat : catalog) : option catalog :=
  match d with
  | CREATE_TABLE name cols cs =>
      if fresh_name cat name && references_ok (cat ++ [Table name cols cs]) cols
      then Some (cat ++ [Table name cols cs]) else None
  | CREATE_INDEX name table keys =>
      if fresh_name cat name && forallb (fun k => has_column cat table k.1) keys
      then Some (cat ++ [Index name table keys]) else None
  | DROP_TABLE_IF_EXISTS name =>
      if existsb (fun r => is_table r && depends_on name r && negb (String.eqb (relation_name r) name)) cat
      then None
      else Some (List.filter (fun r =>
             match r with
             | Table n _ _ => negb (String.eqb n name)
             | Index _ t _ => negb (String.eqb t name)
             end) cat)
  | DROP_INDEX_IF_EXISTS name =>
      Some (List.filter (fun r =>
        match r with Table _ _ _ => true | Index n _ _ => negb (String.eqb n name) end) cat)
  end.

(** [BEGIN; ...; COMMIT;]: all of it or nothing. *)
Fixpoint exec_script (l : list ddl) (cat : catalog) : option catalog :=
  match l with
  | [] => Some cat
  | d :: l => match exec_ddl d cat with Some cat' => exec_script l cat' | None => None end
  end.

(** ** The migrations *)

Definition col (name : string) (ty : sql_type) : column :=
  mkColumn name ty false false DefaultNull None [].
Definition PRIMARY_KEY (c : column) : column :=
  mkColumn (col_name c) (col_type c) true true
    (match col_type c with BIGSERIAL => DefaultNextval | _ => col_default c end)
    (col_references c) (col_check c).
Definition NOT_NULL (c : column) : column :=
  mkColumn (col_name c) (col_type c) true (col_primary_key c) (col_default c) (col_references c)
    (col_check c).
Definition DEFAULT_now (c : column) : column :=
  mkColumn (col_name c) (col_type c) (col_not_null c) (col_primary_key c) DefaultNow
    (col_references c) (col_check c).
Definition REFERENCES (table k : string) (c : column) : column :=
  mkColumn (col_name c) (col_type c) (col_not_null c) (col_primary_key c) (col_default c)
    (Some (table, k)) (col_check c).
Definition CHECKED (e : sql_check_expr) (c : column) : column :=
  mkColumn (col_name c) (col_type c) (col_not_null c) (col_primary_key c) (col_default c)
    (col_references c) (col_check c ++ [e]).

Definition wallets_columns : list column := [
  PRIMARY_KEY (col "id" TEXT);
  CHECKED (AtLeast "balance" 0) (NOT_NULL (col "balance" BIGINT));
  DEFAULT_now (NOT_NULL (col "created_at" TIMESTAMPTZ));
  DEFAULT_now (NOT_NULL (col "updated_at" TIMESTAMPTZ))].

Definition transfers_columns : list column := [
  PRIMARY_KEY (col "id" UUID_);
  REFERENCES "wallets" "id" (NOT_NULL (col "from_wallet_id" TEXT));
  REFERENCES "wallets" "id" (NOT_NULL (col "to_wallet_id" TEXT));
  CHECKED (MoreThan "amount" 0) (NOT_NULL (col "amount" BIGINT));
  CHECKED (OneOf "state" ["PENDING"; "PROCESSED"; "FAILED"]) (NOT_NULL (col "state" TEXT));
  col "failure_reason" TEXT;
  DEFAULT_now (NOT_NULL (col "created_at" TIMESTAMPTZ));
  DEFAULT_now (NOT_NULL (col "updated_at" TIMESTAMPTZ))].

Definition ledger_entries_columns : list column := [
  PRIMARY_KEY (col "id" BIGSERIAL);
  REFERENCES "transfers" "id" (NOT_NULL (col "transfer_id" UUID_));
  REFERENCES "wallets" "id" (NOT_NULL (col "wallet_id" TEXT));
  CHECKED (OneOf "type" ["DEBIT"; "CREDIT"]) (NOT_NULL (col "type" TEXT));
  CHECKED (MoreThan "amount" 0) (NOT_NULL (col "amount" BIGINT));
  DEFAULT_now (NOT_NULL (col "created_at" TIMESTAMPTZ))].

Definition idempotency_records_columns : list column := [
  PRIMARY_KEY (col "key" TEXT);
  NOT_NULL (col "request_hash" TEXT);
  REFERENCES "transfers" "id" (NOT_NULL (col "transfer_id" UUID_));
  DEFAULT_now (NOT_NULL (col "created_at" TIMESTAMPTZ))].

Definition init_up : list ddl := [
  CREATE_TABLE "wallets" wallets_columns [];
  CREATE_TABLE "transfers" transfers_columns [CHECK (Differ "from_wallet_id" "to_wallet_id")];
  CREATE_INDEX "transfers_from_wallet_idx" "transfers" [("from_wallet_id", false)];
  CREATE_INDEX "transfers_to_wallet_idx" "transfers" [("to_wallet_id", false)];
  CREATE_TABLE "ledger_entries" ledger_entries_columns [UNIQUE ["transfer_id"; "type"]];
  CREATE_INDEX "ledger_entries_wallet_idx" "ledger_entries" [("wallet_id", false)];
  CREATE_TABLE "idempotency_records" idempotency_records_columns []].

Definition init_down : list ddl := [
  DROP_TABLE_IF_EXISTS "idempotency_records";
  DROP_TABLE_IF_EXISTS "ledger_entries";
  DROP_TABLE_IF_EXISTS "transfers";
  DROP_TABLE_IF_EXISTS "wallets"].

Definition history_indexes_up : list ddl := [
  CREATE_INDEX "transfers_from_wallet_created_idx" "transfers"
    [("from_wallet_id", false); ("created_at", true); ("id", true)];
  CREATE_INDEX "transfers_to_wallet_created_idx" "transfers"
    [("to_wallet_id", false); ("created_at", true); ("id", true)]].

Definition history_indexes_down : list ddl := [
  DROP_INDEX_IF_EXISTS "transfers_to_wallet_created_idx";
  DROP_INDEX_IF_EXISTS "transfers_from_wallet_created_idx"].

Record migration : Type := mkMigration { up : list ddl; down : list ddl }.

(** The files, by version. *)
Definition migrations : list migration :=
  [mkMigration init_up init_down; mkMigration history_indexes_up history_indexes_down].

Fixpoint migrate_up (ms : list migration) (cat : catalog) : option catalog :=
  match ms with
  | [] => Some cat
  | m :: ms => match exec_script (up m) cat with Some cat' => migrate_up ms cat' | None => None end
  end.

(** Down goes back from the last version to the first. *)
Fixpoint migrate_down (ms : list migration) (cat : catalog) : option catalog :=
  match ms with
  | [] => Some cat
  | m :: ms => match migrate_down ms cat with Some cat' => exec_script (down m) cat' | None => None end
  end.

Definition schema : catalog := default [] (migrate_up migrations []).

(** ** Rows *)

Definition row : Type := list (string * option sql_value).

Fixpoint cell (r : row) (c : string) : option sql_value :=
  match r with
  | [] => None
  | (c', v) :: r => if String.eqb c' c then v else cell r c
  end.

Definition has_cell (r : row) (c : string) : bool :=
  existsb (fun x => String.eqb x.1 c) r.

(** The rows of each table. *)
Definition database_rows : Type := string -> list row.

(** A CHECK is violated when it is false; NULL is not false. *)
Definition check_passes (r : row) (e : sql_check_expr) : bool :=
  match e with
  | AtLeast c n => match cell r c with Some (VInt z) => bool_decide (n <= z)%Z | _ => true end
  | MoreThan c n => match cell r c with Some (VInt z) => bool_decide (n < z)%Z | _ => true end
  | OneOf c vs => match cell r c with Some (VText s) => bool_decide (s ∈ vs) | _ => true end
  | Differ c c' =>
      match cell r c, cell r c' with
      | Some v, Some v' => bool_decide (v <> v')
      | _, _ => true
      end
  end.

Definition column_ok (r : row) (c : column) : bool :=
  match cell r (col_name c) with
  | Some v => has_type (col_type c) v
  | None => negb (col_not_null c)
  end.

Definition checks_of (cols : list column) (cs : list table_constraint) : list sql_check_expr :=
  concat (map col_check cols) ++ omap (fun x => match x with CHECK e => Some e | _ => None end) cs.

Definition unique_keys (cols : list column) (cs : list table_constraint) : list (list string) :=
  omap (fun c => if col_primary_key c then Some [col_name c] else None) cols ++
  omap (fun x => match x with UNIQUE k => Some k | _ => None end) cs.

(** Two rows agree on a key; NULLs never do. *)
Definition same_key (r r' : row) (k : list string) : bool :=
  forallb (fun c => match cell r c, cell r' c with
                    | Some v, Some v' => bool_decide (v = v')
                    | _, _ => false
                    end) k.

Definition reference_ok (db : database_rows) (r : row) (c : column) : bool :=
  match col_references c, cell r (col_name c) with
  | Some (t, k), Some v => existsb (fun r' => bool_decide (cell r' k = Some v)) (db t)
  | _, _ => true
  end.

Definition pgNotNullViolation : string := "23502".

(** What a new row violates on its own. *)
Definition row_violation (cols : list column) (cs : list table_constraint) (r : row)
  : option string :=
  if negb (forallb (column_ok r) cols) then Some pgNotNullViolation
  else if negb (forallb (check_passes r) (checks_of cols cs)) then Some pgCheckViolation
  else None.

Definition table_of (cat : catalog) (table : string)
  : option (list column * list table_constraint) :=
  head (omap (fun r => match r with
                       | Table name cols cs => if String.eqb name table then Some (cols, cs) else None
                       | Index _ _ _ => None
                       end) cat).

Definition default_of (now : Time) (nextval : Z) (c : column) : option sql_value :=
  match col_default c with
  | DefaultNull => None
  | DefaultNow => Some (VTime now)
  | DefaultNextval => Some (VInt nextval)
  end.

(** [INSERT INTO table (given) VALUES (...)]: the row, or the SQLSTATE. *)
Definition insert_row (cat : catalog) (now : Time) (nextval : Z) (db : database_rows)
    (table : string) (given : row) : option (row + string) :=
  match table_of cat table with
  | None => None
  | Some (cols, cs) =>
      let r := map (fun c => (col_name c, if has_cell given (col_name c)
                                          then cell given (col_name c) else default_of now nextval c)) cols in
      Some (match row_violation cols cs r with
            | Some code => inr code
            | None =>
                if existsb (fun k => existsb (fun r' => same_key r r' k) (db table)) (unique_keys cols cs)
                then inr pgUniqueViolation
                else if forallb (reference_ok db r) cols then inl r
                else inr pgForeignKeyViolation
            end)
  end.

(** [UPDATE table SET (given) ...] of one row, of columns that are in no key and
    refer to nothing. *)
Definition update_row (cat : catalog) (table : string) (given r : row) : option (row + string) :=
  match table_of cat table with
  | None => None
  | Some (cols, cs) =>
      let r' := map (fun c => (col_name c, if has_cell given (col_name c)
                                           then cell given (col_name c) else cell r (col_name c))) cols in
      Some (match row_violation cols cs r' with Some code => inr code | None => inl r' end)
  end.

(** ** The tables of [Database] as rows *)

Definition wallet_row (w : Wallet) : row :=
  [("id", Some (VText (Wallet_ID w))); ("balance", Some (VInt (Wallet_Balance w)));
   ("created_at", Some (VTime (Wallet_CreatedAt w)));
   ("updated_at", Some (VTime (Wallet_UpdatedAt w)))].

Definition transfer_cells (r : TransferRow) : row :=
  [("id", Some (VUuid (tr_id r))); ("from_wallet_id", Some (VText (tr_from_wallet_id r)));
   ("to_wallet_id", Some (VText (tr_to_wallet_id r))); ("amount", Some (VInt (tr_amount r)));
   ("state", Some (VText (tr_state r))); ("failure_reason", VText <$> tr_failure_reason r);
   ("created_at", Some (VTime (tr_created_at r))); ("updated_at", Some (VTime (tr_updated_at r)))].

Definition ledger_row (e : LedgerEntry) : row :=
  [("id", Some (VInt (Ledger_ID e))); ("transfer_id", Some (VUuid (Ledger_TransferID e)));
   ("wallet_id", Some (VText (Ledger_WalletID e))); ("type", Some (VText (Ledger_Type e)));
   ("amount", Some (VInt (Ledger_Amount e))); ("created_at", Some (VTime (Ledger_CreatedAt e)))].

Definition idem_cells (r : IdemRow) : row :=
  [("key", Some (VText (ir_key r))); ("request_hash", Some (VText (ir_request_hash r)));
   ("transfer_id", Some (VUuid (ir_transfer_id r)));
   ("created_at", Some (VTime (ir_created_at r)))].

Definition contents (t : tables) (table : string) : list row :=
  if String.eqb table "wallets" then wallet_row <$> (map_to_list (wallets t)).*2
  else if String.eqb table "transfers" then transfer_cells <$> (map_to_list (transfers t)).*2
  else if String.eqb table "ledger_entries" then ledger_row <$> (map_to_list (ledger_entries t)).*2
  else if String.eqb table "idempotency_records" then
    idem_cells <$> (map_to_list (idempotency_records t)).*2
  else [].

(** ** The statements of the program that write

    The columns an INSERT gives. *)
Definition inserted {X} (s : stmt X) : option (string * row) :=
  match s with
  | InsertWallet id b => Some ("wallets", [("id", Some (VText id)); ("balance", Some (VInt b))])
  | InsertTransfer u from to amount state =>
      Some ("transfers",
        [("id", Some (VUuid u)); ("from_wallet_id", Some (VText from));
         ("to_wallet_id", Some (VText to)); ("amount", Some (VInt amount));
         ("state", Some (VText state))])
  | InsertLedgerEntry u wallet ty amount =>
      Some ("ledger_entries",
        [("transfer_id", Some (VUuid u)); ("wallet_id", Some (VText wallet));
         ("type", Some (VText ty)); ("amount", Some (VInt amount))])
  | InsertIdempotency key hash u =>
      Some ("idempotency_records",
        [("key", Some (VText key)); ("request_hash", Some (VText hash));
         ("transfer_id", Some (VUuid u))])
  | _ => None
  end.

(** The columns an UPDATE sets, and the row that it finds. *)
Definition updated (now : Time) {X} (s : stmt X) (t : tables) : option (string * row * row) :=
  match s with
  | UpdateWalletBalance id b =>
      (fun w => ("wallets", [("balance", Some (VInt b)); ("updated_at", Some (VTime now))],
                 wallet_row w)) <$> wallets t !! id
  | UpdateTransferState u state reason =>
      (fun r => ("transfers",
        [("state", Some (VText state)); ("failure_reason", VText <$> nullif_empty reason);
         ("updated_at", Some (VTime now))], transfer_cells r)) <$> transfers t !! u
  | _ => None
  end.

(** The parameters that are BIGINT. *)
Definition bigint_params {X} (s : stmt X) : Prop :=
  match s with
  | UpdateWalletBalance _ z | InsertWallet _ z | InsertTransfer _ _ _ z _
  | InsertLedgerEntry _ _ _ z => in_int64 z
  | _ => True
  end.
