(* ===== verification/SchemaCorrect.v ===== *)
(** * The schema, proved

    [Database] enforces exactly the constraints the migrations declare; going
    up and down the migrations restores any database; and what the schema
    guarantees by itself, whatever statements the program issues. *)

From S2P Require Import Prelude GoRuntime Domain Database Spec Scenario Schema.

(** ** Rows of a finite map *)

Section rows.
Context {K V : Type} `{Countable K}.
Implicit Types (m : gmap K V) (f : V -> row) (p : row -> bool).

Lemma rows_exist m f p :
  existsb p (f <$> (map_to_list m).*2) = true <-> exists k v, m !! k = Some v /\ p (f v) = true.
Proof.
  rewrite existsb_exists. split.
  - intros (r & Hr & Hp). apply list_elem_of_In, list_elem_of_fmap in Hr as (v & -> & Hv).
    apply list_elem_of_fmap in Hv as ([k v'] & -> & Hk). apply elem_of_map_to_list in Hk. eauto.
  - intros (k & v & Hk & Hp). exists (f v). split; [|done].
    apply list_elem_of_In, list_elem_of_fmap. exists v. split; [done|].
    apply list_elem_of_fmap. exists (k, v). split; [done|]. by apply elem_of_map_to_list.
Qed.

(** Keyed by [key], the rows with a given key are the one that is looked up. *)
Lemma rows_keyed m f p (key : V -> K) k :
  (forall k' v, m !! k' = Some v -> key v = k') -> (forall v, p (f v) = bool_decide (key v = k)) ->
  existsb p (f <$> (map_to_list m).*2) = negb (bool_decide (m !! k = None)).
Proof.
  intros Hkey Hp. apply eq_true_iff_eq. rewrite rows_exist, negb_true_iff, bool_decide_eq_false.
  split.
  - intros (k' & v & Hk & Hv). rewrite Hp in Hv. apply bool_decide_eq_true in Hv as <-.
    by rewrite (Hkey _ _ Hk), Hk.
  - intros Hn. destruct (m !! k) as [v|] eqn:E; [|done]. exists k, v. split; [done|].
    rewrite Hp. by apply bool_decide_eq_true, Hkey.
Qed.

Lemma rows_referenced m f p (key : V -> K) k :
  (forall k' v, m !! k' = Some v -> key v = k') -> (forall v, p (f v) = bool_decide (key v = k)) ->
  existsb p (f <$> (map_to_list m).*2) = bool_decide (is_Some (m !! k)).
Proof.
  intros Hkey Hp. rewrite (rows_keyed m f p key k Hkey Hp).
  destruct (m !! k) as [v|]; [done|]. symmetry. apply bool_decide_eq_false_2. by intros [v ?].
Qed.
End rows.

(** Each row is stored under its primary key. *)
Record well_keyed (t : tables) : Prop := {
  keyed_wallets : forall k w, wallets t !! k = Some w -> Wallet_ID w = k;
  keyed_transfers : forall k r, transfers t !! k = Some r -> tr_id r = k;
  keyed_ledger : forall k e, ledger_entries t !! k = Some e -> Ledger_ID e = k;
  keyed_idem : forall k i, idempotency_records t !! k = Some i -> ir_key i = k
}.

(** ** The constraints of each table *)

Lemma decide_text s s' : bool_decide (VText s = VText s') = bool_decide (s = s').
Proof. apply bool_decide_ext. naive_solver. Qed.
Lemma decide_uuid u u' : bool_decide (VUuid u = VUuid u') = bool_decide (u = u').
Proof. apply bool_decide_ext. naive_solver. Qed.
Lemma decide_int z z' : bool_decide (VInt z = VInt z') = bool_decide (z = z').
Proof. apply bool_decide_ext. naive_solver. Qed.
Lemma decide_differ s s' : bool_decide (VText s <> VText s') = bool_decide (s <> s').
Proof. apply bool_decide_ext. naive_solver. Qed.
Lemma decide_cell (v v' : sql_value) : bool_decide (Some v = Some v') = bool_decide (v = v').
Proof. apply bool_decide_ext. naive_solver. Qed.

Lemma decide_one_of (s a : string) l :
  bool_decide (s ∈ a :: l) = bool_decide (s = a) || bool_decide (s ∈ l).
Proof.
  rewrite <- (bool_decide_or). apply bool_decide_ext. apply elem_of_cons.
Qed.

Lemma wallets_violation w :
  in_int64 (Wallet_Balance w) ->
  row_violation wallets_columns [] (wallet_row w) =
  if wallets_check w then None else Some pgCheckViolation.
Proof.
  intros Hb. unfold row_violation. cbn. rewrite (bool_decide_eq_true_2 _ Hb). cbn.
  unfold wallets_check. by destruct (bool_decide _).
Qed.

Lemma transfers_violation r :
  in_int64 (tr_amount r) ->
  row_violation transfers_columns [CHECK (Differ "from_wallet_id" "to_wallet_id")] (transfer_cells r) =
  if transfers_check r then None else Some pgCheckViolation.
Proof.
  intros Hb. unfold row_violation. cbn. rewrite (bool_decide_eq_true_2 _ Hb). cbn.
  assert (column_ok (transfer_cells r) (col "failure_reason" TEXT) = true) as ->
    by (unfold column_ok; cbn; by destruct (tr_failure_reason r)).
  cbn. rewrite decide_differ, !decide_one_of. unfold transfers_check.
  rewrite orb_false_r, andb_true_r, !orb_assoc, andb_assoc. by destruct (_ && _).
Qed.

Lemma ledger_violation e :
  in_int64 (Ledger_ID e) -> in_int64 (Ledger_Amount e) ->
  row_violation ledger_entries_columns [UNIQUE ["transfer_id"; "type"]] (ledger_row e) =
  if ledger_check e then None else Some pgCheckViolation.
Proof.
  intros Hi Hb. unfold row_violation. cbn.
  rewrite (bool_decide_eq_true_2 _ Hi), (bool_decide_eq_true_2 _ Hb). cbn.
  rewrite !decide_one_of. unfold ledger_check.
  rewrite orb_false_r, andb_true_r. by destruct (_ && _).
Qed.

Lemma idem_violation i : row_violation idempotency_records_columns [] (idem_cells i) = None.
Proof. done. Qed.

(** Keys, and amounts that are BIGINT. *)
Record well_stored (t : tables) : Prop := {
  stored_keys : well_keyed t;
  stored_amount : forall k r, transfers t !! k = Some r -> in_int64 (tr_amount r)
}.

(** ** INSERT, by the catalog and by [Database] *)

(** The same row is written, and nothing else; or the same SQLSTATE answered. *)
Definition agrees {X} (x : option (row + string)) (table : string) (rd : result X * tables) : Prop :=
  match x with
  | Some (inl r) => (exists a, rd.1 = Ok a) /\
      forall table', contents rd.2 table' = if String.eqb table' table then [r] else []
  | Some (inr code) => (exists c, rd.1 = Err (ErrPg code c)) /\ rd.2 = ∅
  | None => False
  end.

Lemma agrees_check {X} (b : bool) code c table y (k : result X * tables) :
  (b = true -> agrees (Some y) table k) ->
  agrees (Some (if b then y else inr code)) table (sql_check b code c k).
Proof. intros H. destruct b; [by apply H|]. split; [by eexists|done]. Qed.

Lemma insert_row_eq cat now n db table given cols cs r (chk uniq fk : bool) :
  table_of cat table = Some (cols, cs) ->
  map (fun c => (col_name c, if has_cell given (col_name c) then cell given (col_name c)
                             else default_of now n c)) cols = r ->
  row_violation cols cs r = (if chk then None else Some pgCheckViolation) ->
  existsb (fun k => existsb (fun r' => same_key r r' k) (db table)) (unique_keys cols cs) = negb uniq ->
  forallb (reference_ok db r) cols = fk ->
  insert_row cat now n db table given =
  Some (if chk then if uniq then if fk then inl r else inr pgForeignKeyViolation
                    else inr pgUniqueViolation else inr pgCheckViolation).
Proof.
  intros Ht Hr Hv Hu Hf. unfold insert_row. rewrite Ht, Hr, Hv, Hu, Hf. by destruct chk, uniq, fk.
Qed.

Lemma one_row {K V} `{Countable K} (f : V -> row) (k : K) (v : V) :
  f <$> (map_to_list ({[k := v]} : gmap K V)).*2 = [f v].
Proof. by rewrite map_to_list_singleton. Qed.

Lemma contents_empty table : contents ∅ table = [].
Proof. unfold contents. by repeat case_match. Qed.

Lemma contents_put_wallet w table :
  contents (put_wallet w) table = if String.eqb table "wallets" then [wallet_row w] else [].
Proof.
  unfold contents, put_wallet. cbn [wallets transfers ledger_entries idempotency_records].
  rewrite one_row. by repeat case_match.
Qed.

Lemma contents_put_transfer r table :
  contents (put_transfer r) table = if String.eqb table "transfers" then [transfer_cells r] else [].
Proof.
  unfold contents, put_transfer. cbn [wallets transfers ledger_entries idempotency_records].
  rewrite one_row. destruct (String.eqb_spec table "wallets") as [->|]; [done|]. by repeat case_match.
Qed.

Lemma contents_put_ledger e table :
  contents (put_ledger e) table = if String.eqb table "ledger_entries" then [ledger_row e] else [].
Proof.
  unfold contents, put_ledger. cbn [wallets transfers ledger_entries idempotency_records].
  rewrite one_row. destruct (String.eqb_spec table "wallets") as [->|]; [done|].
  destruct (String.eqb_spec table "transfers") as [->|]; [done|]. by repeat case_match.
Qed.

Lemma contents_put_idem i table :
  contents (put_idem i) table = if String.eqb table "idempotency_records" then [idem_cells i] else [].
Proof.
  unfold contents, put_idem. cbn [wallets transfers ledger_entries idempotency_records].
  rewrite one_row. destruct (String.eqb_spec table "wallets") as [->|]; [done|].
  destruct (String.eqb_spec table "transfers") as [->|]; [done|].
  destruct (String.eqb_spec table "ledger_entries") as [->|]; [done|]. by repeat case_match.
Qed.

Section insert.
Variables (now : Time) (n : Z) (t : tables).
Hypothesis Ht : well_stored t.
Let keys : well_keyed t := stored_keys t Ht.

Lemma insert_wallet_agrees id b :
  in_int64 b ->
  agrees (insert_row schema now n (contents t) "wallets"
            [("id", Some (VText id)); ("balance", Some (VInt b))]) "wallets"
    (exec_stmt now n (InsertWallet id b) t).
Proof.
  intros Hb. set (w := mkWallet id b now now).
  erewrite (insert_row_eq schema _ _ _ _ _ wallets_columns [] (wallet_row w)
    (wallets_check w) (bool_decide (wallets t !! id = None)) true);
    [|reflexivity|reflexivity|by apply wallets_violation| |reflexivity].
  - cbn [exec_stmt]. unfold exec_insert_wallet. fold w.
    do 2 (apply agrees_check; intros _). split; [by eexists|apply contents_put_wallet].
  - cbn [existsb unique_keys]. cbn. rewrite orb_false_r.
    apply (rows_keyed _ _ _ Wallet_ID); [apply keys|].
    intros w'. cbn. rewrite andb_true_r, decide_text. by apply bool_decide_ext.
Qed.

Lemma wallet_referenced id :
  existsb (fun r => bool_decide (cell r "id" = Some (VText id))) (contents t "wallets") =
  bool_decide (is_Some (wallets t !! id)).
Proof.
  apply (rows_referenced _ _ _ Wallet_ID); [apply keys|]. intros w. cbn.
  by rewrite decide_cell, decide_text.
Qed.

Lemma transfer_referenced u :
  existsb (fun r => bool_decide (cell r "id" = Some (VUuid u))) (contents t "transfers") =
  bool_decide (is_Some (transfers t !! u)).
Proof.
  apply (rows_referenced _ _ _ tr_id); [apply keys|]. intros r. cbn.
  by rewrite decide_cell, decide_uuid.
Qed.

Lemma insert_transfer_agrees u from to amount state :
  in_int64 amount ->
  agrees (insert_row schema now n (contents t) "transfers"
            [("id", Some (VUuid u)); ("from_wallet_id", Some (VText from));
             ("to_wallet_id", Some (VText to)); ("amount", Some (VInt amount));
             ("state", Some (VText state))]) "transfers"
    (exec_stmt now n (InsertTransfer u from to amount state) t).
Proof.
  intros Hb. set (r := mkTransferRow u from to amount state None now now).
  erewrite (insert_row_eq schema _ _ _ _ _ transfers_columns _ (transfer_cells r)
    (transfers_check r) (bool_decide (transfers t !! u = None)) (transfers_fk t r));
    [|reflexivity|reflexivity|by apply transfers_violation| |].
  - cbn [exec_stmt]. unfold exec_insert_transfer. fold r.
    do 3 (apply agrees_check; intros _). split; [by eexists|apply contents_put_transfer].
  - cbn. rewrite orb_false_r. apply (rows_keyed _ _ _ tr_id); [apply keys|].
    intros r'. cbn. rewrite andb_true_r, decide_uuid. by apply bool_decide_ext.
  - cbn -[contents]. unfold reference_ok. cbn -[contents].
    change (tr_from_wallet_id r) with from. change (tr_to_wallet_id r) with to.
    by rewrite !wallet_referenced, andb_true_r.
Qed.

Lemma insert_ledger_agrees u wallet ty amount :
  in_int64 n -> in_int64 amount ->
  agrees (insert_row schema now n (contents t) "ledger_entries"
            [("transfer_id", Some (VUuid u)); ("wallet_id", Some (VText wallet));
             ("type", Some (VText ty)); ("amount", Some (VInt amount))]) "ledger_entries"
    (exec_stmt now n (InsertLedgerEntry u wallet ty amount) t).
Proof.
  intros Hn Hb. set (e := mkLedgerEntry n u wallet ty amount now).
  erewrite (insert_row_eq schema _ _ _ _ _ ledger_entries_columns _ (ledger_row e)
    (ledger_check e) (ledger_unique t e) (ledger_fk t e));
    [|reflexivity|reflexivity|by apply ledger_violation| |].
  - cbn [exec_stmt]. unfold exec_insert_ledger. fold e.
    do 3 (apply agrees_check; intros _). split; [by eexists|apply contents_put_ledger].
  - cbn. rewrite orb_false_r. unfold ledger_unique. rewrite negb_andb. f_equal.
    + apply (rows_keyed _ _ _ Ledger_ID); [apply keys|].
      intros e'. cbn. rewrite andb_true_r, decide_int. by apply bool_decide_ext.
    + apply eq_true_iff_eq. rewrite rows_exist, negb_true_iff, bool_decide_eq_false. split.
      * intros (k & e' & Hk & He) Hall. cbn in He.
        rewrite andb_true_r, decide_uuid, decide_text, andb_true_iff, !bool_decide_eq_true in He.
        apply (Hall k e' Hk). split; symmetry; apply He.
      * intros Hno. apply map_not_Forall in Hno as (k & e' & Hk & He); [|apply _].
        apply dec_stable in He. exists k, e'. split; [done|]. cbn.
        rewrite andb_true_r, decide_uuid, decide_text, andb_true_iff, !bool_decide_eq_true.
        destruct He. by split.
  - cbn -[contents]. unfold reference_ok. cbn -[contents].
    by rewrite wallet_referenced, transfer_referenced, andb_true_r.
Qed.

Lemma insert_idem_agrees key hash u :
  agrees (insert_row schema now n (contents t) "idempotency_records"
            [("key", Some (VText key)); ("request_hash", Some (VText hash));
             ("transfer_id", Some (VUuid u))]) "idempotency_records"
    (exec_stmt now n (InsertIdempotency key hash u) t).
Proof.
  set (i := mkIdemRow key hash u now).
  erewrite (insert_row_eq schema _ _ _ _ _ idempotency_records_columns _ (idem_cells i) true
    (bool_decide (idempotency_records t !! key = None)) (idem_fk t i));
    [|reflexivity|reflexivity|apply idem_violation| |].
  - cbn [exec_stmt]. unfold exec_insert_idem. fold i.
    do 2 (apply agrees_check; intros _). split; [by eexists|apply contents_put_idem].
  - cbn. rewrite orb_false_r. apply (rows_keyed _ _ _ ir_key); [apply keys|].
    intros i'. cbn. rewrite andb_true_r, decide_text. by apply bool_decide_ext.
  - cbn -[contents]. unfold reference_ok. cbn -[contents].
    by rewrite transfer_referenced, andb_true_r.
Qed.

(** ** UPDATE *)

Lemma update_wallet_agrees id b w :
  in_int64 b -> wallets t !! id = Some w ->
  agrees (update_row schema "wallets" [("balance", Some (VInt b)); ("updated_at", Some (VTime now))]
            (wallet_row w)) "wallets"
    (exec_stmt now n (UpdateWalletBalance id b) t).
Proof.
  intros Hb Hw. cbn [exec_stmt]. unfold exec_update_balance. rewrite Hw.
  destruct (keyed_wallets _ keys _ _ Hw). set (w' := mkWallet (Wallet_ID w) b (Wallet_CreatedAt w) now).
  assert (update_row schema "wallets" [("balance", Some (VInt b)); ("updated_at", Some (VTime now))]
    (wallet_row w) = Some (if wallets_check w' then inl (wallet_row w') else inr pgCheckViolation)) as ->.
  { pose proof (wallets_violation w' Hb) as Hv. unfold update_row. change (table_of schema "wallets") with (Some (wallets_columns, @nil table_constraint)).
    cbv iota beta zeta. change (map _ wallets_columns) with (wallet_row w').
    rewrite Hv. by destruct (wallets_check w'). }
  apply agrees_check. intros _. split; [by eexists|apply contents_put_wallet].
Qed.

Lemma update_transfer_agrees u state reason r :
  transfers t !! u = Some r ->
  agrees (update_row schema "transfers"
            [("state", Some (VText state)); ("failure_reason", VText <$> nullif_empty reason);
             ("updated_at", Some (VTime now))] (transfer_cells r)) "transfers"
    (exec_stmt now n (UpdateTransferState u state reason) t).
Proof.
  intros Hr. cbn [exec_stmt]. unfold exec_update_state. rewrite Hr.
  destruct (keyed_transfers _ keys _ _ Hr).
  set (r' := mkTransferRow (tr_id r) _ _ _ state _ _ now).
  assert (update_row schema "transfers"
    [("state", Some (VText state)); ("failure_reason", VText <$> nullif_empty reason);
     ("updated_at", Some (VTime now))] (transfer_cells r) =
    Some (if transfers_check r' then inl (transfer_cells r') else inr pgCheckViolation)) as ->.
  { pose proof (transfers_violation r' (stored_amount _ Ht _ _ Hr)) as Hv. unfold update_row.
    change (table_of schema "transfers") with
      (Some (transfers_columns, [CHECK (Differ "from_wallet_id" "to_wallet_id")])).
    cbv iota beta zeta. change (map _ transfers_columns) with (transfer_cells r').
    rewrite Hv. by destruct (transfers_check r'). }
  apply agrees_check. intros _. split; [by eexists|apply contents_put_transfer].
Qed.
End insert.

(** ** Every statement of the program *)

(** C36: the constraints are those of the migrations.  For every statement the
    program issues, on tables stored under their keys: an INSERT or UPDATE
    writes the row, or is refused with the SQLSTATE, that the catalog built by
    the migrations prescribes (its types, NOT NULL, CHECK, PRIMARY KEY, UNIQUE,
    REFERENCES and DEFAULT clauses, in that order); every other statement, and
    an UPDATE that finds no row, writes nothing. *)
Theorem constraints_are_migrated {X} (s : stmt X) now n t :
  well_stored t -> in_int64 n -> bigint_params s ->
  match inserted s, updated now s t with
  | Some (table, given), _ =>
      agrees (insert_row schema now n (contents t) table given) table (exec_stmt now n s t)
  | None, Some (table, given, old) =>
      agrees (update_row schema table given old) table (exec_stmt now n s t)
  | None, None => (exec_stmt now n s t).2 = ∅
  end.
Proof.
  intros Ht Hn Hs. destruct s as [id|id|id b|id b|u|u from to amount state|u state reason|w before limit
    |u w ty amount|u|key|key hash u]; cbn [inserted updated]; try done.
  - destruct (wallets t !! id) as [w|] eqn:Hw; cbn [fmap option_fmap option_map].
    + by apply update_wallet_agrees.
    + cbn [exec_stmt]. unfold exec_update_balance. by rewrite Hw.
  - by apply insert_wallet_agrees.
  - by apply insert_transfer_agrees.
  - destruct (transfers t !! u) as [r|] eqn:Hr; cbn [fmap option_fmap option_map].
    + by apply update_transfer_agrees.
    + cbn [exec_stmt]. unfold exec_update_state. by rewrite Hr.
  - cbn [exec_stmt]. unfold sql_check. by destruct (bool_decide _).
  - by apply insert_ledger_agrees.
  - by apply insert_idem_agrees.
Qed.

(** ** Up and down *)

Definition schema_names : list string := map relation_name schema.

(** Every table a relation depends on is there. *)
Definition closed (c : catalog) : Prop :=
  forall r table, r ∈ c -> depends_on table r = true -> fresh_name c table = false.

Definition foreign (c : catalog) (name : string) : Prop :=
  fresh_name c name = true /\ forall r, r ∈ c -> depends_on name r = false.

Lemma closed_foreign c name : closed c -> fresh_name c name = true -> foreign c name.
Proof.
  intros Hc Hf. split; [done|]. intros r Hr. destruct (depends_on name r) eqn:E; [|done].
  by rewrite (Hc r name Hr E) in Hf.
Qed.

Lemma fresh_in c name r : fresh_name c name = true -> r ∈ c -> relation_name r <> name.
Proof.
  intros Hf Hr. unfold fresh_name in Hf. rewrite forallb_forall in Hf.
  apply list_elem_of_In in Hr. specialize (Hf r Hr). by apply negb_true_iff, String.eqb_neq in Hf.
Qed.

Lemma columns_of_app c l table :
  fresh_name c table = true -> columns_of (c ++ l) table = columns_of l table.
Proof.
  unfold columns_of, fresh_name. induction c as [|r c IH]; [done|]. simpl.
  intros [Hr Hc]%andb_true_iff. destruct r as [name cols cs|name tb keys]; simpl in *; [|by apply IH].
  apply negb_true_iff in Hr. rewrite Hr. by apply IH.
Qed.

(** The names a statement uses. *)
Definition names_of (d : ddl) : list string :=
  match d with
  | CREATE_TABLE name cols _ => name :: omap (fun c => fst <$> col_references c) cols
  | CREATE_INDEX name table _ => [name; table]
  | DROP_TABLE_IF_EXISTS name | DROP_INDEX_IF_EXISTS name => [name]
  end.

Lemma has_column_app c l table k :
  fresh_name c table = true -> has_column (c ++ l) table k = has_column l table k.
Proof. intros H. unfold has_column. by rewrite columns_of_app. Qed.

Lemma forallb_ext_in {A} (f g : A -> bool) l :
  (forall x, x ∈ l -> f x = g x) -> forallb f l = forallb g l.
Proof.
  induction l as [|x l IH]; intros H; [done|]. simpl. rewrite (H x) by set_solver. f_equal.
  apply IH. set_solver.
Qed.

Lemma references_ok_app c l cols :
  (forall t, t ∈ omap (fun c => fst <$> col_references c) cols -> fresh_name c t = true) ->
  references_ok (c ++ l) cols = references_ok l cols.
Proof.
  intros H. apply forallb_ext_in. intros x Hx. destruct (col_references x) as [[t k]|] eqn:E; [|done].
  apply has_column_app, H, list_elem_of_omap. exists x. by rewrite E.
Qed.

Lemma filter_keeps {A} (f : A -> bool) l : (forall x, x ∈ l -> f x = true) -> List.filter f l = l.
Proof.
  induction l as [|x l IH]; intros H; [done|]. simpl. rewrite H by set_solver. f_equal.
  apply IH. set_solver.
Qed.

(** A statement does not see what shares no name with it. *)
Lemma exec_ddl_frame d c l :
  (forall name, name ∈ names_of d -> foreign c name) ->
  exec_ddl d (c ++ l) = app c <$> exec_ddl d l.
Proof.
  intros H. destruct d as [name cols cs|name table keys|name|name]; cbn [names_of] in H; cbn [exec_ddl].
  - assert (fresh_name (c ++ l) name = fresh_name l name) as ->.
    { unfold fresh_name at 1. rewrite forallb_app. fold (fresh_name c name).
      by rewrite (proj1 (H name ltac:(set_solver))). }
    rewrite <- app_assoc, references_ok_app by (intros t Ht; apply H; set_solver).
    by destruct (_ && _).
  - assert (fresh_name (c ++ l) name = fresh_name l name) as ->.
    { unfold fresh_name at 1. rewrite forallb_app. fold (fresh_name c name).
      by rewrite (proj1 (H name ltac:(set_solver))). }
    rewrite (forallb_ext_in _ (fun k => has_column l table k.1)) by
      (intros k _; apply has_column_app, H; set_solver).
    rewrite <- app_assoc. by destruct (_ && _).
  - destruct (H name ltac:(set_solver)) as [Hf Hd]. rewrite existsb_app.
    assert (existsb (fun r => is_table r && depends_on name r &&
      negb (String.eqb (relation_name r) name)) c = false) as ->.
    { apply not_true_iff_false. rewrite existsb_exists. intros (r & Hr & E).
      apply list_elem_of_In in Hr. rewrite (Hd r Hr), andb_false_r in E. done. }
    cbn [orb]. destruct (existsb _ l); [done|]. cbn [fmap option_fmap option_map]. f_equal.
    rewrite List.filter_app, filter_keeps; [done|]. intros r Hr. pose proof (fresh_in _ _ _ Hf Hr) as Hn.
    destruct r as [n' cols cs|n' tb keys]; [by apply negb_true_iff, String.eqb_neq|].
    specialize (Hd _ Hr). cbn [depends_on] in Hd. by rewrite Hd.
  - destruct (H name ltac:(set_solver)) as [Hf _]. cbn [fmap option_fmap option_map]. f_equal.
    rewrite List.filter_app, filter_keeps; [done|]. intros r Hr. pose proof (fresh_in _ _ _ Hf Hr) as Hn.
    destruct r as [n' cols cs|n' tb keys]; [done|by apply negb_true_iff, String.eqb_neq].
Qed.

Lemma exec_script_frame ds c l :
  (forall d name, d ∈ ds -> name ∈ names_of d -> foreign c name) ->
  exec_script ds (c ++ l) = app c <$> exec_script ds l.
Proof.
  revert l. induction ds as [|d ds IH]; intros l H; [done|]. cbn [exec_script].
  rewrite exec_ddl_frame by (intros name; apply H; set_solver).
  destruct (exec_ddl d l) as [l'|]; [|done]. apply IH. intros d' name Hd. apply H. set_solver.
Qed.

(** No statement of a migration uses another name than the relations'. *)
Definition script_names (ms : list migration) : list string :=
  concat (map names_of (concat (map (fun m => up m ++ down m) ms))).

Lemma script_name m ms d name :
  m ∈ ms -> d ∈ up m ++ down m -> name ∈ names_of d -> name ∈ script_names ms.
Proof.
  intros Hm Hd Hn. unfold script_names. rewrite list_elem_of_In, in_concat.
  exists (names_of d). rewrite <- !list_elem_of_In. split; [|done]. rewrite list_elem_of_In.
  apply in_map, in_concat. exists (up m ++ down m). rewrite <- !list_elem_of_In. split; [|done].
  rewrite list_elem_of_In. apply (in_map (fun m => up m ++ down m)). by apply list_elem_of_In.
Qed.

Lemma migrate_up_frame ms c l :
  (forall name, name ∈ script_names ms -> foreign c name) ->
  migrate_up ms (c ++ l) = app c <$> migrate_up ms l.
Proof.
  revert l. induction ms as [|m ms IH]; intros l H; [done|]. cbn [migrate_up].
  rewrite exec_script_frame by
    (intros d name Hd Hn; apply H; eapply script_name; [|apply elem_of_app; left|]; set_solver).
  destruct (exec_script (up m) l) as [l'|]; [|done]. apply IH. intros name Hn. apply H.
  unfold script_names in *. simpl. rewrite map_app, concat_app. set_solver.
Qed.

Lemma migrate_down_frame ms c l :
  (forall name, name ∈ script_names ms -> foreign c name) ->
  migrate_down ms (c ++ l) = app c <$> migrate_down ms l.
Proof.
  revert l. induction ms as [|m ms IH]; intros l H; [done|]. cbn [migrate_down].
  rewrite IH.
  - destruct (migrate_down ms l) as [l'|]; [|done]. cbn [fmap option_fmap option_map].
    apply exec_script_frame. intros d name Hd Hn. apply H.
    eapply script_name; [|apply elem_of_app; right|]; set_solver.
  - intros name Hn. apply H. unfold script_names in *. simpl. rewrite map_app, concat_app. set_solver.
Qed.

Lemma take_cases k :
  (k = 0%nat /\ take k migrations = []) \/
  (k = 1%nat /\ take k migrations = [mkMigration init_up init_down]) \/
  ((2 <= k)%nat /\ take k migrations = migrations).
Proof.
  destruct k as [|[|k]]; [by left|by right; left|right; right]. split; [lia|].
  apply take_ge. simpl. lia.
Qed.

Lemma take_names k name : name ∈ script_names (take k migrations) -> name ∈ schema_names.
Proof.
  assert (forallb (fun n => bool_decide (n ∈ schema_names)) (script_names migrations) = true) as Hall
    by (by vm_compute).
  rewrite forallb_forall in Hall. intros Hn. eapply bool_decide_eq_true_1, Hall, list_elem_of_In.
  destruct (take_cases k) as [[_ E]|[[_ E]|[_ E]]]; rewrite E in Hn; [by apply elem_of_nil in Hn| |done].
  unfold script_names in *. cbn [migrations map concat] in *. rewrite app_nil_r in Hn.
  rewrite map_app, concat_app. apply elem_of_app. by left.
Qed.

(** C39: the migrations can be undone.  On any database whose relations are not
    among the migrations' own (such as the [schema_migrations] table of the
    migration tool), the up files of the first [k] versions succeed, adding
    their relations and touching nothing else; the down files then restore the
    database exactly; and a second up of a version is refused as a whole. *)
Theorem migrations_round_trip c k :
  closed c -> (forall name, name ∈ schema_names -> fresh_name c name = true) ->
  exists new, migrate_up (take k migrations) c = Some (c ++ new) /\
    migrate_down (take k migrations) (c ++ new) = Some c /\
    ((2 <= k)%nat -> new = schema) /\
    ((1 <= k)%nat -> exec_script init_up (c ++ new) = None).
Proof.
  intros Hc Hf.
  assert (forall name, name ∈ script_names (take k migrations) -> foreign c name) as H.
  { intros name Hn. apply closed_foreign; [done|]. apply Hf. by eapply take_names. }
  assert (migrate_up (take k migrations) c = app c <$> migrate_up (take k migrations) []) as ->
    by (rewrite <- migrate_up_frame by done; by rewrite app_nil_r).
  assert (exists new, migrate_up (take k migrations) [] = Some new /\
    migrate_down (take k migrations) new = Some [] /\ ((2 <= k)%nat -> new = schema) /\
    ((1 <= k)%nat -> exec_script init_up new = None)) as (new & -> & Hdown & H2 & H1).
  { destruct (take_cases k) as [[-> ->]|[[-> ->]|[Hk ->]]]; eexists;
      (split; [reflexivity|split; [reflexivity|split; intros; [try lia|try lia; reflexivity]]]).
    reflexivity. }
  exists new. split; [done|]. split; [|split; [done|]].
  - rewrite migrate_down_frame, Hdown by done. cbn. by rewrite app_nil_r.
  - intros Hk. rewrite exec_script_frame, (H1 Hk); [done|].
    intros d name Hd Hn. apply closed_foreign; [done|]. apply Hf, (take_names 1).
    eapply (script_name (mkMigration init_up init_down)); [by left|apply elem_of_app; by left|done].
Qed.

(** ** What the schema guarantees by itself *)

(** The constraints of every table hold of every row. *)
Record schema_ok (t : tables) : Prop := {
  ok_stored : well_stored t;
  ok_wallets : forall k w, wallets t !! k = Some w -> 0 <= Wallet_Balance w;
  ok_transfers : forall k r, transfers t !! k = Some r ->
    transfers_check r = true /\ transfers_fk t r = true;
  ok_ledger : forall k e, ledger_entries t !! k = Some e ->
    ledger_check e = true /\ ledger_fk t e = true;
  ok_sides : forall k k' e e', ledger_entries t !! k = Some e -> ledger_entries t !! k' = Some e' ->
    same_side (Ledger_TransferID e) (Ledger_Type e) e' -> k = k';
  ok_idem : forall k i, idempotency_records t !! k = Some i -> idem_fk t i = true
}.

(** No reference dangles in tables with more rows. *)
Record more_rows (t t' : tables) : Prop := {
  more_wallets : forall k, is_Some (wallets t !! k) -> is_Some (wallets t' !! k);
  more_transfers : forall k, is_Some (transfers t !! k) -> is_Some (transfers t' !! k)
}.

Lemma transfers_fk_more t t' r : more_rows t t' -> transfers_fk t r = true -> transfers_fk t' r = true.
Proof.
  intros [Hw _]. unfold transfers_fk. rewrite !andb_true_iff, !bool_decide_eq_true. naive_solver.
Qed.
Lemma ledger_fk_more t t' e : more_rows t t' -> ledger_fk t e = true -> ledger_fk t' e = true.
Proof.
  intros [Hw Ht]. unfold ledger_fk. rewrite !andb_true_iff, !bool_decide_eq_true. naive_solver.
Qed.
Lemma idem_fk_more t t' i : more_rows t t' -> idem_fk t i = true -> idem_fk t' i = true.
Proof. intros [_ Ht]. unfold idem_fk. rewrite !bool_decide_eq_true. auto. Qed.

Lemma insert_more {K V} `{Countable K} (m : gmap K V) k v k' :
  is_Some (m !! k') -> is_Some (<[k := v]> m !! k').
Proof. intros Hm. apply lookup_insert_is_Some'. by right. Qed.

Lemma union_put_wallet w t :
  put_wallet w ∪ t = mkTables (<[Wallet_ID w := w]> (wallets t)) (transfers t) (ledger_entries t)
                       (idempotency_records t).
Proof. unfold union, tables_union, put_wallet. simpl. by rewrite insert_union_singleton_first, !union_empty_first. Qed.
Lemma union_put_transfer r t :
  put_transfer r ∪ t = mkTables (wallets t) (<[tr_id r := r]> (transfers t)) (ledger_entries t)
                         (idempotency_records t).
Proof. unfold union, tables_union, put_transfer. simpl. by rewrite insert_union_singleton_first, !union_empty_first. Qed.
Lemma union_put_ledger e t :
  put_ledger e ∪ t = mkTables (wallets t) (transfers t) (<[Ledger_ID e := e]> (ledger_entries t))
                       (idempotency_records t).
Proof. unfold union, tables_union, put_ledger. simpl. by rewrite insert_union_singleton_first, !union_empty_first. Qed.
Lemma union_put_idem i t :
  put_idem i ∪ t = mkTables (wallets t) (transfers t) (ledger_entries t)
                     (<[ir_key i := i]> (idempotency_records t)).
Proof. unfold union, tables_union, put_idem. simpl. by rewrite insert_union_singleton_first, !union_empty_first. Qed.

Lemma put_wallet_ok w t : schema_ok t -> 0 <= Wallet_Balance w -> schema_ok (put_wallet w ∪ t).
Proof.
  intros [[[K1 K2 K3 K4] KA] HW HT HL HS HI] Hw. rewrite union_put_wallet.
  assert (more_rows t (mkTables (<[Wallet_ID w := w]> (wallets t)) (transfers t) (ledger_entries t)
    (idempotency_records t))) as Hm by (split; [intros k; apply insert_more|done]).
  split; [split; [split|]|..]; cbn [wallets transfers ledger_entries idempotency_records]; try done.
  - intros k w' [[<- <-]|[_ ?]]%lookup_insert_Some; eauto.
  - intros k w' [[<- <-]|[_ ?]]%lookup_insert_Some; eauto.
  - intros k r Hr. destruct (HT k r Hr). split; [done|by eapply transfers_fk_more].
  - intros k e He. destruct (HL k e He). split; [done|by eapply ledger_fk_more].
Qed.

Lemma put_transfer_ok r t :
  schema_ok t -> in_int64 (tr_amount r) -> transfers_check r = true -> transfers_fk t r = true ->
  schema_ok (put_transfer r ∪ t).
Proof.
  intros [[[K1 K2 K3 K4] KA] HW HT HL HS HI] Ha Hc Hf. rewrite union_put_transfer.
  assert (more_rows t (mkTables (wallets t) (<[tr_id r := r]> (transfers t)) (ledger_entries t)
    (idempotency_records t))) as Hm by (split; [done|intros k; apply insert_more]).
  split; [split; [split|]|..]; cbn [wallets transfers ledger_entries idempotency_records]; try done.
  - intros k r' [[<- <-]|[_ ?]]%lookup_insert_Some; eauto.
  - intros k r' [[<- <-]|[_ ?]]%lookup_insert_Some; eauto.
  - intros k r' [[<- <-]|[_ Hr]]%lookup_insert_Some; [split; [done|by eapply transfers_fk_more]|].
    destruct (HT k r' Hr). split; [done|by eapply transfers_fk_more].
  - intros k e He. destruct (HL k e He). split; [done|by eapply ledger_fk_more].
  - intros k i Hi. eapply idem_fk_more; eauto.
Qed.

Lemma put_ledger_ok e t :
  schema_ok t -> ledger_check e = true -> ledger_unique t e = true -> ledger_fk t e = true ->
  schema_ok (put_ledger e ∪ t).
Proof.
  intros [[[K1 K2 K3 K4] KA] HW HT HL HS HI] Hc Hu Hf. rewrite union_put_ledger.
  apply andb_true_iff in Hu as [Hn%bool_decide_eq_true Hu%bool_decide_eq_true].
  assert (forall k e', ledger_entries t !! k = Some e' ->
    ~ same_side (Ledger_TransferID e') (Ledger_Type e') e) as Hu'.
  { intros k e' Hk [H1 H2]. by apply (Hu k e' Hk). }
  split; [split; [split|]|..]; cbn [wallets transfers ledger_entries idempotency_records]; try done.
  - intros k e' [[<- <-]|[_ ?]]%lookup_insert_Some; eauto.
  - intros k e' [[<- <-]|[_ Hk]]%lookup_insert_Some; [by split|]. by apply (HL k).
  - intros k k' e1 e2 [[<- <-]|[_ H1]]%lookup_insert_Some [[<- <-]|[_ H2]]%lookup_insert_Some Hs;
      [done|by destruct (Hu k' e2 H2)|by destruct (Hu' k e1 H1)|by eapply HS].
Qed.

Lemma put_idem_ok i t : schema_ok t -> idem_fk t i = true -> schema_ok (put_idem i ∪ t).
Proof.
  intros [[[K1 K2 K3 K4] KA] HW HT HL HS HI] Hf. rewrite union_put_idem.
  split; [split; [split|]|..]; cbn [wallets transfers ledger_entries idempotency_records]; try done.
  - intros k i' [[<- <-]|[_ ?]]%lookup_insert_Some; eauto.
  - intros k i' [[<- <-]|[_ Hk]]%lookup_insert_Some; [done|]. by apply (HI k).
Qed.

Lemma empty_union_ok t : schema_ok t -> schema_ok (∅ ∪ t).
Proof.
  intros H. assert (∅ ∪ t = t) as ->; [|done].
  destruct t. unfold union, tables_union. simpl. by rewrite !union_empty_first.
Qed.

(** What a checked statement leaves. *)
Lemma sql_check_ok {X} b code c (k : result X * tables) t :
  schema_ok t -> (b = true -> schema_ok (k.2 ∪ t)) -> schema_ok ((sql_check b code c k).2 ∪ t).
Proof. intros Ht Hk. destruct b; [by apply Hk|by apply empty_union_ok]. Qed.

Lemma exec_stmt_schema_ok {X} (s : stmt X) now n t :
  bigint_params s -> schema_ok t -> schema_ok ((exec_stmt now n s t).2 ∪ t).
Proof.
  intros Hs Ht. pose proof (empty_union_ok t Ht) as He.
  destruct s as [id|id|id b|id b|u|u from to amount state|u state reason|w before limit
    |u w ty amount|u|key|key hash u]; cbn [exec_stmt snd]; try done.
  - unfold exec_update_balance. destruct (wallets t !! id) as [w|]; [|done].
    apply sql_check_ok; [done|]. intros Hc%bool_decide_eq_true. by apply put_wallet_ok.
  - unfold exec_insert_wallet. apply sql_check_ok; [done|]. intros Hc%bool_decide_eq_true.
    apply sql_check_ok; [done|]. intros _. by apply put_wallet_ok.
  - unfold exec_insert_transfer. apply sql_check_ok; [done|]. intros Hc.
    apply sql_check_ok; [done|]. intros _. apply sql_check_ok; [done|]. intros Hf.
    by apply put_transfer_ok.
  - unfold exec_update_state. destruct (transfers t !! u) as [r|] eqn:Hr; [|done].
    apply sql_check_ok; [done|]. intros Hc. apply put_transfer_ok; try done.
    + by apply (stored_amount _ (ok_stored _ Ht) _ _ Hr).
    + by apply (ok_transfers _ Ht _ _ Hr).
  - by apply sql_check_ok.
  - unfold exec_insert_ledger. apply sql_check_ok; [done|]. intros Hc.
    apply sql_check_ok; [done|]. intros Hu. apply sql_check_ok; [done|]. intros Hf.
    by apply put_ledger_ok.
  - unfold exec_insert_idem. apply sql_check_ok; [done|]. intros _.
    apply sql_check_ok; [done|]. intros Hf. by apply put_idem_ok.
Qed.

(** Some statement of the program, with any BIGINT parameters. *)
Inductive stmt_step (t : tables) : tables -> Prop :=
| stmt_step_intro X (s : stmt X) now n :
    bigint_params s -> stmt_step t ((exec_stmt now n s t).2 ∪ t).

Lemma schema_ok_empty : schema_ok ∅.
Proof. split; [split; [split|]|..]; intros; cbn in *; simplify_map_eq. Qed.

Lemma rtc_schema_ok t t' : rtc stmt_step t t' -> schema_ok t -> schema_ok t'.
Proof.
  induction 1 as [|t1 t2 t3 Hs _ IH]; [done|]. intros H0. apply IH.
  destruct Hs as [X s now n Hb]. by apply exec_stmt_schema_ok.
Qed.

(** C37: the schema is a net of its own.  Whatever statements run on an empty
    database, in whatever order, the service's or not: no balance is negative,
    no transfer is to its own wallet or for nothing, no reference dangles, and
    a transfer has at most one DEBIT and one CREDIT row. *)
Theorem schema_guarantees t :
  rtc stmt_step ∅ t ->
  schema_ok t /\
  forall u ty k k' e e', ledger_entries t !! k = Some e -> ledger_entries t !! k' = Some e' ->
    same_side u ty e -> same_side u ty e' -> k = k' /\ (ty = "DEBIT" \/ ty = "CREDIT").
Proof.
  intros Hrt. pose proof (rtc_schema_ok _ _ Hrt schema_ok_empty) as Ht. split; [done|]. intros u ty k k' e e' Hk Hk' [<- <-] [H1 H2]. split.
  - by eapply (ok_sides _ Ht).
  - destruct (ok_ledger _ Ht _ _ Hk) as [Hc _]. unfold ledger_check in Hc.
    rewrite andb_true_iff, orb_true_iff, !bool_decide_eq_true in Hc. tauto.
Qed.

(** ** A PROCESSED transfer with one row *)

Definition after_stmt {X} (s : stmt X) (n : Z) (t : tables) : tables := (exec_stmt 10 n s t).2 ∪ t.

Definition one_sided : tables :=
  after_stmt (InsertLedgerEntry 7 alice "DEBIT" 5) 1 $
  after_stmt (UpdateTransferState 7 StateProcessed EmptyString) 1 $
  after_stmt (InsertTransfer 7 alice bob 5 StatePending) 1 $
  after_stmt (InsertWallet bob 0) 1 $ after_stmt (InsertWallet alice 5) 1 ∅.

(** C38: what the schema does not guarantee.  A transfer that is PROCESSED with
    a DEBIT row and no CREDIT row satisfies every constraint: UNIQUE
    (transfer_id, type) bounds the rows of a transfer from above only.  That
    there are exactly two is the service's doing. *)
Theorem schema_allows_one_sided_ledger :
  rtc stmt_step ∅ one_sided /\ schema_ok one_sided /\
  tr_state <$> transfers one_sided !! 7%N = Some StateProcessed /\
  Ledger_Type <$> ledger_rows one_sided 7 = [EntryDebit].
Proof.
  assert (rtc stmt_step ∅ one_sided) as H.
  { unfold one_sided, after_stmt. eapply rtc_r; [eapply rtc_r; [eapply rtc_r; [eapply rtc_r;
      [eapply rtc_r; [reflexivity|]|]|]|]|]; by constructor. }
  split; [exact H|]. split; [exact (rtc_schema_ok _ _ H schema_ok_empty)|]. split; by vm_compute.
Qed.

(** ** The theorems at concrete inputs *)

Lemma db_inv_stored t : db_inv t -> well_stored t.
Proof.
  intros Hi. split; [split|].
  - intros k w Hk. apply (inv_wallets _ Hi _ _ Hk).
  - intros k r Hk. apply (inv_transfers _ Hi _ _ Hk).
  - intros k e Hk. apply (inv_ledger _ Hi _ _ Hk).
  - intros k i Hk. apply (inv_idem _ Hi _ _ Hk).
  - intros k r Hk. pose proof (transfer_ok_amount _ _ _ (inv_transfers _ Hi _ _ Hk)).
    unfold in_int64, int64_min. lia.
Qed.

(** A second wallet of alice. *)
Lemma constraints_are_migrated_witness :
  agrees (insert_row schema 10 1 (contents bank) "wallets"
            [("id", Some (VText alice)); ("balance", Some (VInt 5))]) "wallets"
    (exec_stmt 10 1 (InsertWallet alice 5) bank) /\
  (exec_stmt 10 1 (InsertWallet alice 5) bank).1 = Err (ErrPg pgUniqueViolation "wallets_pkey").
Proof.
  split; [|by vm_compute].
  apply (constraints_are_migrated (InsertWallet alice 5) 10 1 bank (db_inv_stored _ bank_ok)).
  - by vm_compute.
  - by vm_compute.
Defined.

(** A database with the table of the migration tool. *)
Definition tracked : catalog :=
  [Table "schema_migrations" [PRIMARY_KEY (col "version" BIGINT)] []].

Lemma migrations_round_trip_witness :
  migrate_up migrations tracked = Some (tracked ++ schema) /\
  migrate_down migrations (tracked ++ schema) = Some tracked.
Proof.
  destruct (migrations_round_trip tracked 2) as (new & H1 & H2 & H3 & _).
  - intros r table [->|Hr]%elem_of_cons; [by cbn|by apply elem_of_nil in Hr].
  - intros name Hn.
    assert (forallb (fresh_name tracked) schema_names = true) as H by (by vm_compute).
    rewrite forallb_forall in H. by apply H, list_elem_of_In.
  - rewrite (H3 ltac:(lia)) in H1, H2. exact (conj H1 H2).
Defined.

Lemma schema_guarantees_witness : schema_ok one_sided.
Proof.
  apply (schema_guarantees one_sided). unfold one_sided, after_stmt.
  eapply rtc_r; [eapply rtc_r; [eapply rtc_r; [eapply rtc_r; [eapply rtc_r; [reflexivity|]|]|]|]|];
    by constructor.
Defined.
