(* ===== verification/Testdb.v ===== *)
(** * internal/testdb: the database the integration tests share

    The package opens and migrates the database of [DATABASE_URL] once per
    process, over [Startup]'s [OpenWithPool] and [Migrate], skips the tests when
    the variable is unset, and empties the tables between tests.  The package
    variables are a record that is passed along; [sync.Once] is its flag (tests
    that call in parallel wait for the first call). *)

From S2P Require Import Prelude GoRuntime Domain Database Spec GoDuration Handlers Config Startup.
From S2P Require Import Lifecycle.
#[local] Open Scope go_scope.

Definition envDatabaseURL : string := "DATABASE_URL".

Definition errNoDSN : error := ErrVar "testdb.errNoDSN" (envDatabaseURL +:+ " is not set").

(** The package variables. *)
Record vars : Type := mkVars {
  once : bool;          (** [once] has run *)
  sharedDB : bool;      (** not nil *)
  sharedDSN : string;
  sharedErr : option error
}.

Definition vars0 : vars := mkVars false false EmptyString None.

(** What a helper's caller sees: [Skipf] and [Fatalf] end the test. *)
Inductive ended (A : Type) : Type :=
| Got (a : A)
| Skipped (msg : string)
| Fataled (msg : string).
Arguments Got {A} a.
Arguments Skipped {A} msg.
Arguments Fataled {A} msg.

Inductive testE : Type -> Type :=
| Sys {X} (o : sysE X) : testE X
| ExecTruncate : testE (result unit).
  (** [TRUNCATE idempotency_records, ledger_entries, transfers, wallets
      RESTART IDENTITY CASCADE] *)

Definition test : Type -> Type := proc testE.

(** A call into [internal/db]. *)
Fixpoint lift {A} (p : sys A) : test A :=
  match p with
  | Ret a => Ret a
  | Panic v => Panic v
  | Vis o k => Vis (Sys o) (fun x => lift (k x))
  end.

Definition test_pool : PoolConfig := mkPoolConfig 25 5 (5 * Minute) (1 * Minute).

Definition set_dsn (dsn : string) (g : vars) : vars :=
  mkVars (once g) (sharedDB g) dsn (sharedErr g).

Definition skip_message : string :=
  "integration tests require " +:+ envDatabaseURL +:+ " (e.g. `make db-up && export " +:+
  envDatabaseURL +:+ "=postgres://...`); skipping".

Section testdb.
Context (X : externals) (env : environ).

Definition start (g : vars) : test (result unit * vars) :=
  let dsn := os_Getenv env envDatabaseURL in
  if String.eqb dsn EmptyString then Ret (Err errNoDSN, g)
  else
    let g := set_dsn dsn g in
    r ← lift (OpenWithPool dsn test_pool);
    match r with
    | Err err => Ret (Err (ErrWrap "open: " err), g)
    | Ok _ =>
        m ← lift Migrate;
        match m with
        | Err err => Ret (Err (ErrWrap "migrate: " err), g)
        | Ok _ => Ret (Ok tt, g)
        end
    end.

(** [once.Do(func() { sharedDB, sharedErr = start() })] *)
Definition once_Do (g : vars) : test vars :=
  if once g then Ret g
  else
    'r ← start g;
    Ret (match r with
         | (Ok _, g) => mkVars true true (sharedDSN g) None
         | (Err err, g) => mkVars true false (sharedDSN g) (Some err)
         end).

Definition open_message (err : error) : string :=
  "open postgres at " +:+ envDatabaseURL +:+ ": " +:+ Error X err.

Definition Get (g : vars) : test (ended unit * vars) :=
  g ← once_Do g;
  match sharedErr g with
  | Some err =>
      if same_error err errNoDSN then Ret (Skipped skip_message, g)
      else Ret (Fataled (open_message err), g)
  | None => Ret (Got tt, g)
  end.

Definition DSN (g : vars) : test (ended string * vars) :=
  'r ← Get g;
  Ret (match r with
       | (Got _, g) => (Got (sharedDSN g), g)
       | (Skipped m, g) => (Skipped m, g)
       | (Fataled m, g) => (Fataled m, g)
       end).

Definition Reset (g : vars) : test (ended unit * vars) :=
  'r ← Get g;
  match r with
  | (Got _, g) =>
      res ← perform ExecTruncate;
      match res with
      | Err err => Ret (Fataled ("reset db: " +:+ Error X err), g)
      | Ok _ => Ret (Got tt, g)
      end
  | _ => Ret r
  end.

(** ** Running them *)

(** The test process and the database behind its pool. *)
Record test_db : Type := mkTestDb {
  td_own : own;
  td_world : world;
  td_tables : tables;
  td_next : Z  (** of the sequence of [ledger_entries.id] *)
}.

(** A TRUNCATE that fails may have taken place. *)
Definition test_exec (d : decision) {A} (op : testE A) (td : test_db) : option (A * test_db) :=
  match op with
  | Sys o =>
      match sys_exec d o (td_own td) (td_world td) with
      | Some (x, ow, w) => Some (x, mkTestDb ow w (td_tables td) (td_next td))
      | None => None
      end
  | ExecTruncate =>
      let emptied := mkTestDb (td_own td) (td_world td) ∅ 1 in
      match dec_fault d with
      | None => Some (Ok tt, emptied)
      | Some e => Some (Err e, if dec_errch d then emptied else td)
      end
  end.

Fixpoint run_test {A} (ds : nat -> decision) (p : test A) (td : test_db)
  : option (outcome A * test_db) :=
  match p with
  | Ret a => Some (Returned a, td)
  | Panic v => Some (Panicked v, td)
  | Vis op k =>
      match test_exec (ds 0%nat) op td with
      | Some (x, td') => run_test (fun n => ds (S n)) (k x) td'
      | None => None
      end
  end.

(** A test calls a helper and then does what it likes with the tables. *)
Inductive helper : Type := CallGet | CallDSN | CallReset.

Record test_call : Type := mkCall {
  tc_helper : helper;
  tc_world : nat -> decision;
  tc_tables : tables;  (** what the test leaves *)
  tc_next : Z
}.

Definition call (h : helper) (g : vars) : test (ended string * vars) :=
  match h with
  | CallDSN => DSN g
  | CallGet | CallReset =>
      'r ← (match h with CallReset => Reset g | _ => Get g end);
      Ret (match r with
           | (Got _, g) => (Got EmptyString, g)
           | (Skipped m, g) => (Skipped m, g)
           | (Fataled m, g) => (Fataled m, g)
           end)
  end.

(** The tests of a process, one after the other: what each helper gave, and the
    database it left. *)
Fixpoint run_suite (l : list test_call) (g : vars) (td : test_db)
  : option (list (ended string * test_db) * vars * test_db) :=
  match l with
  | [] => Some ([], g, td)
  | c :: l =>
      match run_test (tc_world c) (call (tc_helper c) g) td with
      | Some (Returned (o, g'), td') =>
          match run_suite l g' (mkTestDb (td_own td') (td_world td') (tc_tables c) (tc_next c)) with
          | Some (outs, g'', td'') => Some ((o, td') :: outs, g'', td'')
          | None => None
          end
      | _ => None
      end
  end.

(** ** What the helpers give *)

(** Every run returns, with [Q]. *)
Fixpoint always_returns {A} (p : test A) (td : test_db) (Q : A -> test_db -> Prop) : Prop :=
  match p with
  | Ret a => Q a td
  | Panic _ => False
  | Vis op k => forall d, match test_exec d op td with
                          | Some (x, td') => always_returns (k x) td' Q
                          | None => False
                          end
  end.

Lemma always_returns_run {A} (p : test A) td Q ds :
  always_returns p td Q -> exists a td', run_test ds p td = Some (Returned a, td') /\ Q a td'.
Proof.
  revert ds td. induction p as [a|v|Y op k IH]; intros ds td H; [by exists a, td|done|].
  cbn [run_test]. specialize (H (ds 0%nat)). destruct (test_exec _ op td) as [[x td']|]; [|done].
  by apply IH.
Qed.

Lemma always_returns_bind {A B} (f : A -> test B) (p : test A) td Q :
  always_returns p td (fun a td' => always_returns (f a) td' Q) -> always_returns (proc_bind f p) td Q.
Proof.
  revert td. induction p as [a|v|Y op k IH]; intros td H; [done|done|].
  intros d. specialize (H d). destruct (test_exec d op td) as [[x td']|]; [|done]. by apply IH.
Qed.

Lemma always_returns_mono {A} (p : test A) td (Q Q' : A -> test_db -> Prop) :
  always_returns p td Q -> (forall a td', Q a td' -> Q' a td') -> always_returns p td Q'.
Proof.
  revert td. induction p as [a|v|Y op k IH]; intros td H HQ; [by apply HQ|done|].
  intros d. specialize (H d). destruct (test_exec d op td) as [[x td']|]; [|done]. by apply IH.
Qed.

Definition same_rows (td td' : test_db) : Prop :=
  td_tables td' = td_tables td /\ td_next td' = td_next td.

Lemma OpenWithPool_returns dsn td :
  always_returns (lift (OpenWithPool dsn test_pool)) td (fun r td' => same_rows td td' /\
    match r with
    | Ok _ => own_db (td_own td') = Opened /\ own_pool (td_own td') = test_pool
    | Err _ => True
    end).
Proof.
  assert (forall n op, (0 <? n) = true -> set_if n op = perform (op n)) as Hset
    by (intros n op Hn%Z.ltb_lt; unfold set_if; by rewrite decide_True).
  unfold OpenWithPool, test_pool, check. cbn [MaxOpenConns MaxIdleConns ConnMaxLifetime ConnMaxIdleTime].
  rewrite !Hset by done. cbn. intros d. unfold outcome_of. destruct (dec_fault d); [done|]. cbn.
  intros _ _ _ _ d'. unfold outcome_of. by destruct (dec_fault d').
Qed.

Lemma Migrate_returns td :
  always_returns (lift Migrate) td (fun r td' => same_rows td td' /\
    own_db (td_own td') = own_db (td_own td) /\ own_pool (td_own td') = own_pool (td_own td) /\
    match r with Ok _ => own_migrated (td_own td') = true | Err _ => True end).
Proof.
  unfold Migrate, check. cbn.
  intros d1. unfold outcome_of. destruct (dec_fault d1); cbn; [done|].
  intros d2. unfold outcome_of. destruct (dec_fault d2); cbn; [done|].
  intros d3. unfold outcome_of. destruct (dec_fault d3); cbn; [done|].
  intros d4. unfold outcome_of. destruct (dec_fault d4) as [e|]; cbn; [|done].
  by destruct (same_error e ErrNoChange).
Qed.

(** The package variables after [once], and the pool behind them. *)
Definition opened (g : vars) (o : own) : Prop :=
  once g = true /\
  match sharedErr g with
  | None => os_Getenv env envDatabaseURL <> EmptyString /\ sharedDB g = true /\
      sharedDSN g = os_Getenv env envDatabaseURL /\
      own_db o = Opened /\ own_pool o = test_pool /\ own_migrated o = true
  | Some e =>
      sharedDB g = false /\
      if String.eqb (os_Getenv env envDatabaseURL) EmptyString then e = errNoDSN /\ o = own0
      else exists e', e = ErrWrap "open: " e' \/ e = ErrWrap "migrate: " e'
  end.

Lemma once_Do_returns g td :
  (once g = false /\ td_own td = own0) \/ opened g (td_own td) ->
  always_returns (once_Do g) td (fun g' td' => same_rows td td' /\ opened g' (td_own td') /\
    (once g = true -> g' = g /\ td' = td)).
Proof.
  intros [[H0 Hown]|Hop]; [|by destruct Hop as [H1 H2]; unfold once_Do; rewrite H1].
  unfold once_Do. rewrite H0. apply always_returns_bind. unfold start.
  destruct (String.eqb_spec (os_Getenv env envDatabaseURL) EmptyString) as [Hs|Hs].
  - split; [done|]. split; [|done]. split; [done|]. cbn [sharedErr sharedDB].
    split; [done|]. by rewrite Hs.
  - assert (String.eqb (os_Getenv env envDatabaseURL) EmptyString = false) as Hb
      by (by apply String.eqb_neq).
    apply always_returns_bind. eapply always_returns_mono; [apply OpenWithPool_returns|].
    intros [u|e] td1 [Hrows H1].
    + apply always_returns_bind. eapply always_returns_mono; [apply Migrate_returns|].
      intros [u2|e] td2 ([Hr1 Hr2] & Hd & Hp & H2); cbn; (split; [destruct Hrows; split; congruence|]);
        (split; [|done]); (split; [done|]); cbn [sharedErr sharedDB sharedDSN].
      * destruct H1. split_and!; try done; congruence.
      * rewrite Hb. split; [done|]. exists e. by right.
    + cbn. split; [done|]. split; [|done]. split; [done|]. cbn [sharedErr sharedDB]. rewrite Hb.
      split; [done|]. exists e. by left.
Qed.

(** What a helper gives once the package is settled. *)
Definition fits (g : vars) (h : helper) (x : ended string * test_db) : Prop :=
  match sharedErr g with
  | Some e => x.1 = if same_error e errNoDSN then Skipped skip_message else Fataled (open_message e)
  | None =>
      match h with
      | CallGet => x.1 = Got EmptyString
      | CallDSN => x.1 = Got (os_Getenv env envDatabaseURL)
      | CallReset =>
          (x.1 = Got EmptyString /\ td_tables x.2 = ∅ /\ td_next x.2 = 1) \/
          exists e, x.1 = Fataled ("reset db: " +:+ Error X e)
      end
  end.

Lemma Get_returns g td :
  (once g = false /\ td_own td = own0) \/ opened g (td_own td) ->
  always_returns (Get g) td (fun r td' => same_rows td td' /\ opened r.2 (td_own td') /\
    (once g = true -> r.2 = g /\ td_own td' = td_own td) /\
    r.1 = match sharedErr r.2 with
          | Some e => if same_error e errNoDSN then Skipped skip_message else Fataled (open_message e)
          | None => Got tt
          end).
Proof.
  intros H. unfold Get. apply always_returns_bind.
  eapply always_returns_mono; [by apply once_Do_returns|]. intros g' td' (Hr & Ho & Hsame).
  assert (once g = true -> g' = g /\ td_own td' = td_own td) as Hs by (by intros [-> ->]%Hsame).
  destruct (sharedErr g') as [e|] eqn:E; [destruct (same_error e errNoDSN) eqn:Es|]; cbn;
    rewrite ?E, ?Es; done.
Qed.

Lemma call_returns h g td :
  (once g = false /\ td_own td = own0) \/ opened g (td_own td) ->
  always_returns (call h g) td (fun r td' => opened r.2 (td_own td') /\
    (once g = true -> r.2 = g /\ td_own td' = td_own td) /\ fits r.2 h (r.1, td')).
Proof.
  intros H. unfold fits. destruct h; cbn [call]; unfold DSN, Reset; apply always_returns_bind.
  - eapply always_returns_mono; [by apply Get_returns|]. intros [o g'] td' (_ & Ho & Hs & Ho').
    cbn [fst snd] in *. destruct (sharedErr g') as [e|] eqn:E; [destruct (same_error e errNoDSN) eqn:Es|];
      subst o; cbn; rewrite ?E, ?Es; done.
  - eapply always_returns_mono; [by apply Get_returns|]. intros [o g'] td' (_ & Ho & Hs & Ho').
    cbn [fst snd] in *. destruct (sharedErr g') as [e|] eqn:E; [destruct (same_error e errNoDSN) eqn:Es|];
      subst o; cbn; rewrite ?E, ?Es; try done.
    destruct Ho as [Ho1 Ho2]. pose proof Ho2 as Ho3. rewrite E in Ho3.
    split_and!; [by split|done|]. f_equal. apply Ho3.
  - apply always_returns_bind. eapply always_returns_mono; [by apply Get_returns|].
    intros [o g'] td' (_ & Ho & Hs & Ho'). cbn [fst snd] in *.
    destruct (sharedErr g') as [e|] eqn:E; [destruct (same_error e errNoDSN) eqn:Es|]; subst o.
    + cbn. by rewrite ?E, ?Es.
    + cbn. by rewrite ?E, ?Es.
    + intros d. cbn [test_exec]. destruct (dec_fault d) as [e|]; cbn; rewrite ?E.
      * destruct (dec_errch d); (split_and!; [done|done|]); right; by exists e.
      * split_and!; [done|done|]. by left.
Qed.

(** From the second call on nothing is opened any more. *)
Lemma settled_suite l g td :
  opened g (td_own td) ->
  exists outs td', run_suite l g td = Some (outs, g, td') /\
    td_own td' = td_own td /\ Forall (fun x => td_own x.2 = td_own td) outs /\
    Forall2 (fits g) (map tc_helper l) outs.
Proof.
  revert td. induction l as [|c l IH]; intros td H; [by exists [], td|].
  destruct (always_returns_run _ _ _ (tc_world c)
    (call_returns (tc_helper c) g td (or_intror H))) as ([o g'] & td1 & Hr & Ho & Hsame & Hf).
  destruct (Hsame (proj1 H)) as [Eg Eo]. cbn [fst snd] in *. subst g'.
  destruct (IH (mkTestDb (td_own td1) (td_world td1) (tc_tables c) (tc_next c))) as
    (outs & td2 & Hr2 & Eo2 & Hall & Hfits); [done|]. cbn [td_own] in *.
  exists ((o, td1) :: outs), td2. cbn [run_suite map]. rewrite Hr, Hr2.
  split_and!; [done|congruence| |by constructor]. constructor; [done|].
  eapply Forall_impl; [exact Hall|]. intros x Hx. cbn in Hx. congruence.
Qed.

(** C40: the tests share one database.  In any sequence of tests every helper
    returns or ends its test, and what the first call settled stands.  With
    [DATABASE_URL] unset every test is skipped and nothing is ever opened.
    Otherwise either opening or migrating failed and every test fails with that
    error; or the one pool is open, bounded and migrated, [DSN] gives the
    variable, and after each [Reset] the tables are empty and the sequence
    starts again, whatever the tests before have left.  After the first call
    nothing is opened, bounded or migrated again. *)
Theorem tests_share_one_database l td :
  l <> [] -> td_own td = own0 ->
  exists outs g td', run_suite l vars0 td = Some (outs, g, td') /\ opened g (td_own td') /\
    Forall2 (fits g) (map tc_helper l) outs /\
    Forall (fun x => td_own x.2 = td_own td') outs /\
    (os_Getenv env envDatabaseURL = EmptyString ->
     Forall (fun x => x.1 = Skipped skip_message) outs /\ td_own td' = own0).
Proof.
  intros Hl Ho. destruct l as [|c l]; [done|].
  destruct (always_returns_run _ _ _ (tc_world c)
    (call_returns (tc_helper c) vars0 td (or_introl (conj eq_refl Ho))))
    as ([o g] & td1 & Hr & Hop & _ & Hf). cbn [fst snd] in *.
  destruct (settled_suite l g (mkTestDb (td_own td1) (td_world td1) (tc_tables c) (tc_next c)) Hop)
    as (outs & td2 & Hr2 & Eo & Hall & Hfits). cbn [td_own] in *.
  assert (Forall2 (fits g) (map tc_helper (c :: l)) ((o, td1) :: outs)) as Hf2 by (by constructor).
  exists ((o, td1) :: outs), g, td2. split_and!.
  - cbn [run_suite]. by rewrite Hr, Hr2.
  - by rewrite Eo.
  - done.
  - constructor; [done|]. by rewrite Eo.
  - intros Hs. destruct Hop as [_ Hop]. destruct (sharedErr g) as [e|] eqn:E; [|by destruct Hop].
    rewrite Hs in Hop. cbn in Hop. destruct Hop as (_ & -> & Hown). split; [|congruence].
    apply Forall_forall. intros x Hx. apply list_elem_of_lookup in Hx as [i Hi].
    destruct (Forall2_lookup_r _ _ _ _ _ Hf2 Hi) as (h & _ & Hh). unfold fits in Hh.
    rewrite E in Hh. rewrite Hh. done.
Qed.
End testdb.

(** ** A suite *)

Definition test_env : environ := {["DATABASE_URL" := "postgres://localhost/wallet"]}.

Definition nothing_fails (n : nat) : decision := mkDecision None false 0.

(** A test that leaves a wallet, then one that resets. *)
Definition two_tests : list test_call :=
  [mkCall CallGet nothing_fails (put_wallet (mkWallet "w" 5 1 1) ∪ ∅) 8;
   mkCall CallReset nothing_fails ∅ 1; mkCall CallDSN nothing_fails ∅ 1].

Definition fresh_process : test_db := mkTestDb own0 world0 ∅ 1.

Definition no_texts : externals :=
  mkExternals (fun _ => EmptyString) (fun _ => None) (fun _ c => c) (fun s => s) EmptyString
    (fun p _ => p) (fun p _ => p).

Lemma tests_share_one_database_witness :
  exists outs g td', run_suite no_texts test_env two_tests vars0 fresh_process = Some (outs, g, td') /\
    sharedErr g = None /\ (fst <$> outs !! 2%nat) = Some (Got "postgres://localhost/wallet").
Proof.
  destruct (tests_share_one_database no_texts test_env two_tests fresh_process ltac:(done) eq_refl)
    as (outs & g & td' & Hr & _ & Hf & _).
  exists outs, g, td'. split; [exact Hr|].
  assert ((fun r => sharedErr r.1.2) <$>
    run_suite no_texts test_env two_tests vars0 fresh_process = Some None) as E by (by vm_compute).
  rewrite Hr in E. cbn in E. assert (sharedErr g = None) as Eg by congruence. split; [exact Eg|].
  destruct (Forall2_lookup_l _ _ _ 2 CallDSN Hf eq_refl) as (x & -> & Hx).
  unfold fits in Hx. rewrite Eg in Hx. cbn. rewrite Hx. by vm_compute.
Defined.
