(* ===== verification/Metrics.v ===== *)
(** * internal/metrics: the collectors and their registry

    The four vectors of the package and the [init] that registers them.  The
    registry is client_golang's: a [Class] with the laws it documents (a
    collector is refused when one of its names is taken; [MustRegister] panics
    then).  How often each label is counted is [Machine]'s and [Router]'s. *)

From S2P Require Import Prelude GoRuntime.

Inductive vec_kind : Type := CounterVec | HistogramVec.

Record vec : Type := mkVec {
  vec_type : vec_kind;
  vec_name : string;
  vec_help : string;
  vec_labels : list string
}.

Definition TransfersTotal : vec :=
  mkVec CounterVec "wallet_transfers_total"
    "Total number of completed transfer operations by terminal state." ["state"].

Definition TransferDuration : vec :=
  mkVec HistogramVec "wallet_transfer_duration_seconds"
    "End-to-end transfer processing duration in seconds, labelled by terminal state." ["state"].

Definition HTTPRequestsTotal : vec :=
  mkVec CounterVec "wallet_http_requests_total"
    "Total HTTP requests, labelled by method, route pattern, and status code."
    ["method"; "route"; "status"].

Definition HTTPRequestDuration : vec :=
  mkVec HistogramVec "wallet_http_request_duration_seconds"
    "HTTP request duration in seconds, labelled by method and route pattern." ["method"; "route"].

(** What is registered: a vector of the package, or one of the two standard
    collectors with the names it describes. *)
Inductive collector : Type :=
| Vec (v : vec)
| ProcessCollector (names : list string)
| GoCollector (names : list string).

Definition describes (c : collector) : list string :=
  match c with Vec v => [vec_name v] | ProcessCollector l | GoCollector l => l end.

Class Registry : Type := mkRegistry {
  registry : Type;
  NewRegistry : registry;
  Register : collector -> registry -> option registry;
  registered : registry -> list string;  (** the names it gathers *)
  registered_new : registered NewRegistry = [];
  Register_fresh : forall c r,
    (forall n, n ∈ describes c -> n ∉ registered r) ->
    exists r', Register c r = Some r' /\ registered r' = registered r ++ describes c;
  Register_taken : forall c r n,
    n ∈ describes c -> n ∈ registered r -> Register c r = None
}.

Definition own_names : list string :=
  map vec_name [TransfersTotal; TransferDuration; HTTPRequestsTotal; HTTPRequestDuration].

Section init.
Context `{R : Registry}.

(** [None]: the panic of [MustRegister]. *)
Fixpoint MustRegister (cs : list collector) (r : registry) : option registry :=
  match cs with
  | [] => Some r
  | c :: cs => match Register c r with Some r' => MustRegister cs r' | None => None end
  end.

Definition collectors (process go : list string) : list collector :=
  [Vec TransfersTotal; Vec TransferDuration; Vec HTTPRequestsTotal; Vec HTTPRequestDuration;
   ProcessCollector process; GoCollector go].

(** [func init()] *)
Definition init (process go : list string) : option registry :=
  MustRegister (collectors process go) NewRegistry.

Lemma MustRegister_fresh cs r :
  NoDup (registered r ++ concat (map describes cs)) ->
  exists r', MustRegister cs r = Some r' /\ registered r' = registered r ++ concat (map describes cs).
Proof.
  revert r. induction cs as [|c cs IH]; intros r Hnd.
  - exists r. cbn. by rewrite app_nil_r.
  - cbn [map concat] in *. rewrite app_assoc in Hnd.
    destruct (Register_fresh c r) as (r1 & Hr & E).
    { intros n Hn Hr. apply NoDup_app in Hnd as (Hnd & _). apply NoDup_app in Hnd as (_ & Hd & _).
      exact (Hd n Hr Hn). }
    destruct (IH r1) as (r2 & Hm & E2); [by rewrite E|].
    exists r2. cbn [MustRegister]. rewrite Hr. split; [done|]. by rewrite E2, E, app_assoc.
Qed.

(** The standard collectors describe names of their own: [process_...] and
    [go_...]. *)
Definition standard (process go : list string) : Prop :=
  NoDup (process ++ go) /\ forall n, n ∈ process ++ go -> String.prefix "wallet_" n = false.

(** The process does not panic in [init], and everything it counts can be
    gathered; a second registration would panic, as the package comment says of
    the default registry. *)
Lemma init_registers process go :
  standard process go ->
  exists r, init process go = Some r /\
    registered r = own_names ++ process ++ go /\
    MustRegister (collectors process go) r = None.
Proof.
  intros [Hnd Hp]. destruct (MustRegister_fresh (collectors process go) NewRegistry) as (r & Hr & E).
  - rewrite registered_new. cbn [collectors map concat describes app]. rewrite app_nil_r.
    change (NoDup (own_names ++ process ++ go)). apply NoDup_app. split; [|split; [|done]].
    + apply (bool_decide_unpack _). by vm_compute.
    + intros n Hn Hin. specialize (Hp n Hin).
      assert (Forall (fun n => String.prefix "wallet_" n = true) own_names) as H
        by (by repeat constructor).
      rewrite Forall_forall in H. specialize (H n Hn). congruence.
  - exists r. split; [done|]. rewrite registered_new in E. cbn in E. rewrite app_nil_r in E.
    split; [exact E|]. cbn [MustRegister collectors].
    by rewrite (Register_taken _ r (vec_name TransfersTotal)) by (rewrite ?E; cbn; set_solver).
Qed.
End init.

(** ** A registry with the laws *)

Definition name_taken (l : list string) (c : collector) : bool :=
  existsb (fun n => bool_decide (n ∈ l)) (describes c).

#[refine] Definition names_registry : Registry := {|
  registry := list string;
  NewRegistry := [];
  Register c l := if name_taken l c then None else Some (l ++ describes c);
  registered l := l
|}.
Proof.
  - done.
  - intros c l H. exists (l ++ describes c). split; [|done].
    assert (name_taken l c = false) as ->; [|done]. apply not_true_iff_false.
    unfold name_taken. rewrite existsb_exists. intros (n & Hn & Ht%bool_decide_eq_true).
    exact (H n (proj2 (list_elem_of_In _ _) Hn) Ht).
  - intros c l n Hn Hl. assert (name_taken l c = true) as ->; [|done].
    unfold name_taken. rewrite existsb_exists. exists n. split; [by apply list_elem_of_In|].
    by apply bool_decide_eq_true.
Defined.

(** Some of the names the two standard collectors describe. *)
Example init_twice :
  match init (R := names_registry) ["process_open_fds"; "process_max_fds"] ["go_goroutines"; "go_info"]
  with
  | Some r => MustRegister (R := names_registry) [Vec TransfersTotal] r = None
  | None => False
  end.
Proof. by vm_compute. Qed.
